(* ===== verification/_CoqProject ===== *)
-Q . S2P
Prelude.v
RustStr.v
RustPath.v
Config.v
Event.v
Matching.v
Engine.v
Resolution.v
EngineRun.v
Fixtures.v
EngineProps.v
EngineFire.v
EngineSafety.v
Validation.v
ValidationSpec.v
Hotkey.v
ConfigFixtures.v
Requirements.v
Effects.v
Json.v
AuditBytes.v
AuditStore.v
AuditFrame.v
AuditFixtures.v
AuditProps.v
Utf8.v
Text.v
Host.v
Command.v
Vault.v
Evidence.v
Actions.v
ActionsProps.v
Ipc.v
ConfigLoader.v
HostFixtures.v
Setup.v
SetupProps.v
Order.v
Filesystem.v
Probes.v
ProbesProps.v
Polling.v
PollingProps.v
Monitor.v
PollingFailures.v
PollingFixtures.v
SensorHub.v
Runtime.v
Server.v
Cli.v
ServerProps.v
CliProps.v
RuntimeProps.v
RuntimeSafety.v
RuntimeRestart.v
NoPanic.v
Integration.v
Startup.v
Accepted.v
RuntimeFixtures.v
ServedFixtures.v
