(* ===== verification/Prelude.v ===== *)
(** * Kovert: a verification library for the Kovert host-security daemon

    Kovert is a Linux daemon that watches a machine through sensors, evaluates
    rules on the events they report, and carries out the actions of the rules
    that fire: locking vaults, isolating the network, signalling processes,
    running approved programs. Everything it sees and does is recorded in a
    hash-chained log. This library models the program as executable functions
    and proves what makes it safe to run with root's rights.

    ** The program and its model

    An [Event] comes from a sensor or a control request. The runtime appends it
    to the audit store, gives it to the policy engine, which returns the plans
    of the rules that fire, and executes each plan: unless the ledger of the
    store says that it was completed, it is recorded as started, executed on
    the host, and its outcome recorded. A mode or isolation effect of an action
    changes the engine and the store. A reload replaces rules, executor and
    sensors by those of a newly validated configuration. The polling task
    probes the machine cycle after cycle and reports what changed; connections
    of the control socket pass their requests to the runtime through a bounded
    channel; the client sends such requests.

    Shared notions:
    - [Prelude]: results and the [?] operator, options, machine integers,
      list lemmas, tactics and hints;
    - [RustStr], [Utf8], [RustPath], [Text], [Order]: strings as byte sequences,
      number parsing and lossy decoding, paths by components, lines, words and
      replacement, and the order in which sorted collections are iterated, as
      the standard library has them;
    - [Effects]: the monad of stateful code that may return an error or panic,
      with the relation [respects] by which state invariants are proved
      compositionally, and recorded calls to the outside; [Json]: JSON values.

    [kovert-core]:
    - [Config] ([config.rs]), [Event] ([event.rs]), [Ipc] ([ipc.rs]): the data,
      the snapshot and its update;
    - [Matching] and [Engine] ([engine.rs]): trigger and condition matching,
      sequences, cooldown, sustaining, conflicts, sensor failures, recovery
      mode, reload. An index out of range is the result [None], a panic;
    - [Validation] ([validation.rs]).

    [kovert-sensors]:
    - [Requirements] ([requirements.rs]): which sensors the rules need;
    - [Hotkey] ([hotkey.rs]): key codes and the matching of key sequences;
    - [Filesystem] ([filesystem.rs]): the start of the watcher and its callback;
    - [Probes] and [Polling] ([polling.rs]): the probes with their parsers on a
      [Machine] that answers during one cycle, the state between cycles, the
      cycle as a composition of parts that push reports, and the task;
    - [SensorHub] ([lib.rs]): starting all sensors.

    [kovert-actions]:
    - [Host]: the operating system as a history of calls, answered as a
      function of that history, so that an answer may change between two calls;
    - [Command] ([command.rs]), [Vault] ([vault.rs]), [Evidence]
      ([evidence.rs]), [Actions] ([lib.rs]).

    [kovert-daemon]:
    - [AuditBytes] and [AuditStore] ([audit.rs]): the digest of a record, and the
      store as SQL tables on which any statement may fail;
    - [ConfigLoader] ([config_loader.rs]);
    - [Setup] ([audit.rs], [server.rs]): opening the database and the socket,
      with the checks and permissions;
    - [Runtime] ([runtime.rs]): the state of the daemon and its operations;
      [run] is the loop on the sequence of inputs that arrive;
    - [Server] ([server.rs] and the loop of [runtime.rs]): connections,
      channels and runtime as a transition system with labelled steps;
    - [Startup] ([main.rs]): from the arguments to the running tasks, and the
      end.

    [kovert-cli]:
    - [Cli] ([main.rs]): commands, exchange, validation and the shell.

    ** What is proved

    - The engine ([EngineRun], [EngineFire], [EngineProps], [EngineSafety],
      [Resolution]): over all runs, rules fire only for a reason that holds, or
      as their policy on the failure of a sensor allows, respect cooldown and
      once-per-boot, sequences are recognised, conflicts are resolved by
      priority, recovery mode disarms and silences the rules, and no event
      panics as long as reloads keep existing rules as they are.
    - Validation ([ValidationSpec]): it accepts exactly the configurations of a
      declarative specification; [Accepted] and [Integration] show what that is
      worth: the executor's checks pass, hotkeys start, the daemon does not
      panic.
    - Sensors: the requirements are the least that cover the rules, enough for
      every condition, and for every trigger as long as no two file triggers
      disagree about the recursion of a path; the bounded buffer of the hotkey
      task is exact.
    - Polling ([ProbesProps], [PollingProps], [Monitor], [PollingFailures]): the
      parsers against the formats of the kernel (any spacing of the socket
      tables, the escapes of [mountinfo]) and of nmcli; each part of a cycle is
      a triple over the part of the snapshot that polling keeps, so that after
      every cycle conditions are decided on the machine as the probes found it,
      through lost cycles and restarts of the task too, except for mounts a
      restarted task never saw; failures are reported when they begin, those of
      integrity monitoring in every cycle, and an unchanged machine is silent.
    - Actions ([ActionsProps]): every host call of an action is one the action
      stands for (locking commands only for a lock, unlocking ones only for an
      unlock, evidence only in one new file of the destination), approved
      programs are verified before they are started, signals only reach
      processes of the given name, output is bounded, and capturing evidence
      panics exactly on a modification time that [chrono] cannot represent.
    - The audit store ([AuditProps], with the frame lemmas of [AuditFrame]):
      [verify] accepts exactly the hash chains, verified logs with the same
      head agree unless their own records show a collision, [append] keeps the chain through retention and every failure,
      and what is appended is read back.
    - The daemon ([RuntimeProps], [RuntimeSafety], [RuntimeRestart], [NoPanic],
      [Integration]): whole runs keep the log intact, never repeat a completed
      action, act only within the rules and allowlists, record before they
      act, do nothing on the host in dry-run mode, and keep recovery mode and
      mode across a restart.
    - The start ([SetupProps], [Startup]): a logic of guarded calls shows that
      nothing is opened, bound or removed before the checks that protect it;
      a daemon that started does not panic, as long as the modification times
      of captured files are representable, and keeps its verified log intact
      while it serves.
    - The served daemon ([ServerProps]): every interleaving refines a sequential
      run of the runtime, resources stay bounded, each response answers the
      request of its own connection, internal steps come to an end, and then
      every request is answered.
    - The client ([CliProps]): it gets the daemon's answer to its own request,
      the shell reads every command as the arguments do, and validation agrees
      with the daemon's loader.

    Some theorems state where the program falls short of its purpose: a reload
    that shortens a sequence in progress makes the next event panic; a
    recursive watch can be downgraded by another rule; a sequence nested in
    another trigger is accepted and never matches; removing the newest
    records, or changing columns the digest does not cover, passes
    verification; a sensor that recovers with its old value stays unhealthy in
    the snapshot; a polling task that is started anew leaves stale mounts
    there; a mount point with unescaped white space is cut, a hash in a mount's
    source stays escaped and an empty source is read as options; the
    modification time of a captured file can make the daemon panic; a mode
    change whose write fails is in force and not stored; a missing argument
    ends the shell.

    ** Inputs of the theorems

    [Fixtures], [ConfigFixtures], [AuditFixtures], [HostFixtures],
    [PollingFixtures], [RuntimeFixtures] and [ServedFixtures] hold a concrete
    configuration, host, machine, database and client, on which the daemon runs
    by computation and the theorems are instantiated.

    ** Parameters and bounds

    Code outside the repository is a type class of answers: time zones, time
    parsing and the existence of paths ([EngineEnv]), [regex] ([Regex]),
    [toml] ([Toml]), [serde_json] ([SerdeJson], and the derived serializers in
    [RuntimeEnv]), BLAKE3 ([Blake3]), SQLite's failures and clock ([DbEnv]),
    the kernel ([Host], [WatchHost], [SensorHost], [ConfigFiles], [Machine],
    [SetupHost]), SHA-256 and text forms ([ActionText], [EvidenceText]), the
    messages of the socket ([IpcSerde]) and the client's surroundings
    ([CliEnv]). A theorem that needs more of one of them says so:
    [modification_times_ok], for one, that the times [Host] answers are in the
    range of [chrono], whose conversion panics otherwise. The system clock
    itself is in that range on Linux, where it is set to times of 1970 to 2262.

    Recursion is structural, on the data the source iterates over. The
    string functions that drop a varying number of bytes per round have the
    length of the string as fuel, and each round drops at least one byte.
    Integers are [Z] with the bounds and conversions of their type written out
    where the source can leave them.

    ** Not modelled

    Argument parsing by [clap], logging, and the passing of real time: the
    polling interval, the timeouts of connections and the client, whose effects
    are steps and answers that may happen at any point. An error is the message
    of its outermost context. The runtime handles an input in one step of the
    transition system: it is owned by one task, and sensors and connections
    only reach it through channels. The shutdown signal ends the sequence of
    steps; the [Drop] of a connection stands for its timeout, an I/O error or
    the shutdown. A permit of the server is moved into the task of its
    connection, so that the connections count the permits in use. A child
    process is an answer of the host with its output and its end: that writing
    its input or reading its last output blocks is not modelled. The client's
    standard output accepts what is written. *)

From stdpp Require Import base tactics option list gmap strings sorting.
From Stdlib Require Import ZArith Lia Sorting.Permutation.

(** ** Errors

    [anyhow::Result] of the source: a value, or an error carrying its
    rendered message. *)
Inductive Result (A : Type) : Type :=
| Ok (a : A)
| Err (message : string).
Arguments Ok {_} _.
Arguments Err {_} _.

Declare Scope kovert_scope.
Delimit Scope kovert_scope with kovert.

Definition result_bind {A B} (m : Result A) (k : A -> Result B) : Result B :=
  match m with
  | Ok a => k a
  | Err e => Err e
  end.

(** The [?] operator of the source: [let? x := m in k]. *)
Notation "'let?' x ':=' m 'in' k" := (result_bind m (fun x => k))
  (at level 10, x pattern, m at level 100, k at level 200)
  : kovert_scope.

Definition is_ok {A} (r : Result A) : bool :=
  match r with Ok _ => true | Err _ => false end.

(** [.context(message)] and [.with_context(...)], of which the outermost message
    is what [to_string] shows. *)
Definition with_message {A} (r : Result A) (message : string) : Result A :=
  match r with Ok a => Ok a | Err _ => Err message end.

(** [bail!] guarded by a condition. *)
Definition ensure (b : bool) (message : string) : Result unit :=
  if b then Ok tt else Err message.

(** [Option::ok_or_else] / [Context::context] on an option. *)
Definition ok_or {A} (o : option A) (message : string) : Result A :=
  match o with Some a => Ok a | None => Err message end.

(** ** Options

    [Option::is_none_or], [Option::is_some_and] and [Option::or_else]. *)
Definition is_none_or {A} (o : option A) (p : A -> bool) : bool :=
  match o with None => true | Some a => p a end.

Definition is_some_and {A} (o : option A) (p : A -> bool) : bool :=
  match o with None => false | Some a => p a end.

(** [a == b] at a type with decidable equality. *)
Definition eqb {A} `{EqDecision A} (a b : A) : bool := bool_decide (a = b).

(** [Vec::contains] / [slice::contains]. *)
Definition list_contains {A} `{EqDecision A} (l : list A) (x : A) : bool :=
  existsb (eqb x) l.
Arguments list_contains : simpl never.

(** ** Machine integers kept at their width *)
Definition wrap_unsigned (w z : Z) : Z := z `mod` 2 ^ w.

(** [as i64]: two's-complement reinterpretation. *)
Definition as_i64 (z : Z) : Z :=
  let m := wrap_unsigned 64 z in
  if (m <? 2 ^ 63)%Z then m else (m - 2 ^ 64)%Z.

(** ** Stable sorting

    [slice::sort_by] is a stable sort; its result is determined by the
    comparison, so insertion sort is a reference definition of it. *)
Section sort_by.
Context {A : Type} (leb : A -> A -> bool).

Fixpoint insert_by (x : A) (l : list A) : list A :=
  match l with
  | [] => [x]
  | y :: l' => if leb x y then x :: l else y :: insert_by x l'
  end.

Definition sort_by (l : list A) : list A := foldr insert_by [] l.

Lemma insert_by_Permutation x l : insert_by x l ≡ₚ x :: l.
Proof.
  induction l as [|y l IH]; simpl; [done|].
  destruct (leb x y); [done|]. rewrite IH. apply Permutation_swap.
Qed.

Lemma sort_by_Permutation l : sort_by l ≡ₚ l.
Proof.
  induction l as [|x l IH]; simpl; [done|].
  by rewrite insert_by_Permutation, IH.
Qed.

Lemma elem_of_sort_by x l : x ∈ sort_by l ↔ x ∈ l.
Proof. by rewrite sort_by_Permutation. Qed.

Context (leb_total : forall x y, leb x y = true \/ leb y x = true).
Context (leb_trans : forall x y z, leb x y = true -> leb y z = true -> leb x z = true).

Lemma insert_by_StronglySorted x l :
  StronglySorted (fun a b => leb a b = true) l ->
  StronglySorted (fun a b => leb a b = true) (insert_by x l).
Proof using leb_total leb_trans.
  induction 1 as [|y l Hs IH Hy]; simpl; [by repeat constructor|].
  destruct (leb x y) eqn:Hxy.
  - constructor; [by constructor|]. constructor; [done|].
    eapply Forall_impl; [exact Hy|]. intros z Hz. by eapply leb_trans.
  - constructor; [done|]. rewrite insert_by_Permutation. constructor; [|done].
    destruct (leb_total x y); congruence.
Qed.

Lemma sort_by_StronglySorted l :
  StronglySorted (fun a b => leb a b = true) (sort_by l).
Proof using leb_total leb_trans.
  induction l as [|x l IH]; simpl; [constructor|]. by apply insert_by_StronglySorted.
Qed.

(** Stability: elements that the comparison cannot tell apart (the class of
    [z]) keep their relative order. *)
Lemma insert_by_stable z x l :
  filter (fun a => leb z a && leb a z) (insert_by x l)
  = filter (fun a => leb z a && leb a z) (x :: l).
Proof using leb_trans.
  induction l as [|y l IH]; simpl; [done|].
  destruct (leb x y) eqn:Hxy; [done|].
  rewrite !filter_cons in *. rewrite IH. clear IH.
  repeat case_decide; try done.
  exfalso. destruct (leb z x) eqn:?, (leb x z) eqn:?, (leb z y) eqn:?, (leb y z) eqn:?;
    try done. assert (leb x y = true) by eauto. congruence.
Qed.

Lemma sort_by_stable z l :
  filter (fun a => leb z a && leb a z) (sort_by l)
  = filter (fun a => leb z a && leb a z) l.
Proof using leb_trans.
  induction l as [|x l IH]; simpl; [done|].
  rewrite insert_by_stable, !filter_cons. by rewrite IH.
Qed.
End sort_by.

(** ** Lists *)
Lemma Forall_sublist {A} (P : A -> Prop) l k : l `sublist_of` k -> Forall P k -> Forall P l.
Proof. rewrite !Forall_forall. eauto using elem_of_sublist. Qed.

Lemma StronglySorted_sublist {A} (R : relation A) l k :
  l `sublist_of` k -> StronglySorted R k -> StronglySorted R l.
Proof.
  induction 1 as [|x l k Hlk IH|x l k Hlk IH]; intros Hs; inversion Hs; subst; auto.
  constructor; [auto|]. by eapply Forall_sublist.
Qed.

Lemma StronglySorted_impl {A} (R S : relation A) l :
  (forall x y, R x y -> S x y) -> StronglySorted R l -> StronglySorted S l.
Proof. intros HRS. induction 1; constructor; [done|]. eapply Forall_impl; eauto. Qed.

Lemma eqb_true {A} `{EqDecision A} (a b : A) : eqb a b = true <-> a = b.
Proof. apply bool_decide_eq_true. Qed.

Lemma list_contains_true {A} `{EqDecision A} (l : list A) x : list_contains l x = true <-> x ∈ l.
Proof.
  unfold list_contains. rewrite existsb_exists. setoid_rewrite eqb_true.
  setoid_rewrite <- list_elem_of_In. naive_solver.
Qed.

Lemma elem_of_map {A B} (f : A -> B) l y : y ∈ map f l <-> exists x, y = f x /\ x ∈ l.
Proof.
  rewrite list_elem_of_In, in_map_iff. setoid_rewrite <- list_elem_of_In. naive_solver.
Qed.

Lemma elem_of_map_1 {A B} (f : A -> B) l x : x ∈ l -> f x ∈ map f l.
Proof. rewrite elem_of_map. eauto. Qed.

(** The last [n] elements: [while v.len() > n { v.pop_front() }]. *)
Definition last_n {A} (n : nat) (l : list A) : list A := drop (length l - n) l.

Lemma last_n_length {A} n (l : list A) : (length (last_n n l) <= n)%nat.
Proof. unfold last_n. rewrite length_drop. lia. Qed.

Lemma last_n_app {A} n (l k : list A) :
  last_n n (l ++ k) = last_n (n - length k) l ++ last_n n k.
Proof.
  unfold last_n. rewrite length_app, drop_app.
  destruct (decide (length k <= n)%nat).
  - f_equal; f_equal; lia.
  - rewrite (drop_ge l), (drop_ge l) by lia. f_equal. f_equal. lia.
Qed.

Lemma last_n_last_n {A} m n (l : list A) : (m <= n)%nat -> last_n m (last_n n l) = last_n m l.
Proof. intros. unfold last_n. rewrite drop_drop, length_drop. f_equal. lia. Qed.

Lemma last_n_sublist {A} n (l : list A) : last_n n l `sublist_of` l.
Proof. unfold last_n. apply sublist_drop. Qed.

Lemma StronglySorted_snoc {A} (R : A -> A -> Prop) l x :
  StronglySorted R l -> Forall (fun y => R y x) l -> StronglySorted R (l ++ [x]).
Proof.
  induction 1 as [|y l Hl IH Hy]; intros Hx; simpl; [by repeat constructor|].
  inversion Hx; subst. constructor; [by apply IH|].
  apply Forall_app. split; [done|by constructor].
Qed.

Lemma sublist_map {A B} (f : A -> B) l k : l `sublist_of` k -> map f l `sublist_of` map f k.
Proof. induction 1; simpl; by constructor. Qed.
