(* ===== verification/RustStr.v ===== *)
(** * Strings of the Rust standard library

    A Rust [String]/[str] is its sequence of UTF-8 bytes, a [string] here.
    Equality, ordering and concatenation of Rust strings are those of their
    bytes. The operations below are the ones the sources call; those that
    Rust defines on Unicode scalar values ([trim], [split_whitespace],
    [char::is_control]) recognise the UTF-8 encodings of the scalar values
    they look for. *)

From stdpp Require Import base tactics option list strings.
From Stdlib Require Import ZArith Lia Ascii String.
From S2P Require Import Prelude.
Local Open Scope Z_scope.
Local Open Scope stdpp_scope.

(** [str::len]: the number of bytes. *)
Definition len (s : string) : Z := Z.of_nat (String.length s).

Definition is_empty (s : string) : bool :=
  match s with EmptyString => true | _ => false end.

(** ** Bytes *)
Definition code (c : ascii) : Z := Z.of_N (N_of_ascii c).

Definition in_range (lo hi : Z) (c : ascii) : bool := (lo <=? code c) && (code c <=? hi).

Definition is_ascii_digit (c : ascii) : bool := in_range 48 57 c.
Definition is_ascii_uppercase (c : ascii) : bool := in_range 65 90 c.
Definition is_ascii_lowercase (c : ascii) : bool := in_range 97 122 c.
Definition is_ascii_alphabetic (c : ascii) : bool :=
  is_ascii_uppercase c || is_ascii_lowercase c.
Definition is_ascii_alphanumeric (c : ascii) : bool :=
  is_ascii_alphabetic c || is_ascii_digit c.
Definition is_ascii_hexdigit (c : ascii) : bool :=
  is_ascii_digit c || in_range 65 70 c || in_range 97 102 c.

Definition ascii_upper (c : ascii) : ascii :=
  if is_ascii_lowercase c then ascii_of_N (N_of_ascii c - 32) else c.
Definition ascii_lower (c : ascii) : ascii :=
  if is_ascii_uppercase c then ascii_of_N (N_of_ascii c + 32) else c.

Fixpoint string_map (f : ascii -> ascii) (s : string) : string :=
  match s with
  | EmptyString => EmptyString
  | String c s' => String (f c) (string_map f s')
  end.

Definition to_ascii_uppercase (s : string) : string := string_map ascii_upper s.
Definition to_ascii_lowercase (s : string) : string := string_map ascii_lower s.

Definition eq_ignore_ascii_case (a b : string) : bool :=
  eqb (to_ascii_lowercase a) (to_ascii_lowercase b).

(** [s.chars().all(p)] for a predicate that only ASCII characters satisfy:
    every byte of a non-ASCII character is at least 128 and fails it. *)
Fixpoint all_chars (p : ascii -> bool) (s : string) : bool :=
  match s with
  | EmptyString => true
  | String c s' => p c && all_chars p s'
  end.

(** [s.contains(c)] for an ASCII character. *)
Fixpoint contains_char (c : ascii) (s : string) : bool :=
  match s with
  | EmptyString => false
  | String d s' => eqb c d || contains_char c s'
  end.

(** [s.chars().any(char::is_control)]: U+0000-U+001F, U+007F, and
    U+0080-U+009F, the latter encoded as C2 80 .. C2 9F. *)
Fixpoint any_control (s : string) : bool :=
  match s with
  | EmptyString => false
  | String c s' =>
      in_range 0 31 c || (code c =? 127)
      || ((code c =? 194) &&
          match s' with
          | String d _ => in_range 128 159 d
          | EmptyString => false
          end)
      || any_control s'
  end.

(** ** Prefixes *)
Fixpoint strip_prefix (p s : string) : option string :=
  match p, s with
  | EmptyString, _ => Some s
  | String c p', String d s' => if eqb c d then strip_prefix p' s' else None
  | String _ _, EmptyString => None
  end.

Definition starts_with (s p : string) : bool :=
  match strip_prefix p s with Some _ => true | None => false end.

Fixpoint string_drop (n : nat) (s : string) : string :=
  match n, s with
  | O, _ => s
  | S _, EmptyString => EmptyString
  | S n', String _ s' => string_drop n' s'
  end.

(** ** White space

    The number of bytes of the White_Space character a string starts with,
    0 when it starts with none: U+0009-000D, U+0020, U+0085, U+00A0, U+1680,
    U+2000-200A, U+2028, U+2029, U+202F, U+205F, U+3000. *)
Definition ws_len (s : string) : nat :=
  match s with
  | EmptyString => 0
  | String a s1 =>
      if in_range 9 13 a || (code a =? 32) then 1%nat else
      match s1 with
      | EmptyString => 0%nat
      | String b s2 =>
          if (code a =? 194) && ((code b =? 133) || (code b =? 160)) then 2%nat else
          match s2 with
          | EmptyString => 0%nat
          | String c _ =>
              if ((code a =? 225) && (code b =? 154) && (code c =? 128))
                 || ((code a =? 226) && (code b =? 128) &&
                     (in_range 128 138 c || (code c =? 168) || (code c =? 169) || (code c =? 175)))
                 || ((code a =? 226) && (code b =? 129) && (code c =? 159))
                 || ((code a =? 227) && (code b =? 128) && (code c =? 128))
              then 3%nat else 0%nat
          end
      end
  end.

(** [str::trim_start]; the fuel is the length, each round drops a byte. *)
Fixpoint trim_start_go (fuel : nat) (s : string) : string :=
  match fuel with
  | O => s
  | S n => match ws_len s with
           | O => s
           | k => trim_start_go n (string_drop k s)
           end
  end.
Definition trim_start (s : string) : string := trim_start_go (String.length s) s.

(** [str::trim_end]: drop the tail that is nothing but white space. *)
Fixpoint trim_end (s : string) : string :=
  if is_empty (trim_start s) then EmptyString
  else match s with
       | EmptyString => EmptyString
       | String c s' => String c (trim_end s')
       end.

Definition trim (s : string) : string := trim_end (trim_start s).
