(* ===== verification/RustPath.v ===== *)
(** * Paths of the Rust standard library (Unix)

    A [PathBuf] is its bytes. Rust compares, orders and hashes paths by their
    components, so [a//b/.] and [a/b] are the same key of a set or a map: the
    collections of paths in this development are keyed by [components]. *)

From stdpp Require Import base tactics option list strings gmap countable.
From Stdlib Require Import ZArith Lia Ascii String.
From S2P Require Import Prelude RustStr.
Local Open Scope Z_scope.
Local Open Scope stdpp_scope.

Abbreviation PathBuf := string (only parsing).

Inductive Component :=
| RootDir
| CurDir
| ParentDir
| Normal (name : string).

#[export] Instance Component_eq_dec : EqDecision Component.
Proof. solve_decision. Defined.

#[export] Instance Component_countable : Countable Component.
Proof.
  refine (inj_countable'
    (fun c => match c with
              | RootDir => inl 0%nat | CurDir => inl 1%nat | ParentDir => inl 2%nat
              | Normal s => inr s end)
    (fun x : nat + string => match x with
              | inl 0%nat => RootDir | inl 1%nat => CurDir | inl _ => ParentDir
              | inr s => Normal s end) _).
  by intros [].
Defined.

Definition slash : ascii := "/"%char.

(** The pieces of a string between separators. *)
Fixpoint split_on (c : ascii) (s : string) : list string :=
  match s with
  | EmptyString => [EmptyString]
  | String d s' =>
      if eqb c d then EmptyString :: split_on c s'
      else match split_on c s' with
           | [] => [String d EmptyString]
           | p :: ps => String d p :: ps
           end
  end.

Definition component_of (piece : string) : option Component :=
  if is_empty piece then None
  else if eqb piece "." then None
  else if eqb piece ".." then Some ParentDir
  else Some (Normal piece).

Definition is_absolute (p : PathBuf) : bool :=
  match p with String c _ => eqb c slash | EmptyString => false end.

(** [Path::components]: a leading [/] is the root, empty pieces and [.] are
    skipped, except a [.] that starts a relative path. *)
Definition components (p : PathBuf) : list Component :=
  let pieces := split_on slash p in
  if is_absolute p then RootDir :: omap component_of pieces
  else match pieces with
       | first :: rest =>
           (if eqb first "." then [CurDir] else option_list (component_of first))
             ++ omap component_of rest
       | [] => []
       end.

(** [Path == Path]. *)
Definition path_eqb (p q : PathBuf) : bool := eqb (components p) (components q).

Fixpoint is_prefix_of {A} `{EqDecision A} (l k : list A) : bool :=
  match l, k with
  | [], _ => true
  | x :: l', y :: k' => eqb x y && is_prefix_of l' k'
  | _ :: _, [] => false
  end.

(** [Path::starts_with(base)]. *)
Definition path_starts_with (p base : PathBuf) : bool :=
  is_prefix_of (components base) (components p).

(** [Path::join]. *)
Definition path_join (base name : PathBuf) : PathBuf :=
  if is_absolute name then name else
  match base with
  | EmptyString => name
  | _ => if eqb (String.get (String.length base - 1) base) (Some slash)
         then base +:+ name else base +:+ "/" +:+ name
  end.

(** Membership of a path in a [Vec<PathBuf>]. *)
Definition paths_contain (l : list PathBuf) (p : PathBuf) : bool :=
  existsb (path_eqb p) l.
