(* ===== verification/Config.v ===== *)
(** * Configuration data ([kovert-core/src/config.rs])

    The configuration structures as the source declares them. A Rust enum [E]
    is an inductive type [E] inside a module [E], so that a variant reads
    [E.Variant] as in Rust; the fields of a struct carry the struct's name as
    a prefix. [Duration] and [DateTime<Utc>] are nanosecond counts in [Z];
    [u8], [u16], [u32], [i32] and [usize] values are [Z]. *)

From stdpp Require Import base tactics option list strings gmap.
From Stdlib Require Import ZArith Lia Ascii.
From S2P Require Import Prelude RustStr RustPath.
Local Open Scope Z_scope.
Local Open Scope stdpp_scope.

Abbreviation Duration := Z (only parsing).

Definition secs (n : Z) : Duration := n * 1000000000.

(** ** Enumerations *)
Module FileOperation.
Inductive FileOperation := Create | Modify | Rename | Delete | Access | Metadata | Other.
#[global] Instance FileOperation_eq_dec : EqDecision FileOperation.
Proof. solve_decision. Defined.
End FileOperation.
Abbreviation FileOperation := FileOperation.FileOperation.

Module DeviceAction.
Inductive DeviceAction := Added | Removed | Changed.
#[global] Instance DeviceAction_eq_dec : EqDecision DeviceAction.
Proof. solve_decision. Defined.
End DeviceAction.
Abbreviation DeviceAction := DeviceAction.DeviceAction.

Module NetworkProtocol.
Inductive NetworkProtocol := Tcp | Udp.
#[global] Instance NetworkProtocol_eq_dec : EqDecision NetworkProtocol.
Proof. solve_decision. Defined.
#[global] Instance NetworkProtocol_countable : Countable NetworkProtocol.
Proof.
  refine (inj_countable' (fun p => match p with Tcp => false | Udp => true end)
            (fun b : bool => if b then Udp else Tcp) _).
  by intros [].
Defined.
End NetworkProtocol.
Abbreviation NetworkProtocol := NetworkProtocol.NetworkProtocol.

Module SessionState.
Inductive SessionState := LoggedIn | LoggedOut | Locked | Unlocked.
#[global] Instance SessionState_eq_dec : EqDecision SessionState.
Proof. solve_decision. Defined.
End SessionState.
Abbreviation SessionState := SessionState.SessionState.

Module Weekday.
Inductive Weekday := Mon | Tue | Wed | Thu | Fri | Sat | Sun.
#[global] Instance Weekday_eq_dec : EqDecision Weekday.
Proof. solve_decision. Defined.
End Weekday.
Abbreviation Weekday := Weekday.Weekday.

Module VaultAdapter.
Inductive VaultAdapter := Fscrypt | Gocryptfs.
#[global] Instance VaultAdapter_eq_dec : EqDecision VaultAdapter.
Proof. solve_decision. Defined.
End VaultAdapter.
Abbreviation VaultAdapter := VaultAdapter.VaultAdapter.

Module SensorFailurePolicy.
Inductive SensorFailurePolicy := Alert | Ignore | FailClosed.
End SensorFailurePolicy.
Abbreviation SensorFailurePolicy := SensorFailurePolicy.SensorFailurePolicy.

Module ServiceAction.
Inductive ServiceAction := Start | Stop | Restart.
End ServiceAction.
Abbreviation ServiceAction := ServiceAction.ServiceAction.

Module ProcessSignal.
Inductive ProcessSignal := Term | Kill | Hup | Int.
End ProcessSignal.
Abbreviation ProcessSignal := ProcessSignal.ProcessSignal.

Module NotificationUrgency.
Inductive NotificationUrgency := Low | Normal | Critical.
End NotificationUrgency.
Abbreviation NotificationUrgency := NotificationUrgency.NotificationUrgency.

(** ** Triggers *)
Module TriggerSpec.
Inductive TriggerSpec :=
| Tick
| File (path : PathBuf) (operations : list FileOperation) (recursive : bool)
| WifiChanged (ssid bssid : option string) (connected : option bool)
| NetworkChanged (interface : option string) (online vpn : option bool)
| Usb (action : option DeviceAction) (vendor_id product_id serial : option string)
| Mount (action : option DeviceAction) (path : option PathBuf)
| Process (name : option string) (running : option bool)
| Service (name : option string) (active : option bool)
| Port (port : option Z) (open : option bool) (protocol : option NetworkProtocol)
| Session (state : option SessionState) (user : option string) (remote : option bool)
| Power (on_ac : option bool) (battery_below : option Z) (lid_closed : option bool)
| Hotkey (name : string)
| IntegrityFailure (component : option string)
| Manual (name : string)
| SensorFailure (sensor : option string)
| All (triggers : list TriggerSpec)
| Any (triggers : list TriggerSpec)
| Not (trigger : TriggerSpec)
| Sequence (steps : list TriggerSpec) (within : Duration).

(** Induction through the lists of the composite forms. *)
Section nested_ind.
Variable P : TriggerSpec -> Prop.
Hypothesis H_leaf : forall t,
  match t with All _ | Any _ | Not _ | Sequence _ _ => False | _ => True end -> P t.
Hypothesis H_all : forall ts, Forall P ts -> P (All ts).
Hypothesis H_any : forall ts, Forall P ts -> P (Any ts).
Hypothesis H_not : forall t, P t -> P (Not t).
Hypothesis H_seq : forall ts within, Forall P ts -> P (Sequence ts within).

Fixpoint nested_ind (t : TriggerSpec) : P t :=
  let fix go (ts : list TriggerSpec) : Forall P ts :=
    match ts return Forall P ts with
    | [] => Forall_nil_2 P
    | t :: ts => Forall_cons_2 P t ts (nested_ind t) (go ts)
    end in
  match t return P t with
  | All ts => H_all ts (go ts)
  | Any ts => H_any ts (go ts)
  | Not t => H_not t (nested_ind t)
  | Sequence ts w => H_seq ts w (go ts)
  | Tick => H_leaf Tick I
  | File a b c => H_leaf (File a b c) I
  | WifiChanged a b c => H_leaf (WifiChanged a b c) I
  | NetworkChanged a b c => H_leaf (NetworkChanged a b c) I
  | Usb a b c d => H_leaf (Usb a b c d) I
  | Mount a b => H_leaf (Mount a b) I
  | Process a b => H_leaf (Process a b) I
  | Service a b => H_leaf (Service a b) I
  | Port a b c => H_leaf (Port a b c) I
  | Session a b c => H_leaf (Session a b c) I
  | Power a b c => H_leaf (Power a b c) I
  | Hotkey a => H_leaf (Hotkey a) I
  | IntegrityFailure a => H_leaf (IntegrityFailure a) I
  | Manual a => H_leaf (Manual a) I
  | SensorFailure a => H_leaf (SensorFailure a) I
  end.
End nested_ind.
End TriggerSpec.
Abbreviation TriggerSpec := TriggerSpec.TriggerSpec.

(** ** Conditions *)
Module ConditionSpec.
Inductive ConditionSpec :=
| All (conditions : list ConditionSpec)
| Any (conditions : list ConditionSpec)
| Not (condition : ConditionSpec)
| TimeWindow (start end_ : string) (outside : bool) (weekdays : list Weekday)
| Wifi (ssid bssid : option string) (connected : option bool)
| Network (online : option bool) (interface : option string) (vpn : option bool)
| Mode (name : string)
| PathExists (path : PathBuf) (exists_ : bool)
| Mounted (path : PathBuf) (mounted : bool)
| Process (name : string) (running : bool)
| Service (name : string) (active : bool)
| Port (port : Z) (open : bool) (protocol : NetworkProtocol)
| Session (state : option SessionState) (user : option string) (remote : option bool)
| Power (on_ac : option bool) (battery_below : option Z) (lid_closed : option bool)
| SensorHealthy (sensor : string) (healthy : bool).

Section nested_ind.
Variable P : ConditionSpec -> Prop.
Hypothesis H_leaf : forall c,
  match c with All _ | Any _ | Not _ => False | _ => True end -> P c.
Hypothesis H_all : forall cs, Forall P cs -> P (All cs).
Hypothesis H_any : forall cs, Forall P cs -> P (Any cs).
Hypothesis H_not : forall c, P c -> P (Not c).

Fixpoint nested_ind (c : ConditionSpec) : P c :=
  let fix go (cs : list ConditionSpec) : Forall P cs :=
    match cs return Forall P cs with
    | [] => Forall_nil_2 P
    | c :: cs => Forall_cons_2 P c cs (nested_ind c) (go cs)
    end in
  match c return P c with
  | All cs => H_all cs (go cs)
  | Any cs => H_any cs (go cs)
  | Not c => H_not c (nested_ind c)
  | TimeWindow a b c d => H_leaf (TimeWindow a b c d) I
  | Wifi a b c => H_leaf (Wifi a b c) I
  | Network a b c => H_leaf (Network a b c) I
  | Mode a => H_leaf (Mode a) I
  | PathExists a b => H_leaf (PathExists a b) I
  | Mounted a b => H_leaf (Mounted a b) I
  | Process a b => H_leaf (Process a b) I
  | Service a b => H_leaf (Service a b) I
  | Port a b c => H_leaf (Port a b c) I
  | Session a b c => H_leaf (Session a b c) I
  | Power a b c => H_leaf (Power a b c) I
  | SensorHealthy a b => H_leaf (SensorHealthy a b) I
  end.
End nested_ind.
End ConditionSpec.
Abbreviation ConditionSpec := ConditionSpec.ConditionSpec.

(** ** Actions *)
Module ActionSpec.
Inductive ActionSpec :=
| LockVault (vault : string)
| UnlockVault (vault : string)
| Unmount (path : PathBuf)
| NetworkIsolation (enabled : bool)
| InterfaceState (interface : string) (up : bool)
| Service (name : string) (state : ServiceAction)
| TerminateProcess (process : string) (signal : ProcessSignal)
| Notify (title message : string) (urgency : NotificationUrgency)
| CaptureEvidence (paths : list PathBuf) (destination : PathBuf)
| SetMode (mode : string)
| Exec (executable : PathBuf) (args : list string)
       (expected_sha256 : option string) (environment : gmap string string).
End ActionSpec.
Abbreviation ActionSpec := ActionSpec.ActionSpec.

(** [ActionSpec::conflict_key]. *)
Definition conflict_key (action : ActionSpec) : option string :=
  match action with
  | ActionSpec.LockVault vault | ActionSpec.UnlockVault vault => Some ("vault:" +:+ vault)
  | ActionSpec.NetworkIsolation _ => Some "network:isolation"
  | ActionSpec.InterfaceState interface _ => Some ("interface:" +:+ interface)
  | ActionSpec.Service name _ => Some ("service:" +:+ name)
  | ActionSpec.SetMode _ => Some "mode"
  | ActionSpec.Unmount path => Some ("mount:" +:+ path)
  | ActionSpec.TerminateProcess process _ => Some ("process:" +:+ process)
  | ActionSpec.Notify _ _ _ | ActionSpec.CaptureEvidence _ _ | ActionSpec.Exec _ _ _ _ => None
  end.

(** ** Records *)
Record Rule := mkRule {
  rule_id : string;
  rule_description : string;
  rule_enabled : bool;
  rule_priority : Z;
  rule_cooldown : Duration;
  rule_sustain_for : Duration;
  rule_once_per_boot : bool;
  rule_on_sensor_failure : SensorFailurePolicy;
  rule_trigger : TriggerSpec;
  rule_when : option ConditionSpec;
  rule_actions : list ActionSpec;
}.

Record DaemonConfig := mkDaemonConfig {
  daemon_socket_path : PathBuf;
  daemon_state_path : PathBuf;
  daemon_dry_run : bool;
  daemon_poll_interval : Duration;
  daemon_command_timeout : Duration;
  daemon_event_buffer : Z;
  daemon_socket_group : string;
  daemon_allowed_executables : list PathBuf;
  daemon_managed_processes : list string;
  daemon_desktop_notifications : bool;
}.

Record AuditConfig := mkAuditConfig {
  audit_max_records : Z;
  audit_verify_on_start : bool;
}.

Record ModeConfig := mkModeConfig {
  mode_name : string;
  mode_description : string;
  mode_initial : bool;
}.

Record VaultConfig := mkVaultConfig {
  vault_name : string;
  vault_adapter : VaultAdapter;
  vault_path : PathBuf;
  vault_encrypted_path : option PathBuf;
  vault_mount_path : option PathBuf;
  vault_keyring_description : option string;
}.

Record HotkeyConfig := mkHotkeyConfig {
  hotkey_name : string;
  hotkey_device : PathBuf;
  hotkey_sequence : list string;
  hotkey_within : Duration;
}.

Record Config := mkConfig {
  config_version : Z;
  config_daemon : DaemonConfig;
  config_audit : AuditConfig;
  config_modes : list ModeConfig;
  config_vaults : list VaultConfig;
  config_hotkeys : list HotkeyConfig;
  config_rules : list Rule;
}.

(** ** Defaults *)
Definition default_poll_interval : Duration := secs 5.
Definition default_command_timeout : Duration := secs 15.
Definition default_event_buffer : Z := 1024.
Definition default_socket_path : PathBuf := "/run/kovert/kovert.sock".
Definition default_state_path : PathBuf := "/var/lib/kovert/state.db".
Definition default_audit_limit : Z := 10000.
Definition default_hotkey_window : Duration := secs 3.

Definition DaemonConfig_default : DaemonConfig := {|
  daemon_socket_path := default_socket_path;
  daemon_state_path := default_state_path;
  daemon_dry_run := true;
  daemon_poll_interval := default_poll_interval;
  daemon_command_timeout := default_command_timeout;
  daemon_event_buffer := default_event_buffer;
  daemon_socket_group := "kovert";
  daemon_allowed_executables := [];
  daemon_managed_processes := [];
  daemon_desktop_notifications := false;
|}.

Definition AuditConfig_default : AuditConfig := {|
  audit_max_records := default_audit_limit;
  audit_verify_on_start := true;
|}.
