(* ===== verification/Event.v ===== *)
(** * Events and the host snapshot ([kovert-core/src/event.rs])

    [Event], [EventKind] and [SystemSnapshot] with [SystemSnapshot::apply],
    the only function that changes the sensed part of the snapshot. Sets and
    maps of the snapshot are finite sets and maps; the set of mount points is
    keyed by path components, which is how Rust compares paths. *)

From stdpp Require Import base tactics option list strings gmap.
From Stdlib Require Import ZArith Lia Ascii.
From S2P Require Import Prelude RustStr RustPath Config.
Local Open Scope Z_scope.
Local Open Scope stdpp_scope.

(** Nanoseconds since the epoch. *)
Abbreviation DateTime := Z (only parsing).
(** A [Uuid] by its canonical text. *)
Abbreviation Uuid := string (only parsing).

Module EventKind.
Inductive EventKind :=
| Tick
| File (path : PathBuf) (operation : FileOperation)
| Wifi (connected : bool) (ssid bssid : option string)
| Network (online : bool) (interface : option string) (vpn : bool)
| Usb (action : DeviceAction) (vendor_id product_id serial : option string)
| Mount (action : DeviceAction) (path : PathBuf) (source : option string)
| Process (name : string) (running : bool) (pid : option Z)
| Service (name : string) (active : bool)
| Port (port : Z) (protocol : NetworkProtocol) (open : bool)
| Session (state : SessionState) (user : option string) (remote : bool)
| Power (on_ac : option bool) (battery_percent : option Z) (lid_closed : option bool)
| Hotkey (name : string)
| Integrity (component : string) (valid : bool) (detail : option string)
| Manual (name : string)
| SensorFailure (sensor message : string).
End EventKind.
Abbreviation EventKind := EventKind.EventKind.

Record Event := mkEvent {
  event_id : Uuid;
  event_timestamp : DateTime;
  event_source : string;
  event_kind : EventKind;
}.

(** [Event::new]: the identifier drawn and the clock read are arguments. *)
Definition Event_new (id : Uuid) (now : DateTime) (source : string) (kind : EventKind) : Event :=
  {| event_id := id; event_timestamp := now; event_source := source; event_kind := kind |}.

Record SystemSnapshot := mkSystemSnapshot {
  snap_now : DateTime;
  snap_wifi_connected : bool;
  snap_wifi_ssid : option string;
  snap_wifi_bssid : option string;
  snap_network_online : bool;
  snap_active_interface : option string;
  snap_vpn_active : bool;
  snap_mounts : gset (list Component);
  snap_processes : gset string;
  snap_services : gmap string bool;
  snap_ports : gset (NetworkProtocol * Z);
  snap_session_state : option SessionState;
  snap_session_user : option string;
  snap_session_remote : bool;
  snap_on_ac : option bool;
  snap_battery_percent : option Z;
  snap_lid_closed : option bool;
  snap_mode : string;
  snap_sensor_health : gmap string bool;
}.

(** [SystemSnapshot::default] at clock reading [now]. *)
Definition SystemSnapshot_default (now : DateTime) : SystemSnapshot := {|
  snap_now := now;
  snap_wifi_connected := false;
  snap_wifi_ssid := None;
  snap_wifi_bssid := None;
  snap_network_online := false;
  snap_active_interface := None;
  snap_vpn_active := false;
  snap_mounts := ∅;
  snap_processes := ∅;
  snap_services := ∅;
  snap_ports := ∅;
  snap_session_state := None;
  snap_session_user := None;
  snap_session_remote := false;
  snap_on_ac := None;
  snap_battery_percent := None;
  snap_lid_closed := None;
  snap_mode := "normal";
  snap_sensor_health := ∅
|}.

(** ** Field assignments *)
Definition set_now (v : DateTime) (s : SystemSnapshot) : SystemSnapshot := {|
  snap_now := v;
  snap_wifi_connected := snap_wifi_connected s;
  snap_wifi_ssid := snap_wifi_ssid s;
  snap_wifi_bssid := snap_wifi_bssid s;
  snap_network_online := snap_network_online s;
  snap_active_interface := snap_active_interface s;
  snap_vpn_active := snap_vpn_active s;
  snap_mounts := snap_mounts s;
  snap_processes := snap_processes s;
  snap_services := snap_services s;
  snap_ports := snap_ports s;
  snap_session_state := snap_session_state s;
  snap_session_user := snap_session_user s;
  snap_session_remote := snap_session_remote s;
  snap_on_ac := snap_on_ac s;
  snap_battery_percent := snap_battery_percent s;
  snap_lid_closed := snap_lid_closed s;
  snap_mode := snap_mode s;
  snap_sensor_health := snap_sensor_health s
|}.

Definition set_wifi (c : bool) (ssid bssid : option string) (s : SystemSnapshot) : SystemSnapshot := {|
  snap_now := snap_now s;
  snap_wifi_connected := c;
  snap_wifi_ssid := ssid;
  snap_wifi_bssid := bssid;
  snap_network_online := snap_network_online s;
  snap_active_interface := snap_active_interface s;
  snap_vpn_active := snap_vpn_active s;
  snap_mounts := snap_mounts s;
  snap_processes := snap_processes s;
  snap_services := snap_services s;
  snap_ports := snap_ports s;
  snap_session_state := snap_session_state s;
  snap_session_user := snap_session_user s;
  snap_session_remote := snap_session_remote s;
  snap_on_ac := snap_on_ac s;
  snap_battery_percent := snap_battery_percent s;
  snap_lid_closed := snap_lid_closed s;
  snap_mode := snap_mode s;
  snap_sensor_health := snap_sensor_health s
|}.

Definition set_network (online : bool) (interface : option string) (vpn : bool) (s : SystemSnapshot) : SystemSnapshot := {|
  snap_now := snap_now s;
  snap_wifi_connected := snap_wifi_connected s;
  snap_wifi_ssid := snap_wifi_ssid s;
  snap_wifi_bssid := snap_wifi_bssid s;
  snap_network_online := online;
  snap_active_interface := interface;
  snap_vpn_active := vpn;
  snap_mounts := snap_mounts s;
  snap_processes := snap_processes s;
  snap_services := snap_services s;
  snap_ports := snap_ports s;
  snap_session_state := snap_session_state s;
  snap_session_user := snap_session_user s;
  snap_session_remote := snap_session_remote s;
  snap_on_ac := snap_on_ac s;
  snap_battery_percent := snap_battery_percent s;
  snap_lid_closed := snap_lid_closed s;
  snap_mode := snap_mode s;
  snap_sensor_health := snap_sensor_health s
|}.

Definition set_mounts (v : gset (list Component)) (s : SystemSnapshot) : SystemSnapshot := {|
  snap_now := snap_now s;
  snap_wifi_connected := snap_wifi_connected s;
  snap_wifi_ssid := snap_wifi_ssid s;
  snap_wifi_bssid := snap_wifi_bssid s;
  snap_network_online := snap_network_online s;
  snap_active_interface := snap_active_interface s;
  snap_vpn_active := snap_vpn_active s;
  snap_mounts := v;
  snap_processes := snap_processes s;
  snap_services := snap_services s;
  snap_ports := snap_ports s;
  snap_session_state := snap_session_state s;
  snap_session_user := snap_session_user s;
  snap_session_remote := snap_session_remote s;
  snap_on_ac := snap_on_ac s;
  snap_battery_percent := snap_battery_percent s;
  snap_lid_closed := snap_lid_closed s;
  snap_mode := snap_mode s;
  snap_sensor_health := snap_sensor_health s
|}.

Definition set_processes (v : gset string) (s : SystemSnapshot) : SystemSnapshot := {|
  snap_now := snap_now s;
  snap_wifi_connected := snap_wifi_connected s;
  snap_wifi_ssid := snap_wifi_ssid s;
  snap_wifi_bssid := snap_wifi_bssid s;
  snap_network_online := snap_network_online s;
  snap_active_interface := snap_active_interface s;
  snap_vpn_active := snap_vpn_active s;
  snap_mounts := snap_mounts s;
  snap_processes := v;
  snap_services := snap_services s;
  snap_ports := snap_ports s;
  snap_session_state := snap_session_state s;
  snap_session_user := snap_session_user s;
  snap_session_remote := snap_session_remote s;
  snap_on_ac := snap_on_ac s;
  snap_battery_percent := snap_battery_percent s;
  snap_lid_closed := snap_lid_closed s;
  snap_mode := snap_mode s;
  snap_sensor_health := snap_sensor_health s
|}.

Definition set_services (v : gmap string bool) (s : SystemSnapshot) : SystemSnapshot := {|
  snap_now := snap_now s;
  snap_wifi_connected := snap_wifi_connected s;
  snap_wifi_ssid := snap_wifi_ssid s;
  snap_wifi_bssid := snap_wifi_bssid s;
  snap_network_online := snap_network_online s;
  snap_active_interface := snap_active_interface s;
  snap_vpn_active := snap_vpn_active s;
  snap_mounts := snap_mounts s;
  snap_processes := snap_processes s;
  snap_services := v;
  snap_ports := snap_ports s;
  snap_session_state := snap_session_state s;
  snap_session_user := snap_session_user s;
  snap_session_remote := snap_session_remote s;
  snap_on_ac := snap_on_ac s;
  snap_battery_percent := snap_battery_percent s;
  snap_lid_closed := snap_lid_closed s;
  snap_mode := snap_mode s;
  snap_sensor_health := snap_sensor_health s
|}.

Definition set_ports (v : gset (NetworkProtocol * Z)) (s : SystemSnapshot) : SystemSnapshot := {|
  snap_now := snap_now s;
  snap_wifi_connected := snap_wifi_connected s;
  snap_wifi_ssid := snap_wifi_ssid s;
  snap_wifi_bssid := snap_wifi_bssid s;
  snap_network_online := snap_network_online s;
  snap_active_interface := snap_active_interface s;
  snap_vpn_active := snap_vpn_active s;
  snap_mounts := snap_mounts s;
  snap_processes := snap_processes s;
  snap_services := snap_services s;
  snap_ports := v;
  snap_session_state := snap_session_state s;
  snap_session_user := snap_session_user s;
  snap_session_remote := snap_session_remote s;
  snap_on_ac := snap_on_ac s;
  snap_battery_percent := snap_battery_percent s;
  snap_lid_closed := snap_lid_closed s;
  snap_mode := snap_mode s;
  snap_sensor_health := snap_sensor_health s
|}.

Definition set_session (st : option SessionState) (user : option string) (remote : bool) (s : SystemSnapshot) : SystemSnapshot := {|
  snap_now := snap_now s;
  snap_wifi_connected := snap_wifi_connected s;
  snap_wifi_ssid := snap_wifi_ssid s;
  snap_wifi_bssid := snap_wifi_bssid s;
  snap_network_online := snap_network_online s;
  snap_active_interface := snap_active_interface s;
  snap_vpn_active := snap_vpn_active s;
  snap_mounts := snap_mounts s;
  snap_processes := snap_processes s;
  snap_services := snap_services s;
  snap_ports := snap_ports s;
  snap_session_state := st;
  snap_session_user := user;
  snap_session_remote := remote;
  snap_on_ac := snap_on_ac s;
  snap_battery_percent := snap_battery_percent s;
  snap_lid_closed := snap_lid_closed s;
  snap_mode := snap_mode s;
  snap_sensor_health := snap_sensor_health s
|}.

Definition set_power (ac : option bool) (pct : option Z) (lid : option bool) (s : SystemSnapshot) : SystemSnapshot := {|
  snap_now := snap_now s;
  snap_wifi_connected := snap_wifi_connected s;
  snap_wifi_ssid := snap_wifi_ssid s;
  snap_wifi_bssid := snap_wifi_bssid s;
  snap_network_online := snap_network_online s;
  snap_active_interface := snap_active_interface s;
  snap_vpn_active := snap_vpn_active s;
  snap_mounts := snap_mounts s;
  snap_processes := snap_processes s;
  snap_services := snap_services s;
  snap_ports := snap_ports s;
  snap_session_state := snap_session_state s;
  snap_session_user := snap_session_user s;
  snap_session_remote := snap_session_remote s;
  snap_on_ac := ac;
  snap_battery_percent := pct;
  snap_lid_closed := lid;
  snap_mode := snap_mode s;
  snap_sensor_health := snap_sensor_health s
|}.

Definition set_snapshot_mode (v : string) (s : SystemSnapshot) : SystemSnapshot := {|
  snap_now := snap_now s;
  snap_wifi_connected := snap_wifi_connected s;
  snap_wifi_ssid := snap_wifi_ssid s;
  snap_wifi_bssid := snap_wifi_bssid s;
  snap_network_online := snap_network_online s;
  snap_active_interface := snap_active_interface s;
  snap_vpn_active := snap_vpn_active s;
  snap_mounts := snap_mounts s;
  snap_processes := snap_processes s;
  snap_services := snap_services s;
  snap_ports := snap_ports s;
  snap_session_state := snap_session_state s;
  snap_session_user := snap_session_user s;
  snap_session_remote := snap_session_remote s;
  snap_on_ac := snap_on_ac s;
  snap_battery_percent := snap_battery_percent s;
  snap_lid_closed := snap_lid_closed s;
  snap_mode := v;
  snap_sensor_health := snap_sensor_health s
|}.

Definition set_sensor_health (v : gmap string bool) (s : SystemSnapshot) : SystemSnapshot := {|
  snap_now := snap_now s;
  snap_wifi_connected := snap_wifi_connected s;
  snap_wifi_ssid := snap_wifi_ssid s;
  snap_wifi_bssid := snap_wifi_bssid s;
  snap_network_online := snap_network_online s;
  snap_active_interface := snap_active_interface s;
  snap_vpn_active := snap_vpn_active s;
  snap_mounts := snap_mounts s;
  snap_processes := snap_processes s;
  snap_services := snap_services s;
  snap_ports := snap_ports s;
  snap_session_state := snap_session_state s;
  snap_session_user := snap_session_user s;
  snap_session_remote := snap_session_remote s;
  snap_on_ac := snap_on_ac s;
  snap_battery_percent := snap_battery_percent s;
  snap_lid_closed := snap_lid_closed s;
  snap_mode := snap_mode s;
  snap_sensor_health := v
|}.

(** [SystemSnapshot::apply]. *)
Definition apply (s : SystemSnapshot) (event : Event) : SystemSnapshot :=
  let s := set_now (event_timestamp event) s in
  let s := set_sensor_health (<[event_source event := true]> (snap_sensor_health s)) s in
  match event_kind event with
  | EventKind.Wifi connected ssid bssid => set_wifi connected ssid bssid s
  | EventKind.Network online interface vpn => set_network online interface vpn s
  | EventKind.Mount action path _ =>
      match action with
      | DeviceAction.Added | DeviceAction.Changed =>
          set_mounts ({[components path]} ∪ snap_mounts s) s
      | DeviceAction.Removed => set_mounts (snap_mounts s ∖ {[components path]}) s
      end
  | EventKind.Process name running _ =>
      if running then set_processes ({[name]} ∪ snap_processes s) s
      else set_processes (snap_processes s ∖ {[name]}) s
  | EventKind.Service name active => set_services (<[name := active]> (snap_services s)) s
  | EventKind.Port port protocol open =>
      if open then set_ports ({[(protocol, port)]} ∪ snap_ports s) s
      else set_ports (snap_ports s ∖ {[(protocol, port)]}) s
  | EventKind.Session state user remote => set_session (Some state) user remote s
  | EventKind.Power on_ac battery_percent lid_closed =>
      set_power on_ac battery_percent lid_closed s
  | EventKind.Integrity component valid _ =>
      set_sensor_health (<[component := valid]> (snap_sensor_health s)) s
  | EventKind.SensorFailure sensor _ =>
      set_sensor_health (<[sensor := false]> (snap_sensor_health s)) s
  | EventKind.Tick | EventKind.File _ _ | EventKind.Usb _ _ _ _
  | EventKind.Hotkey _ | EventKind.Manual _ => s
  end.

(** The snapshot after a history of events. *)
Definition apply_all (s : SystemSnapshot) (events : list Event) : SystemSnapshot :=
  fold_left apply events s.

(** ** The snapshot as the latest report of each sensor

    The abstract specification of the snapshot: for each item of host state,
    what an event reports of it, if anything; the snapshot after a history
    holds the last report, or the initial value when there was none. *)
Definition last_report {T} (report : Event -> option T) (events : list Event) : option T :=
  fold_left (fun acc event => match report event with Some x => Some x | None => acc end)
    events None.

Definition wifi_report (event : Event) : option (bool * option string * option string) :=
  match event_kind event with EventKind.Wifi c s b => Some (c, s, b) | _ => None end.

Definition network_report (event : Event) : option (bool * option string * bool) :=
  match event_kind event with EventKind.Network o i v => Some (o, i, v) | _ => None end.

Definition mount_report (path : PathBuf) (event : Event) : option bool :=
  match event_kind event with
  | EventKind.Mount action p _ =>
      if path_eqb p path then Some (negb (eqb action DeviceAction.Removed)) else None
  | _ => None
  end.

Definition process_report (name : string) (event : Event) : option bool :=
  match event_kind event with
  | EventKind.Process n running _ => if eqb n name then Some running else None
  | _ => None
  end.

Definition service_report (name : string) (event : Event) : option bool :=
  match event_kind event with
  | EventKind.Service n active => if eqb n name then Some active else None
  | _ => None
  end.

Definition port_report (protocol : NetworkProtocol) (port : Z) (event : Event) : option bool :=
  match event_kind event with
  | EventKind.Port p q open => if eqb (q, p) (protocol, port) then Some open else None
  | _ => None
  end.

Definition session_report (event : Event) : option (option SessionState * option string * bool) :=
  match event_kind event with EventKind.Session s u r => Some (Some s, u, r) | _ => None end.

Definition power_report (event : Event) : option (option bool * option Z * option bool) :=
  match event_kind event with EventKind.Power a b l => Some (a, b, l) | _ => None end.

(** An event vouches for its source unless it reports otherwise. *)
Definition health_report (sensor : string) (event : Event) : option bool :=
  let alive := if eqb (event_source event) sensor then Some true else None in
  match event_kind event with
  | EventKind.Integrity component valid _ => if eqb component sensor then Some valid else alive
  | EventKind.SensorFailure failed _ => if eqb failed sensor then Some false else alive
  | _ => alive
  end.

(** An observation of the snapshot follows a report when [apply] overwrites it
    with what the event reports and leaves it alone otherwise. *)
Definition follows {T} (observe : SystemSnapshot -> T) (report : Event -> option T) : Prop :=
  forall s event, observe (apply s event) = default (observe s) (report event).

Lemma follows_all {T} (observe : SystemSnapshot -> T) report s events :
  follows observe report ->
  observe (apply_all s events) = default (observe s) (last_report report events).
Proof.
  intros Hf. unfold apply_all, last_report.
  assert (forall acc t, observe t = default (observe s) acc ->
    observe (fold_left apply events t)
    = default (observe s) (fold_left (fun acc event =>
        match report event with Some x => Some x | None => acc end) events acc)) as Hgen.
  { induction events as [|event events IH]; intros acc t Hacc; simpl; [done|].
    apply IH. rewrite Hf. by destruct (report event). }
  by apply Hgen.
Qed.

Ltac solve_follows :=
  intros s event; unfold apply, path_eqb, eqb;
  repeat (case_match; simplify_eq/=); try done;
  repeat case_bool_decide; simplify_eq; try done;
  first [by simplify_map_eq | exfalso; set_solver].

Lemma wifi_follows :
  follows (fun s => (snap_wifi_connected s, snap_wifi_ssid s, snap_wifi_bssid s)) wifi_report.
Proof. unfold wifi_report. solve_follows. Qed.

Lemma network_follows :
  follows (fun s => (snap_network_online s, snap_active_interface s, snap_vpn_active s))
    network_report.
Proof. unfold network_report. solve_follows. Qed.

Lemma mount_follows path :
  follows (fun s => bool_decide (components path ∈ snap_mounts s)) (mount_report path).
Proof. unfold mount_report. solve_follows. Qed.

Lemma process_follows name :
  follows (fun s => bool_decide (name ∈ snap_processes s)) (process_report name).
Proof. unfold process_report. solve_follows. Qed.

Lemma service_follows name :
  follows (fun s => default false (snap_services s !! name)) (service_report name).
Proof. unfold service_report. solve_follows. Qed.

Lemma port_follows protocol port :
  follows (fun s => bool_decide ((protocol, port) ∈ snap_ports s)) (port_report protocol port).
Proof. unfold port_report. solve_follows. Qed.

Lemma session_follows :
  follows (fun s => (snap_session_state s, snap_session_user s, snap_session_remote s))
    session_report.
Proof. unfold session_report. solve_follows. Qed.

Lemma power_follows :
  follows (fun s => (snap_on_ac s, snap_battery_percent s, snap_lid_closed s)) power_report.
Proof. unfold power_report. solve_follows. Qed.

Lemma health_follows sensor :
  follows (fun s => default false (snap_sensor_health s !! sensor)) (health_report sensor).
Proof. unfold health_report. solve_follows. Qed.

Lemma mode_follows : follows snap_mode (fun _ => None).
Proof. solve_follows. Qed.

(** After any list of events each field of the snapshot is what the last event that
    reports on it said, and its initial value if there is none. *)
Theorem snapshot_is_last_report s events :
  let s' := apply_all s events in
  (snap_wifi_connected s', snap_wifi_ssid s', snap_wifi_bssid s')
    = default (snap_wifi_connected s, snap_wifi_ssid s, snap_wifi_bssid s)
        (last_report wifi_report events)
  /\ (snap_network_online s', snap_active_interface s', snap_vpn_active s')
    = default (snap_network_online s, snap_active_interface s, snap_vpn_active s)
        (last_report network_report events)
  /\ (forall path, bool_decide (components path ∈ snap_mounts s')
      = default (bool_decide (components path ∈ snap_mounts s))
          (last_report (mount_report path) events))
  /\ (forall name, bool_decide (name ∈ snap_processes s')
      = default (bool_decide (name ∈ snap_processes s))
          (last_report (process_report name) events))
  /\ (forall name, default false (snap_services s' !! name)
      = default (default false (snap_services s !! name))
          (last_report (service_report name) events))
  /\ (forall protocol port, bool_decide ((protocol, port) ∈ snap_ports s')
      = default (bool_decide ((protocol, port) ∈ snap_ports s))
          (last_report (port_report protocol port) events))
  /\ (snap_session_state s', snap_session_user s', snap_session_remote s')
    = default (snap_session_state s, snap_session_user s, snap_session_remote s)
        (last_report session_report events)
  /\ (snap_on_ac s', snap_battery_percent s', snap_lid_closed s')
    = default (snap_on_ac s, snap_battery_percent s, snap_lid_closed s)
        (last_report power_report events)
  /\ (forall sensor, default false (snap_sensor_health s' !! sensor)
      = default (default false (snap_sensor_health s !! sensor))
          (last_report (health_report sensor) events))
  /\ snap_mode s' = snap_mode s.
Proof.
  split_and!; [apply (follows_all _ _ _ _ wifi_follows)|apply (follows_all _ _ _ _ network_follows)
    |intros path; apply (follows_all _ _ _ _ (mount_follows path))
    |intros name; apply (follows_all _ _ _ _ (process_follows name))
    |intros name; apply (follows_all _ _ _ _ (service_follows name))
    |intros protocol port; apply (follows_all _ _ _ _ (port_follows protocol port))
    |apply (follows_all _ _ _ _ session_follows)|apply (follows_all _ _ _ _ power_follows)
    |intros sensor; apply (follows_all _ _ _ _ (health_follows sensor))|].
  rewrite (follows_all _ _ s events mode_follows). unfold last_report.
  by induction events as [|event events IH].
Qed.
