(* ===== verification/Matching.v ===== *)
(** * Trigger and condition matching ([kovert-core/src/engine.rs], free functions)

    [elapsed], [trigger_matches], [condition_matches], [path_matches],
    [eq_optional], [eq_optional_ci], [weekday_from_chrono] and
    [trigger_uses_sensor]. The [chrono] crate and the file system are
    parameters, collected in the class [EngineEnv]. *)

From stdpp Require Import base tactics option list strings gmap.
From Stdlib Require Import ZArith Lia Ascii.
From S2P Require Import Prelude RustStr RustPath Config Event.
Local Open Scope Z_scope.
Local Open Scope stdpp_scope.

(** [chrono::Weekday], the type [weekday_from_chrono] matches on. *)
Module Chrono.
Inductive ChronoWeekday := Mon | Tue | Wed | Thu | Fri | Sat | Sun.
End Chrono.

(** What the engine takes from outside the repository.
    - [parse_hm s]: [NaiveTime::parse_from_str s "%H:%M"], as nanoseconds
      since midnight ([NaiveTime] values compare as these);
    - [local_weekday t], [local_time_of_day t]: the weekday and the time of
      day of [t.with_timezone(&Local)];
    - [path_exists t p]: what [Path::exists] answers when a condition is
      evaluated in a snapshot taken at [t]. *)
Class EngineEnv := {
  parse_hm : string -> option Z;
  local_weekday : DateTime -> Chrono.ChronoWeekday;
  local_time_of_day : DateTime -> Z;
  path_exists : DateTime -> PathBuf -> bool;
}.

(** [(later - earlier).to_std().unwrap_or_default()]: a negative difference
    has no [std] duration and counts as zero. *)
Definition elapsed (later earlier : DateTime) : Duration :=
  if later - earlier <? 0 then 0 else later - earlier.

Definition path_matches (configured actual : PathBuf) (recursive : bool) : bool :=
  if recursive then path_starts_with actual configured else path_eqb actual configured.

Definition eq_optional (expected actual : option string) : bool :=
  is_none_or expected (fun value => eqb actual (Some value)).

Definition eq_optional_ci (expected actual : option string) : bool :=
  is_none_or expected (fun value =>
    is_some_and actual (fun candidate => eq_ignore_ascii_case candidate value)).

Definition weekday_from_chrono (value : Chrono.ChronoWeekday) : Weekday :=
  match value with
  | Chrono.Mon => Weekday.Mon
  | Chrono.Tue => Weekday.Tue
  | Chrono.Wed => Weekday.Wed
  | Chrono.Thu => Weekday.Thu
  | Chrono.Fri => Weekday.Fri
  | Chrono.Sat => Weekday.Sat
  | Chrono.Sun => Weekday.Sun
  end.

Fixpoint trigger_matches (trigger : TriggerSpec) (event : Event) : bool :=
  match trigger, event_kind event with
  | TriggerSpec.Tick, EventKind.Tick => true
  | TriggerSpec.File path operations recursive, EventKind.File event_path operation =>
      path_matches path event_path recursive
      && (match operations with [] => true | _ => false end
          || list_contains operations operation)
  | TriggerSpec.WifiChanged ssid bssid connected,
    EventKind.Wifi event_connected event_ssid event_bssid =>
      is_none_or connected (fun value => eqb value event_connected)
      && is_none_or ssid (fun value => eqb event_ssid (Some value))
      && is_none_or bssid (fun value =>
           is_some_and event_bssid (fun actual => eq_ignore_ascii_case actual value))
  | TriggerSpec.NetworkChanged interface online vpn,
    EventKind.Network event_online event_interface event_vpn =>
      is_none_or online (fun value => eqb value event_online)
      && is_none_or vpn (fun value => eqb value event_vpn)
      && is_none_or interface (fun value => eqb event_interface (Some value))
  | TriggerSpec.Usb action vendor_id product_id serial,
    EventKind.Usb event_action event_vendor event_product event_serial =>
      is_none_or action (fun value => eqb value event_action)
      && eq_optional_ci vendor_id event_vendor
      && eq_optional_ci product_id event_product
      && eq_optional serial event_serial
  | TriggerSpec.Mount action path, EventKind.Mount event_action event_path _ =>
      is_none_or action (fun value => eqb value event_action)
      && is_none_or path (fun value => path_eqb value event_path)
  | TriggerSpec.Process name running, EventKind.Process event_name event_running _ =>
      is_none_or running (fun value => eqb value event_running)
      && is_none_or name (fun value => eqb value event_name)
  | TriggerSpec.Service name active, EventKind.Service event_name event_active =>
      is_none_or active (fun value => eqb value event_active)
      && is_none_or name (fun value => eqb value event_name)
  | TriggerSpec.Port port open protocol, EventKind.Port event_port event_protocol event_open =>
      is_none_or port (fun value => eqb value event_port)
      && is_none_or open (fun value => eqb value event_open)
      && is_none_or protocol (fun value => eqb value event_protocol)
  | TriggerSpec.Session state user remote, EventKind.Session event_state event_user event_remote =>
      is_none_or state (fun value => eqb value event_state)
      && is_none_or remote (fun value => eqb value event_remote)
      && is_none_or user (fun value => eqb event_user (Some value))
  | TriggerSpec.Power on_ac battery_below lid_closed,
    EventKind.Power event_ac battery_percent event_lid =>
      is_none_or on_ac (fun value => eqb event_ac (Some value))
      && is_none_or lid_closed (fun value => eqb event_lid (Some value))
      && is_none_or battery_below (fun limit =>
           is_some_and battery_percent (fun actual => actual <? limit))
  | TriggerSpec.Hotkey name, EventKind.Hotkey event_name => eqb name event_name
  | TriggerSpec.IntegrityFailure component, EventKind.Integrity event_component valid _ =>
      negb valid && is_none_or component (fun value => eqb value event_component)
  | TriggerSpec.Manual name, EventKind.Manual event_name => eqb name event_name
  | TriggerSpec.SensorFailure sensor, EventKind.SensorFailure event_sensor _ =>
      is_none_or sensor (fun value => eqb value event_sensor)
  | TriggerSpec.All triggers, _ => forallb (fun item => trigger_matches item event) triggers
  | TriggerSpec.Any triggers, _ => existsb (fun item => trigger_matches item event) triggers
  | TriggerSpec.Not trigger, _ => negb (trigger_matches trigger event)
  | TriggerSpec.Sequence _ _, _ => false
  | _, _ => false
  end.

Fixpoint trigger_uses_sensor (trigger : TriggerSpec) (sensor : string) : bool :=
  match trigger with
  | TriggerSpec.Tick => eqb sensor "time"
  | TriggerSpec.File _ _ _ => eqb sensor "filesystem"
  | TriggerSpec.WifiChanged _ _ _ => eqb sensor "wifi"
  | TriggerSpec.NetworkChanged _ _ _ => eqb sensor "network"
  | TriggerSpec.Usb _ _ _ _ => eqb sensor "usb"
  | TriggerSpec.Mount _ _ => eqb sensor "mounts"
  | TriggerSpec.Process _ _ => eqb sensor "processes"
  | TriggerSpec.Service _ _ => eqb sensor "services"
  | TriggerSpec.Port _ _ _ => eqb sensor "ports"
  | TriggerSpec.Session _ _ _ => eqb sensor "sessions"
  | TriggerSpec.Power _ _ _ => eqb sensor "power"
  | TriggerSpec.Hotkey _ => eqb sensor "hotkeys"
  | TriggerSpec.IntegrityFailure _ => eqb sensor "integrity"
  | TriggerSpec.Manual _ => eqb sensor "manual"
  | TriggerSpec.SensorFailure expected => is_none_or expected (fun value => eqb value sensor)
  | TriggerSpec.All triggers | TriggerSpec.Any triggers | TriggerSpec.Sequence triggers _ =>
      existsb (fun item => trigger_uses_sensor item sensor) triggers
  | TriggerSpec.Not trigger => trigger_uses_sensor trigger sensor
  end.

Section condition_matches.
Context `{EngineEnv}.

(** The [TimeWindow] arm: both bounds inclusive, [start > end] wraps past
    midnight, a bound that does not parse matches nothing. *)
Definition time_window_matches (start end_ : string) (outside : bool)
    (weekdays : list Weekday) (now : DateTime) : bool :=
  match parse_hm start, parse_hm end_ with
  | Some start, Some end_ =>
      let tod := local_time_of_day now in
      let inside :=
        if start <=? end_ then (start <=? tod) && (tod <=? end_)
        else (start <=? tod) || (tod <=? end_) in
      let weekday_matches :=
        match weekdays with [] => true | _ => false end
        || list_contains weekdays (weekday_from_chrono (local_weekday now)) in
      weekday_matches && (if outside then negb inside else inside)
  | _, _ => false
  end.

Fixpoint condition_matches (condition : ConditionSpec) (snapshot : SystemSnapshot) : bool :=
  match condition with
  | ConditionSpec.All conditions =>
      forallb (fun item => condition_matches item snapshot) conditions
  | ConditionSpec.Any conditions =>
      existsb (fun item => condition_matches item snapshot) conditions
  | ConditionSpec.Not condition => negb (condition_matches condition snapshot)
  | ConditionSpec.TimeWindow start end_ outside weekdays =>
      time_window_matches start end_ outside weekdays (snap_now snapshot)
  | ConditionSpec.Wifi ssid bssid connected =>
      is_none_or connected (fun value => eqb value (snap_wifi_connected snapshot))
      && is_none_or ssid (fun value => eqb (snap_wifi_ssid snapshot) (Some value))
      && is_none_or bssid (fun value =>
           is_some_and (snap_wifi_bssid snapshot) (fun actual =>
             eq_ignore_ascii_case actual value))
  | ConditionSpec.Network online interface vpn =>
      is_none_or online (fun value => eqb value (snap_network_online snapshot))
      && is_none_or vpn (fun value => eqb value (snap_vpn_active snapshot))
      && is_none_or interface (fun value => eqb (snap_active_interface snapshot) (Some value))
  | ConditionSpec.Mode name => eqb name (snap_mode snapshot)
  | ConditionSpec.PathExists path exists_ => eqb (path_exists (snap_now snapshot) path) exists_
  | ConditionSpec.Mounted path mounted =>
      eqb (bool_decide (components path ∈ snap_mounts snapshot)) mounted
  | ConditionSpec.Process name running =>
      eqb (bool_decide (name ∈ snap_processes snapshot)) running
  | ConditionSpec.Service name active =>
      eqb (default false (snap_services snapshot !! name)) active
  | ConditionSpec.Port port open protocol =>
      eqb (bool_decide ((protocol, port) ∈ snap_ports snapshot)) open
  | ConditionSpec.Session state user remote =>
      is_none_or state (fun value => eqb (snap_session_state snapshot) (Some value))
      && is_none_or remote (fun value => eqb (snap_session_remote snapshot) value)
      && is_none_or user (fun value => eqb (snap_session_user snapshot) (Some value))
  | ConditionSpec.Power on_ac battery_below lid_closed =>
      is_none_or on_ac (fun value => eqb (snap_on_ac snapshot) (Some value))
      && is_none_or lid_closed (fun value => eqb (snap_lid_closed snapshot) (Some value))
      && is_none_or battery_below (fun limit =>
           is_some_and (snap_battery_percent snapshot) (fun actual => actual <? limit))
  | ConditionSpec.SensorHealthy sensor healthy =>
      eqb (default false (snap_sensor_health snapshot !! sensor)) healthy
  end.
End condition_matches.
