(* ===== verification/Engine.v ===== *)
(** * The policy engine ([kovert-core/src/engine.rs])

    [PolicyEngine] with its constructor, its mutators and [handle]. An
    out-of-range index in Rust panics; an operation that can panic returns
    [None] for it. The candidates a rule contributes to one evaluation cycle
    are computed by [eval_rule], the body of the [for] loop of [handle]. *)

From stdpp Require Import base tactics option list strings gmap.
From Stdlib Require Import ZArith Lia Ascii.
From S2P Require Import Prelude RustStr RustPath Config Event Matching.
Local Open Scope Z_scope.
Local Open Scope stdpp_scope.

Record RuleRuntime := mkRuleRuntime {
  last_fired : option DateTime;
  armed_at : option DateTime;
  fired_once : bool;
  sequence_index : nat;
  sequence_started : option DateTime;
}.

Definition RuleRuntime_default : RuleRuntime := mkRuleRuntime None None false 0 None.

Definition set_armed_at (v : option DateTime) (rt : RuleRuntime) : RuleRuntime :=
  mkRuleRuntime (last_fired rt) v (fired_once rt) (sequence_index rt) (sequence_started rt).

Definition set_sequence (i : nat) (started : option DateTime) (rt : RuleRuntime) : RuleRuntime :=
  mkRuleRuntime (last_fired rt) (armed_at rt) (fired_once rt) i started.

(** [last_fired = Some(now); fired_once = true]. *)
Definition mark_fired (now : DateTime) (rt : RuleRuntime) : RuleRuntime :=
  mkRuleRuntime (Some now) (armed_at rt) true (sequence_index rt) (sequence_started rt).

Record ActionPlan := mkActionPlan {
  plan_rule_id : string;
  plan_priority : Z;
  plan_event_id : Uuid;
  plan_action : ActionSpec;
}.

Record PolicyEngine := mkPolicyEngine {
  engine_rules : list Rule;
  engine_runtime : gmap string RuleRuntime;
  engine_snapshot : SystemSnapshot;
  engine_recovery_mode : bool;
}.

(** The comparison of [rules.sort_by]: descending priority, then ascending
    identifier; [rule_leb l r] when [l] does not compare greater than [r]. *)
Definition rule_leb (left right : Rule) : bool :=
  match rule_priority right ?= rule_priority left with
  | Lt => true
  | Gt => false
  | Eq => String.leb (rule_id left) (rule_id right)
  end.

Definition sort_rules (rules : list Rule) : list Rule := sort_by rule_leb rules.

(** [PolicyEngine::new]; [now] is the clock read by the default snapshot. *)
Definition PolicyEngine_new (rules : list Rule) (initial_mode : string) (now : DateTime)
    : PolicyEngine :=
  let rules := sort_rules rules in {|
    engine_rules := rules;
    engine_runtime :=
      list_to_map (map (fun rule => (rule_id rule, RuleRuntime_default)) rules);
    engine_snapshot := set_snapshot_mode initial_mode (SystemSnapshot_default now);
    engine_recovery_mode := false;
  |}.

(** What [set_recovery_mode(true)] does to each runtime. *)
Definition disarm (rt : RuleRuntime) : RuleRuntime := set_armed_at None (set_sequence 0 None rt).

Definition set_recovery_mode (enabled : bool) (e : PolicyEngine) : PolicyEngine := {|
  engine_rules := engine_rules e;
  engine_runtime := if enabled then disarm <$> engine_runtime e else engine_runtime e;
  engine_snapshot := engine_snapshot e;
  engine_recovery_mode := enabled;
|}.

Definition set_mode (mode : string) (e : PolicyEngine) : PolicyEngine := {|
  engine_rules := engine_rules e;
  engine_runtime := engine_runtime e;
  engine_snapshot := set_snapshot_mode mode (engine_snapshot e);
  engine_recovery_mode := engine_recovery_mode e;
|}.

(** The loop of [replace_rules]: each rule takes its runtime out of the old
    map, or starts from the default. *)
Fixpoint carry_runtime (rules : list Rule) (old next : gmap string RuleRuntime)
    : gmap string RuleRuntime :=
  match rules with
  | [] => next
  | rule :: rules =>
      carry_runtime rules (delete (rule_id rule) old)
        (<[rule_id rule := default RuleRuntime_default (old !! rule_id rule)]> next)
  end.

Definition replace_rules (rules : list Rule) (e : PolicyEngine) : PolicyEngine :=
  let rules := sort_rules rules in {|
    engine_rules := rules;
    engine_runtime := carry_runtime rules (engine_runtime e) ∅;
    engine_snapshot := engine_snapshot e;
    engine_recovery_mode := engine_recovery_mode e;
  |}.

Definition plan_of (rule : Rule) (event : Event) (action : ActionSpec) : ActionPlan := {|
  plan_rule_id := rule_id rule;
  plan_priority := rule_priority rule;
  plan_event_id := event_id event;
  plan_action := action;
|}.

(** [append_actions]: the plans it pushes. *)
Definition append_actions (rule : Rule) (event : Event) : list ActionPlan :=
  map (plan_of rule event) (rule_actions rule).

(** The comparison of the sort in [resolve_conflicts]: descending priority. *)
Definition plan_leb (left right : ActionPlan) : bool :=
  plan_priority right <=? plan_priority left.

(** The filter of [resolve_conflicts]: [claimed.insert(key)] is true the first
    time a key is met. *)
Fixpoint claim_keys (claimed : gset string) (plans : list ActionPlan) : list ActionPlan :=
  match plans with
  | [] => []
  | plan :: plans =>
      match conflict_key (plan_action plan) with
      | None => plan :: claim_keys claimed plans
      | Some key =>
          if bool_decide (key ∈ claimed) then claim_keys claimed plans
          else plan :: claim_keys ({[key]} ∪ claimed) plans
      end
  end.

Definition resolve_conflicts (candidates : list ActionPlan) : list ActionPlan :=
  claim_keys ∅ (sort_by plan_leb candidates).

(** [sequence_matches]: the new runtime and the answer; [None] when
    [steps\[sequence_index\]] is out of range. *)
Definition sequence_matches (runtime : RuleRuntime) (steps : list TriggerSpec)
    (within : Duration) (event : Event) : option (RuleRuntime * bool) :=
  match steps with
  | [] => Some (runtime, false)
  | first :: _ =>
      let runtime :=
        if is_some_and (sequence_started runtime)
             (fun start => within <? elapsed (event_timestamp event) start)
        then set_sequence 0 None runtime else runtime in
      match steps !! sequence_index runtime with
      | None => None
      | Some expected =>
          if negb (trigger_matches expected event) then
            if trigger_matches first event
            then Some (set_sequence 1 (Some (event_timestamp event)) runtime, false)
            else Some (runtime, false)
          else
            let started :=
              if (sequence_index runtime =? 0)%nat then Some (event_timestamp event)
              else sequence_started runtime in
            let index := S (sequence_index runtime) in
            if (index =? length steps)%nat
            then Some (set_sequence 0 None runtime, true)
            else Some (set_sequence index started runtime, false)
      end
  end.

(** The actions a fail-closed rule keeps on a sensor failure. *)
Definition fail_closed_action (action : ActionSpec) : bool :=
  match action with
  | ActionSpec.LockVault _ | ActionSpec.NetworkIsolation true | ActionSpec.SetMode _ => true
  | _ => false
  end.

(** The plans of a rule whose sensor failed. *)
Definition sensor_failure_plans (rule : Rule) (event : Event) (sensor message : string)
    : list ActionPlan :=
  match rule_on_sensor_failure rule with
  | SensorFailurePolicy.Ignore => []
  | SensorFailurePolicy.Alert =>
      [plan_of rule event
         (ActionSpec.Notify "Kovert sensor failure" (sensor +:+ ": " +:+ message)
            NotificationUrgency.Critical)]
  | SensorFailurePolicy.FailClosed =>
      map (plan_of rule event) (List.filter fail_closed_action (rule_actions rule))
  end.

(** The failed sensor of an event, when the rule's trigger uses it. *)
Definition failed_sensor (rule : Rule) (event : Event) : option (string * string) :=
  match event_kind event with
  | EventKind.SensorFailure sensor message =>
      if trigger_uses_sensor (rule_trigger rule) sensor then Some (sensor, message) else None
  | _ => None
  end.

(** [once_per_boot && fired_once], or the cooldown is still running. *)
Definition suppressed (rule : Rule) (event : Event) (runtime : RuleRuntime) : bool :=
  (rule_once_per_boot rule && fired_once runtime)
  || is_some_and (last_fired runtime) (fun last =>
       elapsed (event_timestamp event) last <? rule_cooldown rule).

Section handle.
Context `{EngineEnv}.

Definition conditions_match (rule : Rule) (snapshot : SystemSnapshot) : bool :=
  is_none_or (rule_when rule) (fun condition => condition_matches condition snapshot).

(** The answer of the rule's trigger, with the runtime it leaves. *)
Definition match_trigger (rule : Rule) (event : Event) (runtime : RuleRuntime)
    : option (RuleRuntime * bool) :=
  match rule_trigger rule with
  | TriggerSpec.Sequence steps within => sequence_matches runtime steps within event
  | trigger => Some (runtime, trigger_matches trigger event)
  end.

(** The loop body of [handle] for an enabled rule: the rule's new runtime and
    the candidates it pushes. *)
Definition eval_rule (snapshot : SystemSnapshot) (event : Event) (rule : Rule)
    (runtime : RuleRuntime) : option (RuleRuntime * list ActionPlan) :=
  if suppressed rule event runtime then Some (runtime, []) else
  match failed_sensor rule event with
  | Some (sensor, message) => Some (runtime, sensor_failure_plans rule event sensor message)
  | None =>
      let conditions_match := conditions_match rule snapshot in
      match armed_at runtime with
      | Some armed =>
          if negb conditions_match then Some (set_armed_at None runtime, [])
          else if elapsed (event_timestamp event) armed <? rule_sustain_for rule
          then Some (runtime, [])
          else Some (mark_fired (event_timestamp event) (set_armed_at None runtime),
                     append_actions rule event)
      | None =>
          match match_trigger rule event runtime with
          | None => None
          | Some (runtime, trigger_matches) =>
              if negb trigger_matches || negb conditions_match then Some (runtime, [])
              else if rule_sustain_for rule =? 0
              then Some (mark_fired (event_timestamp event) runtime, append_actions rule event)
              else Some (set_armed_at (Some (event_timestamp event)) runtime, [])
          end
      end
  end.

(** [self.runtime.entry(rule.id).or_default()]. *)
Definition runtime_entry (runtime : gmap string RuleRuntime) (rule : Rule) : RuleRuntime :=
  default RuleRuntime_default (runtime !! rule_id rule).

(** The [for] loop of [handle]. *)
Fixpoint eval_rules (snapshot : SystemSnapshot) (event : Event) (rules : list Rule)
    (runtime : gmap string RuleRuntime)
    : option (gmap string RuleRuntime * list ActionPlan) :=
  match rules with
  | [] => Some (runtime, [])
  | rule :: rules =>
      if negb (rule_enabled rule) then eval_rules snapshot event rules runtime
      else match eval_rule snapshot event rule (runtime_entry runtime rule) with
           | None => None
           | Some (entry, plans) =>
               match eval_rules snapshot event rules (<[rule_id rule := entry]> runtime) with
               | None => None
               | Some (runtime, candidates) => Some (runtime, plans ++ candidates)
               end
           end
  end.

(** [PolicyEngine::handle]. *)
Definition handle (e : PolicyEngine) (event : Event) : option (PolicyEngine * list ActionPlan) :=
  let snapshot := apply (engine_snapshot e) event in
  if engine_recovery_mode e then
    Some (mkPolicyEngine (engine_rules e) (engine_runtime e) snapshot true, [])
  else
    match eval_rules snapshot event (engine_rules e) (engine_runtime e) with
    | None => None
    | Some (runtime, candidates) =>
        Some (mkPolicyEngine (engine_rules e) runtime snapshot false,
              resolve_conflicts candidates)
    end.
End handle.
