(* ===== verification/Resolution.v ===== *)
(** * Conflict resolution and rule ordering of the policy engine

    The lemmas on [claim_keys] and the sort orders, and the correctness of
    [resolve_conflicts] and of the order [PolicyEngine::new] keeps its rules
    in. *)

From stdpp Require Import base tactics option list strings gmap sorting.
From Stdlib Require Import ZArith Lia Ascii.
From S2P Require Import Prelude RustStr RustPath Config Event Matching Engine.
Local Open Scope Z_scope.
Local Open Scope stdpp_scope.

Definition plan_key (plan : ActionPlan) : option string := conflict_key (plan_action plan).

(** ** The sort orders are total preorders *)
Lemma plan_leb_total x y : plan_leb x y = true \/ plan_leb y x = true.
Proof. unfold plan_leb. lia. Qed.

Lemma plan_leb_trans x y z : plan_leb x y = true -> plan_leb y z = true -> plan_leb x z = true.
Proof. unfold plan_leb. lia. Qed.

Lemma string_leb_total x y : String.leb x y = true \/ String.leb y x = true.
Proof. apply String.leb_total. Qed.

Lemma string_leb_trans x y z :
  String.leb x y = true -> String.leb y z = true -> String.leb x z = true.
Proof.
  intros Hxy%Is_true_true Hyz%Is_true_true. apply Is_true_true.
  exact (transitivity (R := String.le) Hxy Hyz).
Qed.

(** The order of the rules as a relation on priorities and identifiers. *)
Lemma rule_leb_iff l r :
  rule_leb l r = true <->
  rule_priority r < rule_priority l
  \/ (rule_priority r = rule_priority l /\ String.leb (rule_id l) (rule_id r) = true).
Proof.
  unfold rule_leb.
  destruct (Z.compare_spec (rule_priority r) (rule_priority l)); intuition (auto; lia).
Qed.

Lemma rule_leb_total x y : rule_leb x y = true \/ rule_leb y x = true.
Proof.
  rewrite !rule_leb_iff.
  destruct (Z.lt_trichotomy (rule_priority x) (rule_priority y)) as [?|[?|?]];
    [auto| |auto].
  destruct (string_leb_total (rule_id x) (rule_id y)); [left|right]; auto.
Qed.

Lemma rule_leb_trans x y z : rule_leb x y = true -> rule_leb y z = true -> rule_leb x z = true.
Proof.
  rewrite !rule_leb_iff. intros [?|[? Hxy]] [?|[? Hyz]]; try (left; lia).
  right. split; [lia|]. by eapply string_leb_trans.
Qed.

(** ** The claiming filter *)
Lemma claim_keys_sublist claimed plans : claim_keys claimed plans `sublist_of` plans.
Proof.
  revert claimed. induction plans as [|p ps IH]; intros claimed; simpl; [done|].
  repeat case_match; by constructor.
Qed.

Lemma claim_keys_keyless claimed plans :
  filter (fun p => plan_key p = None) (claim_keys claimed plans)
  = filter (fun p => plan_key p = None) plans.
Proof.
  revert claimed. induction plans as [|p ps IH]; intros claimed; simpl; [done|].
  unfold plan_key in *. rewrite filter_cons.
  repeat case_match; rewrite ?filter_cons, ?IH; repeat case_decide; congruence.
Qed.

Lemma claim_keys_fresh claimed plans p key :
  p ∈ claim_keys claimed plans -> plan_key p = Some key -> key ∉ claimed.
Proof.
  revert claimed. induction plans as [|q ps IH]; intros claimed; simpl; [by inversion 1|].
  unfold plan_key in *. intros Hp Hkey.
  destruct (conflict_key (plan_action q)) eqn:Hq.
  - case_bool_decide; [by eapply IH|].
    apply elem_of_cons in Hp as [->|Hp]; [congruence|].
    specialize (IH _ Hp Hkey). set_solver.
  - apply elem_of_cons in Hp as [->|Hp]; [congruence|by eapply IH].
Qed.

Lemma claim_keys_NoDup claimed plans : NoDup (omap plan_key (claim_keys claimed plans)).
Proof.
  revert claimed. induction plans as [|p ps IH]; intros claimed; simpl; [constructor|].
  destruct (conflict_key (plan_action p)) as [key|] eqn:Hkey.
  - case_bool_decide; [apply IH|]. cbn. unfold plan_key at 1. rewrite Hkey.
    constructor; [|apply IH]. intros (q & Hq & Hqk)%list_elem_of_omap.
    eapply claim_keys_fresh in Hq; [|exact Hqk]. set_solver.
  - cbn. unfold plan_key at 1. rewrite Hkey. apply IH.
Qed.

(** Every key met is claimed by a plan at least as early in the list. *)
Lemma claim_keys_dominates (R : relation ActionPlan) `{!Reflexive R} claimed plans p key :
  StronglySorted R plans -> p ∈ plans -> plan_key p = Some key -> key ∉ claimed ->
  exists q, q ∈ claim_keys claimed plans /\ plan_key q = Some key /\ R q p.
Proof.
  intros Hs. revert claimed. induction Hs as [|q ps Hs IH Hq]; intros claimed Hp Hkey Hfresh;
    [by inversion Hp|].
  simpl. apply elem_of_cons in Hp as [->|Hp].
  - unfold plan_key in Hkey. rewrite Hkey, bool_decide_eq_false_2 by done.
    exists q. split; [apply elem_of_cons; auto|done].
  - destruct (conflict_key (plan_action q)) as [key'|] eqn:Hq'.
    + case_bool_decide as Hcl; [by apply IH|].
      destruct (decide (key' = key)) as [->|Hne].
      * exists q. split; [apply elem_of_cons; auto|]. split; [done|].
        rewrite Forall_forall in Hq. by apply Hq.
      * destruct (IH ({[key']} ∪ claimed)) as (r & ? & ? & ?); [done..|set_solver|].
        exists r. split; [apply elem_of_cons; auto|done].
    + destruct (IH claimed) as (r & ? & ? & ?); [done..|].
      exists r. split; [apply elem_of_cons; auto|done].
Qed.

#[export] Instance plan_leb_refl : Reflexive (fun a b => plan_leb a b = true).
Proof. intros p. unfold plan_leb. lia. Qed.

Lemma resolve_conflicts_elem candidates p :
  p ∈ resolve_conflicts candidates -> p ∈ candidates.
Proof.
  intros Hp. eapply elem_of_sublist in Hp; [|apply claim_keys_sublist].
  by apply elem_of_sort_by in Hp.
Qed.

(** C18: resolve_conflicts keeps only candidates, sorts by descending priority, never keeps
    two plans with the same conflict key, drops a plan only when a plan of at least its
    priority with the same key is kept, and keeps every plan without key. *)
Theorem resolve_conflicts_correct (candidates : list ActionPlan) :
  let plans := resolve_conflicts candidates in
  NoDup (omap plan_key plans)
  /\ StronglySorted (fun p q => plan_priority q <= plan_priority p) plans
  /\ (forall p, p ∈ plans -> p ∈ candidates)
  /\ filter (fun p => plan_key p = None) plans ≡ₚ filter (fun p => plan_key p = None) candidates
  /\ (forall p key, p ∈ candidates -> plan_key p = Some key ->
        exists q, q ∈ plans /\ plan_key q = Some key /\ plan_priority p <= plan_priority q).
Proof.
  assert (Hs := sort_by_StronglySorted plan_leb plan_leb_total plan_leb_trans candidates).
  split_and!.
  - apply claim_keys_NoDup.
  - eapply StronglySorted_sublist; [apply claim_keys_sublist|].
    eapply StronglySorted_impl; [|exact Hs]. unfold plan_leb. lia.
  - intros p. apply resolve_conflicts_elem.
  - unfold resolve_conflicts. rewrite claim_keys_keyless. by rewrite sort_by_Permutation.
  - intros p key Hp Hkey.
    destruct (claim_keys_dominates _ ∅ _ p key Hs) as (q & Hq & Hqk & Hle);
      [by apply elem_of_sort_by|done|set_solver|].
    exists q. split_and!; [done..|]. unfold plan_leb in Hle. lia.
Qed.
