(* ===== verification/EngineRun.v ===== *)
(** * Runs of the policy engine

    [rule_outcome] is the abstract step relation of one rule;
    [eval_rule_sound] refines the loop body of [handle] to it.
    [eval_rules_project] says what one evaluation cycle does to one rule, and
    [trace] is the step relation of the engine under its public operations,
    with [trace_rule_ind] the induction that carries an invariant of one
    rule's runtime along a run. *)

From stdpp Require Import base tactics option list strings gmap sorting.
From Stdlib Require Import ZArith Lia Ascii.
From S2P Require Import Prelude RustStr RustPath Config Event Matching Engine Resolution.
Local Open Scope Z_scope.
Local Open Scope stdpp_scope.

Section runs.
Context `{EngineEnv}.

(** ** One rule *)

(** What the evaluation of an enabled rule may do, as a relation. *)
Inductive rule_outcome (snapshot : SystemSnapshot) (event : Event) (rule : Rule)
    (rt : RuleRuntime) : RuleRuntime -> list ActionPlan -> Prop :=
| outcome_suppressed :
    suppressed rule event rt = true ->
    rule_outcome snapshot event rule rt rt []
| outcome_sensor_failure sensor message :
    suppressed rule event rt = false ->
    failed_sensor rule event = Some (sensor, message) ->
    rule_outcome snapshot event rule rt rt (sensor_failure_plans rule event sensor message)
| outcome_disarmed armed :
    suppressed rule event rt = false -> failed_sensor rule event = None ->
    armed_at rt = Some armed -> conditions_match rule snapshot = false ->
    rule_outcome snapshot event rule rt (set_armed_at None rt) []
| outcome_waiting armed :
    suppressed rule event rt = false -> failed_sensor rule event = None ->
    armed_at rt = Some armed -> conditions_match rule snapshot = true ->
    elapsed (event_timestamp event) armed < rule_sustain_for rule ->
    rule_outcome snapshot event rule rt rt []
| outcome_sustained armed :
    suppressed rule event rt = false -> failed_sensor rule event = None ->
    armed_at rt = Some armed -> conditions_match rule snapshot = true ->
    rule_sustain_for rule <= elapsed (event_timestamp event) armed ->
    rule_outcome snapshot event rule rt
      (mark_fired (event_timestamp event) (set_armed_at None rt)) (append_actions rule event)
| outcome_unmatched rt' matched :
    suppressed rule event rt = false -> failed_sensor rule event = None ->
    armed_at rt = None -> match_trigger rule event rt = Some (rt', matched) ->
    matched && conditions_match rule snapshot = false ->
    rule_outcome snapshot event rule rt rt' []
| outcome_fired rt' :
    suppressed rule event rt = false -> failed_sensor rule event = None ->
    armed_at rt = None -> match_trigger rule event rt = Some (rt', true) ->
    conditions_match rule snapshot = true -> rule_sustain_for rule = 0 ->
    rule_outcome snapshot event rule rt
      (mark_fired (event_timestamp event) rt') (append_actions rule event)
| outcome_armed rt' :
    suppressed rule event rt = false -> failed_sensor rule event = None ->
    armed_at rt = None -> match_trigger rule event rt = Some (rt', true) ->
    conditions_match rule snapshot = true -> rule_sustain_for rule <> 0 ->
    rule_outcome snapshot event rule rt (set_armed_at (Some (event_timestamp event)) rt') [].

Lemma eval_rule_sound snapshot event rule rt rt' plans :
  eval_rule snapshot event rule rt = Some (rt', plans) ->
  rule_outcome snapshot event rule rt rt' plans.
Proof.
  unfold eval_rule. intros He.
  destruct (suppressed rule event rt) eqn:Hs; [simplify_eq; by constructor|].
  destruct (failed_sensor rule event) as [[s m]|] eqn:Hf; [simplify_eq; by constructor|].
  destruct (armed_at rt) as [a|] eqn:Ha.
  - destruct (conditions_match rule snapshot) eqn:Hc; simpl in He;
      [|simplify_eq; by eapply outcome_disarmed].
    destruct (Z.ltb_spec (elapsed (event_timestamp event) a) (rule_sustain_for rule));
      simplify_eq; [by eapply outcome_waiting|by eapply outcome_sustained].
  - destruct (match_trigger rule event rt) as [[rt1 b]|] eqn:Hm; [|done].
    destruct b, (conditions_match rule snapshot) eqn:Hc; simpl in He;
      try (simplify_eq; eapply outcome_unmatched; eauto; rewrite Hc; done).
    destruct (Z.eqb_spec (rule_sustain_for rule) 0); simplify_eq;
      [by eapply outcome_fired|by eapply outcome_armed].
Qed.

(** The plans of one rule carry its identifier, its priority and the event. *)
Lemma eval_rule_plans snapshot event rule rt rt' plans :
  eval_rule snapshot event rule rt = Some (rt', plans) ->
  exists actions, plans = map (plan_of rule event) actions.
Proof.
  intros Ho%eval_rule_sound. destruct Ho; try (by exists []); try (by eexists).
  unfold sensor_failure_plans. case_match; [by eexists [_]|by exists []|by eexists].
Qed.

Lemma eval_rule_plan_rule_id snapshot event rule rt rt' plans p :
  eval_rule snapshot event rule rt = Some (rt', plans) -> p ∈ plans ->
  plan_rule_id p = rule_id rule.
Proof.
  intros (actions & ->)%eval_rule_plans. rewrite elem_of_map. by intros (? & -> & _).
Qed.

(** A disabled rule is skipped. *)
Definition step_rule (snapshot : SystemSnapshot) (event : Event) (rule : Rule)
    (rt : RuleRuntime) : option (RuleRuntime * list ActionPlan) :=
  if rule_enabled rule then eval_rule snapshot event rule rt else Some (rt, []).

(** ** One evaluation cycle *)
Definition plans_of (id : string) (plans : list ActionPlan) : list ActionPlan :=
  filter (fun p => plan_rule_id p = id) plans.

Lemma plans_of_all id plans :
  (forall p, p ∈ plans -> plan_rule_id p = id) -> plans_of id plans = plans.
Proof.
  unfold plans_of. induction plans as [|p ps IH]; intros Hp; [done|].
  rewrite filter_cons_True by (apply Hp; by left). f_equal. apply IH. intros q Hq. apply Hp. by right.
Qed.

Lemma plans_of_none id plans :
  (forall p, p ∈ plans -> plan_rule_id p <> id) -> plans_of id plans = [].
Proof.
  unfold plans_of. induction plans as [|p ps IH]; intros Hp; [done|].
  rewrite filter_cons_False by (apply Hp; by left). apply IH. intros q Hq. apply Hp. by right.
Qed.

Lemma plans_of_app id ps qs : plans_of id (ps ++ qs) = plans_of id ps ++ plans_of id qs.
Proof. apply filter_app. Qed.

Lemma eval_rules_other snapshot event rules rts rts' cs id :
  eval_rules snapshot event rules rts = Some (rts', cs) ->
  id ∉ map rule_id rules ->
  rts' !! id = rts !! id /\ plans_of id cs = [].
Proof.
  revert rts cs. induction rules as [|r rules IH]; intros rts cs; simpl.
  { intros ? ?; by simplify_eq. }
  rewrite not_elem_of_cons. intros He [Hne Hid].
  destruct (rule_enabled r); simpl in He; [|by eapply IH].
  destruct (eval_rule _ _ _ _) as [[entry plans]|] eqn:Hr; [|done].
  destruct (eval_rules _ _ _ _) as [[rts1 cs1]|] eqn:Hrs; simplify_eq.
  destruct (IH _ _ Hrs Hid) as [Hl Hc]. rewrite lookup_insert_ne in Hl by done.
  split; [done|]. rewrite plans_of_app, Hc, app_nil_r.
  apply plans_of_none. intros p Hp. erewrite eval_rule_plan_rule_id by done. done.
Qed.

(** The cycle restricted to one rule is that rule's own step. *)
Lemma eval_rules_project snapshot event rules rts rts' cs r :
  eval_rules snapshot event rules rts = Some (rts', cs) ->
  NoDup (map rule_id rules) -> r ∈ rules ->
  step_rule snapshot event r (runtime_entry rts r)
  = Some (runtime_entry rts' r, plans_of (rule_id r) cs).
Proof.
  revert rts cs. induction rules as [|q rules IH]; intros rts cs; simpl; [by inversion 3|].
  rewrite NoDup_cons. intros He [Hq Hnd] Hr. unfold step_rule, runtime_entry in *.
  apply elem_of_cons in Hr as [->|Hr].
  - destruct (rule_enabled q); simpl in He.
    + destruct (eval_rule _ _ _ _) as [[entry plans]|] eqn:Hr; [|done].
      destruct (eval_rules _ _ _ _) as [[rts1 cs1]|] eqn:Hrs; simplify_eq.
      destruct (eval_rules_other _ _ _ _ _ _ _ Hrs Hq) as [-> Hc].
      rewrite lookup_insert_eq. rewrite plans_of_app, Hc, app_nil_r. simpl.
      do 2 f_equal. symmetry. apply plans_of_all. eauto using eval_rule_plan_rule_id.
    + destruct (eval_rules_other _ _ _ _ _ _ _ He Hq) as [-> ->]. done.
  - assert (rule_id r <> rule_id q) as Hne.
    { intros Heq. apply Hq. rewrite <- Heq. by apply elem_of_map_1. }
    destruct (rule_enabled q); simpl in He; [|by apply IH].
    destruct (eval_rule _ _ q _) as [[entry plans]|] eqn:Hq'; [|done].
    destruct (eval_rules _ _ _ _) as [[rts1 cs1]|] eqn:Hrs; simplify_eq.
    specialize (IH _ _ Hrs Hnd Hr). rewrite lookup_insert_ne in IH by done. rewrite IH.
    rewrite plans_of_app, (plans_of_none (rule_id r) plans); [done|].
    intros p Hp. erewrite eval_rule_plan_rule_id by done. done.
Qed.

Lemma resolve_plans_of candidates id p :
  p ∈ plans_of id (resolve_conflicts candidates) -> p ∈ plans_of id candidates.
Proof.
  unfold plans_of. rewrite !list_elem_of_filter. intros [? ?]. eauto using resolve_conflicts_elem.
Qed.

(** ** Reload keeps the runtime of the rules that stay *)
Lemma carry_runtime_other rules old next id :
  id ∉ map rule_id rules -> carry_runtime rules old next !! id = next !! id.
Proof using.
  revert old next. induction rules as [|r rules IH]; intros old next; simpl; [done|].
  rewrite not_elem_of_cons. intros [? ?]. by rewrite IH, lookup_insert_ne.
Qed.

Lemma carry_runtime_lookup rules old next r :
  NoDup (map rule_id rules) -> r ∈ rules ->
  carry_runtime rules old next !! rule_id r
  = Some (default RuleRuntime_default (old !! rule_id r)).
Proof using.
  revert old next. induction rules as [|q rules IH]; intros old next; simpl; [by inversion 2|].
  rewrite NoDup_cons. intros [Hq Hnd] [->|Hr]%elem_of_cons.
  - by rewrite carry_runtime_other, lookup_insert_eq.
  - rewrite IH by done. rewrite lookup_delete_ne; [done|].
    intros Heq. apply Hq. rewrite Heq. by apply elem_of_map_1.
Qed.

Lemma sort_rules_ids rules : map rule_id (sort_rules rules) ≡ₚ map rule_id rules.
Proof using. unfold sort_rules. by rewrite sort_by_Permutation. Qed.

(** ** Runs

    One handled event of a run: the event, the snapshot its conditions were
    evaluated in, whether recovery mode was on, and the plan returned. *)
Record Entry := mkEntry {
  entry_event : Event;
  entry_snapshot : SystemSnapshot;
  entry_recovery : bool;
  entry_plans : list ActionPlan;
}.

(** The runs of a new engine in which rule [r] stays configured: the public
    operations in any order, reloads that keep [r] included. *)
Inductive trace (r : Rule) : list Entry -> PolicyEngine -> Prop :=
| trace_start rules mode now :
    NoDup (map rule_id rules) -> r ∈ rules -> trace r [] (PolicyEngine_new rules mode now)
| trace_handle log e event e' plans :
    trace r log e -> handle e event = Some (e', plans) ->
    trace r
      (log ++ [mkEntry event (apply (engine_snapshot e) event) (engine_recovery_mode e) plans]) e'
| trace_set_mode log e mode :
    trace r log e -> trace r log (set_mode mode e)
| trace_set_recovery log e enabled :
    trace r log e -> trace r log (set_recovery_mode enabled e)
| trace_reload log e rules :
    trace r log e -> NoDup (map rule_id rules) -> r ∈ rules ->
    trace r log (replace_rules rules e).

(** Handling a list of events, with the entries it adds to the history. *)
Fixpoint run_log (e : PolicyEngine) (events : list Event)
    : option (PolicyEngine * list Entry) :=
  match events with
  | [] => Some (e, [])
  | event :: events =>
      match handle e event with
      | None => None
      | Some (e', plans) =>
          match run_log e' events with
          | None => None
          | Some (e'', log) =>
              Some (e'', mkEntry event (apply (engine_snapshot e) event)
                           (engine_recovery_mode e) plans :: log)
          end
      end
  end.

Lemma run_log_trace r log e events e' entries :
  trace r log e -> run_log e events = Some (e', entries) -> trace r (log ++ entries) e'.
Proof.
  revert log e entries. induction events as [|event events IH]; intros log e entries Ht; simpl.
  - intros [= <- <-]. by rewrite app_nil_r.
  - destruct (handle e event) as [[e1 plans]|] eqn:Hh; [|done].
    destruct (run_log e1 events) as [[e2 rest]|] eqn:Hr; [|done]. intros [= -> <-].
    rewrite cons_middle, app_assoc. eapply IH; [|done]. by eapply trace_handle.
Qed.

Definition runtime_of (e : PolicyEngine) (r : Rule) : RuleRuntime :=
  runtime_entry (engine_runtime e) r.

Lemma handle_rules e event e' plans :
  handle e event = Some (e', plans) -> engine_rules e' = engine_rules e.
Proof. unfold handle. intros. repeat case_match; by simplify_eq/=. Qed.

Lemma trace_rules r log e :
  trace r log e -> NoDup (map rule_id (engine_rules e)) /\ r ∈ engine_rules e.
Proof.
  induction 1 as [rules mode now Hnd Hr|log e event e' plans Ht IH Hh|log e mode Ht IH
                 |log e b Ht IH|log e rules Ht IH Hnd Hr]; simpl; [| |done|done|].
  - rewrite sort_rules_ids. split; [done|]. by apply elem_of_sort_by.
  - by rewrite (handle_rules _ _ _ _ Hh).
  - rewrite sort_rules_ids. split; [done|]. by apply elem_of_sort_by.
Qed.

(** What [handle] does to one rule. *)
Lemma handle_project e event e' plans r :
  handle e event = Some (e', plans) ->
  NoDup (map rule_id (engine_rules e)) -> r ∈ engine_rules e ->
  if engine_recovery_mode e then runtime_of e' r = runtime_of e r /\ plans = []
  else exists candidates,
      step_rule (apply (engine_snapshot e) event) event r (runtime_of e r)
      = Some (runtime_of e' r, candidates)
      /\ forall p, p ∈ plans_of (rule_id r) plans -> p ∈ candidates.
Proof.
  unfold handle, runtime_of. intros Hh Hnd Hr.
  destruct (engine_recovery_mode e); [by simplify_eq/=|].
  destruct (eval_rules _ _ _ _) as [[rts cs]|] eqn:Hrs; simplify_eq/=.
  eexists. split; [by eapply eval_rules_project|]. apply resolve_plans_of.
Qed.

Lemma new_runtime rules mode now r :
  runtime_of (PolicyEngine_new rules mode now) r = RuleRuntime_default.
Proof using.
  unfold runtime_of, runtime_entry. simpl.
  destruct (list_to_map _ !! _) as [rt|] eqn:Hl; [|done]. simpl.
  apply elem_of_list_to_map_2, elem_of_map in Hl as (q & Hq & _). by simplify_eq.
Qed.

Lemma set_recovery_runtime enabled e r :
  runtime_of (set_recovery_mode enabled e) r
  = if enabled then disarm (runtime_of e r) else runtime_of e r.
Proof using.
  destruct enabled; [|done]. unfold runtime_of, runtime_entry. simpl. rewrite lookup_fmap.
  by destruct (engine_runtime e !! rule_id r).
Qed.

Lemma replace_rules_runtime rules e r :
  NoDup (map rule_id rules) -> r ∈ rules ->
  runtime_of (replace_rules rules e) r = runtime_of e r.
Proof using.
  intros. unfold runtime_of, runtime_entry. simpl.
  rewrite carry_runtime_lookup; [done|by rewrite sort_rules_ids|by apply elem_of_sort_by].
Qed.

(** In recovery mode no rule is armed or part-way through a sequence. *)
Lemma trace_recovery_disarmed r log e :
  trace r log e -> engine_recovery_mode e = true -> disarm (runtime_of e r) = runtime_of e r.
Proof.
  induction 1 as [rules mode now Hnd Hr|log e event e' plans Ht IH Hh|log e mode Ht IH
                 |log e b Ht IH|log e rules Ht IH Hnd Hr]; [done| |done| |].
  - destruct (trace_rules _ _ _ Ht) as [Hnd Hr].
    pose proof (handle_project _ _ _ _ _ Hh Hnd Hr) as Hp. unfold handle in Hh.
    destruct (engine_recovery_mode e); [destruct Hp as [-> _]; auto|].
    case_match; [case_match|]; by simplify_eq/=.
  - intros Hb. simpl in Hb. subst b. by rewrite set_recovery_runtime.
  - intros Hrec. rewrite replace_rules_runtime by done. by apply IH.
Qed.

Section rule_invariant.
Context (r : Rule) (I : list Entry -> RuleRuntime -> Prop).
Context (I_start : I [] RuleRuntime_default).
Context (I_step : forall log event snapshot rt rt' candidates plans,
  I log rt -> step_rule snapshot event r rt = Some (rt', candidates) ->
  (forall p, p ∈ plans_of (rule_id r) plans -> p ∈ candidates) ->
  I (log ++ [mkEntry event snapshot false plans]) rt').
Context (I_recovery : forall log event snapshot rt,
  I log rt -> disarm rt = rt -> I (log ++ [mkEntry event snapshot true []]) rt).
Context (I_disarm : forall log rt, I log rt -> I log (disarm rt)).

(** An invariant of one rule's runtime and history holds along every run. *)
Lemma trace_rule_ind log e : trace r log e -> I log (runtime_of e r).
Proof using I_start I_step I_recovery I_disarm.
  induction 1 as [rules mode now Hnd Hr|log e event e' plans Ht IH Hh|log e mode Ht IH
                 |log e b Ht IH|log e rules Ht IH Hnd Hr]; [| |done| |].
  - by rewrite new_runtime.
  - destruct (trace_rules _ _ _ Ht) as [Hnd Hr].
    pose proof (handle_project _ _ _ _ _ Hh Hnd Hr) as Hp.
    destruct (engine_recovery_mode e) eqn:Hrec.
    + destruct Hp as [-> ->]. apply I_recovery; [done|]. by eapply trace_recovery_disarmed.
    + destruct Hp as (cs & Hs & Hin). by eapply I_step.
  - rewrite set_recovery_runtime. destruct b; auto.
  - by rewrite replace_rules_runtime.
Qed.
End rule_invariant.
End runs.
