(* ===== verification/Fixtures.v ===== *)
(** * Concrete inputs

    An environment, rules and events on which the theorems of the policy
    engine are instantiated. *)

From stdpp Require Import base tactics option list strings gmap.
From Stdlib Require Import ZArith Lia Ascii.
From S2P Require Import Prelude RustStr RustPath Config Event Matching Engine EngineRun.
Local Open Scope Z_scope.
Local Open Scope stdpp_scope.

Definition one_day : Z := secs 86400.

(** UTC as the local zone; the epoch was a Thursday; two readable times. *)
#[global] Instance fixture_env : EngineEnv := {|
  parse_hm := fun s =>
    if eqb s "08:00" then Some (secs (8 * 3600))
    else if eqb s "18:30" then Some (secs (18 * 3600 + 1800)) else None;
  local_weekday := fun t =>
    match (t / one_day) `mod` 7 with
    | 0 => Chrono.Thu | 1 => Chrono.Fri | 2 => Chrono.Sat | 3 => Chrono.Sun
    | 4 => Chrono.Mon | 5 => Chrono.Tue | _ => Chrono.Wed
    end;
  local_time_of_day := fun t => t `mod` one_day;
  path_exists := fun _ p => path_eqb p "/run/kovert";
|}.

Definition base_rule (id : string) (trigger : TriggerSpec) : Rule := {|
  rule_id := id; rule_description := EmptyString; rule_enabled := true; rule_priority := 10;
  rule_cooldown := secs 10; rule_sustain_for := 0; rule_once_per_boot := false;
  rule_on_sensor_failure := SensorFailurePolicy.Alert; rule_trigger := trigger;
  rule_when := None;
  rule_actions := [ActionSpec.LockVault "documents"; ActionSpec.SetMode "lockdown"];
|}.

(** A debugger is started. *)
Definition debugger_rule : Rule :=
  base_rule "debugger" (TriggerSpec.Process (Some "gdb") (Some true)).

(** The lid stays closed for five seconds. *)
Definition lid_rule : Rule := {|
  rule_id := "lid"; rule_description := EmptyString; rule_enabled := true; rule_priority := 5;
  rule_cooldown := 0; rule_sustain_for := secs 5; rule_once_per_boot := true;
  rule_on_sensor_failure := SensorFailurePolicy.FailClosed;
  rule_trigger := TriggerSpec.Power None None (Some true);
  rule_when := Some (ConditionSpec.Power None None (Some true));
  rule_actions := [ActionSpec.LockVault "archive"];
|}.

(** A hotkey, then a removed device. *)
Definition sequence_rule : Rule :=
  base_rule "sequence"
    (TriggerSpec.Sequence
       [TriggerSpec.Hotkey "panic"; TriggerSpec.Usb (Some DeviceAction.Removed) None None None]
       (secs 30)).

Definition debugger_event (id : string) (at_ : Z) : Event :=
  Event_new id (secs at_) "processes" (EventKind.Process "gdb" true (Some 42)).
Definition lid_event (id : string) (at_ : Z) (closed : bool) : Event :=
  Event_new id (secs at_) "power" (EventKind.Power (Some true) None (Some closed)).
Definition hotkey_event (id : string) (at_ : Z) : Event :=
  Event_new id (secs at_) "hotkeys" (EventKind.Hotkey "panic").
Definition device_event (id : string) (at_ : Z) : Event :=
  Event_new id (secs at_) "usb" (EventKind.Usb DeviceAction.Removed None None None).

Definition fixture_rules : list Rule := [debugger_rule; lid_rule; sequence_rule].
Definition fixture_engine : PolicyEngine := PolicyEngine_new fixture_rules "normal" 0.

Definition fixture_events : list Event :=
  [debugger_event "e0" 1; lid_event "e1" 2 true; debugger_event "e2" 4; lid_event "e3" 8 true;
   hotkey_event "e4" 9; device_event "e5" 10; debugger_event "e6" 12; lid_event "e7" 13 true].

Definition fixture_run : option (PolicyEngine * list Entry) :=
  run_log fixture_engine fixture_events.
Definition fixture_log : list Entry := default [] (snd <$> fixture_run).
Definition fixture_end : PolicyEngine := default fixture_engine (fst <$> fixture_run).
Definition no_entry : Entry :=
  mkEntry (debugger_event EmptyString 0) (SystemSnapshot_default 0) false [].
Definition fixture_entry (i : nat) : Entry := default no_entry (fixture_log !! i).

Lemma fixture_ids : NoDup (map rule_id fixture_rules).
Proof. by apply (bool_decide_unpack (NoDup (map rule_id fixture_rules))); vm_compute. Qed.

Lemma fixture_trace r : r ∈ fixture_rules -> trace r fixture_log fixture_end.
Proof.
  intros Hr.
  refine (run_log_trace r [] fixture_engine fixture_events fixture_end fixture_log _ _).
  - apply trace_start; [exact fixture_ids|done].
  - vm_compute. reflexivity.
Qed.
