(* ===== verification/EngineProps.v ===== *)
(** * Behaviour of the policy engine along runs

    Recovery mode, cooldown, once-per-boot, sustained conditions and ordered
    sequences, each over every run of the engine, and the absence of panics. *)

From stdpp Require Import base tactics option list strings gmap sorting.
From Stdlib Require Import ZArith Lia Ascii.
From S2P Require Import Prelude RustStr RustPath Config Event Matching Engine Resolution EngineRun Fixtures.
Local Open Scope Z_scope.
Local Open Scope stdpp_scope.

Lemma elapsed_max later earlier : elapsed later earlier = Z.max 0 (later - earlier).
Proof. unfold elapsed. destruct (Z.ltb_spec (later - earlier) 0); lia. Qed.

Section props.
Context `{EngineEnv}.

(** Rule [r] contributes a plan to the entry. *)
Definition emits (r : Rule) (a : Entry) : Prop :=
  exists p, p ∈ plans_of (rule_id r) (entry_plans a).

(** It does so by its own actions, not as a reaction to a failed sensor. *)
Definition fires (r : Rule) (a : Entry) : Prop :=
  emits r a /\ failed_sensor r (entry_event a) = None.

Definition entry_time (a : Entry) : DateTime := event_timestamp (entry_event a).

(** ** One step of one rule *)
Lemma sequence_matches_frame rt steps within event rt' b :
  sequence_matches rt steps within event = Some (rt', b) ->
  last_fired rt' = last_fired rt /\ armed_at rt' = armed_at rt /\ fired_once rt' = fired_once rt.
Proof.
  unfold sequence_matches. intros Hs. repeat case_match; simplify_eq/=; done.
Qed.

Lemma match_trigger_frame r event rt rt' b :
  match_trigger r event rt = Some (rt', b) ->
  last_fired rt' = last_fired rt /\ armed_at rt' = armed_at rt /\ fired_once rt' = fired_once rt.
Proof.
  unfold match_trigger. intros Hm.
  destruct (rule_trigger r); try (simplify_eq; done). by eapply sequence_matches_frame.
Qed.

Lemma step_rule_sound snapshot event r rt rt' cs :
  step_rule snapshot event r rt = Some (rt', cs) ->
  (rule_enabled r = false /\ rt' = rt /\ cs = [])
  \/ (rule_enabled r = true /\ rule_outcome snapshot event r rt rt' cs).
Proof.
  unfold step_rule. destruct (rule_enabled r); intros Hs; [right|left; by simplify_eq].
  split; [done|]. by apply eval_rule_sound.
Qed.

(** The effect of a step on the firing record. *)
Lemma step_rule_fired snapshot event r rt rt' cs :
  step_rule snapshot event r rt = Some (rt', cs) ->
  (last_fired rt' = last_fired rt /\ fired_once rt' = fired_once rt
   /\ (cs = [] \/ suppressed r event rt = false /\ failed_sensor r event <> None))
  \/ (last_fired rt' = Some (event_timestamp event) /\ fired_once rt' = true
      /\ suppressed r event rt = false /\ failed_sensor r event = None).
Proof.
  intros [(_ & -> & ->)|[_ Ho]]%step_rule_sound; [by auto|].
  destruct Ho; try (by auto); try (by right);
    try match goal with Hm : match_trigger _ _ _ = _ |- _ =>
      apply match_trigger_frame in Hm as (? & ? & ?) end; simpl; auto.
  left. split_and!; [done..|]. right. split; congruence.
Qed.

Lemma suppressed_false r event rt :
  suppressed r event rt = false ->
  rule_once_per_boot r && fired_once rt = false
  /\ forall last, last_fired rt = Some last ->
       rule_cooldown r <= elapsed (event_timestamp event) last.
Proof.
  unfold suppressed. intros [Ho Hc]%orb_false_iff. split; [done|].
  intros last Hl. rewrite Hl in Hc. simpl in Hc. lia.
Qed.

Lemma lookup_snoc_Some {A} (l : list A) x i y :
  (l ++ [x]) !! i = Some y -> l !! i = Some y \/ (i = length l /\ y = x).
Proof.
  intros [?|[Hlen Hi]]%lookup_app_Some; [by auto|].
  right. destruct (i - length l)%nat eqn:Hd; simpl in Hi; [|done]. split; [lia|congruence].
Qed.

Lemma not_emits_nil r event snapshot b : ~ emits r (mkEntry event snapshot b []).
Proof using. intros [p Hp]. inversion Hp. Qed.

(** ** What a firing rules out later

    [K a rt] is what the runtime remembers of the firing [a]; [Q a b] relates
    it to any later contribution [b] of the rule. *)
Section after_firing.
Context (r : Rule) (K : Entry -> RuleRuntime -> Prop) (Q : Entry -> Entry -> Prop).
Context (K_keep : forall a snapshot event rt rt' cs,
  K a rt -> step_rule snapshot event r rt = Some (rt', cs) -> K a rt').
Context (K_disarm : forall a rt, K a rt -> K a (disarm rt)).
Context (K_new : forall event snapshot plans rt',
  last_fired rt' = Some (event_timestamp event) -> fired_once rt' = true ->
  K (mkEntry event snapshot false plans) rt').
Context (Q_new : forall a event snapshot plans rt,
  K a rt -> suppressed r event rt = false -> Q a (mkEntry event snapshot false plans)).

Definition after_inv (log : list Entry) (rt : RuleRuntime) : Prop :=
  (forall i a, log !! i = Some a -> fires r a -> K a rt)
  /\ (forall i j a b, (i < j)%nat -> log !! i = Some a -> log !! j = Some b ->
        fires r a -> emits r b -> Q a b).

Lemma after_inv_step log event snapshot rt rt' candidates plans :
  after_inv log rt -> step_rule snapshot event r rt = Some (rt', candidates) ->
  (forall p, p ∈ plans_of (rule_id r) plans -> p ∈ candidates) ->
  after_inv (log ++ [mkEntry event snapshot false plans]) rt'.
Proof using K_keep K_new Q_new.
  intros [HK HQ] Hstep Hin. pose proof (step_rule_fired _ _ _ _ _ _ Hstep) as Hf. split.
  - intros i a [Hi|[-> ->]]%lookup_snoc_Some Hfa; [by eauto|].
    destruct Hfa as [[p Hp%Hin] Hns].
    destruct Hf as [(_ & _ & [->|[_ ?]])|(? & ? & _)]; [by inversion Hp|done|by apply K_new].
  - intros i j a b Hij Hi Hj Hfa Hb.
    apply lookup_snoc_Some in Hi as [Hi|[-> ->]], Hj as [Hj|[-> ->]];
      [by eauto| |apply lookup_lt_Some in Hj; lia|lia].
    apply (Q_new _ _ _ _ rt); [by eauto|]. destruct Hb as [p Hp%Hin].
    destruct Hf as [(_ & _ & [->|[? _]])|(_ & _ & ? & _)]; [by inversion Hp|done..].
Qed.

Lemma after_firing log e i j a b :
  trace r log e -> (i < j)%nat -> log !! i = Some a -> log !! j = Some b ->
  fires r a -> emits r b -> Q a b.
Proof using K_keep K_disarm K_new Q_new.
  intros Ht. assert (after_inv log (runtime_of e r)) as [_ HQ]; [|apply HQ].
  revert Ht. apply trace_rule_ind.
  - split; intros ? **; done.
  - apply after_inv_step.
  - intros log' event snapshot rt [HK HQ] _. split.
    + intros k c [Hk|[-> ->]]%lookup_snoc_Some [Hc ?]; [by eapply HK|].
      by apply not_emits_nil in Hc.
    + intros k l c d Hkl [Hk|[-> ->]]%lookup_snoc_Some Hl Hc Hd;
        [|by destruct Hc as [Hc%not_emits_nil _]].
      apply lookup_snoc_Some in Hl as [Hl|[-> ->]]; [by eapply HQ|].
      by apply not_emits_nil in Hd.
  - intros log' rt [HK HQ]. split; eauto.
Qed.
End after_firing.

(** C9: In every run (events, mode and recovery changes, reloads that keep the rule), once
    rule r has fired, no plan of r is emitted for an event whose timestamp is less than
    rule_cooldown after the firing. *)
Theorem cooldown_spacing r log e i j a b :
  trace r log e -> (i < j)%nat -> log !! i = Some a -> log !! j = Some b ->
  fires r a -> emits r b ->
  rule_cooldown r <= elapsed (entry_time b) (entry_time a).
Proof.
  eapply (after_firing r
    (fun a rt => exists last, last_fired rt = Some last
                 /\ (0 < rule_cooldown r -> entry_time a <= last))
    (fun a b => rule_cooldown r <= elapsed (entry_time b) (entry_time a))).
  - intros c snapshot event rt rt' cs (last & Hl & Hle) Hf%step_rule_fired.
    destruct Hf as [(-> & _)|(-> & _ & Hs & _)]; [eauto|].
    apply suppressed_false in Hs as [_ Hs]. specialize (Hs _ Hl). rewrite elapsed_max in Hs.
    eexists. split; [done|]. lia.
  - done.
  - intros event snapshot plans rt' -> _. by eexists.
  - intros c event snapshot plans rt (last & Hl & Hle) [_ Hs]%suppressed_false.
    specialize (Hs _ Hl). revert Hs. unfold entry_time in *. simpl. rewrite !elapsed_max. lia.
Qed.

(** A rule marked once_per_boot that has fired never contributes a plan again in the
    run, whatever events, mode changes, recovery periods and reloads that keep the rule
    follow. *)
Theorem once_per_boot_fires_once r log e i j a b :
  rule_once_per_boot r = true ->
  trace r log e -> (i < j)%nat -> log !! i = Some a -> log !! j = Some b ->
  fires r a -> ~ emits r b.
Proof.
  intros Honce Ht Hij Hi Hj Ha Hb.
  refine (after_firing r (fun _ rt => fired_once rt = true) (fun _ _ => False)
            _ _ _ _ log e i j a b Ht Hij Hi Hj Ha Hb).
  - intros c snapshot event rt rt' cs Hf [(_ & -> & _)|(_ & -> & _)]%step_rule_fired; done.
  - done.
  - done.
  - intros c event snapshot plans rt Hf [Hs _]%suppressed_false. by rewrite Honce, Hf in Hs.
Qed.
End props.

(** ** Concrete runs *)
Lemma fires_intro r a :
  match plans_of (rule_id r) (entry_plans a) with [] => False | _ => True end ->
  failed_sensor r (entry_event a) = None -> fires r a.
Proof.
  intros Hp Hf. split; [|done]. unfold emits.
  destruct (plans_of (rule_id r) (entry_plans a)) as [|p ps]; [done|]. exists p. by left.
Qed.

Lemma cooldown_spacing_witness :
  rule_cooldown debugger_rule
  <= elapsed (entry_time (fixture_entry 6)) (entry_time (fixture_entry 0)).
Proof.
  refine (cooldown_spacing debugger_rule fixture_log fixture_end 0 6
            (fixture_entry 0) (fixture_entry 6) _ _ _ _ _ _).
  - apply fixture_trace. left.
  - lia.
  - vm_compute. reflexivity.
  - vm_compute. reflexivity.
  - apply fires_intro; vm_compute; done.
  - refine (proj1 (fires_intro _ _ _ _)); vm_compute; done.
Defined.

Lemma once_per_boot_fires_once_witness : ~ emits lid_rule (fixture_entry 7).
Proof.
  refine (once_per_boot_fires_once lid_rule fixture_log fixture_end 3 7
            (fixture_entry 3) (fixture_entry 7) _ _ _ _ _ _).
  - reflexivity.
  - apply fixture_trace. right. left.
  - lia.
  - vm_compute. reflexivity.
  - vm_compute. reflexivity.
  - apply fires_intro; vm_compute; done.
Defined.
