(* ===== verification/EngineFire.v ===== *)
(** * When a rule fires: sequences and sustained conditions

    A declarative account of why a rule fired, over the whole history of a
    run, and the proof that the incremental bookkeeping of [handle]
    ([sequence_index], [sequence_started], [armed_at]) implements it. *)

From stdpp Require Import base tactics option list strings gmap sorting.
From Stdlib Require Import ZArith Lia Ascii.
From S2P Require Import Prelude RustStr RustPath Config Event Matching Engine Resolution.
From S2P Require Import EngineRun EngineProps Fixtures.
Local Open Scope Z_scope.
Local Open Scope stdpp_scope.

(** ** The declarative reading of a trigger

    [sequence_seen steps within events]: the history contains, in order, an
    event for each step; the last of them is the last event of the history,
    and each comes no later than [within] after the first. *)
Definition step_matches (step : TriggerSpec) (event : Event) : Prop :=
  trigger_matches step event = true.

Definition in_window (within : Duration) (first event : Event) : Prop :=
  elapsed (event_timestamp event) (event_timestamp first) <= within.

Definition sequence_seen (steps : list TriggerSpec) (within : Duration) (events : list Event)
    : Prop :=
  exists first rest,
    (first :: rest) `sublist_of` events
    /\ Forall2 step_matches steps (first :: rest)
    /\ last (first :: rest) = last events
    /\ Forall (in_window within first) rest.

Definition trigger_seen (r : Rule) (events : list Event) : Prop :=
  match rule_trigger r with
  | TriggerSpec.Sequence steps within => sequence_seen steps within events
  | trigger => exists event, last events = Some event /\ trigger_matches trigger event = true
  end.

(** ** Progress of a sequence *)
Definition sequence_progress (steps : list TriggerSpec) (within : Duration)
    (events : list Event) (rt : RuleRuntime) : Prop :=
  sequence_index rt = 0%nat
  \/ exists first rest,
       sequence_started rt = Some (event_timestamp first)
       /\ (first :: rest) `sublist_of` events
       /\ Forall2 step_matches (take (sequence_index rt) steps) (first :: rest)
       /\ Forall (in_window within first) rest.

Lemma sequence_progress_snoc steps within events event rt :
  sequence_progress steps within events rt ->
  sequence_progress steps within (events ++ [event]) rt.
Proof.
  intros [Hz|(first & rest & ? & Hsub & ? & ?)]; [by left|].
  right. exists first, rest. split_and!; [done| |done..].
  etrans; [exact Hsub|]. by apply sublist_inserts_r.
Qed.

(** A single event starts a sequence. *)
Lemma sequence_progress_start steps within events event s rest started :
  steps = s :: rest -> step_matches s event -> started = Some (event_timestamp event) ->
  forall rt, sequence_progress steps within (events ++ [event]) (set_sequence 1 started rt).
Proof.
  intros -> Hs -> rt. right. exists event, []. simpl. split_and!; [done| | |constructor].
  - by apply sublist_inserts_l.
  - rewrite take_0. by repeat constructor.
Qed.

(** The next step of a sequence in progress. *)
Lemma sequence_extend steps within events event rt step :
  sequence_progress steps within events rt ->
  is_some_and (sequence_started rt)
    (fun start => within <? elapsed (event_timestamp event) start) = false ->
  steps !! sequence_index rt = Some step -> step_matches step event ->
  exists first rest,
    (if (sequence_index rt =? 0)%nat then Some (event_timestamp event) else sequence_started rt)
      = Some (event_timestamp first)
    /\ (first :: rest) `sublist_of` (events ++ [event])
    /\ Forall2 step_matches (take (S (sequence_index rt)) steps) (first :: rest)
    /\ Forall (in_window within first) rest
    /\ last (first :: rest) = Some event.
Proof.
  intros Hp Hw Hstep Hm. rewrite (take_S_r _ _ _ Hstep).
  destruct (Nat.eqb_spec (sequence_index rt) 0) as [Hz|Hnz].
  { exists event, []. rewrite Hz, take_0. split_and!; [done| |by repeat constructor|done|done].
    by apply sublist_inserts_l. }
  destruct Hp as [?|(first & rest & Hst & Hsub & Hall & Hwin)]; [done|].
  exists first, (rest ++ [event]). split_and!.
  - done.
  - rewrite app_comm_cons. by apply sublist_app.
  - rewrite app_comm_cons. apply Forall2_app; [done|]. by repeat constructor.
  - apply Forall_app. split; [done|]. repeat constructor. rewrite Hst in Hw.
    unfold in_window. simpl in Hw. lia.
  - rewrite app_comm_cons. apply last_snoc.
Qed.

Lemma sequence_matches_progress steps within events event rt rt' b :
  sequence_progress steps within events rt ->
  sequence_matches rt steps within event = Some (rt', b) ->
  sequence_progress steps within (events ++ [event]) rt'
  /\ (b = true -> sequence_seen steps within (events ++ [event])).
Proof.
  intros Hp Hs. unfold sequence_matches in Hs.
  destruct steps as [|s steps']; [simplify_eq; split; [by apply sequence_progress_snoc|done]|].
  set (expired := is_some_and _ _) in Hs.
  set (rt0 := if expired then set_sequence 0 None rt else rt) in Hs.
  assert (sequence_progress (s :: steps') within events rt0) as Hp0.
  { unfold rt0. destruct expired; [by left|done]. }
  assert (is_some_and (sequence_started rt0)
            (fun start => within <? elapsed (event_timestamp event) start) = false) as Hw.
  { unfold rt0. by destruct expired eqn:He. }
  clearbody rt0. clear expired Hp.
  destruct ((s :: steps') !! sequence_index rt0) as [step|] eqn:Hstep; [|done].
  destruct (trigger_matches step event) eqn:Hm; simpl in Hs.
  - destruct (sequence_extend _ _ _ _ _ _ Hp0 Hw Hstep Hm) as (first & rest & Hst & Hsub & Hall & Hwin & Hlast).
    destruct (Nat.eqb_spec (sequence_index rt0) (length steps')) as [Hlen|Hlen]; simplify_eq/=.
    + split; [by left|]. intros _. exists first, rest. split_and!; [done| | |done].
      * rewrite Hlen, firstn_all in Hall. done.
      * by rewrite Hlast, last_snoc.
    + split; [|done]. right. exists first, rest. done.
  - destruct (trigger_matches s event) eqn:Hm0; simplify_eq; split; try done.
    + by eapply sequence_progress_start.
    + by apply sequence_progress_snoc.
Qed.

Section fire.
Context `{EngineEnv}.

Definition log_events (log : list Entry) : list Event := map entry_event log.

(** The sequence state of a rule agrees with the history. *)
Definition trigger_progress (r : Rule) (events : list Event) (rt : RuleRuntime) : Prop :=
  match rule_trigger r with
  | TriggerSpec.Sequence steps within => sequence_progress steps within events rt
  | _ => True
  end.

Lemma trigger_progress_snoc r events event rt rt' :
  trigger_progress r events rt ->
  sequence_index rt' = sequence_index rt -> sequence_started rt' = sequence_started rt ->
  trigger_progress r (events ++ [event]) rt'.
Proof using.
  unfold trigger_progress, sequence_progress. intros Hp Hi Hs.
  destruct (rule_trigger r); try done. rewrite Hi, Hs. by apply sequence_progress_snoc.
Qed.

Lemma match_trigger_seen r events event rt rt' b :
  trigger_progress r events rt -> match_trigger r event rt = Some (rt', b) ->
  trigger_progress r (events ++ [event]) rt'
  /\ (b = true -> trigger_seen r (events ++ [event])).
Proof using.
  unfold trigger_progress, match_trigger, trigger_seen. intros Hp Hm.
  destruct (rule_trigger r); simplify_eq;
    try (split; [done|]; intros ?; eexists; split; [apply last_snoc|done]).
  by eapply sequence_matches_progress.
Qed.

(** The rule's condition held at every event of positions [i..j] at which the
    rule was evaluated, and recovery mode was off. *)
Definition held_between (r : Rule) (log : list Entry) (i j : nat) (since : DateTime) : Prop :=
  forall k c, (i <= k <= j)%nat -> log !! k = Some c -> since <= entry_time c ->
    failed_sensor r (entry_event c) = None ->
    entry_recovery c = false /\ conditions_match r (entry_snapshot c) = true.

(** Why rule [r] fired at position [j]: its trigger completed at some position
    [i], at least [sustain_for] before, and its condition held since. *)
Definition fire_reason (r : Rule) (log : list Entry) (j : nat) (b : Entry) : Prop :=
  exists i a, (i <= j)%nat /\ log !! i = Some a
    /\ trigger_seen r (log_events (take (S i) log))
    /\ rule_sustain_for r <= elapsed (entry_time b) (entry_time a)
    /\ held_between r log i j (entry_time a).

Definition armed_reason (r : Rule) (log : list Entry) (rt : RuleRuntime) (t : DateTime) : Prop :=
  rule_enabled r = true
  /\ rule_once_per_boot r && fired_once rt = false
  /\ (forall last, last_fired rt = Some last -> rule_cooldown r <= elapsed t last)
  /\ exists i a, log !! i = Some a /\ entry_time a = t
     /\ trigger_seen r (log_events (take (S i) log))
     /\ held_between r log i (length log) t.

Definition fire_inv (r : Rule) (log : list Entry) (rt : RuleRuntime) : Prop :=
  trigger_progress r (log_events log) rt
  /\ (forall t, armed_at rt = Some t -> armed_reason r log rt t)
  /\ (forall j b, log !! j = Some b -> fires r b ->
        rule_enabled r = true /\ conditions_match r (entry_snapshot b) = true
        /\ fire_reason r log j b).

Lemma take_snoc_lt {A} (l : list A) x i y :
  l !! i = Some y -> take (S i) (l ++ [x]) = take (S i) l.
Proof using. intros Hi%lookup_lt_Some. apply take_app_le. lia. Qed.

Lemma fire_reason_snoc r log x j b :
  log !! j = Some b -> fire_reason r log j b -> fire_reason r (log ++ [x]) j b.
Proof using.
  intros Hj (i & a & Hij & Hi & Hseen & Hs & Hheld). exists i, a.
  split_and!; [done|by apply lookup_app_l_Some|by rewrite (take_snoc_lt _ _ _ _ Hi)|done|].
  intros k c Hk [Hc|[-> ->]]%lookup_snoc_Some; [by eapply Hheld|].
  apply lookup_lt_Some in Hj. lia.
Qed.

Lemma fire_inv_log r log x j b :
  (forall j b, log !! j = Some b -> fires r b ->
     rule_enabled r = true /\ conditions_match r (entry_snapshot b) = true
     /\ fire_reason r log j b) ->
  (fires r x -> rule_enabled r = true /\ conditions_match r (entry_snapshot x) = true
     /\ fire_reason r (log ++ [x]) (length log) x) ->
  (log ++ [x]) !! j = Some b -> fires r b ->
  rule_enabled r = true /\ conditions_match r (entry_snapshot b) = true
  /\ fire_reason r (log ++ [x]) j b.
Proof.
  intros Hold Hnew [Hj|[-> ->]]%lookup_snoc_Some Hb; [|by apply Hnew].
  destruct (Hold _ _ Hj Hb) as (? & ? & ?). split_and!; [done..|by apply fire_reason_snoc].
Qed.

(** An armed rule stays justified by an entry whose evaluation kept it armed. *)
Lemma armed_reason_snoc r log rt t x :
  armed_reason r log rt t ->
  (t <= entry_time x -> failed_sensor r (entry_event x) = None ->
     entry_recovery x = false /\ conditions_match r (entry_snapshot x) = true) ->
  armed_reason r (log ++ [x]) rt t.
Proof.
  intros (He & Ho & Hc & i & a & Hi & Ht & Hseen & Hheld) Hx. split_and!; [done..|].
  exists i, a.
  split_and!; [by apply lookup_app_l_Some|done|by rewrite (take_snoc_lt _ _ _ _ Hi)|].
  intros k c Hk [Hc'|[-> ->]]%lookup_snoc_Some ? ?; [|by apply Hx].
  eapply Hheld; [|done..]. apply lookup_lt_Some in Hc'. lia.
Qed.

Lemma armed_not_suppressed r log rt t event :
  armed_reason r log rt t -> t <= event_timestamp event -> suppressed r event rt = false.
Proof.
  intros (_ & Ho & Hc & _) Ht. unfold suppressed. rewrite Ho. simpl.
  destruct (last_fired rt) as [last|] eqn:Hl; [|done]. simpl.
  specialize (Hc _ eq_refl). rewrite elapsed_max in *. lia.
Qed.

(** ** The invariant is kept by every outcome of a rule *)
Lemma fires_candidates r event snapshot plans candidates :
  (forall p, p ∈ plans_of (rule_id r) plans -> p ∈ candidates) ->
  fires r (mkEntry event snapshot false plans) ->
  candidates <> [] /\ failed_sensor r event = None.
Proof using. intros Hin [[p Hp%Hin] Hns]. split; [by intros ->; inversion Hp|done]. Qed.

(** The step that completes a trigger. *)
Lemma trigger_now r log event snapshot plans :
  trigger_seen r (log_events log ++ [event]) -> conditions_match r snapshot = true ->
  let x := mkEntry event snapshot false plans in
  (log ++ [x]) !! length log = Some x
  /\ trigger_seen r (log_events (take (S (length log)) (log ++ [x])))
  /\ held_between r (log ++ [x]) (length log) (S (length log)) (event_timestamp event).
Proof.
  intros Hseen Hcond x. split_and!.
  - by rewrite lookup_app_r, Nat.sub_diag.
  - rewrite firstn_all2 by (rewrite length_app; simpl; lia). unfold log_events in *.
    by rewrite map_app.
  - intros k c Hk [Hc|[-> ->]]%lookup_snoc_Some ? ?; [|done].
    apply lookup_lt_Some in Hc. lia.
Qed.

(** An entry the rule does not fire at. *)
Lemma fire_inv_quiet r log rt x rt' :
  fire_inv r log rt -> ~ fires r x ->
  trigger_progress r (log_events (log ++ [x])) rt' ->
  (forall t, armed_at rt' = Some t -> armed_reason r (log ++ [x]) rt' t) ->
  fire_inv r (log ++ [x]) rt'.
Proof. intros (_ & _ & Hold) Hx ? ?. split_and!; [done..|]. intros j b. by apply fire_inv_log. Qed.

(** An entry at which the rule may fire. *)
Lemma fire_inv_fired r log rt x rt' :
  fire_inv r log rt -> rule_enabled r = true -> conditions_match r (entry_snapshot x) = true ->
  trigger_progress r (log_events (log ++ [x])) rt' -> armed_at rt' = None ->
  fire_reason r (log ++ [x]) (length log) x ->
  fire_inv r (log ++ [x]) rt'.
Proof.
  intros (_ & _ & Hold) ? ? ? Ha ?. split_and!; [done|by rewrite Ha|].
  intros j b. by apply fire_inv_log.
Qed.

(** The invariant across an evaluation with the rule already armed. *)
Lemma fire_inv_sustained r log event snapshot plans rt armed :
  let x := mkEntry event snapshot false plans in
  armed_reason r log rt armed -> conditions_match r snapshot = true ->
  rule_sustain_for r <= elapsed (event_timestamp event) armed ->
  fire_reason r (log ++ [x]) (length log) x.
Proof.
  intros x Harmed Hc Hle.
  destruct (armed_reason_snoc _ _ _ _ x Harmed) as (_ & _ & _ & i & a & Hi & Ht & Hseen & Hheld);
    [done|].
  exists i, a. rewrite length_app in Hheld. simpl in Hheld. subst armed.
  assert (i < length (log ++ [x]))%nat as Hlt by by eapply lookup_lt_Some.
  rewrite length_app in Hlt. simpl in Hlt. split_and!; [lia|done..|].
  intros k c Hk. apply Hheld. lia.
Qed.

Lemma fire_inv_outcome r log event snapshot rt rt' candidates plans :
  fire_inv r log rt -> rule_enabled r = true ->
  rule_outcome snapshot event r rt rt' candidates ->
  (forall p, p ∈ plans_of (rule_id r) plans -> p ∈ candidates) ->
  fire_inv r (log ++ [mkEntry event snapshot false plans]) rt'.
Proof.
  intros Hinv Hen Ho Hin. pose proof Hinv as (Hprog & Harmed & _).
  set (x := mkEntry event snapshot false plans) in *.
  assert (candidates = [] -> ~ fires r x) as Hquiet.
  { intros ? [? _]%(fires_candidates _ _ _ _ _ Hin). done. }
  assert (forall rt1, sequence_index rt1 = sequence_index rt ->
            sequence_started rt1 = sequence_started rt ->
            trigger_progress r (log_events (log ++ [x])) rt1) as Hkeep.
  { intros rt1 ? ?. unfold log_events. rewrite map_app. by eapply trigger_progress_snoc. }
  assert (forall rt1 b, match_trigger r event rt = Some (rt1, b) ->
            trigger_progress r (log_events (log ++ [x])) rt1
            /\ (b = true -> trigger_seen r (log_events log ++ [event]))) as Hmatch.
  { intros rt1 b Hm. unfold log_events. rewrite map_app. by eapply match_trigger_seen. }
  destruct Ho as [Hs|sensor message Hs Hf|armed Hs Hf Ha Hc|armed Hs Hf Ha Hc Hlt
    |armed Hs Hf Ha Hc Hle|rt1 matched Hs Hf Ha Hm Hc|rt1 Hs Hf Ha Hm Hc Hz|rt1 Hs Hf Ha Hm Hc Hz];
    try (destruct (Hmatch _ _ Hm) as [Hp Hseen];
         apply match_trigger_frame in Hm as (Hl' & Ha' & Hf')).
  - eapply fire_inv_quiet; [done|by apply Hquiet|by apply Hkeep|].
    intros t Ht. apply armed_reason_snoc; [auto|]. intros Hle _.
    by erewrite armed_not_suppressed in Hs by eauto.
  - eapply fire_inv_quiet; [done| |by apply Hkeep|].
    + intros [_ ?]. simpl in *. congruence.
    + intros t Ht. apply armed_reason_snoc; [auto|]. simpl. congruence.
  - eapply fire_inv_quiet; [done|by apply Hquiet|by apply Hkeep|done].
  - eapply fire_inv_quiet; [done|by apply Hquiet|by apply Hkeep|].
    intros t Ht. by apply armed_reason_snoc; [auto|].
  - eapply fire_inv_fired; [done..|by apply Hkeep|done|]. by eapply fire_inv_sustained; eauto.
  - eapply fire_inv_quiet; [done|by apply Hquiet|done|]. congruence.
  - eapply fire_inv_fired; [done..|simpl; congruence|].
    destruct (trigger_now r log event snapshot plans (Hseen eq_refl) Hc) as (? & ? & Hheld).
    exists (length log), x. split_and!; [lia|done..|rewrite elapsed_max; lia|].
    intros k c Hk. apply Hheld. lia.
  - eapply fire_inv_quiet; [done|by apply Hquiet|done|]. simpl. intros t Ht. simplify_eq.
    destruct (suppressed_false _ _ _ Hs) as [Hs1 Hs2].
    destruct (trigger_now r log event snapshot plans (Hseen eq_refl) Hc) as (? & ? & Hheld).
    split_and!; [done|simpl; congruence|simpl; rewrite Hl'; done|].
    exists (length log), x. split_and!; [done..|]. rewrite length_app. simpl. by rewrite Nat.add_1_r.
Qed.

Lemma fire_inv_trace r log e : trace r log e -> fire_inv r log (runtime_of e r).
Proof.
  apply trace_rule_ind.
  - split_and!; [|done|done]. unfold trigger_progress. case_match; try done. by left.
  - intros log' event snapshot rt rt' cs plans Hinv [(Hen & -> & ->)|[Hen Ho]]%step_rule_sound Hin;
      [|by eapply fire_inv_outcome].
    pose proof Hinv as (Hprog & Harmed & _). eapply fire_inv_quiet; [done| | |].
    + by intros [? _]%(fires_candidates _ _ _ _ _ Hin).
    + unfold log_events. rewrite map_app. by eapply trigger_progress_snoc.
    + intros t Ht. destruct (Harmed _ Ht) as [? _]. congruence.
  - intros log' event snapshot rt Hinv Hdis. pose proof Hinv as (Hprog & Harmed & _).
    eapply fire_inv_quiet; [done| | |].
    + by intros [?%not_emits_nil _].
    + unfold log_events. rewrite map_app. by eapply trigger_progress_snoc.
    + rewrite <- Hdis. done.
  - intros log' rt (Hprog & Harmed & Hf). split_and!; [|done|done].
    unfold trigger_progress. case_match; try done. by left.
Qed.

(** What a rule may contribute to an event. *)
Definition allowed_action (r : Rule) (event : Event) (action : ActionSpec) : Prop :=
  match failed_sensor r event with
  | None => action ∈ rule_actions r
  | Some (sensor, message) =>
      match rule_on_sensor_failure r with
      | SensorFailurePolicy.Ignore => False
      | SensorFailurePolicy.Alert =>
          action = ActionSpec.Notify "Kovert sensor failure" (sensor +:+ ": " +:+ message)
                     NotificationUrgency.Critical
      | SensorFailurePolicy.FailClosed =>
          action ∈ rule_actions r
          /\ ((exists vault, action = ActionSpec.LockVault vault)
              \/ action = ActionSpec.NetworkIsolation true
              \/ exists mode, action = ActionSpec.SetMode mode)
      end
  end.

Lemma fail_closed_action_iff action :
  fail_closed_action action = true <->
  (exists vault, action = ActionSpec.LockVault vault)
  \/ action = ActionSpec.NetworkIsolation true
  \/ exists mode, action = ActionSpec.SetMode mode.
Proof using.
  split; [destruct action as [| | |[]| | | | | | |]; simpl; intros; eauto; done|].
  by intros [[? ->]|[->|[? ->]]].
Qed.

Lemma eval_rule_allowed snapshot event r rt rt' plans p :
  eval_rule snapshot event r rt = Some (rt', plans) -> p ∈ plans ->
  p = plan_of r event (plan_action p) /\ allowed_action r event (plan_action p).
Proof.
  intros Ho%eval_rule_sound Hp. unfold allowed_action.
  destruct Ho as [|sensor message Hs Hf| | | | | |]; try (by inversion Hp).
  - rewrite Hf. unfold sensor_failure_plans in Hp. destruct (rule_on_sensor_failure r).
    + by apply list_elem_of_singleton in Hp as ->.
    + by inversion Hp.
    + apply elem_of_map in Hp as (action & -> & Ha). split; [done|]. simpl.
      rewrite list_elem_of_In, filter_In, <- list_elem_of_In, fail_closed_action_iff in Ha. done.
  - apply elem_of_map in Hp as (action & -> & Ha). by case_match.
  - apply elem_of_map in Hp as (action & -> & Ha). by case_match.
Qed.

(** Every plan of the rule in a run is one it may contribute. *)
Lemma trace_plans r log e j b p :
  trace r log e -> log !! j = Some b -> p ∈ plans_of (rule_id r) (entry_plans b) ->
  rule_enabled r = true /\ entry_recovery b = false
  /\ p = plan_of r (entry_event b) (plan_action p)
  /\ allowed_action r (entry_event b) (plan_action p).
Proof.
  intros Ht. revert j b p.
  induction Ht as [| log e event e' plans Ht IH Hh | | |]; [done| |done..].
  intros j b p [Hj|[-> ->]]%lookup_snoc_Some Hp; [by eapply IH|]. simpl in *.
  destruct (trace_rules _ _ _ Ht) as [Hnd Hr].
  pose proof (handle_project _ _ _ _ _ Hh Hnd Hr) as Hproj.
  destruct (engine_recovery_mode e); [destruct Hproj as [_ ->]; by inversion Hp|].
  destruct Hproj as (cs & Hs & Hin). apply Hin in Hp. unfold step_rule in Hs.
  destruct (rule_enabled r); [|simplify_eq; by inversion Hp].
  destruct (eval_rule_allowed _ _ _ _ _ _ _ Hs Hp). done.
Qed.

(** C1: In every run of the engine that keeps rule r, a plan of r for an event comes from r
    while it is enabled and recovery mode is off, carries r's id and priority and the
    event's id, and its action is one r may take. On the failure of a sensor its trigger
    uses, that is what its on_sensor_failure policy allows: nothing, the alert, or those of
    its actions that lock a vault, isolate the network or set a mode; trigger and conditions
    are not consulted then. On any other event it is one of r's actions, r's conditions hold
    in the snapshot taken at that event, and there is a reason: r's trigger (for a sequence:
    all steps in order within the window) completed at an earlier or the same event, at
    least rule_sustain_for before, and at every event since then that is not stamped before
    it and is not a failure of a sensor of r, recovery mode was off and r's conditions held. *)
Theorem fire_sound r log e j b p :
  trace r log e -> log !! j = Some b -> p ∈ plans_of (rule_id r) (entry_plans b) ->
  rule_enabled r = true /\ entry_recovery b = false
  /\ p = plan_of r (entry_event b) (plan_action p)
  /\ allowed_action r (entry_event b) (plan_action p)
  /\ (failed_sensor r (entry_event b) = None ->
        conditions_match r (entry_snapshot b) = true /\ fire_reason r log j b).
Proof.
  intros Ht Hj Hp. destruct (trace_plans _ _ _ _ _ _ Ht Hj Hp) as (? & ? & ? & ?).
  split_and!; [done..|]. intros Hf. apply fire_inv_trace in Ht as (_ & _ & Hinv).
  destruct (Hinv _ _ Hj) as (_ & ? & ?); [|done]. split; [by exists p|done].
Qed.
End fire.

(** The lid rule locks the archive at the second report of a closed lid: armed
    by the first, six seconds earlier. *)
Lemma fire_sound_witness :
  conditions_match lid_rule (entry_snapshot (fixture_entry 3)) = true
  /\ fire_reason lid_rule fixture_log 3 (fixture_entry 3).
Proof.
  set (p := plan_of lid_rule (lid_event "e3" 8 true) (ActionSpec.LockVault "archive")).
  destruct (fire_sound lid_rule fixture_log fixture_end 3 (fixture_entry 3) p)
    as (_ & _ & _ & _ & Hreason).
  - apply fixture_trace. right. left.
  - vm_compute. reflexivity.
  - apply list_elem_of_In. vm_compute. by left.
  - apply Hreason. vm_compute. reflexivity.
Defined.
