(* ===== verification/EngineSafety.v ===== *)
(** * Safety of one evaluation cycle

    [handle] never panics on a well-formed engine and keeps it well formed;
    recovery mode suspends every rule; every plan is accounted for by an
    enabled rule; a failed sensor only lets through what the rule's policy
    allows; an uninterrupted sequence is recognised. *)

From stdpp Require Import base tactics option list strings gmap sorting.
From Stdlib Require Import ZArith Lia Ascii.
From S2P Require Import Prelude RustStr RustPath Config Event Matching Engine Resolution.
From S2P Require Import EngineRun EngineProps EngineFire Fixtures.
Local Open Scope Z_scope.
Local Open Scope stdpp_scope.

(** ** Sequences *)

(** The index of a sequence trigger is in range. *)
Definition index_ok (r : Rule) (rt : RuleRuntime) : Prop :=
  match rule_trigger r with
  | TriggerSpec.Sequence steps _ => steps <> [] -> (sequence_index rt < length steps)%nat
  | _ => True
  end.

Lemma sequence_matches_total rt steps within event :
  (steps <> [] -> (sequence_index rt < length steps)%nat) ->
  exists rt' b, sequence_matches rt steps within event = Some (rt', b)
    /\ (steps <> [] -> (sequence_index rt' < length steps)%nat).
Proof.
  intros Hok. unfold sequence_matches. destruct steps as [|s steps]; [by eauto|].
  specialize (Hok ltac:(done)). simpl in Hok.
  set (rt0 := if is_some_and _ _ then _ else rt).
  assert (sequence_index rt0 < length (s :: steps))%nat as Hok0.
  { unfold rt0. case_match; simpl in *; lia. }
  clearbody rt0. destruct (lookup_lt_is_Some_2 _ _ Hok0) as [step Hstep]. rewrite Hstep.
  destruct (trigger_matches step event) eqn:Hm; simpl.
  - destruct (Nat.eqb_spec (sequence_index rt0) (length steps));
      eexists _, _; (split; [done|]); simpl in *; lia.
  - destruct (trigger_matches s event) eqn:Hm0; eexists _, _; (split; [done|]); [|done].
    simpl. destruct steps; simpl in *; [|lia].
    assert (sequence_index rt0 = 0%nat) as Hz by lia. rewrite Hz in Hstep. simplify_eq/=.
    congruence.
Qed.

(** The runtime after feeding events, and the answer to the last of them. *)
Fixpoint feed_sequence (rt : RuleRuntime) (steps : list TriggerSpec) (within : Duration)
    (events : list Event) : option (RuleRuntime * list bool) :=
  match events with
  | [] => Some (rt, [])
  | event :: events =>
      match sequence_matches rt steps within event with
      | None => None
      | Some (rt, b) =>
          match feed_sequence rt steps within events with
          | None => None
          | Some (rt, bs) => Some (rt, b :: bs)
          end
      end
  end.

(** One expected event in time. *)
Lemma sequence_matches_expected done_ step rest within rt event :
  step_matches step event -> sequence_index rt = length done_ ->
  is_some_and (sequence_started rt)
    (fun t => within <? elapsed (event_timestamp event) t) = false ->
  sequence_matches rt (done_ ++ step :: rest) within event
  = Some (match rest with
          | [] => (set_sequence 0 None rt, true)
          | _ => (set_sequence (S (length done_))
                    (match done_ with [] => Some (event_timestamp event)
                                 | _ => sequence_started rt end) rt, false)
          end).
Proof.
  intros Hs Hi Hexp. unfold sequence_matches.
  destruct (done_ ++ step :: rest) as [|s0 all] eqn:Hall; [by destruct done_|].
  rewrite <- Hall, Hexp, Hi, lookup_app_r, Nat.sub_diag by done. cbn [lookup list_lookup].
  unfold step_matches in Hs. rewrite Hs. cbn [negb]. rewrite length_app. cbn [length].
  destruct rest; cbn [length].
  - by rewrite (proj2 (Nat.eqb_eq _ _)) by lia.
  - rewrite (proj2 (Nat.eqb_neq _ _)) by lia. by destruct done_.
Qed.

Lemma feed_sequence_from done_ steps within start rt event events :
  Forall2 step_matches steps (event :: events) ->
  Forall (fun e => elapsed (event_timestamp e) start <= within) (event :: events) ->
  sequence_index rt = length done_ ->
  (match done_ with
   | [] => sequence_started rt = None /\ start = event_timestamp event
   | _ => sequence_started rt = Some start
   end) ->
  exists rt', feed_sequence rt (done_ ++ steps) within (event :: events)
              = Some (rt', replicate (length events) false ++ [true])
            /\ sequence_index rt' = 0%nat /\ sequence_started rt' = None.
Proof.
  revert done_ steps rt event. induction events as [|e2 events IH];
    intros done_ steps rt event Hm Hw Hi Hst;
    apply Forall2_cons_inv_r in Hm as (step & steps' & Hs & Hm & ->);
    apply Forall_cons in Hw as [Hw1 Hw]; cbn [feed_sequence];
    rewrite (sequence_matches_expected done_ step steps' within rt event Hs Hi)
      by (destruct done_; [by destruct Hst as [-> _]|rewrite Hst; simpl; lia]).
  - apply Forall2_nil_inv_r in Hm. subst steps'. by eexists.
  - destruct steps' as [|step2 steps'']; [by inversion Hm|].
    set (rt1 := set_sequence _ _ rt).
    destruct (IH (done_ ++ [step]) (step2 :: steps'') rt1 e2) as (rt' & Hf & Hidle);
      [done|done|unfold rt1; simpl; rewrite length_app; simpl; lia| |].
    + destruct done_; [destruct Hst as [_ ->]|]; done.
    + rewrite <- app_assoc in Hf. cbn [app feed_sequence] in Hf. rewrite Hf. by eexists.
Qed.

(** C29: Events that match the steps of a sequence in order, all within the window of the
    first, drive an idle sequence through false answers to true exactly at the last step,
    and leave it idle. *)
Theorem sequence_recognised steps within rt first events :
  sequence_index rt = 0%nat -> sequence_started rt = None -> 0 <= within ->
  Forall2 step_matches steps (first :: events) -> Forall (in_window within first) events ->
  exists rt', feed_sequence rt steps within (first :: events)
              = Some (rt', replicate (length events) false ++ [true])
            /\ sequence_index rt' = 0%nat /\ sequence_started rt' = None.
Proof.
  intros Hi Hst Hw Hm Hwin.
  apply (feed_sequence_from [] steps within (event_timestamp first)); try done.
  constructor; [rewrite elapsed_max; lia|done].
Qed.

Section cycle.
Context `{EngineEnv}.

(** ** Panics

    Rules have distinct identifiers, every stored sequence position is in
    range, and only configured rules have a runtime. *)
Record engine_wf (e : PolicyEngine) : Prop := {
  wf_ids : NoDup (map rule_id (engine_rules e));
  wf_index : forall r, r ∈ engine_rules e -> index_ok r (runtime_of e r);
  wf_dom : forall id, is_Some (engine_runtime e !! id) -> id ∈ map rule_id (engine_rules e);
}.

Lemma match_trigger_total r event rt :
  index_ok r rt -> exists rt' b, match_trigger r event rt = Some (rt', b) /\ index_ok r rt'.
Proof using.
  unfold index_ok, match_trigger. destruct (rule_trigger r); eauto.
  apply sequence_matches_total.
Qed.

Lemma step_rule_total snapshot event r rt :
  index_ok r rt ->
  exists rt' plans, step_rule snapshot event r rt = Some (rt', plans) /\ index_ok r rt'.
Proof.
  intros Hok. unfold step_rule, eval_rule. destruct (rule_enabled r); [|by eauto].
  destruct (match_trigger_total r event rt Hok) as (rt1 & b & -> & Hok1).
  unfold index_ok in *.
  repeat case_match; eexists _, _; (split; [done|]); simpl; auto.
Qed.

Lemma eval_rules_total snapshot event rules rts :
  NoDup (map rule_id rules) ->
  (forall r, r ∈ rules -> index_ok r (runtime_entry rts r)) ->
  exists rts' cs, eval_rules snapshot event rules rts = Some (rts', cs).
Proof.
  revert rts. induction rules as [|q rules IH]; intros rts; simpl; [by eauto|].
  rewrite NoDup_cons. intros [Hq Hnd] Hok.
  destruct (step_rule_total snapshot event q (runtime_entry rts q)) as (rt' & plans & Hs & _);
    [apply Hok; by left|].
  unfold step_rule in Hs. destruct (rule_enabled q); simpl;
    [|apply IH; [done|]; intros r Hr; apply Hok; by right].
  rewrite Hs. destruct (IH (<[rule_id q := rt']> rts)) as (rts' & cs & ->); [done| |by eauto].
  intros r Hr. unfold runtime_entry. rewrite lookup_insert_ne; [apply Hok; by right|].
  intros Heq. apply Hq. rewrite Heq. by apply elem_of_map_1.
Qed.

Lemma handle_index_ok e event e' plans r :
  handle e event = Some (e', plans) -> engine_wf e -> r ∈ engine_rules e ->
  index_ok r (runtime_of e' r).
Proof.
  intros Hh [Hnd Hok _] Hr. pose proof (handle_project _ _ _ _ _ Hh Hnd Hr) as Hp.
  specialize (Hok _ Hr). destruct (engine_recovery_mode e); [by destruct Hp as [-> _]|].
  destruct Hp as (cs & Hs & _).
  destruct (step_rule_total (apply (engine_snapshot e) event) event r _ Hok) as (? & ? & ? & ?).
  by simplify_eq.
Qed.

Lemma eval_rules_dom snapshot event rules rts rts' cs id :
  eval_rules snapshot event rules rts = Some (rts', cs) ->
  is_Some (rts' !! id) -> is_Some (rts !! id) \/ id ∈ map rule_id rules.
Proof.
  revert rts cs. induction rules as [|q rules IH]; intros rts cs; simpl.
  { intros [= -> _]. by left. }
  rewrite elem_of_cons. destruct (rule_enabled q); simpl.
  2:{ intros Hr Hid. destruct (IH _ _ Hr Hid); auto. }
  destruct (eval_rule _ _ _ _) as [[entry plans]|]; [|done].
  destruct (eval_rules _ _ _ _) as [[rts1 cs1]|] eqn:Hr; [|done]. intros [= <- _] Hid.
  destruct (IH _ _ Hr Hid) as [Hi|Hi]; [|by auto].
  destruct (decide (id = rule_id q)) as [->|Hne]; [by auto|].
  rewrite lookup_insert_ne in Hi by done. by auto.
Qed.

Lemma handle_total e event :
  engine_wf e -> exists e' plans, handle e event = Some (e', plans) /\ engine_wf e'.
Proof.
  intros Hwf. pose proof Hwf as [Hnd Hok Hdom].
  assert (exists e' plans, handle e event = Some (e', plans)) as (e' & plans & Hh).
  { unfold handle. destruct (engine_recovery_mode e); [by eauto|].
    destruct (eval_rules_total (apply (engine_snapshot e) event) event (engine_rules e)
                (engine_runtime e) Hnd Hok) as (? & ? & ->). by eauto. }
  exists e', plans. split; [done|]. pose proof (handle_rules _ _ _ _ Hh) as Hrules.
  split; rewrite Hrules; [done|intros r; by eapply handle_index_ok|].
  intros id. unfold handle in Hh. destruct (engine_recovery_mode e); [simplify_eq; apply Hdom|].
  destruct (eval_rules _ _ _ _) as [[rts cs]|] eqn:Hr; simplify_eq. simpl. intros Hid.
  destruct (eval_rules_dom _ _ _ _ _ _ _ Hr Hid); auto.
Qed.

Lemma new_engine_wf rules mode now :
  NoDup (map rule_id rules) -> engine_wf (PolicyEngine_new rules mode now).
Proof using.
  intros Hnd. split; simpl; [by rewrite sort_rules_ids| |].
  - intros r _. rewrite new_runtime.
    unfold index_ok. case_match; [done..|]. destruct steps; [done|]. simpl. lia.
  - intros id [rt Hid]. apply elem_of_list_to_map_2, elem_of_map in Hid as (q & ? & Hq).
    simplify_eq. by apply elem_of_map_1.
Qed.

Lemma set_recovery_wf enabled e : engine_wf e -> engine_wf (set_recovery_mode enabled e).
Proof using.
  intros [Hnd Hok Hdom]. split; simpl; [done| |].
  - intros r Hr. rewrite set_recovery_runtime. specialize (Hok r Hr). destruct enabled; [|done].
    unfold index_ok. case_match; try done. destruct steps; [done|]. simpl. lia.
  - intros id Hid. apply Hdom. destruct enabled; [|done].
    rewrite lookup_fmap in Hid. by rewrite fmap_is_Some in Hid.
Qed.

Lemma set_mode_wf mode e : engine_wf e -> engine_wf (set_mode mode e).
Proof using. by intros [? ? ?]. Qed.

Lemma carry_runtime_dom rules old next id :
  is_Some (carry_runtime rules old next !! id) -> is_Some (next !! id) \/ id ∈ map rule_id rules.
Proof using.
  revert old next. induction rules as [|q rules IH]; intros old next; simpl; [by left|].
  rewrite elem_of_cons. intros Hid. destruct (IH _ _ Hid) as [Hi|Hi]; [|by auto].
  destruct (decide (id = rule_id q)) as [->|Hne]; [by auto|].
  rewrite lookup_insert_ne in Hi by done. by auto.
Qed.

(** The reloads that leave configured sequences alone: every rule is either
    one the engine has, or one whose identifier is new. *)
Definition keeps_rules (e : PolicyEngine) (rules : list Rule) : Prop :=
  forall r, r ∈ rules -> r ∈ engine_rules e \/ rule_id r ∉ map rule_id (engine_rules e).

Lemma replace_rules_wf rules e :
  engine_wf e -> NoDup (map rule_id rules) -> keeps_rules e rules ->
  engine_wf (replace_rules rules e).
Proof using.
  intros [_ Hok Hdom] Hnd Hkeep. split; simpl; [by rewrite sort_rules_ids| |].
  - intros r Hr%elem_of_sort_by. rewrite replace_rules_runtime by done.
    destruct (Hkeep _ Hr) as [Hold|Hnew]; [by apply Hok|].
    unfold runtime_of, runtime_entry. destruct (engine_runtime e !! rule_id r) eqn:Hl.
    { exfalso. apply Hnew, Hdom. by rewrite Hl. }
    unfold index_ok. case_match; [done..|]. destruct steps; [done|]. simpl. lia.
  - intros id [[? Hid]|Hid]%carry_runtime_dom; [by rewrite lookup_empty in Hid|done].
Qed.

(** The engines the daemon reaches with such reloads. *)
Inductive reachable : PolicyEngine -> Prop :=
| reach_new rules mode now :
    NoDup (map rule_id rules) -> reachable (PolicyEngine_new rules mode now)
| reach_handle e event e' plans :
    reachable e -> handle e event = Some (e', plans) -> reachable e'
| reach_set_mode e mode : reachable e -> reachable (set_mode mode e)
| reach_set_recovery e enabled : reachable e -> reachable (set_recovery_mode enabled e)
| reach_reload e rules :
    reachable e -> NoDup (map rule_id rules) -> keeps_rules e rules ->
    reachable (replace_rules rules e).

Lemma reachable_wf e : reachable e -> engine_wf e.
Proof.
  induction 1 as [rules mode now Hnd|e event e' plans He IH Hh|e mode He IH|e enabled He IH
                 |e rules He IH Hnd Hkeep].
  - by apply new_engine_wf.
  - destruct (handle_total e event IH) as (? & ? & ? & ?). by simplify_eq.
  - by apply set_mode_wf.
  - by apply set_recovery_wf.
  - by apply replace_rules_wf.
Qed.

(** handle never panics on an engine reached from PolicyEngine::new by events, mode
    changes, recovery changes and reloads that leave existing rules unchanged. *)
Theorem reachable_handle_total e event :
  reachable e -> exists e' plans, handle e event = Some (e', plans).
Proof. intros (? & ? & ? & _)%reachable_wf%(handle_total _ event). by eauto. Qed.

(** ** Provenance of the plans *)

Lemma eval_rules_allowed snapshot event rules rts rts' cs p :
  eval_rules snapshot event rules rts = Some (rts', cs) -> p ∈ cs ->
  exists r, r ∈ rules /\ rule_enabled r = true
    /\ p = plan_of r event (plan_action p) /\ allowed_action r event (plan_action p).
Proof.
  revert rts cs. induction rules as [|q rules IH]; intros rts cs; simpl.
  { intros ? Hp. simplify_eq. by inversion Hp. }
  destruct (rule_enabled q) eqn:Hen; simpl.
  - destruct (eval_rule _ _ _ _) as [[entry plans]|] eqn:Hr; [|done].
    destruct (eval_rules _ _ _ _) as [[rts1 cs1]|] eqn:Hrs; [|done].
    intros ?. simplify_eq. intros [Hp|Hp]%elem_of_app.
    + exists q. split; [by left|]. split; [done|]. by eapply eval_rule_allowed.
    + destruct (IH _ _ Hrs Hp) as (r & ? & ?). exists r. split; [by right|done].
  - intros He Hp. destruct (IH _ _ He Hp) as (r & ? & ?). exists r. split; [by right|done].
Qed.

(** Every plan of handle comes from an enabled rule outside recovery mode, carries that
    rule's id, priority and the event's id, and its action is one the rule may take: one of
    its actions, or on failure of a sensor it uses what its on_sensor_failure policy allows. *)
Lemma handle_plans_accounted e event e' plans p :
  handle e event = Some (e', plans) -> p ∈ plans ->
  engine_recovery_mode e = false
  /\ exists r, r ∈ engine_rules e /\ rule_enabled r = true
     /\ p = plan_of r event (plan_action p) /\ allowed_action r event (plan_action p).
Proof.
  unfold handle. intros Hh Hp.
  destruct (engine_recovery_mode e); [simplify_eq; by inversion Hp|]. split; [done|].
  destruct (eval_rules _ _ _ _) as [[rts cs]|] eqn:Hrs; simplify_eq.
  apply resolve_conflicts_elem in Hp. by eapply eval_rules_allowed.
Qed.

(** ** Recovery mode *)
Fixpoint handle_all (e : PolicyEngine) (events : list Event)
    : option (PolicyEngine * list (list ActionPlan)) :=
  match events with
  | [] => Some (e, [])
  | event :: events =>
      match handle e event with
      | None => None
      | Some (e, plans) =>
          match handle_all e events with
          | None => None
          | Some (e, rest) => Some (e, plans :: rest)
          end
      end
  end.




(** A rule whose step panics makes the cycle panic. *)
Lemma eval_rules_panic snapshot event rules rts r :
  NoDup (map rule_id rules) -> r ∈ rules ->
  step_rule snapshot event r (runtime_entry rts r) = None ->
  eval_rules snapshot event rules rts = None.
Proof.
  intros Hnd Hr Hs. destruct (eval_rules _ _ _ _) as [[rts' cs]|] eqn:He; [|done].
  rewrite (eval_rules_project _ _ _ _ _ _ _ He Hnd Hr) in Hs. done.
Qed.

(** C40: After any reload to rules with distinct identifiers outside recovery mode, an event
    makes the engine panic if an enabled rule's new sequence is not empty and no longer than
    the sequence_index kept from before the reload, while that sequence's window is still
    running and the rule is neither suppressed nor armed and the event is not a failure of
    its sensors. *)
Theorem reload_shortened_sequence_panics e rules r steps within started event :
  engine_recovery_mode e = false ->
  NoDup (map rule_id rules) -> r ∈ rules -> rule_enabled r = true ->
  rule_trigger r = TriggerSpec.Sequence steps within -> steps <> [] ->
  (length steps <= sequence_index (runtime_of e r))%nat ->
  sequence_started (runtime_of e r) = Some started ->
  elapsed (event_timestamp event) started <= within ->
  armed_at (runtime_of e r) = None -> suppressed r event (runtime_of e r) = false ->
  failed_sensor r event = None ->
  handle (replace_rules rules e) event = None.
Proof.
  intros Hrec Hnd Hr Hen Ht Hne Hlen Hst Hwin Harm Hsup Hfail.
  pose proof (replace_rules_runtime rules e r Hnd Hr) as Hkeep.
  unfold handle. cbn [engine_recovery_mode replace_rules]. rewrite Hrec.
  erewrite (eval_rules_panic _ _ _ _ r); [done|by simpl; rewrite sort_rules_ids
    |by apply elem_of_sort_by|].
  unfold runtime_of in Hkeep. rewrite Hkeep. fold (runtime_of e r).
  unfold step_rule, eval_rule, match_trigger. rewrite Hen, Hsup, Hfail, Harm, Ht.
  unfold sequence_matches. destruct steps as [|first steps]; [done|].
  rewrite Hst. cbn [is_some_and]. rewrite (proj2 (Z.ltb_ge _ _)) by done.
  by rewrite lookup_ge_None_2.
Qed.
End cycle.

(** ** Concrete runs *)
Lemma reachable_handle_total_witness :
  exists e' plans, handle (replace_rules [lid_rule] (set_recovery_mode true fixture_engine))
                     (lid_event "e" 3 true) = Some (e', plans).
Proof.
  apply reachable_handle_total. apply reach_reload.
  - apply reach_set_recovery. apply reach_new, fixture_ids.
  - apply NoDup_singleton.
  - intros r Hr. apply list_elem_of_singleton in Hr as ->. left.
    apply elem_of_sort_by. right. left.
Defined.

Lemma sequence_recognised_witness :
  exists rt', feed_sequence RuleRuntime_default
                [TriggerSpec.Hotkey "panic"; TriggerSpec.Usb None None None None] (secs 30)
                [hotkey_event "a" 1; device_event "b" 20]
              = Some (rt', [false; true])
            /\ sequence_index rt' = 0%nat /\ sequence_started rt' = None.
Proof.
  refine (sequence_recognised _ _ RuleRuntime_default (hotkey_event "a" 1)
            [device_event "b" 20] _ _ _ _ _).
  - reflexivity.
  - reflexivity.
  - vm_compute. discriminate.
  - repeat constructor.
  - constructor; [vm_compute; discriminate|constructor].
Defined.

(** A sequence of three steps, of which [sequence_rule] keeps the first two. *)
Definition long_sequence : Rule :=
  base_rule "sequence"
    (TriggerSpec.Sequence
       [TriggerSpec.Hotkey "panic"; TriggerSpec.Usb (Some DeviceAction.Removed) None None None;
        TriggerSpec.Manual "confirm"] (secs 30)).

(** The engine that has seen the first two of the three steps. *)
Definition part_way : PolicyEngine :=
  default fixture_engine
    (fst <$> handle_all (PolicyEngine_new [long_sequence] "normal" 0)
               [hotkey_event "a" 1; device_event "b" 2]).

Lemma reload_shortened_sequence_panics_witness :
  handle (replace_rules [sequence_rule] part_way) (device_event "c" 3) = None.
Proof.
  refine (reload_shortened_sequence_panics part_way [sequence_rule] sequence_rule
            [TriggerSpec.Hotkey "panic"; TriggerSpec.Usb (Some DeviceAction.Removed) None None None]
            (secs 30) (secs 1) (device_event "c" 3) _ _ _ _ _ _ _ _ _ _ _ _);
    try (vm_compute; reflexivity).
  - apply NoDup_singleton.
  - left.
  - discriminate.
  - vm_compute. discriminate.
Defined.
