(* ===== verification/Validation.v ===== *)
(** * Configuration validation ([kovert-core/src/validation.rs])

    [validate_config] and its helpers, with the errors they push and their
    order. A function that appends to [errors] returns the list it appends;
    a loop that fills a [HashSet] returns the set with the errors. *)

From stdpp Require Import base tactics option list strings gmap.
From Stdlib Require Import ZArith Lia Ascii.
From S2P Require Import Prelude RustStr RustPath Config Event Matching.
Local Open Scope Z_scope.
Local Open Scope stdpp_scope.

Module ValidationError.
Inductive ValidationError :=
| Version (version : Z)
| Duplicate (kind name : string)
| Rule (rule message : string)
| Vault (vault message : string)
| Hotkey (hotkey message : string)
| Daemon (message : string).
End ValidationError.
Abbreviation ValidationError := ValidationError.ValidationError.

(** The [regex] crate: [regex_new p] is [Regex::new p], a matcher when the
    pattern compiles. *)
Class Regex := { regex_new : string -> option (string -> bool) }.

(** [errors.push(e)] under a condition. *)
Definition error_if (b : bool) (e : ValidationError) : list ValidationError :=
  if b then [e] else [].

Definition rule_error (rule message : string) : ValidationError :=
  ValidationError.Rule rule message.

(** ** Names *)
Definition identifier_pattern : string := "^[A-Za-z0-9_.-]+$".

Definition valid_identifier `{Regex} (value : string) : bool :=
  is_some_and (regex_new identifier_pattern) (fun is_match => is_match value).

Definition named_keys : list string :=
  ["ESC"; "ENTER"; "LEFTCTRL"; "CTRL"; "LEFTSHIFT"; "SHIFT"; "LEFTALT"; "ALT"; "SPACE";
   "F1"; "F2"; "F3"; "F4"; "F5"; "F6"; "F7"; "F8"; "F9"; "F10"; "F11"; "F12";
   "RIGHTCTRL"; "RIGHTALT"; "HOME"; "UP"; "PAGEUP"; "LEFT"; "RIGHT"; "END"; "DOWN";
   "PAGEDOWN"; "INSERT"; "DELETE"; "LEFTMETA"; "META"; "RIGHTMETA"].

(** The key a name stands for: trimmed, upper-cased, without [KEY_]. *)
Definition normalize_key (value : string) : string :=
  let normalized := to_ascii_uppercase (trim value) in
  default normalized (strip_prefix "KEY_" normalized).

Definition valid_key_name (value : string) : bool :=
  let key := normalize_key value in
  (match key with String c EmptyString => is_ascii_alphanumeric c | _ => false end)
  || list_contains named_keys key.

Definition interface_char (ch : ascii) : bool :=
  is_ascii_alphanumeric ch || list_contains ["_"; "-"; "."; ":"]%char ch.

Definition valid_interface_name (value : string) : bool :=
  negb (is_empty value) && (len value <=? 15) && all_chars interface_char value.

Definition unit_char (ch : ascii) : bool :=
  is_ascii_alphanumeric ch || list_contains ["_"; "-"; "."; "@"]%char ch.

Definition valid_unit_name (value : string) : bool :=
  negb (is_empty value) && (len value <=? 255) && negb (contains_char "/"%char value)
  && all_chars unit_char value.

(** ** Triggers *)
Definition is_sequence (t : TriggerSpec) : bool :=
  match t with TriggerSpec.Sequence _ _ => true | _ => false end.

Definition is_nil {A} (l : list A) : bool := match l with [] => true | _ => false end.

Fixpoint validate_trigger (trigger : TriggerSpec) (rule : string) (depth : nat)
    (hotkeys : gset string) : list ValidationError :=
  if (16 <? depth)%nat then [rule_error rule "trigger nesting exceeds 16 levels"]
  else match trigger with
  | TriggerSpec.File path _ _ =>
      error_if (negb (is_absolute path)) (rule_error rule "file trigger path must be absolute")
  | TriggerSpec.Power _ (Some value) _ =>
      error_if (100 <? value) (rule_error rule "battery threshold must be 0..=100")
  | TriggerSpec.Process None _ => [rule_error rule "process trigger requires name"]
  | TriggerSpec.Service None _ => [rule_error rule "service trigger requires name"]
  | TriggerSpec.Port None _ _ => [rule_error rule "port trigger requires port"]
  | TriggerSpec.Hotkey name =>
      error_if (negb (bool_decide (name ∈ hotkeys))) (rule_error rule ("unknown hotkey " +:+ name))
  | TriggerSpec.All triggers | TriggerSpec.Any triggers =>
      error_if (is_nil triggers) (rule_error rule "composite trigger cannot be empty")
      ++ flat_map (fun item => validate_trigger item rule (S depth) hotkeys) triggers
  | TriggerSpec.Not trigger => validate_trigger trigger rule (S depth) hotkeys
  | TriggerSpec.Sequence steps within =>
      error_if (length steps <? 2)%nat (rule_error rule "sequence requires at least two steps")
      ++ error_if (within =? 0) (rule_error rule "sequence window must be non-zero")
      ++ flat_map (fun item =>
           error_if (is_sequence item) (rule_error rule "nested sequences are not supported")
           ++ validate_trigger item rule (S depth) hotkeys) steps
  | _ => []
  end.

(** ** Conditions *)
Definition known_sensors : list string :=
  ["wifi"; "network"; "usb"; "mounts"; "processes"; "services"; "ports"; "sessions"; "power";
   "hotkeys"; "filesystem"; "integrity"; "configuration"; "binary"; "polling"; "time"; "manual"].

Definition is_none {A} (o : option A) : bool := match o with None => true | Some _ => false end.

Fixpoint validate_condition `{EngineEnv} (condition : ConditionSpec) (rule : string)
    (depth : nat) : list ValidationError :=
  if (16 <? depth)%nat then [rule_error rule "condition nesting exceeds 16 levels"]
  else match condition with
  | ConditionSpec.All conditions | ConditionSpec.Any conditions =>
      error_if (is_nil conditions) (rule_error rule "composite condition cannot be empty")
      ++ flat_map (fun item => validate_condition item rule (S depth)) conditions
  | ConditionSpec.Not condition => validate_condition condition rule (S depth)
  | ConditionSpec.TimeWindow start end_ _ _ =>
      error_if (is_none (parse_hm start) || is_none (parse_hm end_))
        (rule_error rule "time windows require HH:MM values")
  | ConditionSpec.PathExists path _ | ConditionSpec.Mounted path _ =>
      error_if (negb (is_absolute path)) (rule_error rule "condition paths must be absolute")
  | ConditionSpec.Power _ (Some value) _ =>
      error_if (100 <? value) (rule_error rule "battery threshold must be 0..=100")
  | ConditionSpec.SensorHealthy sensor _ =>
      error_if (negb (list_contains known_sensors sensor))
        (rule_error rule ("unknown sensor " +:+ sensor))
  | _ => []
  end.

(** ** Actions *)
Definition environment_key_char (ch : ascii) : bool :=
  is_ascii_uppercase ch || is_ascii_digit ch || eqb ch "_"%char.

(** [environment.keys().any(...)]: the keys of a map, in no relevant order. *)
Definition any_bad_environment_key (environment : gmap string string) : bool :=
  existsb (fun kv => negb (all_chars environment_key_char kv.1)) (map_to_list environment).

Definition validate_action (action : ActionSpec) (rule : string) (config : Config)
    (vaults modes : gset string) : list ValidationError :=
  match action with
  | ActionSpec.LockVault vault | ActionSpec.UnlockVault vault =>
      error_if (negb (bool_decide (vault ∈ vaults))) (rule_error rule ("unknown vault " +:+ vault))
  | ActionSpec.Unmount path =>
      error_if (negb (is_absolute path)) (rule_error rule "unmount path must be absolute")
  | ActionSpec.InterfaceState interface _ =>
      error_if (negb (valid_interface_name interface))
        (rule_error rule "invalid network interface name")
  | ActionSpec.Service name _ =>
      error_if (negb (valid_unit_name name)) (rule_error rule "invalid systemd service name")
  | ActionSpec.TerminateProcess process _ =>
      error_if (negb (list_contains (daemon_managed_processes (config_daemon config)) process))
        (rule_error rule ("process " +:+ process +:+ " is not in daemon.managed_processes"))
  | ActionSpec.CaptureEvidence paths destination =>
      error_if (negb (is_absolute destination) || existsb (fun p => negb (is_absolute p)) paths)
        (rule_error rule "evidence paths must be absolute")
  | ActionSpec.SetMode mode =>
      error_if (negb (bool_decide (mode ∈ modes))) (rule_error rule ("unknown mode " +:+ mode))
  | ActionSpec.Exec executable _ expected_sha256 environment =>
      error_if (negb (is_absolute executable)
                || negb (paths_contain (daemon_allowed_executables (config_daemon config)) executable))
        (rule_error rule ("executable " +:+ executable +:+ " is not in daemon.allowed_executables"))
      ++ error_if (is_some_and expected_sha256 (fun digest =>
                     negb (len digest =? 64) || negb (all_chars is_ascii_hexdigit digest)))
           (rule_error rule "expected_sha256 must be 64 hex characters")
      ++ error_if (is_none expected_sha256)
           (rule_error rule "exec actions require expected_sha256 pinning")
      ++ error_if (any_bad_environment_key environment)
           (rule_error rule "environment keys must use uppercase ASCII, digits, and underscores")
  | _ => []
  end.

Section validate_config.
Context `{EngineEnv} `{Regex}.

(** ** The sections of [validate_config] *)
Definition validate_daemon (version : Z) (daemon : DaemonConfig) : list ValidationError :=
  error_if (negb (version =? 1)) (ValidationError.Version version)
  ++ error_if (negb (is_absolute (daemon_socket_path daemon)))
       (ValidationError.Daemon "socket_path must be absolute")
  ++ error_if (negb (is_absolute (daemon_state_path daemon)))
       (ValidationError.Daemon "state_path must be absolute")
  ++ error_if (daemon_poll_interval daemon =? 0)
       (ValidationError.Daemon "poll_interval must be greater than zero")
  ++ error_if (daemon_event_buffer daemon <? 16)
       (ValidationError.Daemon "event_buffer must be at least 16")
  ++ flat_map (fun path =>
       error_if (negb (is_absolute path))
         (ValidationError.Daemon ("allowed executable must be absolute: " +:+ path)))
       (daemon_allowed_executables daemon).

(** A loop over named items that fills a set of names: [check] is the body
    around the insertion, given whether the name was already present. *)
Fixpoint fold_names {A} (name : A -> string) (check : bool -> A -> list ValidationError)
    (items : list A) (seen : gset string) : list ValidationError * gset string :=
  match items with
  | [] => ([], seen)
  | item :: items =>
      let errors := check (bool_decide (name item ∈ seen)) item in
      let (rest, seen) := fold_names name check items ({[name item]} ∪ seen) in
      (errors ++ rest, seen)
  end.

Definition validate_mode (duplicate : bool) (mode : ModeConfig) : list ValidationError :=
  error_if (negb (valid_identifier (mode_name mode)))
    (ValidationError.Duplicate "invalid mode" (mode_name mode))
  ++ error_if duplicate (ValidationError.Duplicate "mode" (mode_name mode)).

Definition validate_modes (modes : list ModeConfig) : list ValidationError * gset string :=
  let (errors, names) := fold_names mode_name validate_mode modes ∅ in
  (errors ++ error_if (1 <? length (List.filter mode_initial modes))%nat
               (ValidationError.Daemon "only one mode may be marked initial"), names).

Definition bad_keyring_description (description : string) : bool :=
  is_empty description || (128 <? len description) || any_control description.

Definition validate_vault (duplicate : bool) (vault : VaultConfig) : list ValidationError :=
  error_if (negb (valid_identifier (vault_name vault)))
    (ValidationError.Vault (vault_name vault) "name must match [A-Za-z0-9_.-]+")
  ++ error_if duplicate (ValidationError.Duplicate "vault" (vault_name vault))
  ++ error_if (negb (is_absolute (vault_path vault)))
       (ValidationError.Vault (vault_name vault) "path must be absolute")
  ++ error_if (eqb (vault_adapter vault) VaultAdapter.Gocryptfs
               && (is_none_or (vault_encrypted_path vault) (fun p => negb (is_absolute p))
                   || is_none_or (vault_mount_path vault) (fun p => negb (is_absolute p))))
       (ValidationError.Vault (vault_name vault)
          "gocryptfs requires absolute encrypted_path and mount_path")
  ++ error_if (is_some_and (vault_keyring_description vault) bad_keyring_description)
       (ValidationError.Vault (vault_name vault)
          "keyring_description must be 1..=128 printable characters").

Definition validate_vaults (vaults : list VaultConfig) : list ValidationError * gset string :=
  fold_names vault_name validate_vault vaults ∅.

Definition validate_hotkey (duplicate : bool) (hotkey : HotkeyConfig) : list ValidationError :=
  error_if (negb (valid_identifier (hotkey_name hotkey)))
    (ValidationError.Hotkey (hotkey_name hotkey) "name must match [A-Za-z0-9_.-]+")
  ++ error_if duplicate (ValidationError.Duplicate "hotkey" (hotkey_name hotkey))
  ++ error_if (negb (is_absolute (hotkey_device hotkey)))
       (ValidationError.Hotkey (hotkey_name hotkey) "device path must be absolute")
  ++ error_if (is_nil (hotkey_sequence hotkey) || (32 <? length (hotkey_sequence hotkey))%nat)
       (ValidationError.Hotkey (hotkey_name hotkey) "sequence must contain between 1 and 32 keys")
  ++ error_if (hotkey_within hotkey =? 0)
       (ValidationError.Hotkey (hotkey_name hotkey) "within must be non-zero")
  ++ match List.find (fun key => negb (valid_key_name key)) (hotkey_sequence hotkey) with
     | Some key =>
         [ValidationError.Hotkey (hotkey_name hotkey) ("unsupported key name: " +:+ key)]
     | None => []
     end.

Definition validate_hotkeys (hotkeys : list HotkeyConfig) : list ValidationError * gset string :=
  fold_names hotkey_name validate_hotkey hotkeys ∅.

Definition validate_rule (config : Config) (hotkeys vaults modes : gset string)
    (duplicate : bool) (rule : Rule) : list ValidationError :=
  error_if (negb (valid_identifier (rule_id rule)))
    (rule_error (rule_id rule) "id must match [A-Za-z0-9_.-]+")
  ++ error_if duplicate (ValidationError.Duplicate "rule" (rule_id rule))
  ++ error_if (is_nil (rule_actions rule))
       (rule_error (rule_id rule) "at least one action is required")
  ++ validate_trigger (rule_trigger rule) (rule_id rule) 0 hotkeys
  ++ match rule_when rule with
     | Some condition => validate_condition condition (rule_id rule) 0
     | None => []
     end
  ++ flat_map (fun action => validate_action action (rule_id rule) config vaults modes)
       (rule_actions rule).

(** The errors [validate_config] collects. *)
Definition config_errors (config : Config) : list ValidationError :=
  let daemon_errors := validate_daemon (config_version config) (config_daemon config) in
  let (mode_errors, modes) := validate_modes (config_modes config) in
  let (vault_errors, vaults) := validate_vaults (config_vaults config) in
  let (hotkey_errors, hotkeys) := validate_hotkeys (config_hotkeys config) in
  let (rule_errors, _) :=
    fold_names rule_id (validate_rule config hotkeys vaults modes) (config_rules config) ∅ in
  daemon_errors ++ mode_errors ++ vault_errors ++ hotkey_errors ++ rule_errors.

(** [validate_config]: [inl] is [Ok(())], [inr] is [Err(errors)]. *)
Definition validate_config (config : Config) : unit + list ValidationError :=
  match config_errors config with
  | [] => inl tt
  | errors => inr errors
  end.
End validate_config.
