(* ===== verification/ValidationSpec.v ===== *)
(** * What validation promises

    A declarative statement of a valid configuration, [ConfigValid], and the
    proof that [validate_config] accepts exactly those: nothing invalid is
    accepted and nothing valid is refused. *)

From stdpp Require Import base tactics option list strings gmap.
From Stdlib Require Import ZArith Lia Ascii.
From S2P Require Import Prelude RustStr RustPath Config Event Matching Validation.
Local Open Scope Z_scope.
Local Open Scope stdpp_scope.

(** ** Empty error lists *)
Lemma error_if_nil b e : error_if b e = [] <-> b = false.
Proof. by destruct b. Qed.

Lemma error_if_negb_nil b e : error_if (negb b) e = [] <-> b = true.
Proof. by destruct b. Qed.

Lemma flat_map_nil {A B} (f : A -> list B) l : flat_map f l = [] <-> forall x, x ∈ l -> f x = [].
Proof.
  induction l as [|x l IH]; simpl.
  - split; [|done]. intros _ x Hx. by inversion Hx.
  - rewrite app_nil, IH. setoid_rewrite elem_of_cons. naive_solver.
Qed.

Create Rewrite HintDb validation.
#[export] Hint Rewrite @app_nil error_if_negb_nil error_if_nil @flat_map_nil
  negb_false_iff orb_false_iff andb_false_iff negb_true_iff Z.eqb_eq Z.eqb_neq Z.ltb_ge
  Nat.ltb_ge bool_decide_eq_true bool_decide_eq_false @list_contains_true : validation.

Lemma is_nil_false {A} (l : list A) : is_nil l = false <-> l <> [].
Proof. by destruct l. Qed.

Lemma is_none_false {A} (o : option A) : is_none o = false <-> is_Some o.
Proof. unfold is_Some. destruct o; naive_solver. Qed.

(** ** Nested triggers and conditions *)
Definition list_height {A} (height : A -> nat) (l : list A) : nat :=
  foldr (fun x h => Nat.max (S (height x)) h) 0%nat l.

Fixpoint trigger_height (t : TriggerSpec) : nat :=
  match t with
  | TriggerSpec.All ts | TriggerSpec.Any ts | TriggerSpec.Sequence ts _ =>
      foldr (fun x h => Nat.max (S (trigger_height x)) h) 0%nat ts
  | TriggerSpec.Not t => S (trigger_height t)
  | _ => 0
  end.

(** A trigger and all the triggers inside it. *)
Fixpoint subtriggers (t : TriggerSpec) : list TriggerSpec :=
  t :: match t with
       | TriggerSpec.All ts | TriggerSpec.Any ts | TriggerSpec.Sequence ts _ =>
           flat_map subtriggers ts
       | TriggerSpec.Not t => subtriggers t
       | _ => []
       end.

(** What one node of a trigger must satisfy. *)
Definition trigger_node_ok (hotkeys : gset string) (t : TriggerSpec) : Prop :=
  match t with
  | TriggerSpec.File path _ _ => is_absolute path = true
  | TriggerSpec.Power _ (Some value) _ => value <= 100
  | TriggerSpec.Process name _ | TriggerSpec.Service name _ => is_Some name
  | TriggerSpec.Port port _ _ => is_Some port
  | TriggerSpec.Hotkey name => name ∈ hotkeys
  | TriggerSpec.All ts | TriggerSpec.Any ts => ts <> []
  | TriggerSpec.Sequence steps within =>
      (2 <= length steps)%nat /\ within <> 0 /\ forall s, s ∈ steps -> is_sequence s = false
  | _ => True
  end.

Definition trigger_ok (hotkeys : gset string) (t : TriggerSpec) : Prop :=
  (trigger_height t <= 16)%nat /\ forall u, u ∈ subtriggers t -> trigger_node_ok hotkeys u.

Fixpoint condition_height (c : ConditionSpec) : nat :=
  match c with
  | ConditionSpec.All cs | ConditionSpec.Any cs =>
      foldr (fun x h => Nat.max (S (condition_height x)) h) 0%nat cs
  | ConditionSpec.Not c => S (condition_height c)
  | _ => 0
  end.

Fixpoint subconditions (c : ConditionSpec) : list ConditionSpec :=
  c :: match c with
       | ConditionSpec.All cs | ConditionSpec.Any cs => flat_map subconditions cs
       | ConditionSpec.Not c => subconditions c
       | _ => []
       end.

Definition condition_node_ok `{EngineEnv} (c : ConditionSpec) : Prop :=
  match c with
  | ConditionSpec.All cs | ConditionSpec.Any cs => cs <> []
  | ConditionSpec.TimeWindow start end_ _ _ => is_Some (parse_hm start) /\ is_Some (parse_hm end_)
  | ConditionSpec.PathExists path _ | ConditionSpec.Mounted path _ => is_absolute path = true
  | ConditionSpec.Power _ (Some value) _ => value <= 100
  | ConditionSpec.SensorHealthy sensor _ => sensor ∈ known_sensors
  | _ => True
  end.

Definition condition_ok `{EngineEnv} (c : ConditionSpec) : Prop :=
  (condition_height c <= 16)%nat /\ forall u, u ∈ subconditions c -> condition_node_ok u.

(** Heights and node checks of a list of children. *)
Lemma list_height_bound {A} (height : A -> nat) l d :
  (foldr (fun x h => Nat.max (S (height x)) h) 0 l + d <= 16)%nat
  <-> (d <= 16)%nat /\ forall x, x ∈ l -> (height x + S d <= 16)%nat.
Proof.
  induction l as [|x l IH]; simpl.
  - split; [|lia]. intros ?. split; [lia|]. intros x Hx. by inversion Hx.
  - setoid_rewrite elem_of_cons. split.
    + intros Hm. destruct (proj1 IH) as [? Hl]; [lia|]. split; [done|].
      intros y [->|Hy]; [lia|by apply Hl].
    + intros [Hd Hall]. assert (height x + S d <= 16)%nat by (apply Hall; auto).
      assert (foldr (fun x h => Nat.max (S (height x)) h) 0 l + d <= 16)%nat; [|lia].
      apply IH. split; [done|]. auto.
Qed.

Lemma elem_of_flat_map {A B} (f : A -> list B) l y :
  y ∈ flat_map f l <-> exists x, x ∈ l /\ y ∈ f x.
Proof. rewrite list_elem_of_In, in_flat_map. by setoid_rewrite <- list_elem_of_In. Qed.

(** One induction for the recursion of both validators: children checked one
    level deeper, against height and nodes counted from the root. *)
Lemma children_nil {A E} (validate : A -> nat -> list E) (height : A -> nat) (sub : A -> list A)
    (P : A -> Prop) (l : list A) (d : nat) :
  Forall (fun x => forall d, validate x d = [] <->
            (height x + d <= 16)%nat /\ forall u, u ∈ sub x -> P u) l ->
  (d <= 16)%nat ->
  (forall x, x ∈ l -> validate x (S d) = [])
  <-> (foldr (fun x h => Nat.max (S (height x)) h) 0 l + d <= 16)%nat
      /\ forall u, u ∈ flat_map sub l -> P u.
Proof.
  rewrite Forall_forall. intros IH Hd. rewrite list_height_bound.
  setoid_rewrite elem_of_flat_map. split.
  - intros Hv. split; [split; [done|]|].
    + intros x Hx. apply (proj1 (IH x Hx (S d)) (Hv x Hx)).
    + intros u (x & Hx & Hu). apply (proj1 (IH x Hx (S d)) (Hv x Hx)). done.
  - intros [[_ Hh] Hp] x Hx. apply (IH x Hx). split; [by apply Hh|eauto].
Qed.

Lemma validate_trigger_leaf t rule depth hotkeys :
  match t with
  | TriggerSpec.All _ | TriggerSpec.Any _ | TriggerSpec.Not _ | TriggerSpec.Sequence _ _ => False
  | _ => True
  end ->
  validate_trigger t rule depth hotkeys = []
  <-> (depth <= 16)%nat /\ trigger_node_ok hotkeys t.
Proof.
  intros Hleaf. destruct t; simpl in Hleaf; try done; simpl;
    (destruct (Nat.ltb_spec 16 depth); [split; [done|lia]|]);
    repeat case_match; autorewrite with validation; unfold is_Some; naive_solver.
Qed.

(** The composite cases: refuse past the depth limit, otherwise split the
    appended error lists and use [children_nil] for the children. *)
Ltac composite validate IH :=
  simpl; setoid_rewrite elem_of_cons;
  lazymatch goal with |- context [(16 <? ?depth)%nat] =>
    let Hd := fresh "Hd" in
    destruct (Nat.ltb_spec 16 depth) as [?|Hd]; [split; [done|lia]|];
    pose proof (children_nil validate _ _ _ _ _ IH Hd);
    rewrite ?app_nil, ?error_if_nil, ?is_nil_false, ?flat_map_nil; naive_solver
  end.

Lemma validate_trigger_nil t rule depth hotkeys :
  validate_trigger t rule depth hotkeys = []
  <-> (trigger_height t + depth <= 16)%nat
      /\ forall u, u ∈ subtriggers t -> trigger_node_ok hotkeys u.
Proof.
  revert depth. induction t as [t Hleaf|ts IH|ts IH|t IH|ts within IH] using TriggerSpec.nested_ind;
    intros depth.
  - rewrite validate_trigger_leaf by done.
    destruct t; simpl in Hleaf; try done; simpl; setoid_rewrite list_elem_of_singleton; naive_solver.
  - composite (fun t d => validate_trigger t rule d hotkeys) IH.
  - composite (fun t d => validate_trigger t rule d hotkeys) IH.
  - simpl. setoid_rewrite elem_of_cons.
    destruct (Nat.ltb_spec 16 depth); [split; [done|lia]|].
    rewrite IH, Nat.add_succ_r. naive_solver.
  - simpl. setoid_rewrite elem_of_cons.
    destruct (Nat.ltb_spec 16 depth) as [?|Hd]; [split; [done|lia]|].
    pose proof (children_nil (fun t d => validate_trigger t rule d hotkeys) _ _ _ _ _ IH Hd).
    rewrite !app_nil, !error_if_nil, flat_map_nil, Nat.ltb_ge, Z.eqb_neq.
    setoid_rewrite app_nil. setoid_rewrite error_if_nil. naive_solver.
Qed.

Lemma validate_condition_nil `{EngineEnv} c rule depth :
  validate_condition c rule depth = []
  <-> (condition_height c + depth <= 16)%nat
      /\ forall u, u ∈ subconditions c -> condition_node_ok u.
Proof.
  revert depth. induction c as [c Hleaf|cs IH|cs IH|c IH] using ConditionSpec.nested_ind;
    intros depth.
  - destruct c; simpl in Hleaf; try done; simpl; setoid_rewrite list_elem_of_singleton;
      (destruct (Nat.ltb_spec 16 depth); [split; [done|lia]|]);
      repeat case_match; autorewrite with validation; rewrite ?is_none_false; naive_solver.
  - composite (fun c d => validate_condition c rule d) IH.
  - composite (fun c d => validate_condition c rule d) IH.
  - simpl. setoid_rewrite elem_of_cons.
    destruct (Nat.ltb_spec 16 depth); [split; [done|lia]|].
    rewrite IH, Nat.add_succ_r. naive_solver.
Qed.

(** ** Actions *)
Definition action_ok (config : Config) (vaults modes : gset string) (action : ActionSpec) : Prop :=
  let daemon := config_daemon config in
  match action with
  | ActionSpec.LockVault vault | ActionSpec.UnlockVault vault => vault ∈ vaults
  | ActionSpec.Unmount path => is_absolute path = true
  | ActionSpec.InterfaceState interface _ => valid_interface_name interface = true
  | ActionSpec.Service name _ => valid_unit_name name = true
  | ActionSpec.TerminateProcess process _ => process ∈ daemon_managed_processes daemon
  | ActionSpec.CaptureEvidence paths destination =>
      is_absolute destination = true /\ forall p, p ∈ paths -> is_absolute p = true
  | ActionSpec.SetMode mode => mode ∈ modes
  | ActionSpec.Exec executable _ digest environment =>
      is_absolute executable = true
      /\ paths_contain (daemon_allowed_executables daemon) executable = true
      /\ (exists d, digest = Some d /\ len d = 64 /\ all_chars is_ascii_hexdigit d = true)
      /\ forall key value, environment !! key = Some value ->
           all_chars environment_key_char key = true
  | ActionSpec.NetworkIsolation _ | ActionSpec.Notify _ _ _ => True
  end.

Lemma existsb_false {A} (f : A -> bool) l : existsb f l = false <-> forall x, x ∈ l -> f x = false.
Proof.
  rewrite <- not_true_iff_false, existsb_exists. setoid_rewrite <- list_elem_of_In.
  setoid_rewrite <- not_true_iff_false. naive_solver.
Qed.

Lemma any_bad_environment_key_false environment :
  any_bad_environment_key environment = false
  <-> forall key value, environment !! key = Some value ->
        all_chars environment_key_char key = true.
Proof.
  unfold any_bad_environment_key. rewrite existsb_false. split.
  - intros Hall key value Hl. specialize (Hall (key, value)).
    rewrite elem_of_map_to_list, negb_false_iff in Hall. by apply Hall.
  - intros Hall [key value] Hkv%elem_of_map_to_list. apply negb_false_iff. by eapply Hall.
Qed.

Lemma validate_action_nil action rule config vaults modes :
  validate_action action rule config vaults modes = [] <-> action_ok config vaults modes action.
Proof.
  destruct action; simpl; autorewrite with validation; try done.
  - rewrite existsb_false. setoid_rewrite negb_false_iff. done.
  - rewrite any_bad_environment_key_false. destruct expected_sha256; simpl;
      autorewrite with validation; naive_solver.
Qed.

(** ** Sections of named items *)
Lemma fold_names_seen {A} (name : A -> string) check items seen :
  (fold_names name check items seen).2 = list_to_set (map name items) ∪ seen.
Proof.
  revert seen. induction items as [|item items IH]; intros seen; simpl; [set_solver|].
  specialize (IH ({[name item]} ∪ seen)).
  destruct (fold_names name check items ({[name item]} ∪ seen)). simpl in *. set_solver.
Qed.

Lemma fold_names_nil {A} (name : A -> string) check items seen :
  (forall item, check true item <> []) ->
  (fold_names name check items seen).1 = []
  <-> (forall item, item ∈ items -> check false item = [] /\ name item ∉ seen)
      /\ NoDup (map name items).
Proof.
  intros Hdup. revert seen. induction items as [|item items IH]; intros seen; simpl.
  { split; [|done]. intros _. split; [|constructor]. intros item Hi. by inversion Hi. }
  specialize (IH ({[name item]} ∪ seen)).
  destruct (fold_names name check items ({[name item]} ∪ seen)) as [rest seen'].
  simpl in *. rewrite app_nil, IH, NoDup_cons, elem_of_map. split.
  - intros [Hc [Hall Hnd]]. case_bool_decide as Hin; [by apply Hdup in Hc|].
    split; [|split; [|done]].
    + intros i [->|Hi]%elem_of_cons; [done|]. destruct (Hall i Hi). set_solver.
    + intros (i & Hn & Hi). destruct (Hall i Hi). set_solver.
  - intros [Hall [Hfresh Hnd]]. destruct (Hall item) as [Hc Hin]; [by left|].
    rewrite bool_decide_eq_false_2 by done. split; [done|]. split; [|done].
    intros i Hi. destruct (Hall i) as [? ?]; [by right|]. split; [done|].
    rewrite elem_of_union, elem_of_singleton. naive_solver.
Qed.

(** ** Valid configurations *)
Record DaemonValid (daemon : DaemonConfig) : Prop := {
  dv_socket_absolute : is_absolute (daemon_socket_path daemon) = true;
  dv_state_absolute : is_absolute (daemon_state_path daemon) = true;
  dv_poll_interval : daemon_poll_interval daemon <> 0;
  dv_event_buffer : 16 <= daemon_event_buffer daemon;
  dv_executables_absolute : forall path,
    path ∈ daemon_allowed_executables daemon -> is_absolute path = true;
}.

Section spec.
Context `{EngineEnv} `{Regex}.

Record ModesValid (modes : list ModeConfig) : Prop := {
  mv_names : forall mode, mode ∈ modes -> valid_identifier (mode_name mode) = true;
  mv_unique : NoDup (map mode_name modes);
  mv_initial : (length (List.filter mode_initial modes) <= 1)%nat;
}.

Record VaultValid (vault : VaultConfig) : Prop := {
  vv_name : valid_identifier (vault_name vault) = true;
  vv_path : is_absolute (vault_path vault) = true;
  vv_gocryptfs : vault_adapter vault = VaultAdapter.Gocryptfs ->
    exists encrypted mount, vault_encrypted_path vault = Some encrypted
      /\ vault_mount_path vault = Some mount
      /\ is_absolute encrypted = true /\ is_absolute mount = true;
  vv_keyring : forall description, vault_keyring_description vault = Some description ->
    bad_keyring_description description = false;
}.

Record HotkeyValid (hotkey : HotkeyConfig) : Prop := {
  hv_name : valid_identifier (hotkey_name hotkey) = true;
  hv_device : is_absolute (hotkey_device hotkey) = true;
  hv_sequence_bounds : (1 <= length (hotkey_sequence hotkey) <= 32)%nat;
  hv_within : hotkey_within hotkey <> 0;
  hv_keys : forall key, key ∈ hotkey_sequence hotkey -> valid_key_name key = true;
}.

Record RuleValid (config : Config) (rule : Rule) : Prop := {
  rv_id : valid_identifier (rule_id rule) = true;
  rv_actions_nonempty : rule_actions rule <> [];
  rv_trigger :
    trigger_ok (list_to_set (map hotkey_name (config_hotkeys config))) (rule_trigger rule);
  rv_when : forall condition, rule_when rule = Some condition -> condition_ok condition;
  rv_actions : forall action, action ∈ rule_actions rule ->
    action_ok config (list_to_set (map vault_name (config_vaults config)))
      (list_to_set (map mode_name (config_modes config))) action;
}.

Record ConfigValid (config : Config) : Prop := {
  cv_version : config_version config = 1;
  cv_daemon : DaemonValid (config_daemon config);
  cv_modes : ModesValid (config_modes config);
  cv_vaults : forall vault, vault ∈ config_vaults config -> VaultValid vault;
  cv_vaults_unique : NoDup (map vault_name (config_vaults config));
  cv_hotkeys : forall hotkey, hotkey ∈ config_hotkeys config -> HotkeyValid hotkey;
  cv_hotkeys_unique : NoDup (map hotkey_name (config_hotkeys config));
  cv_rules : forall rule, rule ∈ config_rules config -> RuleValid config rule;
  cv_rules_unique : NoDup (map rule_id (config_rules config));
}.

Lemma validate_daemon_nil version daemon :
  validate_daemon version daemon = [] <-> version = 1 /\ DaemonValid daemon.
Proof using.
  unfold validate_daemon. autorewrite with validation. setoid_rewrite error_if_negb_nil. split.
  - intros (? & ? & ? & ? & ? & ?). split; [done|]. by constructor.
  - by intros [? []].
Qed.

Lemma validate_modes_nil modes :
  (validate_modes modes).1 = [] <-> ModesValid modes.
Proof.
  unfold validate_modes.
  pose proof (fold_names_nil mode_name validate_mode modes ∅) as Hf.
  destruct (fold_names mode_name validate_mode modes ∅) as [errors names].
  simpl in *. rewrite app_nil, Hf, error_if_nil, Nat.ltb_ge.
  2: { intros mode. unfold validate_mode. rewrite app_nil. by intros [_ ?]. }
  unfold validate_mode. setoid_rewrite app_nil. setoid_rewrite error_if_negb_nil.
  split.
  - intros [[Hv ?] ?]. constructor; [|done..]. intros mode Hm. by destruct (Hv mode Hm) as [[? _] _].
  - intros [? ? ?]. split; [|done]. split; [|done]. intros mode Hm. split; [by auto|set_solver].
Qed.

Lemma gocryptfs_paths vault :
  eqb (vault_adapter vault) VaultAdapter.Gocryptfs
  && (is_none_or (vault_encrypted_path vault) (fun p => negb (is_absolute p))
      || is_none_or (vault_mount_path vault) (fun p => negb (is_absolute p))) = false
  <-> (vault_adapter vault = VaultAdapter.Gocryptfs ->
       exists encrypted mount, vault_encrypted_path vault = Some encrypted
         /\ vault_mount_path vault = Some mount
         /\ is_absolute encrypted = true /\ is_absolute mount = true).
Proof using.
  rewrite andb_false_iff, orb_false_iff.
  unfold eqb. destruct (vault_adapter vault), (vault_encrypted_path vault), (vault_mount_path vault);
    simpl; rewrite ?negb_false_iff; naive_solver.
Qed.

Lemma validate_vault_nil vault : validate_vault false vault = [] <-> VaultValid vault.
Proof.
  unfold validate_vault. rewrite !app_nil, !error_if_negb_nil, !error_if_nil, gocryptfs_paths.
  split.
  - intros (? & _ & ? & ? & Hk). constructor; [done..|]. intros d Hd. by rewrite Hd in Hk.
  - intros [? ? ? Hk]. split_and!; [done..|].
    destruct (vault_keyring_description vault); simpl; auto.
Qed.

Lemma validate_hotkey_nil hotkey : validate_hotkey false hotkey = [] <-> HotkeyValid hotkey.
Proof.
  unfold validate_hotkey. autorewrite with validation. rewrite is_nil_false.
  assert ((match List.find (fun key => negb (valid_key_name key)) (hotkey_sequence hotkey) with
           | Some key => [ValidationError.Hotkey (hotkey_name hotkey)
                            ("unsupported key name: " +:+ key)]
           | None => [] end) = []
          <-> forall key, key ∈ hotkey_sequence hotkey -> valid_key_name key = true) as ->.
  { destruct (List.find _ _) as [key|] eqn:Hfind.
    - apply find_some in Hfind as [Hin Hbad]. split; [done|]. intros Hall.
      rewrite Hall in Hbad by (by apply list_elem_of_In). done.
    - split; [|done]. intros _ key Hk%list_elem_of_In.
      eapply find_none in Hfind; [|exact Hk]. by apply negb_false_iff in Hfind. }
  split.
  - intros (? & _ & ? & [? ?] & ? & ?). constructor; try done. destruct (hotkey_sequence hotkey); simpl in *; [done|lia].
  - intros [? ? [? ?] ? ?]. split_and!; try done. intros Hn. rewrite Hn in *. simpl in *. lia.
Qed.

Lemma validate_rule_nil config rule :
  validate_rule config (list_to_set (map hotkey_name (config_hotkeys config)))
    (list_to_set (map vault_name (config_vaults config)))
    (list_to_set (map mode_name (config_modes config))) false rule = []
  <-> RuleValid config rule.
Proof.
  unfold validate_rule. rewrite !app_nil, error_if_negb_nil, !error_if_nil, is_nil_false,
    flat_map_nil, validate_trigger_nil, Nat.add_0_r.
  setoid_rewrite validate_action_nil. split.
  - intros (? & _ & ? & Ht & Hc & ?). constructor; [done|done|exact Ht| |done]. intros c Hc'. rewrite Hc' in Hc.
    apply validate_condition_nil in Hc. by rewrite Nat.add_0_r in Hc.
  - intros [? ? Ht Hc ?]. split_and!; [done..|apply Ht|apply Ht| |done].
    destruct (rule_when rule); [|done].
    apply validate_condition_nil. rewrite Nat.add_0_r. by apply Hc.
Qed.

(** A section is accepted when its items are and their names are distinct. *)
Lemma fold_names_valid {A} (name : A -> string) check items (P : A -> Prop) :
  (forall item, check true item <> []) -> (forall item, check false item = [] <-> P item) ->
  (fold_names name check items ∅).1 = []
  <-> (forall item, item ∈ items -> P item) /\ NoDup (map name items).
Proof using.
  intros Hdup HP. rewrite fold_names_nil by done. setoid_rewrite HP. set_solver.
Qed.

(** A repeated name is an error of its own in every section. *)
Lemma duplicate_errors config hotkeys vaults modes :
  (forall v, validate_vault true v <> []) /\ (forall h, validate_hotkey true h <> [])
  /\ (forall r, validate_rule config hotkeys vaults modes true r <> []).
Proof.
  split_and!; intros x; unfold validate_vault, validate_hotkey, validate_rule;
    rewrite !app_nil; by intros (_ & ? & _).
Qed.

Lemma config_errors_nil config : config_errors config = [] <-> ConfigValid config.
Proof.
  unfold config_errors.
  pose proof (duplicate_errors config
    (list_to_set (map hotkey_name (config_hotkeys config)))
    (list_to_set (map vault_name (config_vaults config)))
    (list_to_set (map mode_name (config_modes config)))) as Hdup.
  pose proof (validate_modes_nil (config_modes config)) as Hmodes.
  assert ((validate_modes (config_modes config)).2
          = list_to_set (map mode_name (config_modes config))) as Hmn.
  { unfold validate_modes. pose proof (fold_names_seen mode_name validate_mode (config_modes config) ∅) as Hs.
    destruct (fold_names _ _ _ _). simpl in *. set_solver. }
  pose proof (fold_names_valid vault_name validate_vault (config_vaults config) VaultValid
                (proj1 Hdup) validate_vault_nil) as Hvaults.
  pose proof (fold_names_seen vault_name validate_vault (config_vaults config) ∅) as Hvn.
  pose proof (fold_names_valid hotkey_name validate_hotkey (config_hotkeys config) HotkeyValid
                (proj1 (proj2 Hdup)) validate_hotkey_nil) as Hhotkeys.
  pose proof (fold_names_seen hotkey_name validate_hotkey (config_hotkeys config) ∅) as Hhn.
  fold (validate_vaults (config_vaults config)) in Hvaults, Hvn.
  fold (validate_hotkeys (config_hotkeys config)) in Hhotkeys, Hhn.
  rewrite union_empty_r_L in Hvn, Hhn.
  destruct (validate_modes _) as [me mn], (validate_vaults _) as [ve vn],
    (validate_hotkeys _) as [he hn]. simpl in *. subst mn vn hn.
  pose proof (fold_names_valid rule_id _ (config_rules config) (RuleValid config)
                (proj2 (proj2 Hdup)) (validate_rule_nil config)) as Hrules.
  destruct (fold_names _ _ _ _) as [re rn]. simpl in *.
  rewrite !app_nil, validate_daemon_nil, Hmodes, Hvaults, Hhotkeys, Hrules. split.
  - intros ([? ?] & ? & [? ?] & [? ?] & [? ?]). by constructor.
  - by intros [].
Qed.

Lemma validate_config_valid config : validate_config config = inl () -> ConfigValid config.
Proof.
  rewrite <- config_errors_nil. unfold validate_config. by destruct (config_errors config).
Qed.

(** C17: validate_config returns Ok exactly for the configurations that satisfy the
    declarative specification ConfigValid. *)
Theorem validate_config_exact config :
  validate_config config = inl () <-> ConfigValid config.
Proof.
  rewrite <- config_errors_nil. unfold validate_config. destruct (config_errors config); by split.
Qed.
End spec.
