(* ===== verification/Hotkey.v ===== *)
(** * The hotkey sensor ([kovert-sensors/src/hotkey.rs])

    [key_code], and the sliding window of key presses the sensor task keeps
    for one configured emergency sequence. The bounded window is shown to
    recognise exactly what the unbounded history of presses would. *)

From stdpp Require Import base tactics option list strings gmap sorting.
From Stdlib Require Import ZArith Lia Ascii.
From S2P Require Import Prelude RustStr RustPath Config Event Matching Validation.
Local Open Scope Z_scope.
Local Open Scope stdpp_scope.

(** The arms of the match of [key_code], in order. *)
Definition key_table : list (string * Z) :=
  [("ESC", 1); ("1", 2); ("2", 3); ("3", 4); ("4", 5); ("5", 6); ("6", 7); ("7", 8);
   ("8", 9); ("9", 10); ("0", 11); ("Q", 16); ("W", 17); ("E", 18); ("R", 19); ("T", 20);
   ("Y", 21); ("U", 22); ("I", 23); ("O", 24); ("P", 25); ("ENTER", 28); ("LEFTCTRL", 29);
   ("CTRL", 29); ("A", 30); ("S", 31); ("D", 32); ("F", 33); ("G", 34); ("H", 35);
   ("J", 36); ("K", 37); ("L", 38); ("LEFTSHIFT", 42); ("SHIFT", 42); ("Z", 44); ("X", 45);
   ("C", 46); ("V", 47); ("B", 48); ("N", 49); ("M", 50); ("LEFTALT", 56); ("ALT", 56);
   ("SPACE", 57); ("F1", 59); ("F2", 60); ("F3", 61); ("F4", 62); ("F5", 63); ("F6", 64);
   ("F7", 65); ("F8", 66); ("F9", 67); ("F10", 68); ("F11", 87); ("F12", 88);
   ("RIGHTCTRL", 97); ("RIGHTALT", 100); ("HOME", 102); ("UP", 103); ("PAGEUP", 104);
   ("LEFT", 105); ("RIGHT", 106); ("END", 107); ("DOWN", 108); ("PAGEDOWN", 109);
   ("INSERT", 110); ("DELETE", 111); ("LEFTMETA", 125); ("META", 125); ("RIGHTMETA", 126)].

Fixpoint assoc (l : list (string * Z)) (key : string) : option Z :=
  match l with
  | [] => None
  | (k, v) :: l => if eqb k key then Some v else assoc l key
  end.

(** [key_code]. *)
Definition key_code (name : string) : option Z :=
  let normalized := to_ascii_uppercase (trim name) in
  let value := default normalized (strip_prefix "KEY_" normalized) in
  assoc key_table value.

(** The key codes of a configured sequence: the [collect::<Result<_>>] at the
    start of [spawn]. *)
Fixpoint sequence_codes (names : list string) : Result (list Z) :=
  match names with
  | [] => Ok []
  | key :: names =>
      match key_code key with
      | None => Err ("unsupported key name: " +:+ key)
      | Some code => match sequence_codes names with
                     | Err e => Err e
                     | Ok codes => Ok (code :: codes)
                     end
      end
  end.

(** ** The window *)

(** An input event, by what the task looks at. *)
Record InputEvent := mkInputEvent { input_is_key : bool; input_code : Z; input_value : Z }.

Abbreviation Press := (Z * Z)%type (only parsing).

(** [now.duration_since(at) > within]; an [Instant] difference saturates. *)
Definition expired (within now : Z) (press : Press) : bool := within <? Z.max 0 (now - press.2).

(** [while front.is_some_and(expired) { pop_front }]. *)
Fixpoint drop_while {A} (p : A -> bool) (l : list A) : list A :=
  match l with
  | [] => []
  | x :: l' => if p x then drop_while p l' else l
  end.

Section window.
Context (sequence : list Z) (within : Z).

(** One turn of the task's loop on an input event read at [now]: the new
    buffer, and whether the hotkey event is sent. *)
Definition hotkey_step (buffer : list Press) (event : InputEvent) (now : Z)
    : list Press * bool :=
  if negb (input_is_key event) || negb (input_value event =? 1) then (buffer, false)
  else
    let buffer := buffer ++ [(input_code event, now)] in
    let buffer := last_n (length sequence) buffer in
    let buffer := drop_while (expired within now) buffer in
    if (length buffer =? length sequence)%nat && eqb (map fst buffer) sequence
    then ([], true) else (buffer, false).

(** The reference: keep every press since the sequence last matched. *)
Definition history_step (history : list Press) (event : InputEvent) (now : Z)
    : list Press * bool :=
  if negb (input_is_key event) || negb (input_value event =? 1) then (history, false)
  else
    let history := history ++ [(input_code event, now)] in
    let recent := last_n (length sequence) history in
    if eqb (map fst recent) sequence && negb (existsb (expired within now) recent)
    then ([], true) else (history, false).

(** What [stream.next_event()] returned, when, and whether the receiving end
    of the event channel was open then. *)
Record StreamItem := mkStreamItem
  { item_read : Result InputEvent; item_at : Z; item_open : bool }.

(** The task over what it reads, for either way of keeping presses: the kinds
    of the events that reached the channel. A read error is reported and ends
    the task, and so does a closed channel. *)
Fixpoint hotkey_task (step : list Press -> InputEvent -> Z -> list Press * bool)
    (name : string) (state : list Press) (stream : list StreamItem) : list EventKind :=
  match stream with
  | [] => []
  | item :: stream =>
      match item_read item with
      | Err message =>
          if item_open item then [EventKind.SensorFailure "hotkeys" message] else []
      | Ok event =>
          let (state, fired) := step state event (item_at item) in
          if fired then
            if item_open item
            then EventKind.Hotkey name :: hotkey_task step name state stream
            else []
          else hotkey_task step name state stream
      end
  end.
End window.

(** ** Key names *)
Lemma assoc_Some l key : is_Some (assoc l key) <-> key ∈ map fst l.
Proof.
  induction l as [|[k v] l IH]; simpl.
  - rewrite elem_of_nil. split; [by intros [? ?]|done].
  - rewrite elem_of_cons, <- IH. unfold eqb. case_bool_decide; naive_solver.
Qed.

Lemma string_map_all f p s : (forall c, p (f c) = true) -> all_chars p (string_map f s) = true.
Proof. intros Hf. induction s as [|c s IH]; simpl; [done|]. by rewrite Hf, IH. Qed.

Lemma strip_prefix_all p pre s t :
  strip_prefix pre s = Some t -> all_chars p s = true -> all_chars p t = true.
Proof.
  revert s. induction pre as [|c pre IH]; intros s Hs; simpl in Hs; [by simplify_eq|].
  destruct s as [|d s]; [done|]. case_match; [|done].
  intros [_ ?]%andb_true_iff. by eapply IH.
Qed.

Definition not_lowercase (c : ascii) : bool := negb (is_ascii_lowercase c).

Lemma normalize_key_upper value : all_chars not_lowercase (normalize_key value) = true.
Proof.
  unfold normalize_key.
  assert (all_chars not_lowercase (to_ascii_uppercase (trim value)) = true) as Hu.
  { apply string_map_all. by intros [[] [] [] [] [] [] [] []]. }
  destruct (strip_prefix _ _) as [t|] eqn:Hs; simpl; [by eapply strip_prefix_all|done].
Qed.

(** The single characters of the table. *)
Lemma single_key c :
  not_lowercase c = true ->
  is_ascii_alphanumeric c = true <-> String c EmptyString ∈ map fst key_table.
Proof.
  intros Hc. rewrite <- list_contains_true.
  destruct c as [[] [] [] [] [] [] [] []]; vm_compute in Hc |- *; by try discriminate.
Qed.

Lemma named_key key :
  key ∈ map fst key_table ->
  key ∈ named_keys
  \/ match key with String c EmptyString => is_ascii_alphanumeric c = true | _ => False end.
Proof.
  intros Hk. assert (Forall (fun key => key ∈ named_keys
    \/ match key with String c EmptyString => is_ascii_alphanumeric c = true | _ => False end)
    (map fst key_table)) as Hall.
  { repeat (constructor; [first [right; by vm_compute | left; apply list_contains_true; by vm_compute]|]).
    constructor. }
  rewrite Forall_forall in Hall. auto.
Qed.

Lemma named_keys_in_table key : key ∈ named_keys -> key ∈ map fst key_table.
Proof.
  intros Hk. assert (Forall (fun key => key ∈ map fst key_table) named_keys) as Hall.
  { repeat (constructor; [apply list_contains_true; by vm_compute|]). constructor. }
  rewrite Forall_forall in Hall. auto.
Qed.

Lemma key_code_total name : valid_key_name name = true -> is_Some (key_code name).
Proof.
  change (key_code name) with (assoc key_table (normalize_key name)).
  rewrite assoc_Some. pose proof (normalize_key_upper name) as Hu. unfold valid_key_name.
  rewrite orb_true_iff, list_contains_true. intros [Hc|Hn]; [|by apply named_keys_in_table].
  destruct (normalize_key name) as [|c []]; simpl in *; try done.
  apply andb_true_iff in Hu as [Hu _]. by apply single_key.
Qed.

(** Validation accepts a key name exactly when the hotkey sensor has a code for it. *)
Theorem valid_key_name_iff_code name :
  valid_key_name name = true <-> is_Some (key_code name).
Proof.
  split; [apply key_code_total|]. change (key_code name) with (assoc key_table (normalize_key name)).
  rewrite assoc_Some. unfold valid_key_name. rewrite orb_true_iff, list_contains_true.
  - intros [Hn|Hc]%named_key; [by right|left]. by destruct (normalize_key name) as [|c []].
Qed.

(** ** The window *)
Lemma drop_while_suffix {A} (p : A -> bool) l :
  exists old, l = old ++ drop_while p l /\ Forall (fun x => p x = true) old.
Proof.
  induction l as [|x l [old [Hl Hold]]]; simpl; [by exists []|].
  destruct (p x) eqn:Hp; [|by exists []].
  exists (x :: old). simpl. split; [by f_equal|by constructor].
Qed.

Lemma drop_while_app {A} (p : A -> bool) old l :
  Forall (fun x => p x = true) old -> drop_while p (old ++ l) = drop_while p l.
Proof. induction 1 as [|x old Hx Hold IH]; simpl; [done|]. by rewrite Hx. Qed.

Lemma drop_while_length {A} (p : A -> bool) l : (length (drop_while p l) <= length l)%nat.
Proof. induction l as [|x l IH]; simpl; [done|]. destruct (p x); simpl; lia. Qed.

Lemma expired_mono within t t' press :
  t <= t' -> expired within t press = true -> expired within t' press = true.
Proof. unfold expired. lia. Qed.

(** The window after one more press, computed from the window or from the
    whole history. *)
Lemma window_push n within t now history p :
  t <= now ->
  drop_while (expired within now)
    (last_n n (drop_while (expired within t) (last_n n history) ++ [p]))
  = drop_while (expired within now) (last_n n (history ++ [p])).
Proof.
  intros Ht. rewrite !last_n_app. simpl.
  destruct (drop_while_suffix (expired within t) (last_n n history)) as (old & Hl & Hold).
  assert (last_n (n - 1) history
          = last_n (n - 1 - length (drop_while (expired within t) (last_n n history))) old
            ++ last_n (n - 1) (drop_while (expired within t) (last_n n history))) as ->.
  { rewrite <- last_n_app, <- Hl. symmetry. apply last_n_last_n. lia. }
  rewrite <- app_assoc. symmetry. apply drop_while_app. unfold last_n. apply Forall_drop.
  eapply Forall_impl; [exact Hold|]. intros x. by apply expired_mono.
Qed.

(** Presses in time order: the oldest of a list expires first. *)
Lemma oldest_expires within now l :
  StronglySorted (fun a b : Press => a.2 <= b.2) l ->
  (drop_while (expired within now) l = l <-> existsb (expired within now) l = false).
Proof.
  intros Hs. destruct Hs as [|x l Hs Hx]; simpl; [done|].
  destruct (expired within now x) eqn:Hex; simpl.
  - split; [|done]. intros Heq. apply (f_equal length) in Heq. simpl in Heq.
    pose proof (drop_while_length (expired within now) l). lia.
  - split; [intros _|done]. apply not_true_iff_false. rewrite existsb_exists.
    intros (y & Hy%list_elem_of_In & Hey). rewrite Forall_forall in Hx. specialize (Hx _ Hy).
    unfold expired in *. lia.
Qed.

Abbreviation in_time_order := (StronglySorted (fun a b : Press => a.2 <= b.2)).

(** What relates the bounded window to the history of presses. *)
Record window_of (sequence : list Z) (within t : Z) (buffer history : list Press) : Prop := {
  window_buffer :
    buffer = drop_while (expired within t) (last_n (length sequence) history);
  window_sorted : in_time_order history;
  window_past : Forall (fun p : Press => p.2 <= t) history }.

Lemma window_of_later sequence within t now buffer history code :
  t <= now -> window_of sequence within t buffer history ->
  window_of sequence within now
    (drop_while (expired within now) (last_n (length sequence) (buffer ++ [(code, now)])))
    (history ++ [(code, now)]).
Proof.
  intros Ht [-> Hs Hp].
  assert (Forall (fun p : Press => p.2 <= now) history) as Hp'
    by (eapply Forall_impl; [exact Hp|]; simpl; lia).
  split.
  - by apply window_push.
  - by apply StronglySorted_snoc.
  - apply Forall_app. split; [done|]. constructor; [simpl; lia|done].
Qed.

(** On a press both steps agree on whether the sequence was entered. *)
Lemma match_agrees sequence within now history :
  in_time_order history ->
  let recent := last_n (length sequence) history in
  let buffer := drop_while (expired within now) recent in
  (length buffer =? length sequence)%nat && eqb (map fst buffer) sequence
  = eqb (map fst recent) sequence && negb (existsb (expired within now) recent).
Proof.
  intros Hs recent buffer.
  assert (in_time_order recent) as Hr
    by (eapply StronglySorted_sublist; [apply last_n_sublist|done]).
  pose proof (oldest_expires within now recent Hr) as Hold. fold buffer in Hold.
  assert (length recent <= length sequence)%nat as Hle by apply last_n_length.
  destruct (drop_while_suffix (expired within now) recent) as (old & Hsplit & _).
  fold buffer in Hsplit.
  destruct (existsb (expired within now) recent) eqn:Hex; simpl.
  - rewrite andb_false_r. apply andb_false_intro1, Nat.eqb_neq. intros Hlen.
    assert (buffer = recent) as Heq; [|by apply Hold in Heq].
    rewrite Hsplit. apply (f_equal length) in Hsplit as Hl. rewrite length_app in Hl.
    by destruct old; [|simpl in Hl; lia].
  - rewrite andb_true_r. assert (buffer = recent) as -> by by apply Hold.
    destruct (eqb (map fst recent) sequence) eqn:He; [|by rewrite andb_false_r].
    apply eqb_true, (f_equal length) in He. rewrite length_map in He.
    by rewrite He, Nat.eqb_refl.
Qed.

Lemma task_agrees sequence within name stream : forall t buffer history,
  window_of sequence within t buffer history ->
  StronglySorted Z.le (t :: map item_at stream) ->
  hotkey_task (hotkey_step sequence within) name buffer stream
  = hotkey_task (history_step sequence within) name history stream.
Proof.
  induction stream as [|[[event|message] now open] stream IH]; intros t buffer history Hw Hs;
    simpl; [done| |done].
  inversion_clear Hs as [|?? Hs' Ht]. inversion_clear Ht as [|?? Hnow Hlater].
  unfold hotkey_step, history_step at 1. destruct (_ || _) eqn:Hkey.
  - apply (IH t); [done|]. inversion_clear Hs'. by constructor.
  - pose proof (window_of_later _ _ _ now _ _ (input_code event) Hnow Hw) as Hw'.
    rewrite (window_buffer _ _ _ _ _ Hw'), match_agrees by apply Hw'.
    destruct (_ && _); simpl.
    + destruct open; [|done]. f_equal. apply (IH now); [|done]. by split; [|constructor..].
    + apply (IH now); [|done]. by rewrite <- (window_buffer _ _ _ _ _ Hw').
Qed.

(** C36: For nondecreasing clock readings the hotkey task with its bounded expiring buffer
    sends the same events as one that keeps every press since the last match. *)
Theorem hotkey_window_exact sequence within name stream :
  StronglySorted Z.le (map item_at stream) ->
  hotkey_task (hotkey_step sequence within) name [] stream
  = hotkey_task (history_step sequence within) name [] stream.
Proof.
  intros Hs. destruct stream as [|item stream]; [done|].
  apply (task_agrees _ _ _ _ (item_at item)).
  - by split; [|constructor..].
  - constructor; [done|]. inversion_clear Hs. constructor; [done|done].
Qed.

(** The buffer never outgrows the capacity it was allocated with. *)
Lemma hotkey_step_bound sequence within buffer event now :
  (length buffer <= length sequence)%nat ->
  (length (hotkey_step sequence within buffer event now).1 <= length sequence)%nat.
Proof.
  intros Hb. unfold hotkey_step. case_match; [done|]. case_match; simpl; [lia|].
  etrans; [apply drop_while_length|apply last_n_length].
Qed.

(** Control and X, a second apart. *)
Lemma hotkey_window_exact_witness :
  hotkey_task (hotkey_step [29; 45] (secs 3)) "panic" []
    [mkStreamItem (Ok (mkInputEvent true 29 1)) (secs 1) true;
     mkStreamItem (Ok (mkInputEvent true 45 1)) (secs 2) true]
  = [EventKind.Hotkey "panic"].
Proof.
  rewrite (hotkey_window_exact [29; 45] (secs 3) "panic"); [reflexivity|].
  repeat (constructor; try (vm_compute; discriminate)).
Defined.
