(* ===== verification/ConfigFixtures.v ===== *)
(** * A valid configuration

    The configuration of the rules of [Fixtures], with the vaults, modes,
    hotkey and allowlists they name. *)

From stdpp Require Import base tactics option list strings gmap.
From Stdlib Require Import ZArith Lia Ascii.
From S2P Require Import Prelude RustStr RustPath Config Event Matching Validation ValidationSpec.
From S2P Require Import Fixtures.
Local Open Scope Z_scope.
Local Open Scope stdpp_scope.

Definition identifier_char (c : ascii) : bool :=
  is_ascii_alphanumeric c || list_contains ["_"; "."; "-"]%char c.

(** The one pattern of the source, by its documented meaning. *)
#[global] Instance fixture_regex : Regex := {|
  regex_new := fun pattern =>
    if eqb pattern identifier_pattern
    then Some (fun value => negb (is_empty value) && all_chars identifier_char value)
    else None;
|}.

Definition documents_vault : VaultConfig := {|
  vault_name := "documents"; vault_adapter := VaultAdapter.Gocryptfs;
  vault_path := "/home/user/documents"; vault_encrypted_path := Some "/srv/documents.enc";
  vault_mount_path := Some "/home/user/documents";
  vault_keyring_description := Some "kovert-documents";
|}.

Definition archive_vault : VaultConfig := {|
  vault_name := "archive"; vault_adapter := VaultAdapter.Fscrypt; vault_path := "/srv/archive";
  vault_encrypted_path := None; vault_mount_path := None; vault_keyring_description := None;
|}.

Definition panic_hotkey : HotkeyConfig := {|
  hotkey_name := "panic"; hotkey_device := "/dev/input/event0";
  hotkey_sequence := ["KEY_LEFTCTRL"; "x"]; hotkey_within := secs 3;
|}.

Definition fixture_daemon : DaemonConfig := {|
  daemon_socket_path := default_socket_path;
  daemon_state_path := default_state_path;
  daemon_dry_run := false;
  daemon_poll_interval := default_poll_interval;
  daemon_command_timeout := default_command_timeout;
  daemon_event_buffer := default_event_buffer;
  daemon_socket_group := "kovert";
  daemon_allowed_executables := ["/usr/local/bin/hook"];
  daemon_managed_processes := ["gdb"];
  daemon_desktop_notifications := false;
|}.

Definition fixture_modes : list ModeConfig :=
  [mkModeConfig "normal" EmptyString true; mkModeConfig "lockdown" EmptyString false].

Definition config_with (rules : list Rule) : Config := {|
  config_version := 1; config_daemon := fixture_daemon; config_audit := AuditConfig_default;
  config_modes := fixture_modes; config_vaults := [documents_vault; archive_vault];
  config_hotkeys := [panic_hotkey]; config_rules := rules;
|}.

Definition fixture_config : Config := config_with fixture_rules.

Lemma fixture_config_ok : validate_config fixture_config = inl tt.
Proof. vm_compute. reflexivity. Qed.
