(* ===== verification/Requirements.v ===== *)
(** * What the sensors must watch ([kovert-sensors/src/requirements.rs])

    [SensorRequirements::from_config] with [collect_trigger] and
    [collect_condition]. The requirements are shown to be the least ones that
    meet every need the rules state, to be enough for every trigger of a valid
    configuration, and to include everything the conditions read. *)

From stdpp Require Import base tactics option list strings gmap.
From Stdlib Require Import ZArith Lia Ascii.
From S2P Require Import Prelude RustStr RustPath Config Event Matching Validation ValidationSpec.
From S2P Require Import Fixtures ConfigFixtures.
Local Open Scope Z_scope.
Local Open Scope stdpp_scope.

(** A [BTreeMap<PathBuf, bool>]: paths compare by their components, and an
    insertion on an equal path keeps the stored key. *)
Abbreviation FileWatches := (gmap (list Component) (PathBuf * bool)) (only parsing).

Definition watch_insert (path : PathBuf) (recursive : bool) (m : FileWatches) : FileWatches :=
  <[components path := (default path (fst <$> m !! components path), recursive)]> m.

Record SensorRequirements := mkSensorRequirements {
  req_file_watches : FileWatches;
  req_wifi : bool;
  req_network : bool;
  req_usb : bool;
  req_mounts : bool;
  req_processes : gset string;
  req_services : gset string;
  req_ports : gset (NetworkProtocol * Z);
  req_sessions : bool;
  req_power : bool;
  req_integrity : bool;
}.

Definition SensorRequirements_default : SensorRequirements :=
  mkSensorRequirements ∅ false false false false ∅ ∅ ∅ false false false.

(** The assignments of [collect_trigger] and [collect_condition]. *)
Definition need_file (path : PathBuf) (recursive : bool) '(mkSensorRequirements f w n u m p s o e b i) :=
  mkSensorRequirements (watch_insert path recursive f) w n u m p s o e b i.
Definition need_wifi '(mkSensorRequirements f w n u m p s o e b i) :=
  mkSensorRequirements f true n u m p s o e b i.
Definition need_network '(mkSensorRequirements f w n u m p s o e b i) :=
  mkSensorRequirements f w true u m p s o e b i.
Definition need_usb '(mkSensorRequirements f w n u m p s o e b i) :=
  mkSensorRequirements f w n true m p s o e b i.
Definition need_mounts '(mkSensorRequirements f w n u m p s o e b i) :=
  mkSensorRequirements f w n u true p s o e b i.
Definition need_process (name : string) '(mkSensorRequirements f w n u m p s o e b i) :=
  mkSensorRequirements f w n u m ({[name]} ∪ p) s o e b i.
Definition need_service (name : string) '(mkSensorRequirements f w n u m p s o e b i) :=
  mkSensorRequirements f w n u m p ({[name]} ∪ s) o e b i.
Definition need_port (protocol : NetworkProtocol) (port : Z)
    '(mkSensorRequirements f w n u m p s o e b i) :=
  mkSensorRequirements f w n u m p s ({[(protocol, port)]} ∪ o) e b i.
Definition need_sessions '(mkSensorRequirements f w n u m p s o e b i) :=
  mkSensorRequirements f w n u m p s o true b i.
Definition need_power '(mkSensorRequirements f w n u m p s o e b i) :=
  mkSensorRequirements f w n u m p s o e true i.
Definition need_integrity '(mkSensorRequirements f w n u m p s o e b i) :=
  mkSensorRequirements f w n u m p s o e b true.

Fixpoint collect_trigger (trigger : TriggerSpec) (value : SensorRequirements)
    : SensorRequirements :=
  match trigger with
  | TriggerSpec.File path _ recursive => need_file path recursive value
  | TriggerSpec.WifiChanged _ _ _ => need_wifi value
  | TriggerSpec.NetworkChanged _ _ _ => need_network value
  | TriggerSpec.Usb _ _ _ _ => need_usb value
  | TriggerSpec.Mount _ _ => need_mounts value
  | TriggerSpec.Process name _ =>
      match name with Some name => need_process name value | None => value end
  | TriggerSpec.Service name _ =>
      match name with Some name => need_service name value | None => value end
  | TriggerSpec.Port port _ protocol =>
      match port with
      | Some port =>
          match protocol with
          | Some protocol => need_port protocol port value
          | None =>
              need_port NetworkProtocol.Udp port (need_port NetworkProtocol.Tcp port value)
          end
      | None => value
      end
  | TriggerSpec.Session _ _ _ => need_sessions value
  | TriggerSpec.Power _ _ _ => need_power value
  | TriggerSpec.All triggers | TriggerSpec.Any triggers | TriggerSpec.Sequence triggers _ =>
      foldl (fun value item => collect_trigger item value) value triggers
  | TriggerSpec.Not trigger => collect_trigger trigger value
  | TriggerSpec.IntegrityFailure _ => need_integrity value
  | TriggerSpec.Tick | TriggerSpec.Hotkey _ | TriggerSpec.Manual _
  | TriggerSpec.SensorFailure _ => value
  end.

(** The inner match of [SensorHealthy]. *)
Definition collect_sensor (sensor : string) (value : SensorRequirements) : SensorRequirements :=
  if eqb sensor "wifi" then need_wifi value
  else if eqb sensor "network" then need_network value
  else if eqb sensor "usb" then need_usb value
  else if eqb sensor "mounts" then need_mounts value
  else if eqb sensor "sessions" then need_sessions value
  else if eqb sensor "power" then need_power value
  else if list_contains ["integrity"; "configuration"; "binary"] sensor
  then need_integrity value
  else value.

Fixpoint collect_condition (condition : ConditionSpec) (value : SensorRequirements)
    : SensorRequirements :=
  match condition with
  | ConditionSpec.Wifi _ _ _ => need_wifi value
  | ConditionSpec.Network _ _ _ => need_network value
  | ConditionSpec.Mounted _ _ => need_mounts value
  | ConditionSpec.Process name _ => need_process name value
  | ConditionSpec.Service name _ => need_service name value
  | ConditionSpec.Port port _ protocol => need_port protocol port value
  | ConditionSpec.Session _ _ _ => need_sessions value
  | ConditionSpec.Power _ _ _ => need_power value
  | ConditionSpec.All conditions | ConditionSpec.Any conditions =>
      foldl (fun value item => collect_condition item value) value conditions
  | ConditionSpec.Not condition => collect_condition condition value
  | ConditionSpec.SensorHealthy sensor _ => collect_sensor sensor value
  | ConditionSpec.TimeWindow _ _ _ _ | ConditionSpec.Mode _ | ConditionSpec.PathExists _ _ => value
  end.

Definition collect_rule (value : SensorRequirements) (rule : Rule) : SensorRequirements :=
  let value := collect_trigger (rule_trigger rule) value in
  match rule_when rule with
  | Some condition => collect_condition condition value
  | None => value
  end.

Definition from_config (config : Config) : SensorRequirements :=
  foldl collect_rule SensorRequirements_default (config_rules config).

(** ** The order of requirements *)
Record req_le (v v' : SensorRequirements) : Prop := {
  le_files : dom (req_file_watches v) ⊆ dom (req_file_watches v');
  le_wifi : req_wifi v = true -> req_wifi v' = true;
  le_network : req_network v = true -> req_network v' = true;
  le_usb : req_usb v = true -> req_usb v' = true;
  le_mounts : req_mounts v = true -> req_mounts v' = true;
  le_processes : req_processes v ⊆ req_processes v';
  le_services : req_services v ⊆ req_services v';
  le_ports : req_ports v ⊆ req_ports v';
  le_sessions : req_sessions v = true -> req_sessions v' = true;
  le_power : req_power v = true -> req_power v' = true;
  le_integrity : req_integrity v = true -> req_integrity v' = true;
}.

#[global] Instance req_le_preorder : PreOrder req_le.
Proof.
  split.
  - intros v. by split.
  - intros v1 v2 v3 [] []. split; solve [auto | set_solver].
Qed.

(** What one node of a trigger or condition needs. *)
Definition trigger_needs (t : TriggerSpec) (v : SensorRequirements) : Prop :=
  match t with
  | TriggerSpec.File path _ _ => components path ∈ dom (req_file_watches v)
  | TriggerSpec.WifiChanged _ _ _ => req_wifi v = true
  | TriggerSpec.NetworkChanged _ _ _ => req_network v = true
  | TriggerSpec.Usb _ _ _ _ => req_usb v = true
  | TriggerSpec.Mount _ _ => req_mounts v = true
  | TriggerSpec.Process (Some name) _ => name ∈ req_processes v
  | TriggerSpec.Service (Some name) _ => name ∈ req_services v
  | TriggerSpec.Port (Some port) _ (Some protocol) => (protocol, port) ∈ req_ports v
  | TriggerSpec.Port (Some port) _ None =>
      (NetworkProtocol.Tcp, port) ∈ req_ports v /\ (NetworkProtocol.Udp, port) ∈ req_ports v
  | TriggerSpec.Session _ _ _ => req_sessions v = true
  | TriggerSpec.Power _ _ _ => req_power v = true
  | TriggerSpec.IntegrityFailure _ => req_integrity v = true
  | _ => True
  end.

Definition sensor_needs (sensor : string) (v : SensorRequirements) : Prop :=
  (sensor = "wifi" -> req_wifi v = true) /\ (sensor = "network" -> req_network v = true)
  /\ (sensor = "usb" -> req_usb v = true) /\ (sensor = "mounts" -> req_mounts v = true)
  /\ (sensor = "sessions" -> req_sessions v = true) /\ (sensor = "power" -> req_power v = true)
  /\ (sensor ∈ ["integrity"; "configuration"; "binary"] -> req_integrity v = true).

Definition condition_needs (c : ConditionSpec) (v : SensorRequirements) : Prop :=
  match c with
  | ConditionSpec.Wifi _ _ _ => req_wifi v = true
  | ConditionSpec.Network _ _ _ => req_network v = true
  | ConditionSpec.Mounted _ _ => req_mounts v = true
  | ConditionSpec.Process name _ => name ∈ req_processes v
  | ConditionSpec.Service name _ => name ∈ req_services v
  | ConditionSpec.Port port _ protocol => (protocol, port) ∈ req_ports v
  | ConditionSpec.Session _ _ _ => req_sessions v = true
  | ConditionSpec.Power _ _ _ => req_power v = true
  | ConditionSpec.SensorHealthy sensor _ => sensor_needs sensor v
  | _ => True
  end.

Definition rule_needs (rule : Rule) (v : SensorRequirements) : Prop :=
  (forall u, u ∈ subtriggers (rule_trigger rule) -> trigger_needs u v)
  /\ forall c u, rule_when rule = Some c -> u ∈ subconditions c -> condition_needs u v.

(** ** Collectors

    An update that adds what [P] needs and nothing more. *)
Record Collects (f : SensorRequirements -> SensorRequirements)
    (P : SensorRequirements -> Prop) : Prop := {
  collects_extends : forall v, req_le v (f v);
  collects_meets : forall v, P (f v);
  collects_least : forall v v', req_le v v' -> P v' -> req_le (f v) v';
  collects_mono : forall v v', req_le v v' -> P v -> P v';
}.

Lemma collects_id (P : SensorRequirements -> Prop) : (forall v, P v) -> Collects id P.
Proof. intros HP. by split. Qed.

Lemma collects_compose f g P Q R :
  Collects f P -> Collects g Q -> (forall v, R v <-> P v /\ Q v) ->
  Collects (fun v => g (f v)) R.
Proof.
  intros [f1 f2 f3 f4] [g1 g2 g3 g4] HR. split; intros v.
  - etrans; [apply f1|apply g1].
  - apply HR. split; [eapply f4; [apply g1|apply f2]|apply g2].
  - intros v' Hv [HP HQ]%HR. auto.
  - intros v' Hv [HP HQ]%HR. apply HR. eauto.
Qed.

Lemma collects_iff f P Q : (forall v, P v <-> Q v) -> Collects f P -> Collects f Q.
Proof. intros HPQ [f1 f2 f3 f4]. split; intros v; [done|by apply HPQ|..]; intros v' Hv ?%HPQ; [auto|apply HPQ; eauto]. Qed.

Lemma collects_foldl {A} (f : A -> SensorRequirements -> SensorRequirements) P l :
  (forall x, x ∈ l -> Collects (f x) (P x)) ->
  Collects (fun v => foldl (fun v x => f x v) v l) (fun v => forall x, x ∈ l -> P x v).
Proof.
  induction l as [|x l IH]; intros Hl; simpl.
  - apply collects_id. intros v x Hx. by inversion Hx.
  - eapply (collects_compose (f x) (fun v => foldl (fun v x => f x v) v l)).
    + apply Hl. by left.
    + apply IH. intros y Hy. apply Hl. by right.
    + intros v. setoid_rewrite elem_of_cons. naive_solver.
Qed.

(** Each assignment is a collector of its own need. *)
Ltac solve_collects :=
  split;
  [ intros [] | intros [] | intros [] [] [] | intros [] [] [] ];
  try (split; simpl in *; try done); simpl in *; try done; set_solver.

Lemma collects_wifi : Collects need_wifi (fun v => req_wifi v = true).
Proof. solve_collects. Qed.
Lemma collects_network : Collects need_network (fun v => req_network v = true).
Proof. solve_collects. Qed.
Lemma collects_usb : Collects need_usb (fun v => req_usb v = true).
Proof. solve_collects. Qed.
Lemma collects_mounts : Collects need_mounts (fun v => req_mounts v = true).
Proof. solve_collects. Qed.
Lemma collects_sessions : Collects need_sessions (fun v => req_sessions v = true).
Proof. solve_collects. Qed.
Lemma collects_power : Collects need_power (fun v => req_power v = true).
Proof. solve_collects. Qed.
Lemma collects_integrity : Collects need_integrity (fun v => req_integrity v = true).
Proof. solve_collects. Qed.
Lemma collects_process name : Collects (need_process name) (fun v => name ∈ req_processes v).
Proof. solve_collects. Qed.
Lemma collects_service name : Collects (need_service name) (fun v => name ∈ req_services v).
Proof. solve_collects. Qed.
Lemma collects_port protocol port :
  Collects (need_port protocol port) (fun v => (protocol, port) ∈ req_ports v).
Proof. solve_collects. Qed.
Lemma collects_file path recursive :
  Collects (need_file path recursive) (fun v => components path ∈ dom (req_file_watches v)).
Proof. unfold need_file, watch_insert. solve_collects. Qed.

Create HintDb collects.
#[export] Hint Resolve collects_wifi collects_network collects_usb collects_mounts
  collects_sessions collects_power collects_integrity collects_process collects_service
  collects_port collects_file : collects.

Lemma collects_sensor sensor : Collects (collect_sensor sensor) (sensor_needs sensor).
Proof.
  unfold collect_sensor, sensor_needs, eqb.
  repeat (case_bool_decide; subst;
    [eapply collects_iff; [|solve [auto with collects]]; intros v; set_solver|]).
  destruct (list_contains _ sensor) eqn:Hs.
  - apply list_contains_true in Hs.
    eapply collects_iff; [|apply collects_integrity]. intros v. split; [|naive_solver].
    intros ?. split_and!; naive_solver.
  - assert (sensor ∉ ["integrity"; "configuration"; "binary"]) as Hn
      by (rewrite <- list_contains_true; congruence).
    apply collects_id. intros v. split_and!; naive_solver.
Qed.

(** The needs of a node and of everything under it. *)
Definition tree_needs (t : TriggerSpec) (v : SensorRequirements) : Prop :=
  forall u, u ∈ subtriggers t -> trigger_needs u v.
Definition condition_tree_needs (c : ConditionSpec) (v : SensorRequirements) : Prop :=
  forall u, u ∈ subconditions c -> condition_needs u v.

Lemma leaf_needs {A} (P : A -> SensorRequirements -> Prop) x v :
  P x v <-> forall u, u ∈ [x] -> P u v.
Proof. setoid_rewrite list_elem_of_singleton. naive_solver. Qed.

Lemma node_needs {A} (P : A -> SensorRequirements -> Prop) (f : A -> list A) x l v :
  P x v ->
  (forall y, y ∈ l -> forall u, u ∈ f y -> P u v) <-> forall u, u ∈ x :: flat_map f l -> P u v.
Proof. intros Hx. setoid_rewrite elem_of_cons. setoid_rewrite elem_of_flat_map. naive_solver. Qed.

Lemma collects_trigger t : Collects (collect_trigger t) (tree_needs t).
Proof.
  induction t as [t Hleaf|ts IH|ts IH|t IH|ts within IH] using TriggerSpec.nested_ind.
  - unfold tree_needs. destruct t; try done; simpl;
      repeat (case_match; subst); (eapply collects_iff; [intros v; apply leaf_needs|]); simpl;
      solve [auto with collects | by apply collects_id
            | eapply collects_compose; [apply collects_port..|done]].
  - eapply collects_iff; [|apply collects_foldl; by apply Forall_forall]. intros v.
    by apply (node_needs trigger_needs).
  - eapply collects_iff; [|apply collects_foldl; by apply Forall_forall]. intros v.
    by apply (node_needs trigger_needs).
  - eapply collects_iff; [|exact IH]. intros v. unfold tree_needs. simpl.
    setoid_rewrite elem_of_cons. naive_solver.
  - eapply collects_iff; [|apply collects_foldl; by apply Forall_forall]. intros v.
    by apply (node_needs trigger_needs).
Qed.

Lemma collects_condition c : Collects (collect_condition c) (condition_tree_needs c).
Proof.
  induction c as [c Hleaf|cs IH|cs IH|c IH] using ConditionSpec.nested_ind.
  - unfold condition_tree_needs. destruct c; try done; simpl;
      (eapply collects_iff; [intros v; apply leaf_needs|]); simpl;
      solve [auto using collects_sensor with collects | by apply collects_id].
  - eapply collects_iff; [|apply collects_foldl; by apply Forall_forall]. intros v.
    by apply (node_needs condition_needs).
  - eapply collects_iff; [|apply collects_foldl; by apply Forall_forall]. intros v.
    by apply (node_needs condition_needs).
  - eapply collects_iff; [|exact IH]. intros v. unfold condition_tree_needs. simpl.
    setoid_rewrite elem_of_cons. naive_solver.
Qed.

Lemma collects_rule rule : Collects (fun v => collect_rule v rule) (rule_needs rule).
Proof.
  unfold collect_rule, rule_needs. destruct (rule_when rule) as [c|].
  - eapply (collects_compose (collect_trigger (rule_trigger rule)) (collect_condition c));
      [apply collects_trigger|apply collects_condition|].
    intros v. unfold tree_needs, condition_tree_needs. naive_solver.
  - eapply collects_iff; [|apply collects_trigger]. intros v. unfold tree_needs. naive_solver.
Qed.

Lemma collects_config config :
  Collects (fun v => foldl collect_rule v (config_rules config))
    (fun v => forall rule, rule ∈ config_rules config -> rule_needs rule v).
Proof. apply (collects_foldl (fun rule v => collect_rule v rule)). intros. apply collects_rule. Qed.

Lemma default_least v : req_le SensorRequirements_default v.
Proof. split; simpl; solve [done | set_solver]. Qed.

Lemma from_config_meets config rule :
  rule ∈ config_rules config -> rule_needs rule (from_config config).
Proof. apply (collects_meets _ _ (collects_config config)). Qed.

(** from_config yields the least sensor requirements that cover every node of every
    trigger and condition of the rules: all of them are met, and nothing else is asked for. *)
Theorem from_config_least config :
  (forall rule, rule ∈ config_rules config -> rule_needs rule (from_config config))
  /\ forall v, (forall rule, rule ∈ config_rules config -> rule_needs rule v) ->
               req_le (from_config config) v.
Proof.
  split; [apply from_config_meets|]. intros v Hv.
  apply (collects_least _ _ (collects_config config)); [apply default_least|done].
Qed.

(** ** Enough for the triggers *)

(** The sensors started for [v] watch for events like this one: a file is
    covered by a watch of its own path, or by a recursive watch above it.
    Ticks, hotkeys, manual events and sensor failures do not depend on the
    requirements. *)
Definition watches (v : SensorRequirements) (event : Event) : Prop :=
  match event_kind event with
  | EventKind.File path _ =>
      exists watched recursive, req_file_watches v !! components watched = Some (watched, recursive)
        /\ (path_eqb path watched = true \/ recursive = true /\ path_starts_with path watched = true)
  | EventKind.Wifi _ _ _ => req_wifi v = true
  | EventKind.Network _ _ _ => req_network v = true
  | EventKind.Usb _ _ _ _ => req_usb v = true
  | EventKind.Mount _ _ _ => req_mounts v = true
  | EventKind.Process name _ _ => name ∈ req_processes v
  | EventKind.Service name _ => name ∈ req_services v
  | EventKind.Port port protocol _ => (protocol, port) ∈ req_ports v
  | EventKind.Session _ _ _ => req_sessions v = true
  | EventKind.Power _ _ _ => req_power v = true
  | EventKind.Integrity _ _ _ => req_integrity v = true
  | EventKind.Tick | EventKind.Hotkey _ | EventKind.Manual _ | EventKind.SensorFailure _ _ => True
  end.

Definition leaf_trigger (t : TriggerSpec) : bool :=
  match t with
  | TriggerSpec.All _ | TriggerSpec.Any _ | TriggerSpec.Not _ | TriggerSpec.Sequence _ _ => false
  | _ => true
  end.

(** *** File watches

    A watch of a configuration is one of its file triggers: the last on its
    path decides the recursion. *)
Definition file_trigger (config : Config) (path : PathBuf) (recursive : bool) : Prop :=
  exists rule operations, rule ∈ config_rules config
    /\ TriggerSpec.File path operations recursive ∈ subtriggers (rule_trigger rule).

(** The entries of the watches are kept under their own components and satisfy
    [P]. *)
Definition watches_from (P : PathBuf -> bool -> Prop) (v : SensorRequirements) : Prop :=
  forall key stored recursive, req_file_watches v !! key = Some (stored, recursive) ->
    components stored = key
    /\ exists path, components path = key /\ P path recursive.

Lemma watches_from_same P v v' :
  req_file_watches v' = req_file_watches v -> watches_from P v -> watches_from P v'.
Proof. unfold watches_from. by intros ->. Qed.

Lemma watches_from_file (P : PathBuf -> bool -> Prop) path recursive v :
  P path recursive -> watches_from P v -> watches_from P (need_file path recursive v).
Proof.
  intros HP Hv key stored r. destruct v as [files ? ? ? ? ? ? ? ? ? ?]. cbn. unfold watch_insert.
  destruct (decide (components path = key)) as [<-|Hne].
  - rewrite lookup_insert_eq. intros [= <- <-]. split; [|by exists path].
    destruct (files !! components path) as [[old r0]|] eqn:Hold; [|done].
    by destruct (Hv _ _ _ Hold) as [? _].
  - rewrite lookup_insert_ne by done. apply Hv.
Qed.

Lemma watches_from_foldl {A} P (f : A -> SensorRequirements -> SensorRequirements) l v :
  (forall x v, x ∈ l -> watches_from P v -> watches_from P (f x v)) ->
  watches_from P v -> watches_from P (foldl (fun v x => f x v) v l).
Proof.
  revert v. induction l as [|x l IH]; intros v Hf Hv; [done|]. cbn.
  apply IH; [intros; apply Hf; [by right|done]|]. apply Hf; [by left|done].
Qed.

Lemma watches_from_trigger P t : forall v,
  (forall path operations recursive,
     TriggerSpec.File path operations recursive ∈ subtriggers t -> P path recursive) ->
  watches_from P v -> watches_from P (collect_trigger t v).
Proof.
  induction t as [t Hleaf|ts IH|ts IH|t IH|ts within IH] using TriggerSpec.nested_ind;
    intros v HP Hv.
  - destruct t as [| | | | | |name ?|name ?|port ? protocol| | | | | | | | | |]; try done;
      try (destruct v; exact Hv).
    all: try (destruct name; destruct v; exact Hv).
    all: try (destruct port, protocol; destruct v; exact Hv).
    apply watches_from_file; [|done]. eapply HP. by left.
  - apply watches_from_foldl; [|done]. rewrite Forall_forall in IH. intros t v' Ht Hv'.
    apply IH; [done| |done]. intros path operations recursive Hin. eapply HP. right.
    apply elem_of_flat_map. eauto.
  - apply watches_from_foldl; [|done]. rewrite Forall_forall in IH. intros t v' Ht Hv'.
    apply IH; [done| |done]. intros path operations recursive Hin. eapply HP. right.
    apply elem_of_flat_map. eauto.
  - apply IH; [|done]. intros path operations recursive Hin. eapply HP. by right.
  - apply watches_from_foldl; [|done]. rewrite Forall_forall in IH. intros t v' Ht Hv'.
    apply IH; [done| |done]. intros path operations recursive Hin. eapply HP. right.
    apply elem_of_flat_map. eauto.
Qed.

Lemma collect_condition_files c : forall v,
  req_file_watches (collect_condition c v) = req_file_watches v.
Proof.
  assert (forall cs, Forall (fun c => forall v,
            req_file_watches (collect_condition c v) = req_file_watches v) cs ->
          forall v, req_file_watches (foldl (fun v c => collect_condition c v) v cs)
                    = req_file_watches v) as Hfold.
  { induction 1 as [|c' cs Hc Hcs IH]; intros v; cbn; [done|]. by rewrite IH, Hc. }
  induction c as [c Hleaf|cs IH|cs IH|c IH] using ConditionSpec.nested_ind; intros v; cbn; auto.
  destruct c; try done; try by destruct v. destruct v.
  cbn [collect_condition]. unfold collect_sensor.
  by repeat match goal with |- context [if ?b then _ else _] => destruct b end.
Qed.

Lemma from_config_files config : watches_from (file_trigger config) (from_config config).
Proof.
  apply (watches_from_foldl _ (fun rule v => collect_rule v rule)).
  2:{ intros key stored recursive. cbn. by rewrite lookup_empty. }
  intros rule v Hr Hv. unfold collect_rule.
  assert (watches_from (file_trigger config) (collect_trigger (rule_trigger rule) v)) as Ht.
  { apply watches_from_trigger; [|done]. intros path operations recursive Hin.
    by exists rule, operations. }
  destruct (rule_when rule); [|done]. eapply watches_from_same; [|exact Ht].
  apply collect_condition_files.
Qed.

(** No other file trigger asks for the path of [t] without the recursion that
    [t] asks for. *)
Definition recursion_kept (config : Config) (t : TriggerSpec) : Prop :=
  match t with
  | TriggerSpec.File path _ true =>
      forall path' recursive, file_trigger config path' recursive ->
        components path' = components path -> recursive = true
  | _ => True
  end.

Lemma file_watched config path operations recursive actual :
  recursion_kept config (TriggerSpec.File path operations recursive) ->
  components path ∈ dom (req_file_watches (from_config config)) ->
  path_matches path actual recursive = true ->
  exists watched recursive',
    req_file_watches (from_config config) !! components watched = Some (watched, recursive')
    /\ (path_eqb actual watched = true \/ recursive' = true /\ path_starts_with actual watched = true).
Proof.
  intros Hkept [[watched recursive'] Hw]%elem_of_dom Hm.
  destruct (from_config_files config _ _ _ Hw) as [Hstored (path' & Hpath' & Ht)].
  exists watched, recursive'. rewrite Hstored. split; [done|].
  unfold path_matches, path_eqb, path_starts_with in *. rewrite Hstored. destruct recursive.
  - right. split; [|done]. by eapply Hkept.
  - left. done.
Qed.

Lemma leaf_watched t hotkeys config event :
  trigger_node_ok hotkeys t -> recursion_kept config t -> trigger_needs t (from_config config) ->
  leaf_trigger t = true -> trigger_matches t event = true -> watches (from_config config) event.
Proof.
  intros Hok Hkept Hneed Hleaf Hm. destruct event as [id at_ source kind].
  unfold watches. cbn [event_kind].
  destruct t; try discriminate Hleaf; destruct kind; cbn [trigger_matches event_kind] in Hm;
    try discriminate Hm; cbn [trigger_node_ok] in Hok; cbn [trigger_needs] in Hneed;
    repeat match goal with
    | H : (_ && _) = true |- _ => apply andb_true_iff in H as [? ?]
    | H : is_Some _ |- _ => destruct H as [? ->]
    end;
    lazymatch goal with
    | |- True => exact I
    | |- (_ _) = true => exact Hneed
    | |- _ => cbn [is_none_or] in *
    end.
  - by eapply file_watched.
  - by match goal with H : eqb _ _ = true |- _ => apply eqb_true in H as <- end.
  - by match goal with H : eqb _ _ = true |- _ => apply eqb_true in H as <- end.
  - match goal with H : eqb _ port0 = true |- _ => apply eqb_true in H as <- end.
    destruct protocol as [protocol|]; cbn [is_none_or] in *.
    + by match goal with H : eqb _ protocol0 = true |- _ => apply eqb_true in H as <- end.
    + by destruct protocol0, Hneed.
Qed.

Lemma forallb_ext_in' {A} (f g : A -> bool) l :
  (forall x, x ∈ l -> f x = g x) -> forallb f l = forallb g l.
Proof.
  induction l as [|x l IH]; simpl; [done|]. intros Hfg.
  rewrite Hfg, IH; [done|intros; apply Hfg; by right|by left].
Qed.

Lemma existsb_ext_in' {A} (f g : A -> bool) l :
  (forall x, x ∈ l -> f x = g x) -> existsb f l = existsb g l.
Proof.
  induction l as [|x l IH]; simpl; [done|]. intros Hfg.
  rewrite Hfg, IH; [done|intros; apply Hfg; by right|by left].
Qed.

Section enough.
Context `{EngineEnv} `{Regex}.

Lemma valid_rule_trigger config rule t :
  validate_config config = inl tt -> rule ∈ config_rules config ->
  t ∈ subtriggers (rule_trigger rule) ->
  trigger_node_ok (list_to_set (map hotkey_name (config_hotkeys config))) t.
Proof.
  intros Hv%validate_config_valid Hr Ht. apply (cv_rules _ Hv) in Hr as [_ _ [_ Hok] _ _]. auto.
Qed.

(** C22: If a leaf trigger of a rule of a validated configuration matches an event, the
    derived sensor requirements ask for the sensor that reports events of that kind and
    subject; for a file, the path itself is watched, or a directory above it recursively,
    provided no other file trigger asks for the path of a recursive trigger without
    recursion. *)
Theorem triggers_watched config rule t event :
  validate_config config = inl tt -> rule ∈ config_rules config ->
  t ∈ subtriggers (rule_trigger rule) -> leaf_trigger t = true -> recursion_kept config t ->
  trigger_matches t event = true -> watches (from_config config) event.
Proof.
  intros Hv Hr Ht Hleaf Hkept Hm. destruct (from_config_meets config rule Hr) as [Hneeds _].
  eapply leaf_watched; [by eapply valid_rule_trigger|done|by apply Hneeds|done..].
Qed.

(** ** Enough for the conditions *)

(** Two snapshots agree on what the sensors required by [v] report, the mounts
    when [mounts] is true, and on what does not come from them: the time, the
    mode and the health of the sensors. *)
Record same_view (mounts : bool) (v : SensorRequirements) (s s' : SystemSnapshot) : Prop := {
  view_now : snap_now s = snap_now s';
  view_mode : snap_mode s = snap_mode s';
  view_health : snap_sensor_health s = snap_sensor_health s';
  view_wifi : req_wifi v = true ->
    snap_wifi_connected s = snap_wifi_connected s' /\ snap_wifi_ssid s = snap_wifi_ssid s'
    /\ snap_wifi_bssid s = snap_wifi_bssid s';
  view_network : req_network v = true ->
    snap_network_online s = snap_network_online s'
    /\ snap_active_interface s = snap_active_interface s'
    /\ snap_vpn_active s = snap_vpn_active s';
  view_mounts : mounts = true -> req_mounts v = true -> snap_mounts s = snap_mounts s';
  view_processes : forall name, name ∈ req_processes v ->
    (name ∈ snap_processes s <-> name ∈ snap_processes s');
  view_services : forall name, name ∈ req_services v ->
    snap_services s !! name = snap_services s' !! name;
  view_ports : forall port, port ∈ req_ports v -> (port ∈ snap_ports s <-> port ∈ snap_ports s');
  view_sessions : req_sessions v = true ->
    snap_session_state s = snap_session_state s' /\ snap_session_user s = snap_session_user s'
    /\ snap_session_remote s = snap_session_remote s';
  view_power : req_power v = true ->
    snap_on_ac s = snap_on_ac s' /\ snap_battery_percent s = snap_battery_percent s'
    /\ snap_lid_closed s = snap_lid_closed s';
}.

(** No part of the condition asks for a mount. *)
Definition mount_free (c : ConditionSpec) : Prop :=
  forall path mounted, ConditionSpec.Mounted path mounted ∉ subconditions c.

Lemma leaf_view mounts c v s s' :
  match c with ConditionSpec.All _ | ConditionSpec.Any _ | ConditionSpec.Not _ => False | _ => True end ->
  mounts = true \/ mount_free c ->
  condition_needs c v -> same_view mounts v s s' -> condition_matches c s = condition_matches c s'.
Proof.
  intros Hleaf Hmounts Hneed Hv. destruct c; try done; cbn in Hneed |- *.
  - by rewrite (view_now _ _ _ _ Hv).
  - by destruct (view_wifi _ _ _ _ Hv Hneed) as (-> & -> & ->).
  - by destruct (view_network _ _ _ _ Hv Hneed) as (-> & -> & ->).
  - by rewrite (view_mode _ _ _ _ Hv).
  - by rewrite (view_now _ _ _ _ Hv).
  - destruct Hmounts as [Hm|Hfree]; [|destruct (Hfree path mounted); by left].
    by rewrite (view_mounts _ _ _ _ Hv Hm Hneed).
  - f_equal. apply bool_decide_ext. by apply (view_processes _ _ _ _ Hv).
  - by rewrite (view_services _ _ _ _ Hv _ Hneed).
  - f_equal. apply bool_decide_ext. by apply (view_ports _ _ _ _ Hv).
  - by destruct (view_sessions _ _ _ _ Hv Hneed) as (-> & -> & ->).
  - by destruct (view_power _ _ _ _ Hv Hneed) as (-> & -> & ->).
  - by rewrite (view_health _ _ _ _ Hv).
Qed.

Lemma condition_view mounts v s s' :
  same_view mounts v s s' -> forall c, mounts = true \/ mount_free c ->
  condition_tree_needs c v -> condition_matches c s = condition_matches c s'.
Proof.
  intros Hv. induction c as [c Hleaf|cs IH|cs IH|c IH] using ConditionSpec.nested_ind;
    intros Hmounts Hneed.
  - apply (leaf_view mounts _ v); [done|done| |done]. apply Hneed. destruct c; by left.
  - cbn. apply forallb_ext_in'. rewrite Forall_forall in IH. intros c Hc. apply IH; [done| |].
    { destruct Hmounts as [|Hfree]; [by left|right]. intros path mounted Hin.
      apply (Hfree path mounted). right. apply elem_of_flat_map. eauto. }
    intros u Hu. apply Hneed. right. apply elem_of_flat_map. eauto.
  - cbn. apply existsb_ext_in'. rewrite Forall_forall in IH. intros c Hc. apply IH; [done| |].
    { destruct Hmounts as [|Hfree]; [by left|right]. intros path mounted Hin.
      apply (Hfree path mounted). right. apply elem_of_flat_map. eauto. }
    intros u Hu. apply Hneed. right. apply elem_of_flat_map. eauto.
  - cbn. rewrite IH; [done| |].
    { destruct Hmounts as [|Hfree]; [by left|right]. intros path mounted Hin.
      apply (Hfree path mounted). by right. }
    intros u Hu. apply Hneed. by right.
Qed.

(** The condition of a rule has the same value in any two snapshots that agree on what
    the required sensors report and on time, mode and sensor health: no condition reads a
    part of the snapshot nobody keeps up to date. *)
Theorem conditions_sensed config rule c s s' :
  rule ∈ config_rules config -> rule_when rule = Some c ->
  same_view true (from_config config) s s' -> condition_matches c s = condition_matches c s'.
Proof.
  intros Hr Hc Hv. apply (condition_view _ _ _ _ Hv); [by left|].
  destruct (from_config_meets config rule Hr) as [_ Hneeds]. intros u. by apply Hneeds.
Qed.
End enough.

(** ** Concrete configurations *)
Definition watch_rule (id : string) (recursive : bool) : Rule :=
  base_rule id (TriggerSpec.File "/srv" [] recursive).

Definition deep_event : Event :=
  Event_new "f" (secs 1) "filesystem" (EventKind.File "/srv/a/b" FileOperation.Modify).

Lemma triggers_watched_witness :
  watches (from_config (config_with [watch_rule "deep" true; lid_rule])) deep_event.
Proof.
  refine (triggers_watched (config_with [watch_rule "deep" true; lid_rule]) (watch_rule "deep" true)
            (TriggerSpec.File "/srv" [] true) deep_event _ _ _ _ _ _).
  - vm_compute. reflexivity.
  - left.
  - left.
  - reflexivity.
  - intros path recursive (rule & operations & Hr & Ht) _. cbn in Hr.
    apply elem_of_cons in Hr as [->|Hr%list_elem_of_singleton]; [|subst rule];
      apply list_elem_of_singleton in Ht; cbn in Ht; by simplify_eq.
  - vm_compute. reflexivity.
Defined.

(** The lid rule does not see the wireless network. *)
Lemma conditions_sensed_witness :
  condition_matches (ConditionSpec.Power None None (Some true)) (SystemSnapshot_default 0)
  = condition_matches (ConditionSpec.Power None None (Some true))
      (set_wifi true (Some "lab") None (SystemSnapshot_default 0)).
Proof.
  refine (conditions_sensed fixture_config lid_rule _ _ _ _ _ _).
  - right. left.
  - reflexivity.
  - assert (req_wifi (from_config fixture_config) = false) as Hw by (vm_compute; reflexivity).
    split; try reflexivity; intros; [congruence|split_and!; reflexivity..].
Defined.

(** When two rules watch the same path and the later one is not recursive, the path is
    watched without recursion, although the earlier rule matches events below it. *)
Theorem recursive_watch_lost :
  let config := config_with [watch_rule "deep" true; watch_rule "flat" false] in
  validate_config config = inl tt
  /\ trigger_matches (rule_trigger (watch_rule "deep" true)) deep_event = true
  /\ req_file_watches (from_config config) !! components "/srv" = Some ("/srv", false).
Proof. vm_compute. split_and!; reflexivity. Qed.
