(* ===== verification/Effects.v ===== *)
(** * Effectful code

    The daemon, the audit store and the executor are state-passing functions
    that return, fail with an error ([anyhow::Error], by its message) or panic.
    [M S] is that monad over a state [S]; the notations are stdpp's
    ([x ← m; k] for [let x = m?; k]). A failure keeps the state reached. *)

From stdpp Require Import base tactics option list strings.
From S2P Require Import Prelude.

Inductive Outcome (A : Type) : Type :=
| Return (a : A)
| Throw (message : string)
| Panic.
Arguments Return {_} _.
Arguments Throw {_} _.
Arguments Panic {_}.

Definition M (S A : Type) : Type := S -> Outcome A * S.

#[global] Instance M_ret S : MRet (M S) := fun A a s => (Return a, s).
#[global] Instance M_bind S : MBind (M S) := fun A B k m s =>
  match m s with
  | (Return a, s) => k a s
  | (Throw e, s) => (Throw e, s)
  | (Panic, s) => (Panic, s)
  end.

Definition throw {S A} (message : string) : M S A := fun s => (Throw message, s).
Definition panic {S A} : M S A := fun s => (Panic, s).
Definition get {S} : M S S := fun s => (Return s, s).
Definition modify {S} (f : S -> S) : M S unit := fun s => (Return tt, f s).

(** A pure fallible computation, and [bail!] under a condition. *)
Definition lift_result {S A} (r : Result A) : M S A :=
  match r with Ok a => mret a | Err e => throw e end.
Definition require {S} (b : bool) (message : string) : M S unit :=
  if b then mret tt else throw message.

(** [match m { Ok(a) => ok(a), Err(e) => err(e) }]. *)
Definition try_catch {S A B} (m : M S A) (ok : A -> M S B) (err : string -> M S B) : M S B :=
  fun s => match m s with
           | (Return a, s) => ok a s
           | (Throw e, s) => err e s
           | (Panic, s) => (Panic, s)
           end.

(** [with_context]: the message shown is the context. *)
Definition with_context {S A} (context : string) (m : M S A) : M S A :=
  try_catch m mret (fun _ => throw context).

Fixpoint for_each {S A} (f : A -> M S unit) (l : list A) : M S unit :=
  match l with
  | [] => mret tt
  | x :: l => f x;; for_each f l
  end.

(** A computation on a part of a larger state. *)
Definition zoom {S T A} (view : T -> S) (update : S -> T -> T) (m : M S A) : M T A := fun t =>
  let (r, s) := m (view t) in (r, update s t).

(** ** Reasoning *)
Lemma bind_eq {S A B} (m : M S A) (k : A -> M S B) s :
  (m ≫= k) s = match m s with
               | (Return a, s) => k a s
               | (Throw e, s) => (Throw e, s)
               | (Panic, s) => (Panic, s)
               end.
Proof. done. Qed.

Lemma bind_return {S A B} (m : M S A) (k : A -> M S B) s b s'' :
  (m ≫= k) s = (Return b, s'') ->
  exists a s', m s = (Return a, s') /\ k a s' = (Return b, s'').
Proof. rewrite bind_eq. destruct (m s) as [[a|e|] s']; [|done|done]. eauto. Qed.

Lemma guard_eq {S A} b e (m : M S A) s :
  (require b e;; m) s = if b then m s else (Throw e, s).
Proof. by destruct b. Qed.

Lemma lift_eq {S A} (r : Result A) (s : S) :
  lift_result r s = match r with Ok a => (Return a, s) | Err e => (Throw e, s) end.
Proof. by destruct r. Qed.

Lemma lift_return {S A} (r : Result A) (s s' : S) a :
  lift_result r s = (Return a, s') -> r = Ok a /\ s' = s.
Proof. destruct r; [|done]. by intros [= <- <-]. Qed.

(** Whatever the outcome, the relation [R] holds between the state before and
    the state after. *)
Definition respects {S A} (R : S -> S -> Prop) (m : M S A) : Prop := forall s, R s (m s).2.

(** A value the computation can return. *)
Definition returns {S A} (m : M S A) (a : A) : Prop := exists s s', m s = (Return a, s').

Section respects.
Context {S : Type} (R : S -> S -> Prop) `{!PreOrder R}.

Lemma respects_ret {A} (a : A) : respects R (mret a).
Proof. intros s. simpl. reflexivity. Qed.

Lemma respects_throw {A} e : respects R (throw (A:=A) e).
Proof. intros s. simpl. reflexivity. Qed.

Lemma respects_panic {A} : respects R (panic (A:=A)).
Proof. intros s. simpl. reflexivity. Qed.

Lemma respects_get : respects R get.
Proof. intros s. simpl. reflexivity. Qed.

Lemma respects_bind {A B} (m : M S A) (k : A -> M S B) :
  respects R m -> (forall a, respects R (k a)) -> respects R (m ≫= k).
Proof using Type*.
  intros Hm Hk s. rewrite bind_eq. specialize (Hm s).
  destruct (m s) as [[a|e|] s']; simpl in *; [|done|done]. etrans; [done|apply Hk].
Qed.

Lemma respects_guard {A} b e (m : M S A) :
  (b = true -> respects R m) -> respects R (require b e;; m).
Proof using Type*.
  intros Hm s. rewrite bind_eq. destruct b; simpl; [by apply Hm|reflexivity].
Qed.

(** The continuation may rely on what [m] returns. *)
Lemma respects_bind_returns {A B} (m : M S A) (k : A -> M S B) :
  respects R m -> (forall a, returns m a -> respects R (k a)) -> respects R (m ≫= k).
Proof using Type*.
  intros Hm Hk s. rewrite bind_eq. specialize (Hm s).
  destruct (m s) as [[a|e|] s'] eqn:Hs; simpl in *; [|done|done].
  etrans; [done|]. apply Hk. by exists s, s'.
Qed.

Lemma respects_lift {A} (r : Result A) : respects R (lift_result r).
Proof using Type*. destruct r; [apply respects_ret|apply respects_throw]. Qed.

Lemma respects_ok_or {A B} (o : option A) e (k : A -> M S B) :
  (forall a, o = Some a -> respects R (k a)) -> respects R (lift_result (ok_or o e) ≫= k).
Proof using Type*.
  intros Hk. destruct o as [a|]; simpl.
  - apply respects_bind_returns; [apply respects_ret|]. intros ? (? & ? & [= <- _]). auto.
  - intros s. rewrite bind_eq. simpl. reflexivity.
Qed.

Lemma respects_require b e : respects R (require b e).
Proof using Type*. destruct b; [apply respects_ret|apply respects_throw]. Qed.

Lemma respects_try_catch {A B} (m : M S A) (ok : A -> M S B) (err : string -> M S B) :
  respects R m -> (forall a, respects R (ok a)) -> (forall e, respects R (err e)) ->
  respects R (try_catch m ok err).
Proof using Type*.
  intros Hm Hok Herr s. unfold try_catch. specialize (Hm s).
  destruct (m s) as [[a|e|] s']; simpl in *; [etrans; [done|apply Hok]|etrans; [done|apply Herr]|done].
Qed.

Lemma respects_with_context {A} c (m : M S A) : respects R m -> respects R (with_context c m).
Proof using Type*.
  intros Hm. apply respects_try_catch; [done|intros; apply respects_ret|intros; apply respects_throw].
Qed.

End respects.

Lemma respects_zoom {S T A} (R : S -> S -> Prop) (Q : T -> T -> Prop) (view : T -> S) update
    (m : M S A) :
  (forall t s, R (view t) s -> Q t (update s t)) -> respects R m ->
  respects Q (zoom view update m).
Proof.
  intros HQ Hm t. unfold zoom. specialize (Hm (view t)).
  destruct (m (view t)) as [r s]. simpl in *. by apply HQ.
Qed.

Lemma respects_mono {S A} (R Q : S -> S -> Prop) (m : M S A) :
  (forall s s', R s s' -> Q s s') -> respects R m -> respects Q m.
Proof. intros HRQ Hm s. apply HRQ, Hm. Qed.

(** An invariant, as a relation. *)
Definition keeps {S} (I : S -> Prop) : S -> S -> Prop := fun s s' => I s -> I s'.

#[global] Instance keeps_preorder {S} (I : S -> Prop) : PreOrder (keeps I).
Proof. unfold keeps. split; intros ?; auto. Qed.

(** ** Calls outside the program

    The calls made so far are the state; a call is recorded, and answered by
    the calls before it. *)
Definition call {C A} (c : C) (answer : list C -> Result A) : M (list C) A := fun h =>
  match answer h with
  | Ok a => (Return a, h ++ [c])
  | Err e => (Throw e, h ++ [c])
  end.

(** The calls a computation adds all satisfy [P]. *)
Definition adds {C} (P : C -> Prop) (h h' : list C) : Prop :=
  exists new, h' = h ++ new /\ Forall P new.

#[global] Instance adds_preorder {C} (P : C -> Prop) : PreOrder (adds P).
Proof.
  split.
  - intros h. exists []. by rewrite app_nil_r.
  - intros h1 h2 h3 (n1 & -> & H1) (n2 & -> & H2). exists (n1 ++ n2).
    rewrite app_assoc. split; [done|]. by apply Forall_app.
Qed.

Lemma adds_impl {C} (P Q : C -> Prop) h h' :
  (forall c, P c -> Q c) -> adds P h h' -> adds Q h h'.
Proof. intros HPQ (new & -> & Hn). exists new. split; [done|]. by eapply Forall_impl. Qed.

Lemma respects_call {C A} (P : C -> Prop) c (answer : list C -> Result A) :
  P c -> respects (adds P) (call c answer).
Proof.
  intros Hc h. unfold call. exists [c].
  destruct (answer h); simpl; (split; [done|by constructor]).
Qed.

Create HintDb effects.
#[export] Hint Resolve respects_ret respects_throw respects_panic respects_get respects_lift
  respects_require respects_with_context : effects.
#[export] Hint Extern 2 (respects _ (_ ≫= _)) => apply respects_bind; [| |intros ?] : effects.
#[export] Hint Extern 2 (respects _ (try_catch _ _ _)) =>
  apply respects_try_catch; [| |intros ?|intros ?] : effects.
