(* ===== verification/Json.v ===== *)
(** * JSON values

    [serde_json::Value], the payload type of the audit store and of the
    control protocol. The textual codec is the [serde_json] crate's and a
    parameter. *)

From stdpp Require Import base tactics option list strings.
From Stdlib Require Import ZArith.
From S2P Require Import Prelude.

Module Json.
Inductive Json :=
| Null
| Bool (b : bool)
| Number (n : Z)
| String (s : string)
| Array (items : list Json)
| Object (fields : list (string * Json)).
End Json.
Abbreviation Json := Json.Json.

(** [serde_json::to_string] and [serde_json::from_str]. *)
Class SerdeJson := {
  json_to_string : Json -> Result string;
  json_from_str : string -> Result Json;
}.
