(* ===== verification/AuditBytes.v ===== *)
(** * The digest of an audit record ([record_hash] of [kovert-daemon/src/audit.rs])

    The six fields are hashed with a 64-bit little-endian length before each.
    The encoding is shown to be injective, so that two different records with
    the same digest are two different inputs of the hash function with it. *)

From stdpp Require Import base tactics option list strings.
From Stdlib Require Import ZArith Lia Ascii.
From S2P Require Import Prelude RustStr.
Local Open Scope Z_scope.
Local Open Scope stdpp_scope.

(** [blake3]: the hexadecimal digest of the bytes given to the hasher. *)
Class Blake3 := { blake3_hex : string -> string }.

(** [u64::to_le_bytes] for [n = 8]. *)
Fixpoint le_bytes (n : nat) (z : Z) : string :=
  match n with
  | O => EmptyString
  | S n => String (ascii_of_N (Z.to_N (z `mod` 256))) (le_bytes n (z / 256))
  end.

(** One turn of the loop: the length as [u64], then the bytes. *)
Definition hash_field (value : string) : string :=
  le_bytes 8 (wrap_unsigned 64 (len value)) +:+ value.

(** The bytes fed to the hasher. *)
Definition hash_input (fields : list string) : string :=
  foldr (fun value rest => hash_field value +:+ rest) EmptyString fields.

Definition record_fields (previous_hash timestamp : string) (event_id : option string)
    (kind : string) (rule_id : option string) (payload : string) : list string :=
  [previous_hash; timestamp; default EmptyString event_id; kind;
   default EmptyString rule_id; payload].

Definition record_hash `{Blake3} (previous_hash timestamp : string) (event_id : option string)
    (kind : string) (rule_id : option string) (payload : string) : string :=
  blake3_hex (hash_input (record_fields previous_hash timestamp event_id kind rule_id payload)).

(** ** Injectivity *)
Lemma le_bytes_length n z : String.length (le_bytes n z) = n.
Proof. revert z. induction n as [|n IH]; intros z; simpl; [done|]. by rewrite IH. Qed.

Lemma byte_inj a b :
  0 <= a < 256 -> 0 <= b < 256 -> ascii_of_N (Z.to_N a) = ascii_of_N (Z.to_N b) -> a = b.
Proof.
  intros Ha Hb Heq. apply (f_equal N_of_ascii) in Heq.
  rewrite !N_ascii_embedding in Heq by lia. lia.
Qed.

Lemma le_bytes_inj n : forall a b,
  0 <= a < 256 ^ Z.of_nat n -> 0 <= b < 256 ^ Z.of_nat n -> le_bytes n a = le_bytes n b -> a = b.
Proof.
  induction n as [|n IH]; intros a b Ha Hb; simpl; [simpl in *; lia|].
  rewrite Nat2Z.inj_succ, Z.pow_succ_r in Ha, Hb by lia. intros [= Hbyte Hrest].
  apply byte_inj in Hbyte; [|apply Z.mod_pos_bound; lia..].
  apply IH in Hrest; [|split; [apply Z.div_pos; lia|apply Z.div_lt_upper_bound; lia]..].
  rewrite (Z.div_mod a 256), (Z.div_mod b 256) by lia. congruence.
Qed.

Lemma string_app_inj s1 s2 t1 t2 :
  String.length s1 = String.length s2 -> s1 +:+ t1 = s2 +:+ t2 -> s1 = s2 /\ t1 = t2.
Proof.
  revert s2. induction s1 as [|c s1 IH]; intros [|d s2] Hlen Heq; simpl in *; try done.
  injection Heq as -> Heq. injection Hlen as Hlen. destruct (IH s2 Hlen Heq) as [-> ->]. done.
Qed.

Lemma string_app_assoc s t u : (s +:+ t) +:+ u = s +:+ (t +:+ u).
Proof. induction s as [|c s IH]; [done|]. exact (f_equal (String c) IH). Qed.

(** A text the length of which a [u64] represents. *)
Definition representable (s : string) : Prop := len s < 2 ^ 64.

Lemma hash_field_inj s s' rest rest' :
  representable s -> representable s' ->
  hash_field s +:+ rest = hash_field s' +:+ rest' -> s = s' /\ rest = rest'.
Proof.
  unfold representable, hash_field, wrap_unsigned. rewrite !string_app_assoc. intros Hs Hs' Heq.
  apply string_app_inj in Heq as [Hl Heq]; [|by rewrite !le_bytes_length].
  assert (0 <= len s /\ 0 <= len s') as [? ?] by (unfold len; lia).
  rewrite !Z.mod_small in Hl by lia.
  apply le_bytes_inj in Hl; [|lia..]. apply string_app_inj in Heq; [done|].
  unfold len in Hl. lia.
Qed.

Lemma hash_input_inj fields fields' :
  length fields = length fields' -> Forall representable fields -> Forall representable fields' ->
  hash_input fields = hash_input fields' -> fields = fields'.
Proof.
  intros Hlen Hf. revert fields' Hlen.
  induction Hf as [|s fields Hs Hf IH]; intros [|s' fields'] Hlen Hf'; try done.
  inversion Hf'; subst. simpl. intros [-> Heq]%hash_field_inj; [|done..].
  f_equal. apply IH; [simpl in Hlen; lia|done..].
Qed.
