(* ===== verification/AuditStore.v ===== *)
(** * The audit store ([kovert-daemon/src/audit.rs])

    The three tables of the SQLite database and the statements [AuditStore]
    runs on them. Rows of [audit] are kept in the order of their primary key.
    Any statement may fail; a failed transaction is rolled back. *)

From stdpp Require Import base tactics option list strings gmap sorting pretty.
From Stdlib Require Import ZArith Lia Ascii.
From S2P Require Import Prelude RustStr Config Event Effects Json AuditBytes.
Local Open Scope Z_scope.
Local Open Scope stdpp_scope.

Definition GENESIS_HASH : string :=
  "0000000000000000000000000000000000000000000000000000000000000000".

(** A row of [audit]; texts as stored. *)
Record AuditRow := mkAuditRow {
  row_id : Z;
  row_timestamp : string;
  row_event_id : option string;
  row_kind : string;
  row_rule_id : option string;
  row_payload : string;
  row_previous_hash : string;
  row_hash : string;
}.

(** [AuditRecord], what the operations return. *)
Record AuditRecord := mkAuditRecord {
  record_id : Z;
  record_timestamp : DateTime;
  record_event_id : option string;
  record_kind : string;
  record_rule_id : option string;
  record_payload : Json;
  record_previous_hash : string;
  record_digest : string;
}.

(** A row of [action_ledger] without its key. *)
Record LedgerRow := mkLedgerRow {
  ledger_status : string;
  ledger_outcome : option string;
  ledger_updated_at : string;
}.

(** The tables, and the high-water mark of the [AUTOINCREMENT] key. *)
Record Tables := mkTables {
  t_audit : list AuditRow;
  t_sequence : Z;
  t_state : gmap string string;
  t_ledger : gmap (string * string * string) LedgerRow;
}.

(** The database, with the number of statements run so far. *)
Record Db := mkDb { db_tables : Tables; db_count : nat }.

(** Outside the sources: which statement fails and how, the clock read when a
    number of statements has run, and the text of a time. *)
Class DbEnv := {
  db_fault : nat -> option string;
  utc_now : nat -> DateTime;
  to_rfc3339 : DateTime -> string;
  parse_rfc3339 : string -> Result DateTime;
}.

Section audit.
Context `{DbEnv} `{Blake3} `{SerdeJson}.

(** One SQL statement. *)
Definition statement {A} (f : Tables -> Result (A * Tables)) : M Db A := fun db =>
  match db_fault (db_count db) with
  | Some e => (Throw e, mkDb (db_tables db) (S (db_count db)))
  | None =>
      match f (db_tables db) with
      | Ok (a, tables) => (Return a, mkDb tables (S (db_count db)))
      | Err e => (Throw e, mkDb (db_tables db) (S (db_count db)))
      end
  end.

Definition select {A} (f : Tables -> A) : M Db A := statement (fun t => Ok (f t, t)).
Definition execute (f : Tables -> Tables) : M Db unit := statement (fun t => Ok (tt, f t)).

(** [Utc::now()]. *)
Definition now : M Db DateTime := fun db => (Return (utc_now (db_count db)), db).

(** [connection.transaction()?], the body, [transaction.commit()?]; dropping
    an uncommitted transaction rolls it back. *)
Definition transaction {A} (body : M Db A) : M Db A := fun db =>
  match (execute id;; a ← body; execute id;; mret a) db with
  | (Return a, db') => (Return a, db')
  | (r, db') => (r, mkDb (db_tables db) (db_count db'))
  end.

Definition set_key (key value : string) (t : Tables) : Tables :=
  mkTables (t_audit t) (t_sequence t) (<[key := value]> (t_state t)) (t_ledger t).

Definition set_rows (rows : list AuditRow) (sequence : Z) (t : Tables) : Tables :=
  mkTables rows sequence (t_state t) (t_ledger t).

(** [SELECT value FROM state WHERE key = 'audit_anchor'], with its default. *)
Definition anchor_of (t : Tables) : string := default GENESIS_HASH (t_state t !! "audit_anchor").

Definition i64_max : Z := 2 ^ 63 - 1.

Definition next_rowid (t : Tables) : Z :=
  foldr (fun row m => Z.max (row_id row) m) (t_sequence t) (t_audit t) + 1.

(** [INSERT INTO audit ...]: the key is one more than any used so far, and
    [hash] is [UNIQUE]. *)
Definition insert_audit (row : Z -> AuditRow) : M Db Z := statement (fun t =>
  let id := next_rowid t in
  if i64_max <? id then Err "database or disk is full"
  else if existsb (fun r => eqb (row_hash r) (row_hash (row id))) (t_audit t)
  then Err "UNIQUE constraint failed: audit.hash"
  else Ok (id, set_rows (t_audit t ++ [row id]) id t)).

(** [prune]. *)
Definition prune (max_records : Z) : M Db unit :=
  if max_records =? 0 then mret tt else
  count ← select (fun t => Z.of_nat (length (t_audit t)));
  let excess := Z.max (count - as_i64 max_records) 0 in
  if excess =? 0 then mret tt else
  ' (cutoff, anchor) ← statement (fun t =>
    match t_audit t !! Z.to_nat (excess - 1) with
    | Some row => Ok ((row_id row, row_hash row), t)
    | None => Err "select audit retention anchor: Query returned no rows"
    end);
  execute (fun t =>
    set_rows (List.filter (fun row => negb (row_id row <=? cutoff)) (t_audit t)) (t_sequence t) t);;
  execute (set_key "audit_anchor" anchor).

(** [AuditStore::append]. *)
Definition append (max_records : Z) (event_id : option string) (kind : string)
    (rule_id : option string) (payload : Json) : M Db AuditRecord :=
  transaction (
    anchor ← select anchor_of;
    previous ← select (fun t => row_hash <$> last (t_audit t));
    let previous_hash := default anchor previous in
    timestamp ← now;
    payload_text ← lift_result (json_to_string payload);
    let hash := record_hash previous_hash (to_rfc3339 timestamp) event_id kind rule_id
                  payload_text in
    id ← insert_audit (fun id =>
      mkAuditRow id (to_rfc3339 timestamp) event_id kind rule_id payload_text previous_hash hash);
    prune max_records;;
    mret (mkAuditRecord id timestamp event_id kind rule_id payload previous_hash hash)).

(** The conversion of a row by [recent]. *)
Definition record_of_row (row : AuditRow) : Result AuditRecord :=
  match parse_rfc3339 (row_timestamp row) with
  | Err e => Err e
  | Ok timestamp =>
      match json_from_str (row_payload row) with
      | Err e => Err e
      | Ok payload =>
          Ok (mkAuditRecord (row_id row) timestamp (row_event_id row) (row_kind row)
                (row_rule_id row) payload (row_previous_hash row) (row_hash row))
      end
  end.

(** Reading the rows of a query: each [next] may fail, and so may the
    conversion. *)
Fixpoint collect_rows (rows : list AuditRow) : M Db (list AuditRecord) :=
  match rows with
  | [] => execute id;; mret []
  | row :: rows =>
      execute id;;
      record ← lift_result (record_of_row row);
      records ← collect_rows rows;
      mret (record :: records)
  end.

(** [AuditStore::recent]. *)
Definition recent (limit : Z) : M Db (list AuditRecord) :=
  rows ← select (fun t => take (Z.to_nat (Z.min limit 1000)) (rev (t_audit t)));
  collect_rows rows.

(** The loop of [verify]. *)
Fixpoint verify_rows (previous : string) (verified : Z) (rows : list AuditRow) : M Db Z :=
  match rows with
  | [] => execute id;; mret verified
  | row :: rows =>
      execute id;;
      require (eqb (row_previous_hash row) previous)
        ("audit chain break before record " +:+ pretty (row_id row));;
      require (eqb (record_hash previous (row_timestamp row) (row_event_id row) (row_kind row)
                      (row_rule_id row) (row_payload row)) (row_hash row))
        ("audit record " +:+ pretty (row_id row) +:+ " digest mismatch");;
      verify_rows (row_hash row) (verified + 1) rows
  end.

(** [AuditStore::verify]. *)
Definition verify : M Db Z :=
  anchor ← select anchor_of;
  rows ← select t_audit;
  verify_rows anchor 0 rows.

Definition get_state (key : string) : M Db (option string) :=
  select (fun t => t_state t !! key).

Definition set_state (key value : string) : M Db unit := execute (set_key key value).

Definition action_completed (event_id rule_id action_hash : string) : M Db bool :=
  status ← select (fun t => ledger_status <$> t_ledger t !! (event_id, rule_id, action_hash));
  mret (eqb status (Some "succeeded")).

(** [outcome.map(serde_json::to_string).transpose()?]. *)
Definition outcome_text (outcome : option Json) : Result (option string) :=
  match outcome with
  | None => Ok None
  | Some value => match json_to_string value with Ok s => Ok (Some s) | Err e => Err e end
  end.

Definition record_action (event_id rule_id action_hash status : string) (outcome : option Json)
    : M Db unit :=
  text ← lift_result (outcome_text outcome);
  at_ ← now;
  execute (fun t =>
    mkTables (t_audit t) (t_sequence t) (t_state t)
      (<[(event_id, rule_id, action_hash) := mkLedgerRow status text (to_rfc3339 at_)]>
         (t_ledger t))).
End audit.
