(* ===== verification/AuditFrame.v ===== *)
(** * What the operations of the audit store leave alone

    A relation on the tables that the row changes and the anchor respect is
    respected by [append], [recent], [verify] and the other reads. *)

From stdpp Require Import base tactics option list strings gmap pretty.
From Stdlib Require Import ZArith Lia Ascii.
From S2P Require Import Prelude RustStr Config Event Effects Json AuditBytes AuditStore.
Local Open Scope Z_scope.
Local Open Scope stdpp_scope.

(** A relation on tables, on databases. *)
Definition on_tables (Q : Tables -> Tables -> Prop) (db db' : Db) : Prop :=
  Q (db_tables db) (db_tables db').

#[global] Instance on_tables_preorder Q : PreOrder Q -> PreOrder (on_tables Q).
Proof. intros [Hr Ht]. split; [intros db; apply Hr|intros db1 db2 db3; apply Ht]. Qed.

Section frame.
Context `{DbEnv} `{Blake3} `{SerdeJson}.
Context (Q : Tables -> Tables -> Prop) `{!PreOrder Q}.

Lemma statement_frame {A} (f : Tables -> Result (A * Tables)) :
  (forall t a t', f t = Ok (a, t') -> Q t t') -> respects (on_tables Q) (statement f).
Proof using Type*.
  intros Hf db. unfold statement, on_tables. destruct (db_fault _); simpl; [reflexivity|].
  destruct (f (db_tables db)) as [[a t]|e] eqn:Ht; simpl; [by eapply Hf|reflexivity].
Qed.

Lemma select_frame {A} (f : Tables -> A) : respects (on_tables Q) (select f).
Proof using Type*. apply statement_frame. intros t a t' [= _ <-]. reflexivity. Qed.

Lemma execute_frame f : (forall t, Q t (f t)) -> respects (on_tables Q) (execute f).
Proof using Type*. intros Hf. apply statement_frame. by intros t a t' [= _ <-]. Qed.

Lemma now_frame : respects (on_tables Q) now.
Proof using Type*. intros db. simpl. reflexivity. Qed.

Lemma transaction_frame {A} (body : M Db A) :
  respects (on_tables Q) body -> respects (on_tables Q) (transaction body).
Proof using Type*.
  intros Hbody db. unfold transaction.
  assert (respects (on_tables Q) (execute id;; a ← body; execute id;; mret a)) as Hall.
  { apply respects_bind; [apply _|apply execute_frame; reflexivity|intros _].
    apply respects_bind; [apply _|done|intros a].
    apply respects_bind; [apply _|apply execute_frame; reflexivity|intros _].
    apply respects_ret, _. }
  specialize (Hall db).
  destruct ((execute id;; a ← body; execute id;; mret a) db) as [[a|e|] db'];
    [exact Hall|unfold on_tables; simpl; reflexivity..].
Qed.

Context (Q_rows : forall rows sequence t, Q t (set_rows rows sequence t)).
Context (Q_anchor : forall anchor t, Q t (set_key "audit_anchor" anchor t)).

Lemma prune_frame max_records : respects (on_tables Q) (prune max_records).
Proof using Type*.
  unfold prune. destruct (_ =? 0); [apply respects_ret, _|].
  apply respects_bind; [apply _|apply select_frame|]. intros count. cbv zeta.
  destruct (_ =? 0); [apply respects_ret, _|]. apply respects_bind; [apply _| |].
  - apply statement_frame. intros t a t' Hsel.
    destruct (t_audit t !! _); [injection Hsel as _ <-; reflexivity|done].
  - intros [cutoff anchor]. apply respects_bind; [apply _|by apply execute_frame|].
    intros _. by apply execute_frame.
Qed.

Lemma append_frame max_records event_id kind rule_id payload :
  respects (on_tables Q) (append max_records event_id kind rule_id payload).
Proof using Type*.
  apply transaction_frame. apply respects_bind; [apply _|apply select_frame|]. intros anchor.
  apply respects_bind; [apply _|apply select_frame|]. intros previous. cbv zeta.
  apply respects_bind; [apply _|apply now_frame|]. intros timestamp.
  apply respects_bind; [apply _|apply respects_lift, _|]. intros text.
  apply respects_bind; [apply _| |].
  - apply statement_frame. intros t a t' Hins. cbv zeta in Hins.
    destruct (i64_max <? next_rowid t); [done|].
    destruct (existsb _ _); [done|]. by injection Hins as _ <-.
  - intros id. apply respects_bind; [apply _|apply prune_frame|]. intros _. apply respects_ret, _.
Qed.

Lemma collect_rows_frame rows : respects (on_tables Q) (collect_rows rows).
Proof using Type*.
  induction rows as [|row rows IH]; simpl;
    (apply respects_bind; [apply _|apply execute_frame; reflexivity|intros _]).
  - apply respects_ret, _.
  - apply respects_bind; [apply _|apply respects_lift, _|]. intros record.
    apply respects_bind; [apply _|apply IH|intros; apply respects_ret, _].
Qed.

Lemma recent_frame limit : respects (on_tables Q) (recent limit).
Proof using Type*.
  apply respects_bind; [apply _|apply select_frame|]. intros rows. apply collect_rows_frame.
Qed.

Lemma verify_rows_frame rows : forall previous verified,
  respects (on_tables Q) (verify_rows previous verified rows).
Proof using Type*.
  induction rows as [|row rows IH]; intros previous verified; simpl;
    (apply respects_bind; [apply _|apply execute_frame; reflexivity|intros _]).
  - apply respects_ret, _.
  - do 2 (apply respects_bind; [apply _|apply respects_require, _|intros _]). apply IH.
Qed.

Lemma verify_frame : respects (on_tables Q) verify.
Proof using Type*.
  do 2 (apply respects_bind; [apply _|apply select_frame|intros ?]). apply verify_rows_frame.
Qed.

Lemma set_state_frame key value :
  (forall t, Q t (set_key key value t)) -> respects (on_tables Q) (set_state key value).
Proof using Type*. apply execute_frame. Qed.

Lemma action_completed_frame event_id rule_id action_hash :
  respects (on_tables Q) (action_completed event_id rule_id action_hash).
Proof using Type*.
  apply respects_bind; [apply _|apply select_frame|intros; apply respects_ret, _].
Qed.

Lemma record_action_frame event_id rule_id action_hash status outcome :
  (forall t row, Q t (mkTables (t_audit t) (t_sequence t) (t_state t)
                        (<[(event_id, rule_id, action_hash) := row]> (t_ledger t)))) ->
  respects (on_tables Q) (record_action event_id rule_id action_hash status outcome).
Proof using Type*.
  intros HQ. apply respects_bind; [apply _|apply respects_lift, _|]. intros text.
  apply respects_bind; [apply _|apply now_frame|]. intros at_. by apply execute_frame.
Qed.
End frame.

(** The value of one key of [state]. *)
Definition same_key (key : string) (t t' : Tables) : Prop := t_state t' !! key = t_state t !! key.

#[global] Instance same_key_preorder key : PreOrder (same_key key).
Proof. unfold same_key. split; [done|]. intros t1 t2 t3 -> ->. done. Qed.

(** The ledger row of every key but one. *)
Definition same_ledger_but (key : option (string * string * string)) (t t' : Tables) : Prop :=
  forall k, Some k <> key -> t_ledger t' !! k = t_ledger t !! k.

#[global] Instance same_ledger_but_preorder key : PreOrder (same_ledger_but key).
Proof.
  unfold same_ledger_but. split; [done|]. intros t1 t2 t3 H1 H2 k Hk. by rewrite H2, H1.
Qed.
