(* ===== verification/AuditFixtures.v ===== *)
(** * A concrete database environment

    A fault-free database, a clock that advances by a second per statement, a
    reversible text form of times and strings, and a digest that is the
    identity. *)

From stdpp Require Import base tactics option list strings gmap.
From Stdlib Require Import ZArith Lia Ascii.
From S2P Require Import Prelude RustStr Config Event Effects Json AuditBytes AuditStore.
Local Open Scope Z_scope.
Local Open Scope stdpp_scope.

(** Binary numerals, least significant digit first. *)
Fixpoint positive_text (p : positive) : string :=
  match p with
  | xH => EmptyString
  | xO p => String "0" (positive_text p)
  | xI p => String "1" (positive_text p)
  end.

Fixpoint positive_of (s : string) : positive :=
  match s with
  | EmptyString => xH
  | String "0" s => xO (positive_of s)
  | String _ s => xI (positive_of s)
  end.

Definition time_text (t : Z) : string :=
  match t with
  | Z0 => EmptyString
  | Zpos p => String "+" (positive_text p)
  | Zneg p => String "-" (positive_text p)
  end.

Definition time_of (s : string) : Result Z :=
  match s with
  | EmptyString => Ok 0
  | String "+" s => Ok (Zpos (positive_of s))
  | String "-" s => Ok (Zneg (positive_of s))
  | _ => Err "invalid time"
  end.

Lemma positive_round p : positive_of (positive_text p) = p.
Proof. induction p as [p IH|p IH|]; simpl; by try rewrite IH. Qed.

Lemma time_round t : time_of (time_text t) = Ok t.
Proof. destruct t; simpl; by rewrite ?positive_round. Qed.

#[global] Instance fixture_db : DbEnv := {|
  db_fault := fun _ => None;
  utc_now := fun n => secs (Z.of_nat n);
  to_rfc3339 := time_text;
  parse_rfc3339 := time_of;
|}.

#[global] Instance fixture_blake3 : Blake3 := {| blake3_hex := id |}.

(** Only strings have a text; every text is one. *)
#[global] Instance fixture_json : SerdeJson := {|
  json_to_string := fun value => match value with Json.String s => Ok s | _ => Err "not a string" end;
  json_from_str := fun text => Ok (Json.String text);
|}.

Lemma json_round value text : json_to_string value = Ok text -> json_from_str text = Ok value.
Proof. destruct value; simpl; try discriminate. by intros [= ->]. Qed.

Definition empty_db : Db := mkDb (mkTables [] 0 ∅ ∅) 0.

(** Two records appended to an empty store that retains two. *)
Definition two_records : Db :=
  ((append 2 None "daemon_started" None (Json.String "{}");;
    append 2 (Some "e0") "event" None (Json.String "tick")) empty_db).2.

Definition third_record : Outcome AuditRecord * Db :=
  append 2 (Some "e1") "event" None (Json.String "tock") two_records.
