(* ===== verification/AuditProps.v ===== *)
(** * Integrity of the audit store

    Verification accepts exactly the intact chains; appending, whatever fails,
    keeps the chain intact and the retention bound; and two intact chains with
    the same anchor and the same last digest have the same records. *)

From stdpp Require Import base tactics option list strings gmap sorting pretty.
From Stdlib Require Import ZArith Lia Ascii.
From S2P Require Import Prelude RustStr Config Event Effects Json AuditBytes AuditStore AuditFixtures.
Local Open Scope Z_scope.
Local Open Scope stdpp_scope.

Section chain.
Context `{Blake3}.

Definition row_digest (row : AuditRow) : string :=
  record_hash (row_previous_hash row) (row_timestamp row) (row_event_id row) (row_kind row)
    (row_rule_id row) (row_payload row).

(** The rows follow one another from [previous]. *)
Inductive chain : string -> list AuditRow -> Prop :=
| chain_nil previous : chain previous []
| chain_cons row rows :
    row_hash row = row_digest row -> chain (row_hash row) rows ->
    chain (row_previous_hash row) (row :: rows).

(** The digest a chain ends with. *)
Definition head_of (previous : string) (rows : list AuditRow) : string :=
  default previous (row_hash <$> last rows).

Lemma head_of_cons previous row rows : head_of previous (row :: rows) = head_of (row_hash row) rows.
Proof. unfold head_of. rewrite last_cons. by destruct (last rows). Qed.

Lemma head_of_snoc previous rows row : head_of previous (rows ++ [row]) = row_hash row.
Proof. unfold head_of. by rewrite last_snoc. Qed.

Lemma chain_app previous rows rows' :
  chain previous (rows ++ rows') <-> chain previous rows /\ chain (head_of previous rows) rows'.
Proof.
  revert previous. induction rows as [|row rows IH]; intros previous; simpl.
  { split; [|by intros [_ ?]]. intros. split; [constructor|done]. }
  rewrite head_of_cons. split.
  - intros Hc. inversion Hc as [|? ? Hd Hc' Hp]; subst. apply IH in Hc' as [? ?].
    split; [by constructor|done].
  - intros [Hc Hc']. inversion Hc as [|? ? Hd Hr Hp]; subst. constructor; [done|]. by apply IH.
Qed.

Lemma chain_snoc previous rows row :
  chain previous (rows ++ [row]) <->
  chain previous rows /\ row_previous_hash row = head_of previous rows
  /\ row_hash row = row_digest row.
Proof.
  rewrite chain_app. split.
  - intros [Hc Hr]. by inversion Hr; subst.
  - intros (Hc & Hp & Hd). split; [done|]. rewrite <- Hp. constructor; [done|constructor].
Qed.

(** ** Tamper evidence *)

(** What the digest covers, and the digest. *)
Definition row_fields (row : AuditRow) : list string :=
  record_fields (row_previous_hash row) (row_timestamp row) (row_event_id row) (row_kind row)
    (row_rule_id row) (row_payload row).

Definition row_content (row : AuditRow) : list string * string := (row_fields row, row_hash row).

Definition row_representable (row : AuditRow) : Prop := Forall representable (row_fields row).

(** Two records, one of each list, whose hashed bytes differ and whose digests
    do not: a collision of the hash function, exhibited by the lists. *)
Definition colliding_records (rows rows' : list AuditRow) : Prop :=
  exists row row', row ∈ rows /\ row' ∈ rows'
    /\ hash_input (row_fields row) <> hash_input (row_fields row')
    /\ row_digest row = row_digest row'.

(** A record of the list that hashes to the anchor. *)
Definition anchored_record (anchor : string) (rows : list AuditRow) : Prop :=
  exists row, row ∈ rows /\ row_digest row = anchor.

(** Records that differ are different inputs of the hash function. *)
Lemma row_input_inj row row' :
  row_representable row -> row_representable row' ->
  hash_input (row_fields row) = hash_input (row_fields row') -> row_fields row = row_fields row'.
Proof using. intros Hr Hr'. by apply hash_input_inj. Qed.

(** Two chains with the same ends have the same content. *)
Lemma chain_agrees anchor rows rows' :
  chain anchor rows -> chain anchor rows' ->
  Forall row_representable rows -> Forall row_representable rows' ->
  head_of anchor rows = head_of anchor rows' ->
  map row_content rows = map row_content rows'
  \/ colliding_records rows rows'
  \/ (length rows <> length rows' /\ anchored_record anchor (rows ++ rows')).
Proof.
  revert rows'. induction rows as [|row rows IH] using rev_ind; intros rows' Hc Hc' Hr Hr' Hhead;
    destruct rows' as [|row' rows' _] using rev_ind.
  - by left.
  - right. right. rewrite length_app. split; [simpl; lia|].
    apply chain_snoc in Hc' as (_ & _ & Hd). rewrite head_of_snoc in Hhead.
    change (head_of anchor []) with anchor in Hhead.
    exists row'. split; [set_solver|congruence].
  - right. right. rewrite length_app. split; [simpl; lia|].
    apply chain_snoc in Hc as (_ & _ & Hd). rewrite head_of_snoc in Hhead.
    change (head_of anchor []) with anchor in Hhead.
    exists row. split; [set_solver|congruence].
  - apply chain_snoc in Hc as (Hc & Hp & Hd). apply chain_snoc in Hc' as (Hc' & Hp' & Hd').
    apply Forall_app in Hr as [Hr [Hrow _]%Forall_cons], Hr' as [Hr' [Hrow' _]%Forall_cons].
    rewrite !head_of_snoc in Hhead.
    destruct (decide (hash_input (row_fields row) = hash_input (row_fields row'))) as [Hin|Hne].
    2:{ right. left. exists row, row'. split_and!; [set_solver|set_solver|done|congruence]. }
    assert (row_fields row = row_fields row') as Hf by by apply row_input_inj.
    destruct (IH rows' Hc Hc' Hr Hr') as [Heq|[Hcoll|[Hlen Hanch]]]; [injection Hf; congruence| | |].
    + left. rewrite !map_app, Heq. unfold row_content. simpl. by rewrite Hf, Hhead.
    + right. left. destruct Hcoll as (r & r' & ? & ? & ?). exists r, r'. set_solver.
    + right. right. rewrite !length_app. split; [simpl; lia|].
      destruct Hanch as (r & ? & ?). exists r. set_solver.
Qed.

Lemma chain_content anchor rows rows' :
  map row_content rows = map row_content rows' -> chain anchor rows -> chain anchor rows'.
Proof.
  intros Heq Hc. revert rows' Heq.
  induction Hc as [previous|row rows Hd Hc IH]; intros [|row' rows'] Heq; try done; [constructor|].
  injection Heq as Hp Hts Hev Hk Hru Hpl Hh Hrest. rewrite Hp. constructor.
  - rewrite <- Hh, Hd. unfold row_digest, record_hash, record_fields. congruence.
  - rewrite <- Hh. by apply IH.
Qed.
End chain.

Section verify.
Context `{DbEnv} `{Blake3}.

Definition fault_free : Prop := forall n, db_fault n = None.

Definition intact (t : Tables) : Prop := chain (anchor_of t) (t_audit t).

Lemma execute_id_eq db :
  execute id db = match db_fault (db_count db) with
                  | Some e => (Throw e, mkDb (db_tables db) (S (db_count db)))
                  | None => (Return tt, mkDb (db_tables db) (S (db_count db)))
                  end.
Proof. unfold execute, statement. by destruct (db_fault _). Qed.

Lemma select_eq {A} (f : Tables -> A) db :
  select f db = match db_fault (db_count db) with
                | Some e => (Throw e, mkDb (db_tables db) (S (db_count db)))
                | None => (Return (f (db_tables db)), mkDb (db_tables db) (S (db_count db)))
                end.
Proof. unfold select, statement. by destruct (db_fault _). Qed.

Lemma verify_rows_sound rows : forall previous verified db n,
  (verify_rows previous verified rows db).1 = Return n ->
  chain previous rows /\ n = verified + Z.of_nat (length rows).
Proof.
  induction rows as [|row rows IH]; intros previous verified db n; simpl;
    rewrite bind_eq, execute_id_eq; destruct (db_fault _); try done; simpl.
  - intros [= <-]. split; [constructor|lia].
  - rewrite bind_eq. unfold require at 1.
    destruct (eqb (row_previous_hash row) previous) eqn:Hp; [|done].
    rewrite eqb_true in Hp. subst previous. simpl. rewrite bind_eq. unfold require.
    destruct (eqb _ (row_hash row)) eqn:Hh; [|done]. rewrite eqb_true in Hh. simpl.
    intros [Hc ->]%IH. split; [|lia]. by constructor.
Qed.

Lemma verify_rows_complete rows : forall previous verified db,
  fault_free -> chain previous rows ->
  (verify_rows previous verified rows db).1 = Return (verified + Z.of_nat (length rows)).
Proof.
  induction rows as [|row rows IH]; intros previous verified db Hff Hc; simpl;
    rewrite bind_eq, execute_id_eq, Hff; simpl; [do 2 f_equal; lia|].
  inversion Hc as [|? ? Hd Hc' Hp]; subst. rewrite bind_eq. unfold require at 1.
  rewrite (proj2 (eqb_true _ _) eq_refl). simpl. rewrite bind_eq. unfold require.
  rewrite (proj2 (eqb_true _ _)) by by rewrite Hd. simpl. rewrite IH by done.
  f_equal. lia.
Qed.

Lemma verify_run db :
  fault_free ->
  verify db = verify_rows (anchor_of (db_tables db)) 0 (t_audit (db_tables db))
                (mkDb (db_tables db) (S (S (db_count db)))).
Proof.
  intros Hff. unfold verify. rewrite bind_eq, select_eq, Hff. by rewrite bind_eq, select_eq, Hff.
Qed.

Lemma verify_sound db n :
  (verify db).1 = Return n ->
  intact (db_tables db) /\ n = Z.of_nat (length (t_audit (db_tables db))).
Proof.
  unfold verify. rewrite bind_eq, select_eq. destruct (db_fault _); [done|].
  rewrite bind_eq, select_eq. destruct (db_fault _); [done|]. simpl.
  by intros [? ->]%verify_rows_sound.
Qed.

Lemma verify_complete db :
  fault_free -> intact (db_tables db) ->
  (verify db).1 = Return (Z.of_nat (length (t_audit (db_tables db)))).
Proof. intros Hff Hi. rewrite verify_run by done. by apply verify_rows_complete. Qed.

(** On a database without faults verify returns a count exactly when the audit table is
    a hash chain from the anchor, and the count is the number of its records. *)
Theorem verify_exact db n :
  fault_free ->
  (verify db).1 = Return n <->
  intact (db_tables db) /\ n = Z.of_nat (length (t_audit (db_tables db))).
Proof.
  intros Hff. split; [apply verify_sound|]. intros [Hi ->]. by apply verify_complete.
Qed.

(** The stored text of every column fits a 64-bit length. *)
Definition store_representable (db : Db) : Prop :=
  Forall row_representable (t_audit (db_tables db)).

(** The digest of the newest record, or the anchor. *)
Definition store_head (db : Db) : string :=
  head_of (anchor_of (db_tables db)) (t_audit (db_tables db)).

(** C7: Two stores that both pass verify, with the same retention anchor and the same newest
    digest, have the same records in every column the digest covers, unless two of their
    records exhibit a collision of BLAKE3 (different hashed bytes, the same digest), or the
    stores differ in their number of records and one of these records hashes to the anchor:
    records cannot be changed, inserted, removed or reordered before a known head unnoticed.
    The columns' texts are shorter than 2^64 bytes. *)
Theorem verified_logs_agree db db' n n' :
  (verify db).1 = Return n -> (verify db').1 = Return n' ->
  anchor_of (db_tables db) = anchor_of (db_tables db') -> store_head db = store_head db' ->
  store_representable db -> store_representable db' ->
  let rows := t_audit (db_tables db) in
  let rows' := t_audit (db_tables db') in
  map row_content rows = map row_content rows'
  \/ colliding_records rows rows'
  \/ (n <> n' /\ anchored_record (anchor_of (db_tables db)) (rows ++ rows')).
Proof.
  intros [Hi ->]%verify_sound [Hi' ->]%verify_sound Ha Hhead Hr Hr' rows rows'.
  unfold intact in Hi'. unfold store_head in Hhead. rewrite <- Ha in Hi', Hhead.
  destruct (chain_agrees _ _ _ Hi Hi' Hr Hr' Hhead) as [?|[?|[? ?]]]; [by left|by right; left|].
  right. right. split; [|done]. lia.
Qed.

(** The database with other audit rows. *)
Definition with_rows (rows : list AuditRow) (db : Db) : Db :=
  mkDb (set_rows rows (t_sequence (db_tables db)) (db_tables db)) (db_count db).

(** Removing the newest records of a store that verifies leaves a store that verifies,
    with the smaller count. *)
Theorem truncation_undetected db n k :
  fault_free -> (verify db).1 = Return n ->
  (verify (with_rows (take k (t_audit (db_tables db))) db)).1
  = Return (Z.min (Z.of_nat k) n).
Proof.
  intros Hff [Hi ->]%verify_sound. rewrite verify_complete; [|done|].
  - simpl. rewrite length_take. f_equal. lia.
  - unfold intact in *. rewrite <- (take_drop k (t_audit (db_tables db))) in Hi.
    by apply chain_app in Hi as [? _].
Qed.

(** Changing the key of a record, or a missing event or rule to an empty text, is not
    noticed by verify: the digest does not cover the difference. *)
Theorem uncovered_columns_undetected db n rows :
  fault_free -> (verify db).1 = Return n ->
  map row_content (t_audit (db_tables db)) = map row_content rows ->
  (verify (with_rows rows db)).1 = Return n.
Proof.
  intros Hff [Hi ->]%verify_sound Heq. rewrite verify_complete; [|done|by eapply chain_content].
  do 2 f_equal. apply (f_equal length) in Heq. by rewrite !length_map in Heq.
Qed.
End verify.

(** ** Appending *)
Definition retain {A} (max_records : Z) (rows : list A) : list A :=
  if max_records =? 0 then rows else last_n (Z.to_nat max_records) rows.

(** The rows retention removes: the ones before the retained. *)
Definition expire {A} (max_records : Z) (rows : list A) : list A :=
  if max_records =? 0 then [] else take (length rows - Z.to_nat max_records) rows.

Lemma expire_retain {A} max_records (rows : list A) :
  expire max_records rows ++ retain max_records rows = rows.
Proof. unfold expire, retain, last_n. case_match; [done|]. apply take_drop. Qed.

(** Keys increase along the table and none is above the high-water mark. *)
Record tables_wf (t : Tables) : Prop := {
  wf_sorted : StronglySorted Z.lt (map row_id (t_audit t));
  wf_bounded : Forall (fun row => row_id row <= t_sequence t) (t_audit t);
}.

Lemma next_rowid_wf t : tables_wf t -> next_rowid t = t_sequence t + 1.
Proof.
  intros [_ Hb]. unfold next_rowid. f_equal.
  induction Hb as [|row rows Hrow Hrows IH]; simpl; [done|]. rewrite IH. lia.
Qed.

Lemma delete_upto rows k row :
  StronglySorted Z.lt (map row_id rows) -> rows !! k = Some row ->
  List.filter (fun r => negb (row_id r <=? row_id row)) rows = drop (S k) rows.
Proof.
  revert k. induction rows as [|r rows IH]; intros k; simpl; [done|].
  intros Hs. inversion_clear Hs as [|? ? Hs' Hr]. destruct k as [|k]; simpl.
  - intros [= ->]. rewrite Z.leb_refl. simpl. rewrite drop_0.
    clear IH Hs'. induction rows as [|q rows IH]; simpl in *; [done|].
    inversion_clear Hr. rewrite (proj2 (Z.leb_gt _ _)) by done. simpl. by rewrite IH.
  - intros Hk. assert (row_id r < row_id row) as Hlt.
    { rewrite Forall_forall in Hr. apply Hr, elem_of_map_1. by eapply list_elem_of_lookup_2. }
    rewrite (proj2 (Z.leb_le _ _)) by lia. simpl. by apply IH.
Qed.

Lemma as_i64_small z : 0 <= z < 2 ^ 63 -> as_i64 z = z.
Proof.
  intros Hz. unfold as_i64, wrap_unsigned. rewrite Z.mod_small by lia.
  destruct (Z.ltb_spec z (2 ^ 63)); lia.
Qed.

(** The digest before a retained suffix is the hash of the last removed row. *)
Lemma head_of_take previous rows k row :
  rows !! k = Some row -> head_of previous (take (S k) rows) = row_hash row.
Proof. intros Hk. by rewrite (take_S_r _ _ _ Hk), head_of_snoc. Qed.

(** What an operation leaves alone besides the audit rows. *)
Record same_elsewhere (t t' : Tables) : Prop := {
  se_sequence : t_sequence t' = t_sequence t;
  se_ledger : t_ledger t' = t_ledger t;
  se_state : forall key, key <> "audit_anchor" -> t_state t' !! key = t_state t !! key;
}.

Section append.
Context `{DbEnv} `{Blake3} `{SerdeJson}.

(** The next statement of a computation that is known to return. *)
Lemma statement_inv {A B} (f : Tables -> Result (A * Tables)) (k : A -> M Db B) db r db' :
  (statement f ≫= k) db = (Return r, db') ->
  exists a t, f (db_tables db) = Ok (a, t) /\ k a (mkDb t (S (db_count db))) = (Return r, db').
Proof.
  rewrite bind_eq. unfold statement. destruct (db_fault _); [done|].
  destruct (f _) as [[a t]|e]; [|done]. by eexists _, _.
Qed.

Lemma select_inv {A B} (f : Tables -> A) (k : A -> M Db B) db r db' :
  (select f ≫= k) db = (Return r, db') ->
  k (f (db_tables db)) (mkDb (db_tables db) (S (db_count db))) = (Return r, db').
Proof. intros (? & ? & [= <- <-] & ?)%statement_inv. done. Qed.

Lemma execute_inv {B} (f : Tables -> Tables) (k : unit -> M Db B) db r db' :
  (execute f ≫= k) db = (Return r, db') ->
  k tt (mkDb (f (db_tables db)) (S (db_count db))) = (Return r, db').
Proof. intros (? & ? & [= <- <-] & ?)%statement_inv. done. Qed.

Lemma execute_last_inv (f : Tables -> Tables) db r db' :
  execute f db = (Return r, db') -> db' = mkDb (f (db_tables db)) (S (db_count db)).
Proof. unfold execute, statement. destruct (db_fault _); [done|]. by intros [= _ <-]. Qed.

Lemma prune_spec max_records db db' :
  0 <= max_records < 2 ^ 63 -> tables_wf (db_tables db) ->
  prune max_records db = (Return tt, db') ->
  t_audit (db_tables db') = retain max_records (t_audit (db_tables db))
  /\ anchor_of (db_tables db')
     = head_of (anchor_of (db_tables db)) (expire max_records (t_audit (db_tables db)))
  /\ same_elsewhere (db_tables db) (db_tables db').
Proof.
  intros Hmax [Hs _]. unfold prune, retain, expire. destruct (Z.eqb_spec max_records 0) as [|Hne].
  { intros [= <-]. split_and!; [done..|]. by split. }
  intros Hp%select_inv. rewrite as_i64_small in Hp by done.
  set (rows := t_audit (db_tables db)) in *.
  destruct (Z.eqb_spec (Z.max (Z.of_nat (length rows) - max_records) 0) 0) as [Hz|Hz].
  { injection Hp as <-. simpl. fold rows. unfold last_n.
    replace (length rows - Z.to_nat max_records)%nat with 0%nat by lia.
    rewrite drop_0, take_0. split_and!; [done..|]. by split. }
  assert (0 < Z.of_nat (length rows) - max_records) as Hpos by lia.
  replace (Z.max (Z.of_nat (length rows) - max_records) 0)
    with (Z.of_nat (length rows) - max_records) in * by lia.
  assert (Z.to_nat (Z.of_nat (length rows) - max_records - 1)
          = (length rows - Z.to_nat max_records - 1)%nat) as Hidx by lia.
  rewrite Hidx in Hp. set (k := (length rows - Z.to_nat max_records - 1)%nat) in *.
  apply statement_inv in Hp as (? & ? & Hsel & Hp). simpl in Hsel. fold rows in Hsel.
  destruct (rows !! k) as [row|] eqn:Hk; [|discriminate]. injection Hsel as <- <-.
  apply execute_inv, execute_last_inv in Hp as ->. simpl. fold rows.
  assert (length rows - Z.to_nat max_records = S k)%nat as HSk by lia.
  unfold last_n. rewrite HSk, (delete_upto _ _ _ Hs Hk). split_and!; [done| |].
  - unfold anchor_of at 1. simpl. rewrite lookup_insert_eq. simpl. by rewrite (head_of_take _ _ _ _ Hk).
  - split; [done..|]. intros key Hkey. simpl. by rewrite lookup_insert_ne.
Qed.
Lemma transaction_inv {A} (body : M Db A) db r db' :
  transaction body db = (Return r, db') ->
  exists db1, body (mkDb (db_tables db) (S (db_count db))) = (Return r, db1)
              /\ db_tables db' = db_tables db1.
Proof.
  unfold transaction.
  destruct ((execute id;; a ← body; execute id;; mret a) db) as [[a|e|] db2] eqn:Hb; [|done|done]. intros [= -> ->].
  apply execute_inv in Hb. rewrite bind_eq in Hb. simpl in Hb.
  destruct (body _) as [[a|e|] db1]; [|done|done]. apply execute_inv in Hb.
  injection Hb as -> <-. by exists db1.
Qed.

Lemma transaction_rollback {A} (body : M Db A) db :
  match transaction body db with
  | (Return _, _) => True
  | (_, db') => db_tables db' = db_tables db
  end.
Proof.
  unfold transaction. by destruct ((execute id;; a ← body; execute id;; mret a) db) as [[a|e|] db2].
Qed.

(** The row a record is stored as. *)
Definition row_of (record : AuditRecord) (payload_text : string) : AuditRow :=
  mkAuditRow (record_id record) (to_rfc3339 (record_timestamp record)) (record_event_id record)
    (record_kind record) (record_rule_id record) payload_text (record_previous_hash record)
    (record_digest record).

(** The tables between the insertion of [row] and the pruning. *)
Definition inserted (t : Tables) (row : AuditRow) : Tables :=
  set_rows (t_audit t ++ [row]) (row_id row) t.

Lemma inserted_wf t row :
  tables_wf t -> row_id row = t_sequence t + 1 -> tables_wf (inserted t row).
Proof.
  intros [Hs Hb] Hid. split; simpl.
  - rewrite map_app. apply StronglySorted_snoc; [done|]. apply Forall_map.
    eapply Forall_impl; [exact Hb|]. simpl. lia.
  - apply Forall_app. split; [|by constructor].
    eapply Forall_impl; [exact Hb|]. simpl. lia.
Qed.

Lemma append_inv max_records event_id kind rule_id payload db r db' :
  tables_wf (db_tables db) ->
  append max_records event_id kind rule_id payload db = (Return r, db') ->
  exists text db1 db2,
    json_to_string payload = Ok text
    /\ record_event_id r = event_id /\ record_kind r = kind /\ record_rule_id r = rule_id
    /\ record_payload r = payload
    /\ record_id r = t_sequence (db_tables db) + 1
    /\ record_previous_hash r = head_of (anchor_of (db_tables db)) (t_audit (db_tables db))
    /\ row_hash (row_of r text) = row_digest (row_of r text)
    /\ db_tables db1 = inserted (db_tables db) (row_of r text)
    /\ prune max_records db1 = (Return tt, db2) /\ db_tables db' = db_tables db2.
Proof.
  intros Hwf. unfold append. intros (db2 & Hb & ->)%transaction_inv.
  apply select_inv, select_inv in Hb. rewrite bind_eq in Hb. simpl in Hb. rewrite bind_eq in Hb.
  destruct (json_to_string payload) as [text|e] eqn:Htext; [|done]. simpl in Hb.
  apply statement_inv in Hb as (id & t & Hins & Hb). simpl in Hins.
  rewrite next_rowid_wf in Hins by done.
  destruct (i64_max <? _); [done|]. destruct (existsb _ _); [done|]. injection Hins as <- <-.
  rewrite bind_eq in Hb.
  destruct (prune max_records _) as [[[]|e|] db3] eqn:Hprune; [|done|done]. injection Hb as <- <-.
  exists text. do 2 eexists. split_and!; [done..| |exact Hprune|done]. done.
Qed.

(** The append as a whole, on intact tables. *)
Lemma append_returns max_records event_id kind rule_id payload db r db' :
  0 <= max_records < 2 ^ 63 -> tables_wf (db_tables db) -> intact (db_tables db) ->
  append max_records event_id kind rule_id payload db = (Return r, db') ->
  exists text,
    json_to_string payload = Ok text
    /\ t_audit (db_tables db') = retain max_records (t_audit (db_tables db) ++ [row_of r text])
    /\ tables_wf (db_tables db') /\ intact (db_tables db')
    /\ t_ledger (db_tables db') = t_ledger (db_tables db)
    /\ forall key, key <> "audit_anchor" ->
         t_state (db_tables db') !! key = t_state (db_tables db) !! key.
Proof.
  intros Hmax Hwf Hi Ha. apply append_inv in Ha as
    (text & db1 & db2 & Htext & _ & _ & _ & _ & Hid & Hprev & Hd & Hdb1 & Hprune & ->); [|done].
  exists text. split; [done|].
  assert (tables_wf (db_tables db1)) as Hwf1 by (rewrite Hdb1; by apply inserted_wf).
  apply prune_spec in Hprune as (Hrows & Hanchor & [Hseq Hled Hst]); [|done|done].
  rewrite Hdb1 in *. change (t_audit (inserted _ _)) with
    (t_audit (db_tables db) ++ [row_of r text]) in *.
  pose proof (expire_retain max_records (t_audit (db_tables db) ++ [row_of r text])) as Hsplit.
  assert (retain max_records (t_audit (db_tables db) ++ [row_of r text])
          `sublist_of` t_audit (db_tables db) ++ [row_of r text]) as Hsub
    by (rewrite <- Hsplit at 2; by apply sublist_inserts_l).
  split_and!; [done| | |done|done].
  - destruct Hwf1 as [Hs Hb]. split; rewrite Hrows.
    + eapply StronglySorted_sublist; [|exact Hs]. apply sublist_map. exact Hsub.
    + rewrite Hseq. eapply Forall_sublist; [|exact Hb]. exact Hsub.
  - unfold intact. rewrite Hrows, Hanchor.
    assert (chain (anchor_of (db_tables db)) (t_audit (db_tables db) ++ [row_of r text])) as Hc
      by (by apply chain_snoc).
    rewrite <- Hsplit in Hc. by apply chain_app in Hc as [_ ?].
Qed.
(** The invariant of the store. *)
Definition db_ok (db : Db) : Prop := tables_wf (db_tables db) /\ intact (db_tables db).

Lemma append_fails max_records event_id kind rule_id payload db :
  match append max_records event_id kind rule_id payload db with
  | (Return _, _) => True
  | (_, db') => db_tables db' = db_tables db
  end.
Proof. apply transaction_rollback. Qed.

Lemma append_keeps max_records event_id kind rule_id payload :
  0 <= max_records < 2 ^ 63 ->
  respects (keeps db_ok) (append max_records event_id kind rule_id payload).
Proof.
  intros Hmax db [Hwf Hi]. pose proof (append_fails max_records event_id kind rule_id payload db) as Hf.
  destruct (append _ _ _ _ _ db) as [[r|e|] db'] eqn:Ha; simpl; [|by unfold db_ok; rewrite Hf..].
  by apply append_returns in Ha as (? & _ & _ & ? & ? & _).
Qed.

(** C27: append keeps the chain intact on every path; when it returns, the table is the old
    one with the new record, cut to the newest max_records; when it fails, the tables are
    unchanged. *)
Theorem append_correct max_records event_id kind rule_id payload db :
  0 <= max_records < 2 ^ 63 -> db_ok db ->
  let (outcome, db') := append max_records event_id kind rule_id payload db in
  db_ok db' /\
  match outcome with
  | Return r =>
      exists text, json_to_string payload = Ok text
        /\ t_audit (db_tables db')
           = retain max_records (t_audit (db_tables db) ++ [row_of r text])
        /\ (max_records <> 0 -> Z.of_nat (length (t_audit (db_tables db'))) <= max_records)
  | _ => db_tables db' = db_tables db
  end.
Proof.
  intros Hmax [Hwf Hi].
  pose proof (append_keeps max_records event_id kind rule_id payload Hmax db (conj Hwf Hi)) as Hk.
  pose proof (append_fails max_records event_id kind rule_id payload db) as Hf.
  destruct (append _ _ _ _ _ db) as [[r|e|] db'] eqn:Ha; simpl in *; [|by split..].
  split; [done|]. apply append_returns in Ha as (text & Ht & Hrows & _); [|done..].
  exists text. split_and!; [done..|]. intros Hne. rewrite Hrows. unfold retain.
  rewrite (proj2 (Z.eqb_neq _ _) Hne). pose proof (last_n_length (Z.to_nat max_records)
    (t_audit (db_tables db) ++ [row_of r text])). lia.
Qed.

Lemma retain_last {A} max_records (rows : list A) row :
  0 <= max_records -> last (retain max_records (rows ++ [row])) = Some row.
Proof.
  intros Hmax. unfold retain. destruct (Z.eqb_spec max_records 0); [apply last_snoc|].
  rewrite last_n_app. unfold last_n at 2. simpl.
  replace (1 - Z.to_nat max_records)%nat with 0%nat by lia. apply last_snoc.
Qed.

Lemma rev_last {A} (l : list A) x : last l = Some x -> take 1 (rev l) = [x].
Proof. induction l as [|y l _] using rev_ind; [done|]. rewrite last_snoc, rev_app_distr. by intros [= ->]. Qed.

(** C28: After a successful append to a store in order, on a database none of whose
    statements fails, recent(1) returns exactly the record that append returned, for codecs
    that round-trip. *)
Theorem append_recent_roundtrip max_records event_id kind rule_id payload db r db' :
  fault_free -> (forall t, parse_rfc3339 (to_rfc3339 t) = Ok t) ->
  (forall value text, json_to_string value = Ok text -> json_from_str text = Ok value) ->
  0 <= max_records < 2 ^ 63 -> db_ok db ->
  append max_records event_id kind rule_id payload db = (Return r, db') ->
  (recent 1 db').1 = Return [r].
Proof.
  intros Hff Htime Hjson Hmax [Hwf Hi] Ha.
  pose proof Ha as (text & Htext & Hrows & _)%append_returns; [|done..].
  apply append_inv in Ha as (? & ? & ? & ? & _ & _ & _ & Hpayload & _); [|done]. simplify_eq.
  unfold recent. rewrite bind_eq, select_eq, Hff, Hrows.
  rewrite (rev_last _ (row_of r text)) by (apply retain_last; lia). simpl.
  rewrite bind_eq, execute_id_eq, Hff. simpl. rewrite bind_eq. unfold record_of_row. simpl.
  rewrite Htime, (Hjson _ _ Htext). simpl. rewrite !bind_eq, execute_id_eq, Hff. simpl.
  by destruct r.
Qed.

(** ** The other operations *)
Lemma select_keeps {A} (R : Db -> Db -> Prop) (f : Tables -> A) :
  (forall t n, R (mkDb t n) (mkDb t (S n))) -> respects R (select f).
Proof. intros HR [t n]. rewrite select_eq. simpl. by destruct (db_fault n). Qed.

Lemma tick_ok t n : keeps db_ok (mkDb t n) (mkDb t (S n)).
Proof. intros Hok. exact Hok. Qed.

Lemma verify_rows_keeps rows : forall previous verified,
  respects (keeps db_ok) (verify_rows previous verified rows).
Proof.
  induction rows as [|row rows IH]; intros previous verified; simpl;
    (apply respects_bind; [apply _|apply (select_keeps _ (fun _ => tt)), tick_ok|]); intros _.
  - apply respects_ret, _.
  - apply respects_bind; [apply _|apply respects_require, _|]. intros _.
    apply respects_bind; [apply _|apply respects_require, _|]. intros _. apply IH.
Qed.

Lemma verify_keeps : respects (keeps db_ok) verify.
Proof.
  unfold verify. apply respects_bind; [apply _|apply select_keeps, tick_ok|]. intros anchor.
  apply respects_bind; [apply _|apply select_keeps, tick_ok|]. intros rows.
  apply verify_rows_keeps.
Qed.

Lemma collect_rows_keeps rows : respects (keeps db_ok) (collect_rows rows).
Proof.
  induction rows as [|row rows IH]; simpl;
    (apply respects_bind; [apply _|apply (select_keeps _ (fun _ => tt)), tick_ok|]); intros _.
  - apply respects_ret, _.
  - apply respects_bind; [apply _|apply respects_lift, _|]. intros record.
    apply respects_bind; [apply _|apply IH|]. intros records. apply respects_ret, _.
Qed.

Lemma recent_keeps limit : respects (keeps db_ok) (recent limit).
Proof.
  unfold recent. apply respects_bind; [apply _|apply select_keeps, tick_ok|]. intros rows.
  apply collect_rows_keeps.
Qed.

Lemma get_state_keeps key : respects (keeps db_ok) (get_state key).
Proof. apply select_keeps, tick_ok. Qed.

Lemma execute_keeps (f : Tables -> Tables) :
  (forall t, tables_wf t -> intact t -> tables_wf (f t) /\ intact (f t)) ->
  respects (keeps db_ok) (execute f).
Proof.
  intros Hf [t n]. unfold execute, statement. simpl. destruct (db_fault n); [apply tick_ok|].
  intros [? ?]. by apply Hf.
Qed.

Lemma set_state_keeps key value :
  key <> "audit_anchor" -> respects (keeps db_ok) (set_state key value).
Proof.
  intros Hkey. apply execute_keeps. intros t [Hs Hb] Hi. split; [by split|].
  unfold intact, anchor_of in *. simpl. by rewrite lookup_insert_ne.
Qed.

Lemma action_completed_keeps event_id rule_id action_hash :
  respects (keeps db_ok) (action_completed event_id rule_id action_hash).
Proof.
  apply respects_bind; [apply _|apply select_keeps, tick_ok|]. intros. apply respects_ret, _.
Qed.

Lemma record_action_keeps event_id rule_id action_hash status outcome :
  respects (keeps db_ok) (record_action event_id rule_id action_hash status outcome).
Proof.
  apply respects_bind; [apply _|apply respects_lift, _|]. intros text.
  apply respects_bind; [apply _|intros db Hok; exact Hok|]. intros at_.
  apply execute_keeps. intros t [Hs Hb] Hi. split; [by split|done].
Qed.
End append.

#[export] Hint Resolve append_keeps verify_keeps recent_keeps get_state_keeps set_state_keeps
  action_completed_keeps record_action_keeps : effects.

(** ** A concrete store *)
Lemma empty_db_ok : db_ok empty_db.
Proof. split; [split; constructor|constructor]. Qed.

Lemma two_records_ok : db_ok two_records.
Proof.
  refine (respects_bind (keeps db_ok) _ _ _ _ empty_db empty_db_ok);
    [|intros _]; apply append_keeps; lia.
Qed.

Lemma append_correct_witness :
  match third_record with
  | (Return r, db') =>
      t_audit (db_tables db') = retain 2 (t_audit (db_tables two_records) ++ [row_of r "tock"])
  | _ => False
  end.
Proof.
  pose proof (append_correct 2 (Some "e1") "event" None (Json.String "tock") two_records
                ltac:(lia) two_records_ok) as Ha.
  unfold third_record.
  destruct (append 2 (Some "e1") "event" None (Json.String "tock") two_records)
    as [[r|e|] db'] eqn:Ht.
  - destruct Ha as (_ & text & [= <-] & Hrows & _). exact Hrows.
  - vm_compute in Ht. discriminate.
  - vm_compute in Ht. discriminate.
Defined.

Lemma verify_exact_witness : (verify third_record.2).1 = Return 2.
Proof.
  apply verify_exact; [intros n; reflexivity|]. split; [|vm_compute; reflexivity].
  apply (append_keeps 2 (Some "e1") "event" None (Json.String "tock") ltac:(lia)
           two_records two_records_ok).
Defined.

Lemma truncation_undetected_witness :
  (verify (with_rows (take 1 (t_audit (db_tables two_records))) two_records)).1
  = Return 1.
Proof.
  refine (truncation_undetected two_records 2 1 _ _).
  - intros n. reflexivity.
  - vm_compute. reflexivity.
Defined.

(** The missing rule of a record, written as an empty one. *)
Definition blank_rule (row : AuditRow) : AuditRow :=
  mkAuditRow (row_id row + 10) (row_timestamp row) (row_event_id row) (row_kind row)
    (Some (default EmptyString (row_rule_id row))) (row_payload row) (row_previous_hash row)
    (row_hash row).

Lemma uncovered_columns_undetected_witness :
  (verify (with_rows (map blank_rule (t_audit (db_tables two_records))) two_records)).1 = Return 2.
Proof.
  apply uncovered_columns_undetected.
  - intros n. reflexivity.
  - vm_compute. reflexivity.
  - vm_compute. reflexivity.
Defined.

(** A store with other keys, and empty columns for missing ones. *)
Definition rewritten : Db := with_rows (map blank_rule (t_audit (db_tables two_records))) two_records.

Lemma verified_logs_agree_witness :
  t_audit (db_tables two_records) <> t_audit (db_tables rewritten) /\
  map row_content (t_audit (db_tables two_records))
  = map row_content (t_audit (db_tables rewritten)).
Proof.
  split; [vm_compute; discriminate|].
  destruct (verified_logs_agree two_records rewritten 2 2) as [Heq|[Hcoll|[Hn _]]];
    [vm_compute; reflexivity..|repeat constructor|repeat constructor|exact Heq| |done].
  by destruct Hcoll as (row & row' & _ & _ & Hne & Hd).
Defined.

Lemma append_recent_roundtrip_witness :
  match third_record with
  | (Return r, db') => (recent 1 db').1 = Return [r]
  | _ => False
  end.
Proof.
  unfold third_record.
  destruct (append 2 (Some "e1") "event" None (Json.String "tock") two_records)
    as [[r|e|] db'] eqn:Ht; [|vm_compute in Ht; discriminate..].
  refine (append_recent_roundtrip 2 (Some "e1") "event" None (Json.String "tock") two_records
            r db' _ _ _ _ _ Ht).
  - intros n. reflexivity.
  - exact time_round.
  - exact json_round.
  - lia.
  - exact two_records_ok.
Defined.
