(* ===== verification/Utf8.v ===== *)
(** * Lossy UTF-8 decoding and numerals

    [String::from_utf8_lossy] and [str::parse::<u32>] of the Rust standard
    library, on byte strings. *)

From stdpp Require Import base tactics option list strings.
From Stdlib Require Import ZArith Lia Ascii.
From S2P Require Import Prelude RustStr.
Local Open Scope Z_scope.
Local Open Scope stdpp_scope.

(** U+FFFD. *)
Definition replacement : string := String "239" (String "191" (String "189" EmptyString)).

Definition byte_at (n : nat) (s : string) : Z :=
  match string_drop n s with String c _ => code c | EmptyString => 0 end.

Definition between (lo hi z : Z) : bool := (lo <=? z) && (z <=? hi).

(** The scalar value at the head of [s]: [Ok n] when its [n] bytes are well
    formed, [Err n] when the first [n] bytes are a maximal ill-formed prefix.
    A byte past the end reads as 0, which continues nothing. *)
Definition utf8_step (s : string) : nat + nat :=
  let b0 := byte_at 0 s in
  let b1 := byte_at 1 s in
  let tail n := between 128 191 (byte_at n s) in
  if b0 <? 128 then inl 1%nat
  else if between 194 223 b0 then (if tail 1%nat then inl 2%nat else inr 1%nat)
  else if between 224 239 b0 then
    let second :=
      if b0 =? 224 then between 160 191 b1
      else if b0 =? 237 then between 128 159 b1
      else between 128 191 b1 in
    if negb second then inr 1%nat else if tail 2%nat then inl 3%nat else inr 2%nat
  else if between 240 244 b0 then
    let second :=
      if b0 =? 240 then between 144 191 b1
      else if b0 =? 244 then between 128 143 b1
      else between 128 191 b1 in
    if negb second then inr 1%nat
    else if negb (tail 2%nat) then inr 2%nat
    else if tail 3%nat then inl 4%nat else inr 3%nat
  else inr 1%nat.

Fixpoint string_take (n : nat) (s : string) : string :=
  match n, s with
  | S n, String c s => String c (string_take n s)
  | _, _ => EmptyString
  end.

Fixpoint utf8_lossy_go (fuel : nat) (s : string) : string :=
  match fuel with
  | O => EmptyString
  | S fuel =>
      match s with
      | EmptyString => EmptyString
      | _ =>
          match utf8_step s with
          | inl n => string_take n s +:+ utf8_lossy_go fuel (string_drop n s)
          | inr n => replacement +:+ utf8_lossy_go fuel (string_drop n s)
          end
      end
  end.

(** [String::from_utf8_lossy]; a step consumes at least a byte. *)
Definition from_utf8_lossy (s : string) : string := utf8_lossy_go (String.length s) s.

(** ** Numerals *)
Definition digit_value (c : ascii) : option Z :=
  if is_ascii_digit c then Some (code c - 48) else None.

Fixpoint parse_digits (acc : Z) (s : string) : option Z :=
  match s with
  | EmptyString => Some acc
  | String c s => match digit_value c with
                  | Some d => parse_digits (10 * acc + d) s
                  | None => None
                  end
  end.

(** [str::parse] at an unsigned type of largest value [max]: an optional [+],
    at least one digit, no overflow. *)
Definition parse_unsigned (max : Z) (s : string) : option Z :=
  let digits := match s with String "+" s => s | _ => s end in
  if is_empty digits then None
  else match parse_digits 0 digits with
       | Some n => if n <=? max then Some n else None
       | None => None
       end.

Definition parse_u32 (s : string) : option Z := parse_unsigned (2 ^ 32 - 1) s.

(** ** Bounds *)
Lemma string_app_length s t : String.length (s +:+ t) = (String.length s + String.length t)%nat.
Proof. induction s as [|c s IH]; [done|]. exact (f_equal S IH). Qed.

Lemma string_take_drop_length n s :
  (String.length (string_take n s) + String.length (string_drop n s) = String.length s)%nat.
Proof. revert s. induction n as [|n IH]; intros [|c s]; simpl; try done. by rewrite IH. Qed.

Lemma utf8_step_pos s n : utf8_step s = inl n \/ utf8_step s = inr n -> (0 < n)%nat.
Proof. unfold utf8_step. repeat case_match; intros [[=]|[=]]; lia. Qed.

(** The decoded text is at most three times as long as the bytes. *)
Lemma utf8_lossy_bound s : len (from_utf8_lossy s) <= 3 * len s.
Proof.
  unfold from_utf8_lossy, len.
  assert (forall fuel s, String.length (utf8_lossy_go fuel s) <= 3 * String.length s)%nat as Hgo;
    [|specialize (Hgo (String.length s) s); lia].
  clear s. induction fuel as [|fuel IH]; intros s; simpl; [lia|].
  destruct s as [|c s']; [simpl; lia|]. remember (String c s') as s eqn:Hs.
  destruct (utf8_step s) as [n|n] eqn:Hstep; rewrite string_app_length;
    specialize (IH (string_drop n s)); pose proof (string_take_drop_length n s) as Hlen.
  - lia.
  - assert (0 < n)%nat by (eapply utf8_step_pos; by right).
    destruct n as [|n]; [lia|]. rewrite Hs in *. simpl in *. lia.
Qed.
