(* ===== verification/Text.v ===== *)
(** * Text functions of the Rust standard library

    Lines, words, splitting, replacing and numerals, as [str] has them. All
    recursion is on the text; bytes that belong to a separator already
    consumed are counted down by a [skip] argument. *)

From stdpp Require Import base tactics option list strings gmap.
From Stdlib Require Import ZArith Lia Ascii.
From S2P Require Import Prelude RustStr Utf8.
Local Open Scope Z_scope.
Local Open Scope stdpp_scope.

Definition newline_char : ascii := "010"%char.
Definition return_char : ascii := "013"%char.
Definition backslash : ascii := "092"%char.

Definition snoc (s : string) (c : ascii) : string := s +:+ String c EmptyString.

(** [strip_suffix('\r')], where it applies. *)
Fixpoint strip_return (s : string) : string :=
  match s with
  | EmptyString => EmptyString
  | String c EmptyString => if eqb c return_char then EmptyString else s
  | String c s => String c (strip_return s)
  end.

(** [str::lines]: a last line without line feed counts when it is not empty. *)
Fixpoint lines_go (line : string) (s : string) : list string :=
  match s with
  | EmptyString => if is_empty line then [] else [line]
  | String c s =>
      if eqb c newline_char then strip_return line :: lines_go EmptyString s
      else lines_go (snoc line c) s
  end.
Definition lines (s : string) : list string := lines_go EmptyString s.

Definition flush (word : string) : list string := if is_empty word then [] else [word].

(** [str::split_whitespace]. *)
Fixpoint words_go (skip : nat) (word : string) (s : string) : list string :=
  match s with
  | EmptyString => flush word
  | String c rest =>
      match skip with
      | S skip => words_go skip word rest
      | O => match ws_len s with
             | O => words_go 0 (snoc word c) rest
             | S skip => flush word ++ words_go skip EmptyString rest
             end
      end
  end.
Definition split_whitespace (s : string) : list string := words_go 0 EmptyString s.

(** [str::split_once] at a pattern that is not empty. *)
Fixpoint split_once (pattern s : string) : option (string * string) :=
  match strip_prefix pattern s with
  | Some rest => Some (EmptyString, rest)
  | None =>
      match s with
      | EmptyString => None
      | String c s => prod_map (String c) id <$> split_once pattern s
      end
  end.

(** [str::contains] of such a pattern. *)
Definition contains_str (s pattern : string) : bool :=
  match split_once pattern s with Some _ => true | None => false end.

(** [str::rsplit_once] at an ASCII character. *)
Fixpoint rsplit_once (c : ascii) (s : string) : option (string * string) :=
  match s with
  | EmptyString => None
  | String d s =>
      match rsplit_once c s with
      | Some (a, b) => Some (String d a, b)
      | None => if eqb c d then Some (EmptyString, s) else None
      end
  end.

(** [str::replace] of a pattern that is not empty. *)
Fixpoint replace_go (pattern to : string) (skip : nat) (s : string) : string :=
  match s with
  | EmptyString => EmptyString
  | String c rest =>
      match skip with
      | S skip => replace_go pattern to skip rest
      | O => if starts_with s pattern
             then to +:+ replace_go pattern to (String.length pattern - 1) rest
             else String c (replace_go pattern to 0 rest)
      end
  end.
Definition replace (pattern to s : string) : string := replace_go pattern to 0 s.

(** ** Numerals *)
Definition hex_value (c : ascii) : option Z :=
  if is_ascii_digit c then Some (code c - 48)
  else if in_range 97 102 c then Some (code c - 87)
  else if in_range 65 70 c then Some (code c - 55)
  else None.

Fixpoint parse_hex (acc : Z) (s : string) : option Z :=
  match s with
  | EmptyString => Some acc
  | String c s => match hex_value c with
                  | Some d => parse_hex (16 * acc + d) s
                  | None => None
                  end
  end.

(** An optional sign is not a digit. *)
Definition without_plus (s : string) : string :=
  match s with
  | EmptyString => EmptyString
  | String c rest => if eqb c "+"%char then rest else s
  end.

(** [u16::from_str_radix(s, 16)]. *)
Definition u16_from_hex (s : string) : option Z :=
  let digits := without_plus s in
  if is_empty digits then None
  else match parse_hex 0 digits with
       | Some n => if n <=? 65535 then Some n else None
       | None => None
       end.

Definition parse_u8 (s : string) : option Z := parse_unsigned 255 s.

(** ** Appending *)
Lemma append_cons c s t : String c s +:+ t = String c (s +:+ t).
Proof. reflexivity. Qed.

Lemma append_empty_l s : EmptyString +:+ s = s.
Proof. reflexivity. Qed.

Lemma append_empty_r s : s +:+ EmptyString = s.
Proof. induction s as [|c s IH]; [done|]. by rewrite append_cons, IH. Qed.

Lemma append_assoc s t u : (s +:+ t) +:+ u = s +:+ (t +:+ u).
Proof. induction s as [|c s IH]; [done|]. by rewrite !append_cons, IH. Qed.

Lemma snoc_append s c t : snoc s c +:+ t = s +:+ String c t.
Proof. unfold snoc. by rewrite append_assoc. Qed.

Lemma is_empty_snoc s c : is_empty (snoc s c) = false.
Proof. by destruct s. Qed.

Create Rewrite HintDb text.
#[export] Hint Rewrite append_cons append_empty_l append_empty_r append_assoc snoc_append
  is_empty_snoc : text.

Lemma strip_prefix_app p s : strip_prefix p (p +:+ s) = Some s.
Proof.
  induction p as [|c p IH]; [done|]. rewrite append_cons. simpl. unfold eqb.
  by rewrite bool_decide_eq_true_2.
Qed.

(** ** Lines *)
Definition no_newline (s : string) : Prop := contains_char newline_char s = false.

Lemma lines_go_app line s t :
  no_newline s ->
  lines_go line (s +:+ String newline_char t) = strip_return (line +:+ s) :: lines_go EmptyString t.
Proof.
  unfold no_newline. revert line. induction s as [|c s IH]; intros line Hs.
  - rewrite append_empty_l, append_empty_r. reflexivity.
  - rewrite append_cons. simpl in Hs. apply orb_false_iff in Hs as [Hc Hs].
    simpl. replace (eqb c newline_char) with false.
    + rewrite IH by done. by rewrite snoc_append.
    + unfold eqb in *. apply bool_decide_eq_false in Hc. symmetry.
      apply bool_decide_eq_false. congruence.
Qed.

(** A text of lines that do not end in a carriage return. *)
Definition unlines (ls : list string) : string :=
  foldr (fun l t => l +:+ String newline_char t) EmptyString ls.

Lemma lines_unlines ls :
  Forall (fun l => no_newline l /\ strip_return l = l) ls -> lines (unlines ls) = ls.
Proof.
  induction 1 as [|l ls [Hn Hr] Hls IH]; [done|]. simpl.
  unfold lines in *. rewrite lines_go_app by done. by rewrite IH, append_empty_l, Hr.
Qed.

(** ** Words *)

(** A text without white space. *)
Fixpoint no_space (s : string) : bool :=
  match s with
  | EmptyString => true
  | String _ rest => (ws_len s =? 0)%nat && no_space rest
  end.

Definition space : ascii := " "%char.

(** A word followed by a space contains no other white space. *)
Lemma ws_len_word c w t :
  ws_len (String c w) = 0%nat -> ws_len (String c w +:+ String space t) = 0%nat.
Proof.
  rewrite append_cons. destruct w as [|d w]; [|destruct w as [|e w]].
  - rewrite append_empty_l. simpl. destruct (in_range 9 13 c || (code c =? 32)); [done|]. intros _.
    replace ((code c =? 194) && _) with false by (by destruct (code c =? 194)).
    destruct t as [|e t]; [done|].
    by destruct (code c =? 225), (code c =? 226), (code c =? 227).
  - rewrite append_cons, append_empty_l. simpl.
    destruct (in_range 9 13 c || (code c =? 32)); [done|].
    destruct ((code c =? 194) && ((code d =? 133) || (code d =? 160))); [done|]. intros _.
    replace (in_range 128 138 space) with false by reflexivity.
    by destruct (code c =? 225), (code c =? 226), (code c =? 227), (code d =? 154), (code d =? 128),
      (code d =? 129).
  - by rewrite !append_cons.
Qed.

Lemma words_go_word word w t :
  no_space w = true ->
  words_go 0 word (w +:+ String space t) = flush (word +:+ w) ++ words_go 0 EmptyString t.
Proof.
  revert word. induction w as [|c w IH]; intros word Hw.
  - rewrite append_empty_l, append_empty_r. reflexivity.
  - cbn [no_space] in Hw. apply andb_true_iff in Hw as [Hc%Nat.eqb_eq Hw].
    pose proof (ws_len_word c w t Hc) as Hlen. rewrite append_cons in Hlen |- *.
    cbn [words_go]. rewrite Hlen, IH by done. by rewrite snoc_append.
Qed.

Lemma words_go_last word w :
  no_space w = true -> words_go 0 word w = flush (word +:+ w).
Proof.
  revert word. induction w as [|c w IH]; intros word Hw; [by rewrite append_empty_r|].
  cbn [no_space] in Hw. apply andb_true_iff in Hw as [Hc%Nat.eqb_eq Hw].
  cbn [words_go]. rewrite Hc, IH by done. by rewrite snoc_append.
Qed.

Definition word_ok (w : string) : Prop := no_space w = true /\ w <> EmptyString.

Lemma flush_word w : w <> EmptyString -> flush w = [w].
Proof. by destruct w. Qed.

(** Words separated by single spaces. *)
Definition unwords (ws : list string) : string := String.concat " " ws.

Lemma unwords_cons w ws :
  unwords (w :: ws) = match ws with [] => w | _ => w +:+ String space (unwords ws) end.
Proof. by destruct ws. Qed.

Lemma split_unwords ws : Forall word_ok ws -> split_whitespace (unwords ws) = ws.
Proof.
  unfold split_whitespace. induction 1 as [|w ws [Hw Hne] Hws IH]; [done|].
  rewrite unwords_cons. destruct ws as [|w' ws].
  - rewrite words_go_last by done. by rewrite append_empty_l, flush_word.
  - rewrite words_go_word by done. by rewrite append_empty_l, flush_word, IH.
Qed.

(** ** Splitting *)

Lemma split_once_cons pattern c s :
  strip_prefix pattern (String c s) = None ->
  split_once pattern (String c s) = prod_map (String c) id <$> split_once pattern s.
Proof. intros Hp. simpl. simpl in Hp. by rewrite Hp. Qed.

Lemma split_once_here pattern s : split_once pattern (pattern +:+ s) = Some (EmptyString, s).
Proof.
  destruct (pattern +:+ s) eqn:He; rewrite <- He.
  - rewrite He. cbn [split_once]. rewrite <- He, strip_prefix_app. done.
  - pose proof (strip_prefix_app pattern s) as Hp. rewrite He in *. cbn [split_once]. by rewrite Hp.
Qed.

Lemma rsplit_once_none c s : contains_char c s = false -> rsplit_once c s = None.
Proof.
  induction s as [|d s IH]; [done|]. simpl. intros [Hc Hs]%orb_false_iff. by rewrite IH, Hc.
Qed.

Lemma rsplit_once_app c a b :
  contains_char c b = false -> rsplit_once c (a +:+ String c b) = Some (a, b).
Proof.
  intros Hb. induction a as [|d a IH].
  - rewrite append_empty_l. simpl. rewrite rsplit_once_none by done. unfold eqb.
    by rewrite bool_decide_eq_true_2.
  - rewrite append_cons. simpl. by rewrite IH.
Qed.

(** ** Replacing *)
Section replace.
Context (pattern to : string).

(** The pattern does not start within the token, whatever follows. *)
Definition inert (token : string) : Prop :=
  forall rest, replace pattern to (token +:+ rest) = token +:+ replace pattern to rest.

Lemma replace_skip s rest :
  replace_go pattern to (String.length s) (s +:+ rest) = replace pattern to rest.
Proof. induction s as [|c s IH]; [done|]. rewrite append_cons. exact IH. Qed.

Lemma replace_here rest :
  pattern <> EmptyString ->
  replace pattern to (pattern +:+ rest) = to +:+ replace pattern to rest.
Proof.
  intros Hne. pose proof (strip_prefix_app pattern rest) as Hp.
  destruct pattern as [|c p] eqn:He; [done|]. rewrite append_cons in Hp |- *.
  unfold replace at 1. cbn [replace_go]. unfold starts_with. rewrite Hp. cbn [String.length].
  rewrite Nat.sub_succ, Nat.sub_0_r, <- He. f_equal. rewrite <- (replace_skip p). by rewrite He.
Qed.

Lemma inert_cons c token :
  (forall rest, strip_prefix pattern (String c (token +:+ rest)) = None) -> inert token ->
  inert (String c token).
Proof.
  intros Hc Ht rest. rewrite !append_cons. unfold replace at 1. cbn [replace_go].
  unfold starts_with. rewrite Hc. f_equal. apply Ht.
Qed.

Lemma inert_empty : inert EmptyString.
Proof. by intros rest. Qed.
End replace.

(** ** White space in words *)
Lemma ws_len_ascii c rest : in_range 9 13 c || (code c =? 32) = true -> ws_len (String c rest) = 1%nat.
Proof. intros Hc. simpl. by rewrite Hc. Qed.

Lemma no_space_char c s :
  in_range 9 13 c || (code c =? 32) = true -> no_space s = true -> contains_char c s = false.
Proof.
  intros Hc. induction s as [|d s IH]; [done|]. cbn [no_space]. intros [Hd Hs]%andb_true_iff.
  cbn [contains_char]. rewrite IH, orb_false_r by done. unfold eqb. apply bool_decide_eq_false.
  intros <-. by rewrite ws_len_ascii in Hd.
Qed.

Lemma contains_char_app c s t :
  contains_char c (s +:+ t) = contains_char c s || contains_char c t.
Proof.
  induction s as [|d s IH]; [done|]. rewrite append_cons. simpl. by rewrite IH, orb_assoc.
Qed.

Lemma strip_return_app s w : w <> EmptyString -> strip_return (s +:+ w) = s +:+ strip_return w.
Proof.
  intros Hw. induction s as [|c s IH]; [done|]. rewrite !append_cons.
  assert (s +:+ w <> EmptyString) as Hne by (by destruct s). rewrite <- IH.
  by destruct (s +:+ w).
Qed.

Lemma strip_return_none s : contains_char return_char s = false -> strip_return s = s.
Proof.
  induction s as [|c s IH]; [done|]. cbn [contains_char]. intros [Hc Hs]%orb_false_iff.
  cbn [strip_return]. rewrite IH by done. destruct s; [|done].
  destruct (eqb c return_char) eqn:He; [|done]. rewrite eqb_true in He. subst c.
  by apply not_true_iff_false in Hc as []; apply eqb_true.
Qed.

(** ** Columns

    A line of columns: any indentation, columns after one or more spaces, and
    any padding. *)
Fixpoint spaces (n : nat) : string :=
  match n with O => EmptyString | S n => String space (spaces n) end.

Fixpoint columns (cs : list (nat * string)) (pad : nat) : string :=
  match cs with
  | [] => spaces pad
  | (n, w) :: cs => String space (spaces n +:+ (w +:+ columns cs pad))
  end.

Definition padded_line (indent : nat) (w : string) (cs : list (nat * string)) (pad : nat) : string :=
  spaces indent +:+ (w +:+ columns cs pad).

Lemma words_go_spaces n t : words_go 0 EmptyString (spaces n +:+ t) = words_go 0 EmptyString t.
Proof. induction n as [|n IH]; [done|]. simpl. exact IH. Qed.

Lemma words_go_pad n : words_go 0 EmptyString (spaces n) = [].
Proof. by rewrite <- (append_empty_r (spaces n)), words_go_spaces. Qed.

Lemma words_go_columns w cs pad :
  word_ok w -> Forall word_ok (map snd cs) ->
  words_go 0 EmptyString (w +:+ columns cs pad) = w :: map snd cs.
Proof.
  revert w. induction cs as [|[n x] cs IH]; intros w [Hw Hne] Hcs; cbn [columns map snd].
  - destruct pad as [|pad].
    + cbn [spaces]. rewrite append_empty_r, words_go_last by done. by apply flush_word.
    + cbn [spaces]. rewrite words_go_word, words_go_pad, app_nil_r by done. by apply flush_word.
  - apply Forall_cons in Hcs as [Hx Hcs]. rewrite words_go_word, words_go_spaces, IH by done.
    by rewrite append_empty_l, flush_word.
Qed.

Lemma split_padded_line indent w cs pad :
  word_ok w -> Forall word_ok (map snd cs) ->
  split_whitespace (padded_line indent w cs pad) = w :: map snd cs.
Proof.
  intros Hw Hcs. unfold split_whitespace, padded_line. rewrite words_go_spaces.
  by apply words_go_columns.
Qed.

(** A character of the words only, such as the end of a line. *)
Lemma padded_line_without c indent w cs pad :
  c <> space -> in_range 9 13 c || (code c =? 32) = true ->
  word_ok w -> Forall word_ok (map snd cs) ->
  contains_char c (padded_line indent w cs pad) = false.
Proof.
  intros Hc Hws [Hw _] Hcs.
  assert (eqb c space = false) as Hs by (unfold eqb; by rewrite bool_decide_eq_false_2).
  assert (forall n, contains_char c (spaces n) = false) as Hn.
  { induction n as [|n IH]; [done|]. cbn [spaces contains_char]. by rewrite Hs. }
  unfold padded_line. rewrite !contains_char_app, Hn, (no_space_char c w Hws Hw). cbn [orb].
  induction cs as [|[n x] cs IH]; cbn [columns map snd] in *; [apply Hn|].
  apply Forall_cons in Hcs as [[Hx _] Hcs]. cbn [contains_char].
  rewrite Hs, !contains_char_app, Hn, (no_space_char c x Hws Hx). by apply IH.
Qed.

Lemma padded_line_line indent w cs pad :
  word_ok w -> Forall word_ok (map snd cs) ->
  no_newline (padded_line indent w cs pad)
  /\ strip_return (padded_line indent w cs pad) = padded_line indent w cs pad.
Proof.
  intros Hw Hcs. split; [by apply padded_line_without|].
  apply strip_return_none. by apply padded_line_without.
Qed.

(** ** Splitting off words *)
Lemma split_dash_word w t :
  contains_char space w = false ->
  split_once " - " (w +:+ t) = prod_map (fun s => w +:+ s) id <$> split_once " - " t.
Proof.
  induction w as [|c w IH]; intros Hw.
  { rewrite append_empty_l. by destruct (split_once _ t) as [[]|]. }
  cbn [contains_char] in Hw. apply orb_false_iff in Hw as [Hc Hw].
  rewrite append_cons, split_once_cons.
  - rewrite IH by done. by destruct (split_once _ t) as [[]|].
  - cbn [strip_prefix]. change " "%char with space. by rewrite Hc.
Qed.

Lemma dash_word_none w t :
  word_ok w -> w <> "-" -> strip_prefix " - " (String space (w +:+ String space t)) = None.
Proof.
  intros [Hw Hne] Hd. pose proof (no_space_char space w eq_refl Hw) as Hc.
  change (strip_prefix " - " (String space (w +:+ String space t)))
    with (strip_prefix "- " (w +:+ String space t)).
  destruct w as [|c w]; [done|]. rewrite append_cons. cbn [strip_prefix].
  destruct (eqb "-"%char c) eqn:He; [|done]. rewrite eqb_true in He. subst c.
  destruct w as [|d w]; [done|]. rewrite append_cons. cbn [strip_prefix].
  cbn [contains_char] in Hc. apply orb_false_iff in Hc as [_ [Hc _]%orb_false_iff].
  change " "%char with space. by rewrite Hc.
Qed.

(** The first lone dash separates. *)
Lemma split_dash ws rest :
  ws <> [] -> Forall word_ok ws -> "-" ∉ ws ->
  split_once " - " (unwords ws +:+ (" - " +:+ rest)) = Some (unwords ws, rest).
Proof.
  intros Hne Hws Hdash. induction Hws as [|w ws [Hw _] Hws IH]; [done|].
  pose proof (no_space_char space w eq_refl Hw) as Hc. rewrite unwords_cons.
  destruct ws as [|w' ws].
  { rewrite split_dash_word, split_once_here by done. simpl. by rewrite append_empty_r. }
  rewrite append_assoc, split_dash_word by done. rewrite append_cons, split_once_cons.
  - rewrite IH by set_solver. done.
  - apply Forall_cons in Hws as [Hw' _].
    assert (exists t, unwords (w' :: ws) +:+ (" - " +:+ rest) = w' +:+ String space t) as [t ->].
    { rewrite unwords_cons. destruct ws; [by eexists|]. rewrite append_assoc, append_cons.
      by eexists. }
    apply dash_word_none; [done|]. set_solver.
Qed.
