(* ===== verification/Host.v ===== *)
(** * The host as the executor sees it

    Every interaction of [kovert-actions] with the operating system is a call
    that is appended to a history; the host answers as a function of the
    history and the call, so that repeated calls may be answered differently. *)

From stdpp Require Import base tactics option list strings gmap.
From Stdlib Require Import ZArith Lia Ascii.
From S2P Require Import Prelude RustStr RustPath Config Event Effects.
Local Open Scope Z_scope.
Local Open Scope stdpp_scope.

(** A process to start: [Command::new(executable)] with its arguments, the
    cleared and refilled environment, and what is written to its standard
    input (none: [Stdio::null()]). *)
Record CommandLine := mkCommandLine {
  cmd_executable : PathBuf;
  cmd_args : list string;
  cmd_environment : list (string * string);
  cmd_stdin : option string;
}.

(** How waiting for a child with a timeout ends. *)
Inductive ChildStatus :=
| Exited (success : bool)
| WaitFailed
| TimedOut (killed : bool).

(** A started child: the failure of writing its input, its end, and the
    bytes it writes, or the failure of reading them. *)
Record Child := mkChild {
  child_stdin_failure : option string;
  child_status : ChildStatus;
  child_stdout : Result string;
  child_stderr : Result string;
}.

(** [std::time::SystemTime]: nanoseconds from the epoch, of any year. *)
Abbreviation SystemTime := Z (only parsing).

(** [std::fs::Metadata], by what is read of it. *)
Record Metadata := mkMetadata {
  meta_is_file : bool;
  meta_is_dir : bool;
  meta_is_symlink : bool;
  meta_is_socket : bool;
  meta_uid : Z;
  meta_mode : Z;
  meta_len : Z;
  meta_readonly : bool;
  meta_modified : option SystemTime;
}.

Module Signal.
Inductive Signal := SIGTERM | SIGKILL | SIGHUP | SIGINT.
End Signal.
Abbreviation Signal := Signal.Signal.

Inductive HostCall :=
| IsFile (path : PathBuf)
| Spawn (command : CommandLine)
| ReadProc
| ReadComm (entry : string)
| Kill (pid : Z) (signal : Signal)
| SymlinkMetadata (path : PathBuf)
| OpenFile (path : PathBuf)
| ReadFile (path : PathBuf)
| CreateDirAll (path : PathBuf)
| CreateNew (path : PathBuf) (mode : Z)
| WriteFile (path : PathBuf) (content : string).

Abbreviation History := (list HostCall) (only parsing).

(** The answers of the host. *)
Class Host := {
  host_is_file : History -> PathBuf -> bool;
  host_spawn : History -> CommandLine -> Result Child;
  host_read_proc : History -> Result (list (Result string));
  host_read_comm : History -> string -> Result string;
  host_kill : History -> Z -> Signal -> Result unit;
  host_metadata : History -> PathBuf -> Result Metadata;
  host_open : History -> PathBuf -> Result unit;
  host_read : History -> PathBuf -> Result string;
  host_create_dir_all : History -> PathBuf -> Result unit;
  host_create_new : History -> PathBuf -> Z -> Result unit;
  host_write : History -> PathBuf -> string -> Result unit;
  host_now : History -> DateTime;
  host_pid : Z;
}.

(** A call that may change the host. *)
Definition mutating (call : HostCall) : bool :=
  match call with
  | Spawn _ | Kill _ _ | CreateDirAll _ | CreateNew _ _ | WriteFile _ _ => true
  | _ => false
  end.

Definition read_clock `{Host} : M History DateTime := fun h => (Return (host_now h), h).

Lemma respects_clock `{Host} P : respects (adds P) read_clock.
Proof. intros h. exists []. by rewrite app_nil_r. Qed.

#[export] Hint Resolve respects_clock : effects.
