(* ===== verification/Command.v ===== *)
(** * Running adapters ([kovert-actions/src/command.rs])

    [resolve_tool], [run_command], [read_command_bytes], [run_raw_command] and
    [read_limited]. *)

From stdpp Require Import base tactics option list strings gmap pretty.
From Stdlib Require Import ZArith Lia Ascii.
From S2P Require Import Prelude RustStr RustPath Utf8 Config Event Effects Host.
Local Open Scope Z_scope.
Local Open Scope stdpp_scope.

(** [OUTPUT_LIMIT] of [lib.rs]. *)
Definition OUTPUT_LIMIT : Z := 64 * 1024.

Record CommandResult := mkCommandResult {
  result_success : bool;
  result_stdout : string;
  result_stderr : string;
  result_output_truncated : bool;
}.

Record RawCommandResult := mkRawCommandResult {
  raw_success : bool;
  raw_stdout : string;
  raw_stderr : string;
  raw_output_truncated : bool;
}.

Definition tool_directories : list PathBuf := ["/usr/bin"; "/usr/sbin"; "/bin"; "/sbin"].

(** [reader.take(OUTPUT_LIMIT + 1).read_to_end], then the truncation. *)
Definition read_limited (output : Result string) : Result (string * bool) :=
  match output with
  | Err _ => Err "read command output"
  | Ok output =>
      let bytes := string_take (Z.to_nat (OUTPUT_LIMIT + 1)) output in
      Ok (string_take (Z.to_nat OUTPUT_LIMIT) bytes, OUTPUT_LIMIT <? len bytes)
  end.

Section command.
Context `{Host}.

Fixpoint find_tool (name : string) (directories : list PathBuf) : M History PathBuf :=
  match directories with
  | [] => throw ("required adapter tool is unavailable: " +:+ name)
  | directory :: directories =>
      let candidate := path_join directory name in
      found ← call (IsFile candidate) (fun h => Ok (host_is_file h candidate));
      if found : bool then mret candidate else find_tool name directories
  end.

Definition resolve_tool (name : string) : M History PathBuf :=
  require (negb (contains_char slash name || contains_char "000"%char name)) "invalid tool name";;
  find_tool name tool_directories.

Definition run_raw_command (executable : PathBuf) (args : list string)
    (secret_stdin : option string) (environment : list (string * string))
    (command_timeout : Duration) : M History RawCommandResult :=
  require (is_absolute executable) "executable path must be absolute";;
  let command := mkCommandLine executable args environment
                   ((fun secret => secret +:+ String "010" EmptyString) <$> secret_stdin) in
  child ← with_context ("spawn " +:+ executable)
            (call (Spawn command) (fun h => host_spawn h command));
  lift_result (match secret_stdin, child_stdin_failure child with
               | Some _, Some e => Err e
               | _, _ => Ok tt
               end);;
  success ← lift_result (match child_status child with
                         | Exited success => Ok success
                         | WaitFailed => Err "wait for adapter"
                         | TimedOut false => Err "kill timed-out adapter"
                         | TimedOut true =>
                             Err ("command timed out after "
                                  +:+ pretty (command_timeout / 1000000000)
                                  +:+ " seconds: " +:+ executable)
                         end);
  ' (stdout, stdout_truncated) ← lift_result (read_limited (child_stdout child));
  ' (stderr, stderr_truncated) ← lift_result (read_limited (child_stderr child));
  mret (mkRawCommandResult success stdout stderr (stdout_truncated || stderr_truncated)).

Definition run_command (executable : PathBuf) (args : list string)
    (secret_stdin : option string) (environment : list (string * string))
    (command_timeout : Duration) : M History CommandResult :=
  raw ← run_raw_command executable args secret_stdin environment command_timeout;
  mret (mkCommandResult (raw_success raw) (trim (from_utf8_lossy (raw_stdout raw)))
          (trim (from_utf8_lossy (raw_stderr raw))) (raw_output_truncated raw)).

Definition read_command_bytes (executable : PathBuf) (args : list string)
    (command_timeout : Duration) : M History string :=
  raw ← run_raw_command executable args None [] command_timeout;
  require (raw_success raw) ("command failed: " +:+ trim (from_utf8_lossy (raw_stderr raw)));;
  require (negb (raw_output_truncated raw)) "command output exceeded the security limit";;
  mret (raw_stdout raw).
End command.

(** ** What is run *)

(** A utility of a system directory. *)
Definition system_tool (name : string) (path : PathBuf) : Prop :=
  exists directory, directory ∈ tool_directories /\ path = path_join directory name.

Section calls.
Context `{Host} (P : HostCall -> Prop).

Lemma find_tool_adds name directories :
  (forall d, d ∈ directories -> P (IsFile (path_join d name))) ->
  respects (adds P) (find_tool name directories).
Proof using Type*.
  induction directories as [|d ds IH]; intros Hd; simpl; [apply respects_throw, _|].
  apply respects_bind; [apply _|apply respects_call, Hd; by left|]. intros found.
  destruct found; [apply respects_ret, _|]. apply IH. intros d' Hd'. apply Hd. by right.
Qed.

Lemma find_tool_returns name directories h path h' :
  find_tool name directories h = (Return path, h') ->
  exists directory, directory ∈ directories /\ path = path_join directory name.
Proof using.
  revert h. induction directories as [|d ds IH]; intros h; simpl; [done|].
  rewrite bind_eq. unfold call. destruct (host_is_file h _).
  - intros [= <- _]. exists d. split; [by left|done].
  - intros (d' & Hd' & ->)%IH. exists d'. split; [by right|done].
Qed.

Lemma resolve_tool_returns name h path h' :
  resolve_tool name h = (Return path, h') -> system_tool name path.
Proof using.
  unfold resolve_tool. rewrite bind_eq. unfold require. destruct (negb _); [|done].
  apply find_tool_returns.
Qed.

(** The process [run_raw_command] starts. *)
Definition command_line (executable : PathBuf) (args : list string) (secret : option string)
    (environment : list (string * string)) : CommandLine :=
  mkCommandLine executable args environment
    ((fun secret => secret +:+ String "010" EmptyString) <$> secret).

Lemma run_raw_command_adds executable args secret environment timeout :
  (is_absolute executable = true ->
   P (Spawn (command_line executable args secret environment))) ->
  respects (adds P) (run_raw_command executable args secret environment timeout).
Proof using Type*.
  intros HP. apply respects_guard; [apply _|]. intros Habs. cbv zeta.
  apply respects_bind; [apply _|apply respects_with_context, respects_call; [apply _|auto]|].
  intros child. repeat (apply respects_bind; [apply _|apply respects_lift, _|intros ?]).
  repeat case_match. repeat (apply respects_bind; [apply _|apply respects_lift, _|intros ?]).
  repeat case_match. apply respects_ret, _.
Qed.

Lemma run_command_adds executable args secret environment timeout :
  (is_absolute executable = true ->
   P (Spawn (command_line executable args secret environment))) ->
  respects (adds P) (run_command executable args secret environment timeout).
Proof using Type*.
  intros HP. apply respects_bind; [apply _|by apply run_raw_command_adds|].
  intros raw. apply respects_ret, _.
Qed.

Lemma read_command_bytes_adds executable args timeout :
  (is_absolute executable = true -> P (Spawn (command_line executable args None []))) ->
  respects (adds P) (read_command_bytes executable args timeout).
Proof using Type*.
  intros HP. apply respects_bind; [apply _|by apply run_raw_command_adds|].
  intros raw. do 2 (apply respects_guard; [apply _|intros _]). apply respects_ret, _.
Qed.

(** Looking up a tool and running it. *)
Lemma with_tool_adds {A} name (k : PathBuf -> M History A) :
  (forall path, system_tool name path -> P (IsFile path)) ->
  (forall path, system_tool name path -> respects (adds P) (k path)) ->
  respects (adds P) (resolve_tool name ≫= k).
Proof using Type*.
  intros HP Hk. apply respects_bind_returns; [apply _| |].
  - apply respects_guard; [apply _|]. intros _. apply find_tool_adds.
    intros d Hd. apply HP. by exists d.
  - intros path (h & h' & Hr). by eapply Hk, resolve_tool_returns.
Qed.
End calls.

(** ** Output bounds *)
Lemma output_limit_pos : 0 < OUTPUT_LIMIT.
Proof. reflexivity. Qed.

#[local] Opaque OUTPUT_LIMIT.

Lemma string_take_length n s : (String.length (string_take n s) <= n)%nat.
Proof. revert s. induction n as [|n IH]; intros [|c s]; simpl; try lia. specialize (IH s). lia. Qed.

Lemma string_take_take m n s : (m <= n)%nat -> string_take m (string_take n s) = string_take m s.
Proof.
  revert n s. induction m as [|m IH]; intros n s Hle; [done|].
  destruct n as [|n]; [lia|]. destruct s as [|c s]; simpl; [done|]. rewrite IH by lia. done.
Qed.

Lemma string_take_length_eq n s :
  String.length (string_take n s) = Nat.min n (String.length s).
Proof. revert s. induction n as [|n IH]; intros [|c s]; simpl; try done. by rewrite IH. Qed.

(** What [read_limited] keeps: the first [OUTPUT_LIMIT] bytes, flagged when
    there were more. *)
Lemma read_limited_eq output :
  read_limited (Ok output)
  = Ok (string_take (Z.to_nat OUTPUT_LIMIT) output, OUTPUT_LIMIT <? len output).
Proof.
  unfold read_limited. pose proof output_limit_pos.
  rewrite string_take_take by lia.
  do 2 f_equal. unfold len. rewrite string_take_length_eq.
  destruct (Z.ltb_spec OUTPUT_LIMIT (Z.of_nat (String.length output)));
    [apply Z.ltb_lt|apply Z.ltb_ge]; lia.
Qed.

Lemma trim_length s : len (trim s) <= len s.
Proof.
  assert (forall s, String.length (trim_end s) <= String.length s)%nat as Hend.
  { clear s. induction s as [|c s IH]; simpl; [done|]. repeat case_match; simpl in *; lia. }
  assert (forall n s, String.length (string_drop n s) <= String.length s)%nat as Hdrop.
  { induction n as [|n IH]; intros [|c t]; simpl; try done. specialize (IH t). lia. }
  assert (forall fuel s, String.length (trim_start_go fuel s) <= String.length s)%nat as Hstart.
  { induction fuel as [|fuel IH]; intros t; simpl; [done|]. case_match; [done|].
    etrans; [apply IH|apply (Hdrop (S _))]. }
  unfold len, trim, trim_start. specialize (Hend (trim_start_go (String.length s) s)).
  specialize (Hstart (String.length s) s). lia.
Qed.

Definition bounded_output (text : string) : Prop := len text <= 3 * OUTPUT_LIMIT.

Lemma shown_output_bounded output bytes truncated :
  read_limited output = Ok (bytes, truncated) -> bounded_output (trim (from_utf8_lossy bytes)).
Proof.
  destruct output as [output|]; [|done]. rewrite read_limited_eq. intros [= <- _].
  unfold bounded_output. pose proof (trim_length (from_utf8_lossy
    (string_take (Z.to_nat OUTPUT_LIMIT) output))) as Ht.
  pose proof (utf8_lossy_bound (string_take (Z.to_nat OUTPUT_LIMIT) output)) as Hu.
  pose proof (string_take_length (Z.to_nat OUTPUT_LIMIT) output) as Hl. unfold len in *.
  pose proof output_limit_pos. lia.
Qed.

(** ** The result of a command *)
Section result.
Context `{Host}.

(** A child that ran to its end within the timeout, having read its input. *)
Definition completed (child : Child) (secret : option string) (success : bool)
    (stdout stderr : string) : Prop :=
  child_status child = Exited success /\ child_stdout child = Ok stdout
  /\ child_stderr child = Ok stderr
  /\ (secret <> None -> child_stdin_failure child = None).

Lemma run_raw_command_inv executable args secret environment timeout h raw h' :
  run_raw_command executable args secret environment timeout h = (Return raw, h') ->
  is_absolute executable = true
  /\ h' = h ++ [Spawn (command_line executable args secret environment)]
  /\ exists child stdout stderr,
       host_spawn h (command_line executable args secret environment) = Ok child
       /\ completed child secret (raw_success raw) stdout stderr
       /\ raw_stdout raw = string_take (Z.to_nat OUTPUT_LIMIT) stdout
       /\ raw_stderr raw = string_take (Z.to_nat OUTPUT_LIMIT) stderr
       /\ raw_output_truncated raw
          = (OUTPUT_LIMIT <? len stdout) || (OUTPUT_LIMIT <? len stderr).
Proof.
  unfold run_raw_command. rewrite bind_eq. unfold require.
  destruct (is_absolute executable); [simpl|done]. rewrite bind_eq.
  unfold with_context, try_catch, call.
  fold (command_line executable args secret environment).
  destruct (host_spawn h _) as [child|e]; [simpl|done].
  rewrite bind_eq. destruct child as [failure status out err]; cbn [child_stdin_failure].
  rewrite lift_eq. destruct secret as [secret|], failure as [failure|]; try done;
  cbn; rewrite bind_eq, lift_eq; destruct status as [success| |[]]; try done; cbn;
  rewrite bind_eq, lift_eq; (destruct out as [out|]; [rewrite read_limited_eq|done]); cbn;
  rewrite bind_eq, lift_eq; (destruct err as [err|]; [rewrite read_limited_eq|done]); cbn;
  intros [= <- <-]; (split_and!; [done..|]); eexists _, out, err; by split_and!.
Qed.

(** C35: A command that yields a result is one process started from an absolute path that
    exited in time; the output is at most three times OUTPUT_LIMIT bytes after lossy
    decoding, and the truncation flag is set exactly when a stream exceeded OUTPUT_LIMIT. *)
Theorem run_command_result executable args secret environment timeout h result h' :
  run_command executable args secret environment timeout h = (Return result, h') ->
  is_absolute executable = true
  /\ h' = h ++ [Spawn (command_line executable args secret environment)]
  /\ bounded_output (result_stdout result) /\ bounded_output (result_stderr result)
  /\ exists child stdout stderr,
       host_spawn h (command_line executable args secret environment) = Ok child
       /\ completed child secret (result_success result) stdout stderr
       /\ result_output_truncated result
          = (OUTPUT_LIMIT <? len stdout) || (OUTPUT_LIMIT <? len stderr).
Proof.
  unfold run_command. rewrite bind_eq.
  destruct (run_raw_command _ _ _ _ _ h) as [[raw|e|] h1] eqn:Hraw; [|done|done].
  intros [= <- <-].
  apply run_raw_command_inv in Hraw as (Habs & -> & child & out & err & Hs & Hc & Ho & He & Ht).
  simpl. rewrite Ho, He. split_and!; [done|done| | |].
  - eapply shown_output_bounded, read_limited_eq.
  - eapply shown_output_bounded, read_limited_eq.
  - exists child, out, err. by rewrite Ht.
Qed.
End result.
