(* ===== verification/Vault.v ===== *)
(** * Vault adapters ([kovert-actions/src/vault.rs]) *)

From stdpp Require Import base tactics option list strings gmap.
From Stdlib Require Import ZArith Lia Ascii.
From S2P Require Import Prelude RustStr RustPath Utf8 Config Event Effects Host Command.
Local Open Scope Z_scope.
Local Open Scope stdpp_scope.

Section vault.
Context `{Host}.

(** [resolve_tool("fusermount3").or_else(|_| resolve_tool("fusermount"))]. *)
Definition resolve_fusermount : M History PathBuf :=
  try_catch (resolve_tool "fusermount3") mret (fun _ => resolve_tool "fusermount").

Definition lock_vault (vault : VaultConfig) (timeout : Duration) : M History CommandResult :=
  match vault_adapter vault with
  | VaultAdapter.Fscrypt =>
      executable ← resolve_tool "fscrypt";
      run_command executable ["lock"; vault_path vault] None [] timeout
  | VaultAdapter.Gocryptfs =>
      mount_path ← lift_result (ok_or (vault_mount_path vault) "gocryptfs vault has no mount_path");
      executable ← resolve_fusermount;
      run_command executable ["-u"; mount_path] None [] timeout
  end.

Definition read_keyring (description : string) (timeout : Duration) : M History string :=
  require (negb (is_empty description || (128 <? len description) || any_control description))
    "invalid kernel-keyring description";;
  keyctl ← resolve_tool "keyctl";
  search ← run_command keyctl ["search"; "@u"; "user"; description] None [] timeout;
  require (result_success search) ("kernel-keyring lookup failed: " +:+ result_stderr search);;
  let serial := trim (result_stdout search) in
  require (negb (is_empty serial || negb (all_chars is_ascii_digit serial)))
    "kernel-keyring lookup returned an invalid serial";;
  key ← with_context "read kernel key" (read_command_bytes keyctl ["pipe"; serial] timeout);
  require (negb (is_empty key)) "kernel-keyring key is empty";;
  mret key.

Definition unlock_vault (vault : VaultConfig) (timeout : Duration) : M History CommandResult :=
  description ← lift_result (ok_or (vault_keyring_description vault)
                               "automatic unlock requires keyring_description");
  key ← read_keyring description timeout;
  match vault_adapter vault with
  | VaultAdapter.Fscrypt =>
      executable ← resolve_tool "fscrypt";
      run_command executable ["unlock"; vault_path vault] (Some key) [] timeout
  | VaultAdapter.Gocryptfs =>
      encrypted_path ← lift_result (ok_or (vault_encrypted_path vault)
                                      "gocryptfs vault has no encrypted_path");
      mount_path ← lift_result (ok_or (vault_mount_path vault)
                                  "gocryptfs vault has no mount_path");
      executable ← resolve_tool "gocryptfs";
      run_command executable
        ["-quiet"; "-passfile"; "/dev/stdin"; encrypted_path; mount_path] (Some key) [] timeout
  end.
End vault.

(** ** What the adapters run *)

(** The command lines that lock a vault: those of its adapter, on its own
    paths, with nothing on standard input. *)
Inductive lock_command (vault : VaultConfig) : CommandLine -> Prop :=
| run_fscrypt_lock path :
    vault_adapter vault = VaultAdapter.Fscrypt -> system_tool "fscrypt" path ->
    lock_command vault (command_line path ["lock"; vault_path vault] None [])
| run_fusermount tool path mount :
    vault_adapter vault = VaultAdapter.Gocryptfs ->
    tool = "fusermount3" \/ tool = "fusermount" -> system_tool tool path ->
    vault_mount_path vault = Some mount ->
    lock_command vault (command_line path ["-u"; mount] None []).

(** The command lines that unlock a vault: the lookup of its key by its
    configured description, and the adapter's command with a key as its
    input. A key is never an argument. *)
Inductive unlock_command (vault : VaultConfig) : CommandLine -> Prop :=
| run_keyctl_search path description :
    system_tool "keyctl" path -> vault_keyring_description vault = Some description ->
    unlock_command vault (command_line path ["search"; "@u"; "user"; description] None [])
| run_keyctl_pipe path serial :
    system_tool "keyctl" path -> all_chars is_ascii_digit serial = true -> serial <> EmptyString ->
    unlock_command vault (command_line path ["pipe"; serial] None [])
| run_fscrypt_unlock path key :
    vault_adapter vault = VaultAdapter.Fscrypt ->
    system_tool "fscrypt" path -> key <> EmptyString ->
    unlock_command vault (command_line path ["unlock"; vault_path vault] (Some key) [])
| run_gocryptfs path encrypted mount key :
    vault_adapter vault = VaultAdapter.Gocryptfs ->
    system_tool "gocryptfs" path -> key <> EmptyString ->
    vault_encrypted_path vault = Some encrypted -> vault_mount_path vault = Some mount ->
    unlock_command vault
      (command_line path ["-quiet"; "-passfile"; "/dev/stdin"; encrypted; mount] (Some key) []).

(** The calls of a vault operation: looking for its tools, and its commands. *)
Definition operation_call (tools : list string) (command : CommandLine -> Prop) (c : HostCall)
    : Prop :=
  match c with
  | IsFile path => exists name, name ∈ tools /\ system_tool name path
  | Spawn line => command line
  | _ => False
  end.

Definition lock_call (vault : VaultConfig) : HostCall -> Prop :=
  operation_call ["fscrypt"; "fusermount3"; "fusermount"] (lock_command vault).

Definition unlock_call (vault : VaultConfig) : HostCall -> Prop :=
  operation_call ["keyctl"; "fscrypt"; "gocryptfs"] (unlock_command vault).

Lemma probe_call tools command name path :
  list_contains tools name = true -> system_tool name path ->
  operation_call tools command (IsFile path).
Proof. intros Hn%list_contains_true Hs. by exists name. Qed.

Lemma is_empty_false s : is_empty s = false -> s <> EmptyString.
Proof. by destruct s. Qed.

Section adds.
Context `{Host}.

Ltac tool :=
  apply with_tool_adds; [intros ? ?; eapply probe_call; [|eassumption]; reflexivity|intros ?path ?Hpath].

Lemma resolve_tool_adds tools command name :
  list_contains tools name = true ->
  respects (adds (operation_call tools command)) (resolve_tool name).
Proof.
  intros Hn. apply respects_guard; [apply _|]. intros _. apply find_tool_adds.
  intros d Hd. eapply probe_call; [done|]. by exists d.
Qed.

Lemma fusermount_returns path :
  returns resolve_fusermount path ->
  exists tool, (tool = "fusermount3" \/ tool = "fusermount") /\ system_tool tool path.
Proof.
  intros (h & h' & Hr). unfold resolve_fusermount, try_catch in Hr.
  destruct (resolve_tool "fusermount3" h) as [[p|e|] h1] eqn:H1; [|exists "fusermount"|done].
  - injection Hr as <- _. exists "fusermount3". split; [by left|]. by eapply resolve_tool_returns.
  - split; [by right|]. by eapply resolve_tool_returns.
Qed.

Lemma lock_vault_adds vault timeout : respects (adds (lock_call vault)) (lock_vault vault timeout).
Proof.
  unfold lock_vault. destruct (vault_adapter vault) eqn:Hadapter.
  - tool. apply run_command_adds. intros _. by constructor.
  - apply respects_ok_or; [apply _|]. intros mount Hm. apply respects_bind_returns; [apply _| |].
    + apply respects_try_catch; [apply _|by apply resolve_tool_adds|intros; apply respects_ret, _|].
      intros _. by apply resolve_tool_adds.
    + intros path (name & Hname & Hpath)%fusermount_returns. apply run_command_adds. intros _.
      by econstructor.
Qed.

Lemma read_keyring_adds vault description timeout :
  vault_keyring_description vault = Some description ->
  respects (adds (unlock_call vault)) (read_keyring description timeout).
Proof.
  intros Hd. apply respects_guard; [apply _|]. intros _. tool.
  apply respects_bind; [apply _|apply run_command_adds; intros _; by constructor|]. intros search.
  apply respects_guard; [apply _|]. intros _. cbv zeta. apply respects_guard; [apply _|].
  intros Hserial. apply respects_bind; [apply _| |].
  - apply respects_with_context; [apply _|]. apply read_command_bytes_adds. intros _.
    rewrite negb_true_iff, orb_false_iff, negb_false_iff in Hserial. destruct Hserial as [? ?].
    constructor; [done|done|]. by apply is_empty_false.
  - intros key. apply respects_guard; [apply _|]. intros _. apply respects_ret, _.
Qed.

Lemma read_keyring_nonempty description timeout key :
  returns (read_keyring description timeout) key -> key <> EmptyString.
Proof.
  intros (h & h' & Hr) ->. revert Hr. unfold read_keyring. rewrite bind_eq.
  destruct (require _ _ h) as [[[]|e|] h0]; try done.
  rewrite bind_eq. destruct (resolve_tool _ h0) as [[keyctl|e|] h1]; try done.
  rewrite bind_eq. destruct (run_command _ _ _ _ _ h1) as [[search|e|] h2]; try done.
  rewrite bind_eq. destruct (require _ _ h2) as [[[]|e|] h3]; try done. cbv zeta.
  rewrite bind_eq. destruct (require _ _ h3) as [[[]|e|] h4]; try done.
  rewrite bind_eq. destruct (with_context _ _ h4) as [[key|e|] h5]; try done.
  rewrite bind_eq. by destruct key.
Qed.

Lemma unlock_vault_adds vault timeout :
  respects (adds (unlock_call vault)) (unlock_vault vault timeout).
Proof.
  apply respects_ok_or; [apply _|]. intros description Hd.
  apply respects_bind_returns; [apply _|by apply read_keyring_adds|].
  intros key Hkey%read_keyring_nonempty. destruct (vault_adapter vault) eqn:Hadapter.
  - tool. apply run_command_adds. intros _. by constructor.
  - apply respects_ok_or; [apply _|]. intros encrypted He.
    apply respects_ok_or; [apply _|]. intros mount Hm. tool.
    apply run_command_adds. intros _. by constructor.
Qed.
End adds.
