(* ===== verification/Evidence.v ===== *)
(** * Evidence capture ([kovert-actions/src/evidence.rs])

    Only metadata of the named paths is read; the one file written is new, in
    the destination, and readable by its owner alone. The conversion of a
    modification time can panic. *)

From stdpp Require Import base tactics option list strings gmap.
From Stdlib Require Import ZArith Lia Ascii.
From S2P Require Import Prelude RustStr RustPath Utf8 Text Config Event Effects Host Command.
Local Open Scope Z_scope.
Local Open Scope stdpp_scope.

Record FileMetadata := mkFileMetadata {
  file_path : PathBuf;
  file_exists : bool;
  file_type : option string;
  file_length : option Z;
  file_readonly : option bool;
  file_modified : option string;
}.

Record EvidenceBundle := mkEvidenceBundle {
  bundle_captured_at : DateTime;
  bundle_event : Event;
  bundle_files : list FileMetadata;
}.

(** [chrono] and [serde_json]. [utc_from_system_time] is
    [DateTime::<Utc>::from], which panics ([None]) on a time outside the range
    of a [DateTime]; [evidence_stamp] is [format("%Y%m%dT%H%M%S%.3fZ")], which
    writes no slash. *)
Class EvidenceText := {
  utc_from_system_time : SystemTime -> option DateTime;
  evidence_rfc3339 : DateTime -> string;
  evidence_stamp : DateTime -> string;
  bundle_text : EvidenceBundle -> Result string;
  evidence_stamp_plain : forall at_, contains_char slash (evidence_stamp at_) = false;
}.

Section evidence.
Context `{Host} `{EvidenceText}.

(** [modified().ok().map(|time| DateTime::<Utc>::from(time).to_rfc3339())]. *)
Definition modified_text (modified : option SystemTime) : M History (option string) :=
  match modified with
  | None => mret None
  | Some time =>
      match utc_from_system_time time with
      | None => panic
      | Some at_ => mret (Some (evidence_rfc3339 at_))
      end
  end.

(** [metadata]; a failure is recorded as a missing file. *)
Definition metadata (path : PathBuf) : M History FileMetadata :=
  try_catch (call (SymlinkMetadata path) (fun h => host_metadata h path))
    (fun m =>
       let kind := if meta_is_symlink m then "symlink" else if meta_is_dir m then "directory"
                   else if meta_is_file m then "file" else "other" in
       modified ← modified_text (meta_modified m);
       mret (mkFileMetadata path true (Some kind) (Some (meta_len m)) (Some (meta_readonly m))
               modified))
    (fun _ => mret (mkFileMetadata path false None None None None)).

Fixpoint all_metadata (paths : list PathBuf) : M History (list FileMetadata) :=
  match paths with
  | [] => mret []
  | path :: paths => m ← metadata path; rest ← all_metadata paths; mret (m :: rest)
  end.

(** [format!("{}-{}.json", now.format(..), event.id)]. *)
Definition evidence_filename (at_ : DateTime) (event : Event) : string :=
  evidence_stamp at_ +:+ "-" +:+ event_id event +:+ ".json".

Definition capture_metadata (paths : list PathBuf) (destination : PathBuf) (event : Event)
    : M History PathBuf :=
  require (negb (negb (is_absolute destination)
                 || existsb (fun path => negb (is_absolute path)) paths))
    "evidence paths must be absolute";;
  with_context ("create evidence directory " +:+ destination)
    (call (CreateDirAll destination) (fun h => host_create_dir_all h destination));;
  files ← all_metadata paths;
  captured_at ← read_clock;
  let bundle := mkEvidenceBundle captured_at event files in
  at_ ← read_clock;
  let filename := evidence_filename at_ event in
  let output := path_join destination filename in
  with_context ("create evidence file " +:+ output)
    (call (CreateNew output 384) (fun h => host_create_new h output 384));;
  with_context "serialize evidence metadata"
    (text ← lift_result (bundle_text bundle);
     call (WriteFile output text) (fun h => host_write h output text));;
  mret output.
End evidence.

(** ** What is touched *)
Section touched.
Context `{Host} `{EvidenceText}.

(** The file of an event: a relative name below the destination, and directly
    in it when the event's identifier, a UUID, has no slash. *)
Definition evidence_file (destination : PathBuf) (event : Event) (path : PathBuf) : Prop :=
  exists at_, path = path_join destination (evidence_filename at_ event)
    /\ is_absolute (evidence_filename at_ event) = false
    /\ (contains_char slash (event_id event) = false ->
        contains_char slash (evidence_filename at_ event) = false).

Definition evidence_call (paths : list PathBuf) (destination : PathBuf) (event : Event)
    (c : HostCall) : Prop :=
  is_absolute destination = true /\ (forall p, p ∈ paths -> is_absolute p = true) /\
  match c with
  | SymlinkMetadata path => path ∈ paths
  | CreateDirAll path => path = destination
  | CreateNew path mode => mode = 384 /\ evidence_file destination event path
  | WriteFile path _ => evidence_file destination event path
  | _ => False
  end.

Definition writes_file (c : HostCall) : bool :=
  match c with CreateNew _ _ | WriteFile _ _ => true | _ => false end.

(** At most one file is created, with mode 0600, and only that file is written,
    after it was created. *)
Inductive one_new_file (h : History) : History -> Prop :=
| no_file new : Forall (fun c => writes_file c = false) new -> one_new_file h new
| file_opened pre path :
    Forall (fun c => writes_file c = false) pre -> one_new_file h (pre ++ [CreateNew path 384])
| file_written pre path content :
    Forall (fun c => writes_file c = false) pre -> host_create_new (h ++ pre) path 384 = Ok tt ->
    one_new_file h (pre ++ [CreateNew path 384; WriteFile path content]).

Lemma contains_slash_app s t :
  contains_char slash (s +:+ t) = contains_char slash s || contains_char slash t.
Proof using.
  induction s as [|c s IH]; [done|]. rewrite append_cons. cbn [contains_char].
  by rewrite IH, orb_assoc.
Qed.

Lemma not_absolute s : contains_char slash s = false -> is_absolute s = false.
Proof using.
  destruct s as [|c s]; [done|]. cbn [contains_char is_absolute]. rewrite orb_false_iff.
  intros [Hc _]. rewrite <- not_true_iff_false, eqb_true in *. congruence.
Qed.

(** The name is a relative one, so that the file is below the destination. *)
Lemma evidence_filename_relative at_ event : is_absolute (evidence_filename at_ event) = false.
Proof.
  unfold evidence_filename. pose proof (evidence_stamp_plain at_) as Hp.
  destruct (evidence_stamp at_) as [|c s]; [done|]. apply (not_absolute (String c s)) in Hp. done.
Qed.

Lemma evidence_filename_plain at_ event :
  contains_char slash (event_id event) = false ->
  contains_char slash (evidence_filename at_ event) = false.
Proof.
  intros Hid. unfold evidence_filename.
  by rewrite !contains_slash_app, evidence_stamp_plain, Hid.
Qed.

Lemma evidence_file_intro destination event at_ :
  evidence_file destination event (path_join destination (evidence_filename at_ event)).
Proof.
  exists at_. split_and!; [done|apply evidence_filename_relative|apply evidence_filename_plain].
Qed.

Lemma absolute_paths paths destination :
  negb (negb (is_absolute destination) || existsb (fun path => negb (is_absolute path)) paths)
  = true <->
  is_absolute destination = true /\ forall p, p ∈ paths -> is_absolute p = true.
Proof using.
  rewrite negb_true_iff, orb_false_iff, negb_false_iff. split; intros [Hd Hp]; (split; [done|]).
  - intros p Hin. destruct (is_absolute p) eqn:Ha; [done|]. rewrite <- not_true_iff_false in Hp.
    destruct Hp. apply existsb_exists. exists p. rewrite <- list_elem_of_In, Ha. done.
  - rewrite <- not_true_iff_false, existsb_exists. intros (p & Hin & Ha).
    rewrite <- list_elem_of_In in Hin. by rewrite (Hp p Hin) in Ha.
Qed.

Lemma metadata_adds (P : HostCall -> Prop) path :
  P (SymlinkMetadata path) -> respects (adds P) (metadata path).
Proof.
  intros HP. apply respects_try_catch; [apply _|by apply respects_call| |];
    [|intros; apply respects_ret, _].
  intros m. apply respects_bind; [apply _| |intros; apply respects_ret, _].
  unfold modified_text. repeat case_match; [apply respects_ret, _|apply respects_panic, _
    |apply respects_ret, _].
Qed.

Lemma all_metadata_adds (P : HostCall -> Prop) paths :
  (forall p, p ∈ paths -> P (SymlinkMetadata p)) -> respects (adds P) (all_metadata paths).
Proof.
  induction paths as [|path paths IH]; intros HP; simpl; [apply respects_ret, _|].
  apply respects_bind; [apply _|apply metadata_adds, HP; by left|]. intros m.
  apply respects_bind; [apply _|apply IH; intros p Hp; apply HP; by right|].
  intros rest. apply respects_ret, _.
Qed.

(** The calls after the metadata is read. *)
Lemma write_bundle_adds paths destination event bundle at_ :
  is_absolute destination = true /\ (forall p, p ∈ paths -> is_absolute p = true) ->
  respects (adds (evidence_call paths destination event))
    (let output := path_join destination (evidence_filename at_ event) in
     with_context ("create evidence file " +:+ output)
       (call (CreateNew output 384) (fun h => host_create_new h output 384));;
     with_context "serialize evidence metadata"
       (text ← lift_result (bundle_text bundle);
        call (WriteFile output text) (fun h => host_write h output text));;
     mret output).
Proof.
  intros [Hd Hp].
  apply respects_bind; [apply _|apply respects_with_context, respects_call; [apply _|]|intros _].
  { split_and!; [done..|apply evidence_file_intro]. }
  apply respects_bind; [apply _|apply respects_with_context; [apply _|]|intros _; apply respects_ret, _].
  apply respects_bind; [apply _|apply respects_lift, _|]. intros text.
  apply respects_call. split_and!; [done..|apply evidence_file_intro].
Qed.

Lemma capture_metadata_adds paths destination event :
  respects (adds (evidence_call paths destination event))
    (capture_metadata paths destination event).
Proof.
  apply respects_guard; [apply _|]. intros Habs%absolute_paths.
  apply respects_bind; [apply _|apply respects_with_context, respects_call; [apply _|]|intros _].
  { destruct Habs. by split_and!. }
  apply respects_bind; [apply _|apply all_metadata_adds; intros p Hin; destruct Habs; by split_and!|].
  intros files. apply respects_bind; [apply _|apply respects_clock|]. intros captured_at. cbv zeta.
  apply respects_bind; [apply _|apply respects_clock|]. intros at_. by apply write_bundle_adds.
Qed.

(** Creating and writing the file. *)
Lemma write_bundle_file h bundle output :
  let m := with_context ("create evidence file " +:+ output)
             (call (CreateNew output 384) (fun h => host_create_new h output 384));;
           with_context "serialize evidence metadata"
             (text ← lift_result (bundle_text bundle);
              call (WriteFile output text) (fun h => host_write h output text));;
           mret output in
  (m h).2 = h ++ [CreateNew output 384]
  \/ exists text, (m h).2 = h ++ [CreateNew output 384; WriteFile output text]
       /\ host_create_new h output 384 = Ok tt.
Proof.
  cbv zeta. rewrite bind_eq. unfold with_context, try_catch, call.
  destruct (host_create_new h output 384) as [[]|e]; [|by left]. simpl. rewrite bind_eq.
  destruct (bundle_text bundle) as [text|e]; [|by left]. right. exists text. split; [|done].
  simpl. rewrite bind_eq. simpl. by destruct (host_write _ _ _); simpl; rewrite <- app_assoc.
Qed.

Lemma capture_metadata_file paths destination event h :
  exists new, (capture_metadata paths destination event h).2 = h ++ new /\ one_new_file h new.
Proof.
  unfold capture_metadata. rewrite guard_eq. destruct (negb _).
  2:{ exists []. rewrite app_nil_r. split; [done|by apply no_file]. }
  rewrite bind_eq. unfold with_context at 1, try_catch at 1, call at 1.
  destruct (host_create_dir_all h destination) as [[]|e]; simpl.
  2:{ eexists. split; [done|]. apply no_file. by repeat constructor. }
  rewrite bind_eq.
  destruct (all_metadata_adds (fun c => writes_file c = false) paths ltac:(done)
              (h ++ [CreateDirAll destination])) as (read & Hread & Hno).
  assert (Forall (fun c => writes_file c = false) (CreateDirAll destination :: read)) as Hpre
    by by constructor.
  destruct (all_metadata paths _) as [[files|e|] h'] eqn:Hm; simpl in Hread; subst h';
    rewrite <- app_assoc; simpl;
    [|eexists; split; [done|by apply no_file]..].
  cbv zeta. rewrite bind_eq. simpl. rewrite bind_eq. simpl.
  set (bundle := mkEvidenceBundle _ _ _). set (output := path_join _ _).
  destruct (write_bundle_file (h ++ CreateDirAll destination :: read) bundle output)
    as [Hw|(text & Hw & Hc)]; cbv zeta in Hw; rewrite Hw, <- app_assoc; eexists; (split; [done|]).
  - by apply file_opened.
  - by apply file_written.
Qed.
End touched.

(** ** Panics *)
Section panics.
Context `{Host} `{EvidenceText}.

(** The host answers with a modification time that [chrono] cannot represent. *)
Definition unrepresentable (h : History) (path : PathBuf) : Prop :=
  exists m time, host_metadata h path = Ok m /\ meta_modified m = Some time
                 /\ utc_from_system_time time = None.

(** Every modification time the host answers is one that [chrono] represents. *)
Definition modification_times_ok : Prop := forall h path, ~ unrepresentable h path.

Lemma metadata_result path h :
  exists o, metadata path h = (o, h ++ [SymlinkMetadata path])
    /\ ((o = Panic /\ unrepresentable h path)
        \/ ((exists m, o = Return m) /\ ~ unrepresentable h path)).
Proof.
  unfold metadata, try_catch, call, unrepresentable.
  destruct (host_metadata h path) as [m|e] eqn:Hm.
  2:{ eexists. split; [done|]. right. split; [by eexists|]. by intros (? & ? & ? & _). }
  rewrite bind_eq. unfold modified_text. destruct (meta_modified m) as [time|] eqn:Ht.
  2:{ eexists. split; [done|]. right. split; [by eexists|]. intros (? & ? & ? & ? & _). congruence. }
  destruct (utc_from_system_time time) as [at_|] eqn:Hu; eexists; (split; [done|]).
  - right. split; [by eexists|]. intros (? & ? & ? & ? & ?). congruence.
  - left. split; [done|]. by exists m, time.
Qed.

(** A list of paths panics at the first such answer, after the metadata of the
    paths before it was read. *)
Lemma all_metadata_panics paths h :
  ((exists files, (all_metadata paths h).1 = Return files) \/ (all_metadata paths h).1 = Panic)
  /\ ((all_metadata paths h).1 = Panic <->
      exists pre path post, paths = pre ++ path :: post
        /\ unrepresentable (h ++ map SymlinkMetadata pre) path).
Proof.
  revert h. induction paths as [|path paths IH]; intros h; cbn [all_metadata].
  { split; [left; by eexists|]. split; [done|]. by intros ([] & ? & ? & ? & _). }
  rewrite bind_eq. destruct (metadata_result path h) as (o & -> & [[-> Hu]|[[m ->] Hu]]).
  - split; [by right|]. split; [|done]. intros _. exists [], path, paths. by rewrite app_nil_r.
  - rewrite bind_eq. destruct (IH (h ++ [SymlinkMetadata path])) as [Hr Hp].
    destruct (all_metadata paths _) as [[files|e|] h']; simpl in *;
      [|by destruct Hr as [[]|]|]; (split; [eauto|]).
    + split; [done|]. intros ([|p pre] & q & post & [= <- ->] & Hq).
      { by rewrite app_nil_r in Hq. }
      discriminate (proj2 Hp). exists pre, q, post. by rewrite <- app_assoc.
    + split; [|done]. intros _. destruct (proj1 Hp eq_refl) as (pre & q & post & -> & Hq).
      exists (path :: pre), q, post. by rewrite <- app_assoc in Hq.
Qed.

(** C39: Capturing evidence panics exactly when the paths are absolute, the destination
    directory was created, and for one of the paths, at its turn, the host answers with a
    modification time that chrono cannot represent; it never panics otherwise, whatever the
    host answers. *)
Theorem capture_panics_iff paths destination event h :
  (capture_metadata paths destination event h).1 = Panic <->
  is_absolute destination = true /\ (forall p, p ∈ paths -> is_absolute p = true)
  /\ host_create_dir_all h destination = Ok tt
  /\ exists pre path post, paths = pre ++ path :: post
       /\ unrepresentable (h ++ CreateDirAll destination :: map SymlinkMetadata pre) path.
Proof.
  unfold capture_metadata. rewrite guard_eq. destruct (negb _) eqn:Habs.
  2:{ split; [done|]. intros (? & ? & _). by rewrite (proj2 (absolute_paths _ _)) in Habs. }
  apply absolute_paths in Habs as [Hd Hp].
  rewrite bind_eq. unfold with_context at 1, try_catch at 1, call at 1.
  destruct (host_create_dir_all h destination) as [[]|e]; simpl.
  2:{ split; [done|]. by intros (_ & _ & ? & _). }
  rewrite bind_eq. destruct (all_metadata_panics paths (h ++ [CreateDirAll destination])) as [Hr Hiff].
  setoid_rewrite <- app_assoc in Hiff. simpl in Hiff.
  destruct (all_metadata paths _) as [[files|e|] h']; simpl in *; [|by destruct Hr as [[]|]|].
  - split; [|by intros (_ & _ & _ & ?%(proj2 Hiff))]. cbv zeta. rewrite bind_eq. simpl.
    rewrite bind_eq. simpl. rewrite bind_eq. unfold with_context, try_catch, call.
    destruct (host_create_new _ _ _); [|done]. simpl. rewrite bind_eq.
    destruct (bundle_text _); [|done]. simpl. rewrite bind_eq. simpl. by destruct (host_write _ _ _).
  - split; [|done]. intros _. split_and!; [done..|]. by apply Hiff.
Qed.
End panics.
