(* ===== verification/Actions.v ===== *)
(** * The action executor ([kovert-actions/src/lib.rs])

    [ActionExecutor::execute] with its outcomes, its own checks and its
    process and file operations. *)

From stdpp Require Import base tactics option list strings gmap pretty.
From Stdlib Require Import ZArith Lia Ascii.
From S2P Require Import Prelude RustStr RustPath Utf8 Config Event Effects Host Command Vault.
From S2P Require Import Evidence.
Local Open Scope Z_scope.
Local Open Scope stdpp_scope.

(** The allowlist of executables is a [HashSet<PathBuf>]: paths by their
    components. *)
Record ExecutionContext := mkExecutionContext {
  ctx_dry_run : bool;
  ctx_command_timeout : Duration;
  ctx_allowed_executables : gset (list Component);
  ctx_managed_processes : gset string;
  ctx_vaults : list VaultConfig;
  ctx_desktop_notifications : bool;
}.

Module ActionEffect.
Inductive ActionEffect :=
| None
| SetMode (mode : string)
| NetworkIsolation (enabled : bool).
End ActionEffect.
Abbreviation ActionEffect := ActionEffect.ActionEffect.

Record ActionOutcome := mkActionOutcome {
  outcome_success : bool;
  outcome_dry_run : bool;
  outcome_message : string;
  outcome_duration_ms : Z;
  outcome_effect : ActionEffect;
  outcome_stdout : option string;
  outcome_stderr : option string;
  outcome_output_truncated : bool;
}.

Definition nonempty (value : string) : option string :=
  if is_empty value then None else Some value.

Definition dry_run_outcome (message : string) : ActionOutcome :=
  mkActionOutcome true true message 0 ActionEffect.None None None false.

Definition internal_outcome (message : string) (effect : ActionEffect) (elapsed_ms : Z)
    : ActionOutcome :=
  mkActionOutcome true false message elapsed_ms effect None None false.

Definition command_outcome (message : string) (result : CommandResult) (elapsed_ms : Z)
    : ActionOutcome :=
  mkActionOutcome (result_success result) false message elapsed_ms ActionEffect.None
    (nonempty (result_stdout result)) (nonempty (result_stderr result))
    (result_output_truncated result).

Definition set_effect (effect : ActionEffect) (o : ActionOutcome) : ActionOutcome :=
  mkActionOutcome (outcome_success o) (outcome_dry_run o) (outcome_message o)
    (outcome_duration_ms o) effect (outcome_stdout o) (outcome_stderr o)
    (outcome_output_truncated o).

(** The [Debug] form of an action, and [sha2]. *)
Class ActionText := {
  action_debug : ActionSpec -> string;
  sha256_hex : string -> string;
}.

(** [as i32]. *)
Definition as_i32 (z : Z) : Z :=
  let m := wrap_unsigned 32 z in if m <? 2 ^ 31 then m else m - 2 ^ 32.

Section actions.
Context `{Host} `{EvidenceText} `{ActionText}.

Definition ensure_absolute (path : PathBuf) : Result unit :=
  ensure (is_absolute path) ("privileged path must be absolute: " +:+ path).

Definition validate_interface (value : string) : Result unit :=
  ensure (negb (is_empty value) && (len value <=? 15)
          && all_chars (fun ch => is_ascii_alphanumeric ch
                                  || list_contains ["_"; "-"; "."; ":"]%char ch) value)
    "invalid network interface name".

Definition validate_unit (value : string) : Result unit :=
  ensure (negb (is_empty value) && (len value <=? 255) && negb (contains_char slash value)
          && all_chars (fun ch => is_ascii_alphanumeric ch
                                  || list_contains ["_"; "-"; "."; "@"]%char ch) value)
    "invalid systemd unit name".

Definition unix_signal (signal : ProcessSignal) : Signal :=
  match signal with
  | ProcessSignal.Term => Signal.SIGTERM
  | ProcessSignal.Kill => Signal.SIGKILL
  | ProcessSignal.Hup => Signal.SIGHUP
  | ProcessSignal.Int => Signal.SIGINT
  end.

(** The loop of [terminate_named_processes] over the entries of [/proc]. *)
Fixpoint signal_entries (name : string) (signal : Signal) (count : Z)
    (entries : list (Result string)) : M History Z :=
  match entries with
  | [] => mret count
  | entry :: entries =>
      entry ← lift_result entry;
      match parse_u32 entry with
      | None => signal_entries name signal count entries
      | Some pid =>
          if (pid <=? 1) || (pid =? host_pid) then signal_entries name signal count entries
          else
            comm ← try_catch (call (ReadComm entry) (fun h => host_read_comm h entry)) mret
                     (fun _ => mret EmptyString);
            if negb (eqb (trim comm) name) then signal_entries name signal count entries
            else
              with_context ("signal process " +:+ pretty pid)
                (call (Kill (as_i32 pid) signal) (fun h => host_kill h (as_i32 pid) signal));;
              signal_entries name signal (count + 1) entries
      end
  end.

Definition terminate_named_processes (name : string) (signal : ProcessSignal) : M History Z :=
  entries ← with_context "read /proc" (call ReadProc host_read_proc);
  signal_entries name (unix_signal signal) 0 entries.

Definition verify_sha256 (path : PathBuf) (expected : string) : M History unit :=
  with_context ("open " +:+ path) (call (OpenFile path) (fun h => host_open h path));;
  content ← with_context ("read " +:+ path) (call (ReadFile path) (fun h => host_read h path));
  require (eq_ignore_ascii_case (sha256_hex content) expected)
    ("executable digest mismatch for " +:+ path).

Definition verify_executable_security (path : PathBuf) : M History unit :=
  m ← with_context ("inspect executable " +:+ path)
        (call (SymlinkMetadata path) (fun h => host_metadata h path));
  require (meta_is_file m) ("approved executable must be a regular file: " +:+ path);;
  require (meta_uid m =? 0) ("approved executable must be owned by root: " +:+ path);;
  require (Z.land (meta_mode m) 18 =? 0)
    ("approved executable cannot be group- or world-writable: " +:+ path).

(** [ActionExecutor::vault]. *)
Definition find_vault (context : ExecutionContext) (name : string) : Result VaultConfig :=
  ok_or (List.find (fun vault => eqb (vault_name vault) name) (ctx_vaults context))
    ("unknown vault " +:+ name).

(** [started.elapsed().as_millis()]. *)
Definition elapsed_ms (started : DateTime) : M History Z :=
  now ← read_clock; mret (Z.max 0 (now - started) / 1000000).

Definition finish_command (started : DateTime) (message : string) (result : CommandResult)
    : M History ActionOutcome :=
  ms ← elapsed_ms started; mret (command_outcome message result ms).

Definition finish_internal (started : DateTime) (message : string) (effect : ActionEffect)
    : M History ActionOutcome :=
  ms ← elapsed_ms started; mret (internal_outcome message effect ms).

(** A fixed tool with its arguments. *)
Definition run_tool (name : string) (args : list string) (timeout : Duration)
    : M History CommandResult :=
  executable ← resolve_tool name;
  run_command executable args None [] timeout.

(** [ActionExecutor::execute]. *)
Definition execute_action (context : ExecutionContext) (action : ActionSpec) (event : Event)
    : M History ActionOutcome :=
  if ctx_dry_run context
  then mret (dry_run_outcome ("would execute " +:+ action_debug action)) else
  let timeout := ctx_command_timeout context in
  started ← read_clock;
  match action with
  | ActionSpec.LockVault name =>
      vault ← lift_result (find_vault context name);
      result ← lock_vault vault timeout;
      finish_command started ("locked vault " +:+ vault_name vault) result
  | ActionSpec.UnlockVault name =>
      vault ← lift_result (find_vault context name);
      result ← unlock_vault vault timeout;
      finish_command started ("unlocked vault " +:+ vault_name vault) result
  | ActionSpec.Unmount path =>
      lift_result (ensure_absolute path);;
      result ← run_tool "umount" [path] timeout;
      finish_command started ("unmounted " +:+ path) result
  | ActionSpec.NetworkIsolation enabled =>
      result ← run_tool "nmcli" ["networking"; if enabled then "off" else "on"] timeout;
      outcome ← finish_command started
                  (if enabled then "isolated networking" else "restored networking") result;
      mret (if outcome_success outcome
            then set_effect (ActionEffect.NetworkIsolation enabled) outcome else outcome)
  | ActionSpec.InterfaceState interface up =>
      lift_result (validate_interface interface);;
      let state := if up then "up" else "down" in
      result ← run_tool "ip" ["link"; "set"; "dev"; interface; state] timeout;
      finish_command started ("set interface " +:+ interface +:+ " " +:+ state) result
  | ActionSpec.Service name state =>
      lift_result (validate_unit name);;
      let verb := match state with
                  | ServiceAction.Start => "start"
                  | ServiceAction.Stop => "stop"
                  | ServiceAction.Restart => "restart"
                  end in
      result ← run_tool "systemctl" [verb; name; "--no-block"] timeout;
      finish_command started ("requested " +:+ verb +:+ " for " +:+ name) result
  | ActionSpec.TerminateProcess process signal =>
      require (bool_decide (process ∈ ctx_managed_processes context))
        ("process " +:+ process +:+ " is not in the managed-process allowlist");;
      count ← terminate_named_processes process signal;
      finish_internal started
        ("signalled " +:+ pretty count +:+ " instance(s) of " +:+ process) ActionEffect.None
  | ActionSpec.Notify title message urgency =>
      if negb (ctx_desktop_notifications context) then
        finish_internal started "notification recorded in the local journal" ActionEffect.None
      else
        let urgency := match urgency with
                       | NotificationUrgency.Low => "low"
                       | NotificationUrgency.Normal => "normal"
                       | NotificationUrgency.Critical => "critical"
                       end in
        result ← run_tool "notify-send"
                   ["--app-name=Kovert"; "--urgency=" +:+ urgency; title; message] timeout;
        finish_command started "sent local notification" result
  | ActionSpec.CaptureEvidence paths destination =>
      output ← capture_metadata paths destination event;
      finish_internal started ("captured metadata at " +:+ output) ActionEffect.None
  | ActionSpec.SetMode mode =>
      finish_internal started ("set security mode to " +:+ mode) (ActionEffect.SetMode mode)
  | ActionSpec.Exec executable args expected_sha256 environment =>
      require (bool_decide (components executable ∈ ctx_allowed_executables context))
        ("executable " +:+ executable +:+ " is not in the approved allowlist");;
      verify_executable_security executable;;
      match expected_sha256 with
      | Some expected => verify_sha256 executable expected
      | None => mret tt
      end;;
      result ← run_command executable args None (map_to_list environment) timeout;
      finish_command started ("executed " +:+ executable) result
  end.
End actions.
