(* ===== verification/ActionsProps.v ===== *)
(** * Confinement of the executor

    What an action may do to the host, whatever the host answers. *)

From stdpp Require Import base tactics option list strings gmap pretty.
From Stdlib Require Import ZArith Lia Ascii.
From S2P Require Import Prelude RustStr RustPath Utf8 Config Event Effects Host Command Vault.
From S2P Require Import Evidence Actions.
Local Open Scope Z_scope.
Local Open Scope stdpp_scope.

(** The calls of running one fixed tool with fixed arguments. *)
Definition tool_call (name : string) (args : list string) (c : HostCall) : Prop :=
  match c with
  | IsFile path => system_tool name path
  | Spawn command => exists path, system_tool name path /\ command = command_line path args None []
  | _ => False
  end.

Definition verb_of (state : ServiceAction) : string :=
  match state with
  | ServiceAction.Start => "start" | ServiceAction.Stop => "stop"
  | ServiceAction.Restart => "restart"
  end.

Section confined.
Context `{Host} `{EvidenceText} `{ActionText}.

Definition word_of (urgency : NotificationUrgency) : string :=
  match urgency with
  | NotificationUrgency.Low => "low" | NotificationUrgency.Normal => "normal"
  | NotificationUrgency.Critical => "critical"
  end.

(** The calls an action may make under a context. *)
Definition permitted (context : ExecutionContext) (event : Event) (action : ActionSpec)
    (c : HostCall) : Prop :=
  ctx_dry_run context = false /\
  match action with
  | ActionSpec.LockVault name =>
      exists vault, vault ∈ ctx_vaults context /\ vault_name vault = name /\ lock_call vault c
  | ActionSpec.UnlockVault name =>
      exists vault, vault ∈ ctx_vaults context /\ vault_name vault = name /\ unlock_call vault c
  | ActionSpec.Unmount path => is_absolute path = true /\ tool_call "umount" [path] c
  | ActionSpec.NetworkIsolation enabled =>
      tool_call "nmcli" ["networking"; if enabled then "off" else "on"] c
  | ActionSpec.InterfaceState interface up =>
      validate_interface interface = Ok tt
      /\ tool_call "ip" ["link"; "set"; "dev"; interface; if up then "up" else "down"] c
  | ActionSpec.Service name state =>
      validate_unit name = Ok tt /\ tool_call "systemctl" [verb_of state; name; "--no-block"] c
  | ActionSpec.TerminateProcess process signal =>
      process ∈ ctx_managed_processes context /\
      match c with
      | ReadProc | ReadComm _ => True
      | Kill _ s => s = unix_signal signal
      | _ => False
      end
  | ActionSpec.Notify title message urgency =>
      ctx_desktop_notifications context = true
      /\ tool_call "notify-send"
           ["--app-name=Kovert"; "--urgency=" +:+ word_of urgency; title; message] c
  | ActionSpec.CaptureEvidence paths destination =>
      evidence_call paths destination event c
  | ActionSpec.SetMode _ => False
  | ActionSpec.Exec executable args _ environment =>
      components executable ∈ ctx_allowed_executables context /\
      match c with
      | SymlinkMetadata path | OpenFile path | ReadFile path => path = executable
      | Spawn command => command = command_line executable args None (map_to_list environment)
      | _ => False
      end
  end.

Lemma find_vault_ok context name vault :
  find_vault context name = Ok vault -> vault ∈ ctx_vaults context /\ vault_name vault = name.
Proof.
  unfold find_vault. destruct (List.find _ _) as [v|] eqn:Hf; [|done]. intros [= ->].
  apply List.find_some in Hf as [Hin Heq]. rewrite eqb_true in Heq.
  by rewrite <- list_elem_of_In in Hin.
Qed.

Lemma finish_command_adds P started message result :
  respects (adds P) (finish_command started message result).
Proof.
  do 2 (apply respects_bind; [apply _| |intros ?; apply respects_ret, _]). apply respects_clock.
Qed.

Lemma finish_internal_adds P started message effect :
  respects (adds P) (finish_internal started message effect).
Proof.
  do 2 (apply respects_bind; [apply _| |intros ?; apply respects_ret, _]). apply respects_clock.
Qed.

Lemma run_tool_adds (P : HostCall -> Prop) name args timeout :
  (forall c, tool_call name args c -> P c) -> respects (adds P) (run_tool name args timeout).
Proof.
  intros HP. apply with_tool_adds; intros path Hpath; [by apply HP|].
  apply run_command_adds. intros _. apply HP. by exists path.
Qed.

Lemma signal_entries_adds (P : HostCall -> Prop) name signal count entries :
  (forall entry, P (ReadComm entry)) -> (forall pid, P (Kill pid signal)) ->
  respects (adds P) (signal_entries name signal count entries).
Proof.
  intros Hr Hk. revert count.
  induction entries as [|entry entries IH]; intros count; simpl; [apply respects_ret, _|].
  apply respects_bind; [apply _|apply respects_lift, _|]. intros text.
  destruct (parse_u32 text) as [pid|]; [|apply IH]. destruct (_ || _); [apply IH|].
  apply respects_bind; [apply _| |].
  - apply respects_try_catch; [apply _|by apply respects_call|intros; apply respects_ret, _..].
  - intros comm. destruct (negb _); [apply IH|].
    apply respects_bind; [apply _|apply respects_with_context, respects_call; [apply _|done]|].
    intros _. apply IH.
Qed.

Lemma verify_executable_security_adds (P : HostCall -> Prop) path :
  P (SymlinkMetadata path) -> respects (adds P) (verify_executable_security path).
Proof.
  intros HP. apply respects_bind; [apply _|apply respects_with_context, respects_call; [apply _|done]|].
  intros m. do 2 (apply respects_guard; [apply _|]; intros _). apply respects_require, _.
Qed.

Lemma verify_sha256_adds (P : HostCall -> Prop) path expected :
  P (OpenFile path) -> P (ReadFile path) -> respects (adds P) (verify_sha256 path expected).
Proof.
  intros Ho Hr.
  apply respects_bind; [apply _|apply respects_with_context, respects_call; [apply _|done]|intros _].
  apply respects_bind; [apply _|apply respects_with_context, respects_call; [apply _|done]|].
  intros content. apply respects_require, _.
Qed.

(** An error of a check is a check that failed. *)
Lemma respects_checked {A} P (r : Result unit) (m : M History A) :
  (r = Ok tt -> respects (adds P) m) -> respects (adds P) (lift_result r;; m).
Proof.
  intros Hm h. rewrite bind_eq, lift_eq. destruct r as [[]|e]; [by apply Hm|reflexivity].
Qed.

(** A vault operation on the vault of that name. *)
Lemma with_vault_adds context name (operation : VaultConfig -> M History CommandResult) message started
    (calls : VaultConfig -> HostCall -> Prop) (P : HostCall -> Prop) :
  (forall vault, respects (adds (calls vault)) (operation vault)) ->
  (forall vault c, vault ∈ ctx_vaults context -> vault_name vault = name -> calls vault c -> P c) ->
  respects (adds P)
    (vault ← lift_result (find_vault context name);
     result ← operation vault;
     finish_command started (message vault) result).
Proof.
  intros Hop HP. apply respects_bind_returns; [apply _|apply respects_lift, _|].
  intros vault (? & ? & Hv). rewrite lift_eq in Hv. destruct (find_vault _ _) eqn:Hf; [|done].
  injection Hv as -> _. apply find_vault_ok in Hf as [? ?].
  apply respects_bind; [apply _| |intros; apply finish_command_adds].
  eapply respects_mono; [|apply Hop]. intros h h'. apply adds_impl. eauto.
Qed.

(** A tool whose result is reported as it is. *)
Lemma tool_action_adds (P : HostCall -> Prop) name args timeout started message :
  (forall c, tool_call name args c -> P c) ->
  respects (adds P)
    (result ← run_tool name args timeout; finish_command started message result).
Proof.
  intros HP. apply respects_bind; [apply _|by apply run_tool_adds|].
  intros. apply finish_command_adds.
Qed.

Lemma exec_adds (P : HostCall -> Prop) executable args expected environment timeout started :
  P (SymlinkMetadata executable) -> P (OpenFile executable) -> P (ReadFile executable) ->
  P (Spawn (command_line executable args None environment)) ->
  respects (adds P)
    (verify_executable_security executable;;
     match expected with
     | Some expected => verify_sha256 executable expected
     | None => mret tt
     end;;
     result ← run_command executable args None environment timeout;
     finish_command started ("executed " +:+ executable) result).
Proof.
  intros Hm Ho Hr Hs.
  apply respects_bind; [apply _|by apply verify_executable_security_adds|intros _].
  apply respects_bind; [apply _| |intros _].
  { destruct expected; [by apply verify_sha256_adds|apply respects_ret, _]. }
  apply respects_bind; [apply _|by apply run_command_adds|intros; apply finish_command_adds].
Qed.

Lemma execute_action_adds context action event :
  respects (adds (permitted context event action)) (execute_action context action event).
Proof.
  unfold execute_action. destruct (ctx_dry_run context) eqn:Hdry; [apply respects_ret, _|].
  apply respects_bind; [apply _|apply respects_clock|]. intros started.
  destruct action; cbv zeta.
  - apply (with_vault_adds _ _ _ _ _ lock_call); [intros; apply lock_vault_adds|].
    intros v c ? ? ?. split; [done|]. by exists v.
  - apply (with_vault_adds _ _ _ _ _ unlock_call); [intros; apply unlock_vault_adds|].
    intros v c ? ? ?. split; [done|]. by exists v.
  - apply respects_checked. intros Hpath. apply tool_action_adds. intros c Hc. split_and!; [done| |done].
    unfold ensure_absolute, ensure in Hpath. by destruct (is_absolute path).
  - apply respects_bind; [apply _|apply run_tool_adds; intros c Hc; by split|intros result].
    apply respects_bind; [apply _|apply finish_command_adds|intros; apply respects_ret, _].
  - apply respects_checked. intros Hi. apply tool_action_adds. intros c Hc. by split_and!.
  - apply respects_checked. intros Hi. apply tool_action_adds. intros c Hc. by split_and!.
  - apply respects_guard; [apply _|]. intros Hp%bool_decide_eq_true_1.
    apply respects_bind; [apply _| |intros; apply finish_internal_adds].
    apply respects_bind; [apply _|apply respects_with_context, respects_call; [apply _|done]|].
    intros entries. by apply signal_entries_adds.
  - destruct (ctx_desktop_notifications context) eqn:Hd; [|apply finish_internal_adds].
    apply tool_action_adds. intros c Hc. by split_and!.
  - apply respects_bind; [apply _| |intros; apply finish_internal_adds].
    eapply respects_mono; [|apply capture_metadata_adds]. intros h h'. apply adds_impl.
    intros c Hc. by split.
  - apply finish_internal_adds.
  - apply respects_guard; [apply _|]. intros Hp%bool_decide_eq_true_1. by apply exec_adds.
Qed.
(** Only evidence is written to files. *)
Lemma permitted_writes context event action c :
  permitted context event action c ->
  writes_file c = false \/ exists paths destination, action = ActionSpec.CaptureEvidence paths destination.
Proof using.
  intros [_ Hc].
  destruct action as [| | | | | | | |paths destination| |]; [..|right; by exists paths, destination| |];
    left; destruct c; naive_solver.
Qed.

Lemma execute_action_file context action event h :
  exists new, (execute_action context action event h).2 = h ++ new /\ one_new_file h new.
Proof.
  assert (forall paths destination, action = ActionSpec.CaptureEvidence paths destination ->
    exists new, (execute_action context action event h).2 = h ++ new /\ one_new_file h new) as Hcap.
  { intros paths destination ->. unfold execute_action. destruct (ctx_dry_run context).
    { exists []. rewrite app_nil_r. split; [done|by apply no_file]. }
    rewrite bind_eq. cbv zeta. cbn [read_clock]. rewrite bind_eq.
    destruct (capture_metadata_file paths destination event h) as (new & Hnew & Hone).
    exists new. split; [|done].
    by destruct (capture_metadata paths destination event h) as [[output|e|] h']. }
  destruct (execute_action_adds context action event h) as (new & Hnew & Hall).
  destruct (forallb (fun c => negb (writes_file c)) new) eqn:Hw.
  - exists new. split; [done|]. apply no_file. apply Forall_forall. intros c Hc.
    rewrite forallb_forall in Hw. apply negb_true_iff, Hw. by apply list_elem_of_In.
  - apply not_true_iff_false in Hw. rewrite forallb_forall in Hw.
    destruct action; try (destruct Hw; intros c Hc%list_elem_of_In; rewrite Forall_forall in Hall;
      destruct (permitted_writes _ _ _ _ (Hall _ Hc)) as [->|(? & ? & ?)]; done).
    by eapply Hcap.
Qed.

(** C16: Every host call of an action is one of those the action stands for: the fixed
    arguments of a fixed tool of a system directory; for lock_vault the locking command of
    the adapter of the vault of that name, for unlock_vault its key lookup and unlocking
    command, with a key only on standard input; signals of the configured kind for an
    allowlisted name; metadata of the named absolute paths, the destination directory and
    the file <time>-<event id>.json in it; or the allowlisted executable. At most one file
    is created, with mode 0600, and only it is written, after it was created. With dry_run
    there is no call at all. *)
Theorem execute_confined context action event h :
  exists new, (execute_action context action event h).2 = h ++ new
    /\ Forall (permitted context event action) new
    /\ one_new_file h new
    /\ (ctx_dry_run context = true -> new = []).
Proof.
  destruct (execute_action_adds context action event h) as (new & Heq & Hnew).
  destruct (execute_action_file context action event h) as (new' & Heq' & Hone).
  assert (new' = new) as ->; [rewrite Heq in Heq'; by apply app_inv_head in Heq'|].
  exists new. split_and!; [done..|]. intros Hdry. destruct Hnew as [|c new [Hc _] _]; [done|].
  congruence.
Qed.

(** ** Approved executables *)

(** The calls a computation made. *)
Definition calls_of {A} (m : M History A) (h : History) : list HostCall := drop (length h) (m h).2.

(** A file owned by root that only root may write. *)
Definition root_controlled (m : Metadata) : Prop :=
  meta_is_file m = true /\ meta_uid m = 0 /\ Z.land (meta_mode m) 18 = 0.

Lemma call_eq {A} c (answer : History -> Result A) h :
  call c answer h = match answer h with
                    | Ok a => (Return a, h ++ [c])
                    | Err e => (Throw e, h ++ [c])
                    end.
Proof. done. Qed.

(** The check of the file: its one call, and what holds when it passes. *)
Lemma verify_executable_security_inv path h :
  exists o, verify_executable_security path h = (o, h ++ [SymlinkMetadata path])
    /\ (o = Return tt -> exists m, host_metadata h path = Ok m /\ root_controlled m)
    /\ o <> Panic.
Proof.
  unfold verify_executable_security, with_context, try_catch.
  rewrite bind_eq, call_eq. destruct (host_metadata h path) as [m|e]; simpl.
  2:{ eexists. by split_and!. }
  unfold require. rewrite !bind_eq. destruct (meta_is_file m) eqn:Hf; simpl.
  2:{ eexists. by split_and!. }
  rewrite !bind_eq. destruct (Z.eqb_spec (meta_uid m) 0) as [Hu|]; simpl.
  2:{ eexists. by split_and!. }
  destruct (Z.eqb_spec (Z.land (meta_mode m) 18) 0) as [Hm|]; simpl; eexists; split_and!; try done.
  intros _. by exists m.
Qed.

Lemma verify_sha256_inv path expected h :
  exists o new, verify_sha256 path expected h = (o, h ++ new)
    /\ (forall c, Spawn c ∉ new) /\ o <> Panic
    /\ (o = Return tt -> exists content, host_read (h ++ [OpenFile path]) path = Ok content
                          /\ eq_ignore_ascii_case (sha256_hex content) expected = true).
Proof.
  unfold verify_sha256, with_context, try_catch. rewrite bind_eq, call_eq.
  destruct (host_open h path) as [[]|e]; simpl.
  2:{ exists (Throw ("open " +:+ path)), [OpenFile path]. split_and!; try done. set_solver. }
  rewrite bind_eq, call_eq. destruct (host_read _ path) as [content|e] eqn:Hr; simpl;
    rewrite <- app_assoc.
  2:{ eexists _, ([OpenFile path] ++ [ReadFile path]). split_and!; try done. set_solver. }
  unfold require. destruct (eq_ignore_ascii_case _ _) eqn:He; simpl;
    eexists _, ([OpenFile path] ++ [ReadFile path]); (split_and!; try done; try (intros c; set_solver)).
Qed.

#[local] Opaque verify_executable_security verify_sha256 run_command.

(** C15: An exec action starts a process only if the metadata read just before shows a
    regular file owned by root that no group or others may write, and, when a digest is
    pinned, the content read then has that SHA-256 digest. *)
Theorem exec_only_verified context executable args expected environment event h command :
  Spawn command ∈
    calls_of (execute_action context
                (ActionSpec.Exec executable args expected environment) event) h ->
  (exists m, host_metadata h executable = Ok m /\ root_controlled m)
  /\ forall digest, expected = Some digest ->
       exists content,
         host_read (h ++ [SymlinkMetadata executable; OpenFile executable]) executable = Ok content
         /\ eq_ignore_ascii_case (sha256_hex content) digest = true.
Proof.
  unfold calls_of, execute_action. destruct (ctx_dry_run context); simpl.
  { rewrite drop_all. by intros ?%not_elem_of_nil. }
  rewrite bind_eq. cbn [read_clock]. rewrite guard_eq. destruct (bool_decide _).
  2:{ simpl. rewrite drop_all. by intros ?%not_elem_of_nil. }
  rewrite bind_eq.
  destruct (verify_executable_security_inv executable h) as (o & -> & Ho & Hnp).
  destruct o as [[]|e|]; [|simpl; rewrite drop_app_length; set_solver|done].
  destruct (Ho eq_refl) as (m & Hm & Hroot). rewrite bind_eq.
  destruct expected as [digest|].
  2:{ intros _. split; [by exists m|done]. }
  destruct (verify_sha256_inv executable digest (h ++ [SymlinkMetadata executable]))
    as (o & new & -> & Hns & Hnp' & Ho').
  destruct o as [[]|e|]; [| |done].
  - intros _. split; [by exists m|]. intros ? [= <-].
    destruct (Ho' eq_refl) as (content & Hc & ?). exists content. split; [|done].
    by rewrite <- app_assoc in Hc.
  - simpl. rewrite <- app_assoc, drop_app_length. intros [Hin|Hin]%elem_of_app; [set_solver|].
    by apply Hns in Hin.
Qed.
(** ** Signals *)







End confined.
