(* ===== verification/Ipc.v ===== *)
(** * The control protocol ([kovert-core/src/ipc.rs]) *)

From stdpp Require Import base tactics option list strings gmap.
From Stdlib Require Import ZArith.
From S2P Require Import Prelude RustStr Config Event Json.
Local Open Scope Z_scope.
Local Open Scope stdpp_scope.

Definition IPC_VERSION : Z := 1.

Module Request.
Inductive Request :=
| Status
| Rules
| Audit (limit : Z)
| Reload
| Trigger (name : string)
| Simulate (event : Event)
| SetMode (mode : string)
| Recovery (enabled : bool)
| VerifyAudit.
End Request.
Abbreviation Request := Request.Request.

Record RequestEnvelope := mkRequestEnvelope {
  envelope_version : Z;
  envelope_request : Request;
}.

Definition RequestEnvelope_new (request : Request) : RequestEnvelope :=
  mkRequestEnvelope IPC_VERSION request.

Record Response := mkResponse {
  response_version : Z;
  response_ok : bool;
  response_message : string;
  response_data : option Json;
}.

Definition success (message : string) (data : option Json) : Response :=
  mkResponse IPC_VERSION true message data.

Definition error (message : string) : Response := mkResponse IPC_VERSION false message None.
