(* ===== verification/ConfigLoader.v ===== *)
(** * Loading the configuration ([kovert-daemon/src/config_loader.rs]) *)

From stdpp Require Import base tactics option list strings gmap pretty.
From Stdlib Require Import ZArith Lia Ascii.
From S2P Require Import Prelude RustStr RustPath Config Event Matching Validation ValidationSpec Host.
Local Open Scope Z_scope.
Local Open Scope stdpp_scope.
Local Open Scope kovert_scope.

(** The file system as it is when the configuration is loaded. *)
Record ConfigFiles := mkConfigFiles {
  files_symlink_metadata : PathBuf -> Result Metadata;
  files_metadata : PathBuf -> Result Metadata;
  files_read : PathBuf -> Result string;
}.

(** The [toml] crate. *)
Class Toml := { from_toml : string -> Result Config }.

(** The text of a path by its components; equal as a path to any other text
    of the same components. *)
Definition component_text (c : Component) : string :=
  match c with
  | RootDir => EmptyString
  | CurDir => "."
  | ParentDir => ".."
  | Normal name => name
  end.

Definition render (cs : list Component) : PathBuf :=
  match cs with
  | [RootDir] => "/"
  | cs => String.concat "/" (map component_text cs)
  end.

(** [Path::parent]. *)
Definition path_parent (path : PathBuf) : option PathBuf :=
  match rev (components path) with
  | [] | [RootDir] => None
  | _ :: parent => Some (render (rev parent))
  end.

(** The group and world write bits, [0o022]. *)
Definition writable_by_others (m : Metadata) : bool := negb (Z.land (meta_mode m) 18 =? 0).

Definition verify_permissions (files : ConfigFiles) (path : PathBuf) : Result unit :=
  let? m := with_message (files_symlink_metadata files path)
              ("inspect configuration " +:+ path) in
  let? _ := ensure (negb (meta_is_symlink m || negb (meta_is_file m)))
              "configuration must be a regular file, not a symlink" in
  let? _ := ensure (meta_uid m =? 0) "configuration must be owned by root" in
  let? _ := ensure (negb (writable_by_others m))
              "configuration must not be writable by group or others" in
  match path_parent path with
  | None => Ok tt
  | Some parent =>
      let? pm := with_message (files_metadata files parent)
                   ("inspect configuration directory " +:+ parent) in
      ensure (negb (negb (meta_uid pm =? 0) || writable_by_others pm))
        "configuration directory must be root-owned and not group/world writable"
  end.

(** The [thiserror] messages of [ValidationError]. *)
Definition error_text (e : ValidationError) : string :=
  match e with
  | ValidationError.Version v =>
      "unsupported configuration version " +:+ pretty v +:+ "; expected 1"
  | ValidationError.Duplicate kind name => "duplicate " +:+ kind +:+ " name: " +:+ name
  | ValidationError.Rule rule message => "invalid rule " +:+ rule +:+ ": " +:+ message
  | ValidationError.Vault vault message => "invalid vault " +:+ vault +:+ ": " +:+ message
  | ValidationError.Hotkey hotkey message => "invalid hotkey " +:+ hotkey +:+ ": " +:+ message
  | ValidationError.Daemon message => "invalid daemon setting: " +:+ message
  end.

Section load.
Context `{EngineEnv} `{Regex} `{Toml}.

Definition newline : string := String "010" EmptyString.

Definition load (files : ConfigFiles) (path : PathBuf) (allow_unsafe : bool) : Result Config :=
  let? _ := if negb allow_unsafe then verify_permissions files path else Ok tt in
  let? text := with_message (files_read files path) ("read configuration " +:+ path) in
  let? config := with_message (from_toml text) ("parse configuration " +:+ path) in
  match validate_config config with
  | inl _ => Ok config
  | inr errors =>
      Err ("configuration validation failed:" +:+ newline
           +:+ String.concat newline (map (fun e => "- " +:+ error_text e) errors))
  end.

(** ** What a loaded configuration satisfies *)

(** A regular file of root's, in a directory of root's, that nobody else may
    change. *)
Definition protected (files : ConfigFiles) (path : PathBuf) : Prop :=
  (exists m, files_symlink_metadata files path = Ok m /\ meta_is_symlink m = false
             /\ meta_is_file m = true /\ meta_uid m = 0 /\ Z.land (meta_mode m) 18 = 0)
  /\ forall parent, path_parent path = Some parent ->
       exists m, files_metadata files parent = Ok m /\ meta_uid m = 0
                 /\ Z.land (meta_mode m) 18 = 0.

Lemma bind_ok {A B} (r : Result A) (k : A -> Result B) b :
  result_bind r k = Ok b -> exists a, r = Ok a /\ k a = Ok b.
Proof. destruct r as [a|]; [|done]. simpl. by exists a. Qed.

Lemma with_message_ok {A} (r : Result A) message a : with_message r message = Ok a -> r = Ok a.
Proof. by destruct r. Qed.

Lemma ensure_ok b message : ensure b message = Ok tt -> b = true.
Proof. by destruct b. Qed.

Lemma writable_false m : writable_by_others m = false -> Z.land (meta_mode m) 18 = 0.
Proof. unfold writable_by_others. by intros ?%negb_false_iff%Z.eqb_eq. Qed.

Lemma verify_permissions_ok files path : verify_permissions files path = Ok tt -> protected files path.
Proof.
  unfold verify_permissions. intros (m & Hm%with_message_ok & Hk)%bind_ok.
  apply bind_ok in Hk as ([] & Hty%ensure_ok & Hk). apply bind_ok in Hk as ([] & Hu%ensure_ok & Hk).
  apply bind_ok in Hk as ([] & Hw%ensure_ok & Hk).
  apply negb_true_iff, orb_false_iff in Hty as [? ?%negb_false_iff].
  apply negb_true_iff, writable_false in Hw. apply Z.eqb_eq in Hu. split; [by exists m|].
  intros parent Hp. rewrite Hp in Hk. apply bind_ok in Hk as (pm & Hpm%with_message_ok & Hk).
  apply ensure_ok, negb_true_iff, orb_false_iff in Hk as [?%negb_false_iff%Z.eqb_eq ?%writable_false].
  by exists pm.
Qed.

Lemma load_valid files path allow_unsafe config :
  load files path allow_unsafe = Ok config -> validate_config config = inl tt.
Proof.
  unfold load. intros (? & _ & (? & _ & (c & _ & Hk)%bind_ok)%bind_ok)%bind_ok.
  destruct (validate_config c) as [[]|] eqn:Hv; [|done]. by injection Hk as ->.
Qed.

Lemma load_protected files path config : load files path false = Ok config -> protected files path.
Proof. intros ([] & Hp & _)%bind_ok. by apply verify_permissions_ok. Qed.

(** A loaded configuration is what the file parses to and satisfies ConfigValid; unless
    unsafe configurations are allowed, the file was a regular root-owned file in a root-
    owned directory, neither writable by group or others. *)
Theorem load_sound files path allow_unsafe config :
  load files path allow_unsafe = Ok config ->
  (exists text, files_read files path = Ok text /\ from_toml text = Ok config)
  /\ ConfigValid config /\ (allow_unsafe = false -> protected files path).
Proof.
  intros Hl. pose proof (validate_config_valid _ (load_valid _ _ _ _ Hl)) as Hv. unfold load in Hl.
  apply bind_ok in Hl as ([] & Hp & Hl). apply bind_ok in Hl as (text & Ht%with_message_ok & Hl).
  apply bind_ok in Hl as (c & Hc%with_message_ok & Hl).
  assert (c = config) as -> by (destruct (validate_config c); congruence).
  split_and!; [by exists text|done|]. intros ->. by apply verify_permissions_ok.
Qed.
End load.
