(* ===== verification/HostFixtures.v ===== *)
(** * A concrete host

    A machine on which every tool is installed, every adapter succeeds, and
    one process of a managed name runs, with the theorems of the executor
    instantiated on it. *)

From stdpp Require Import base tactics option list strings gmap.
From Stdlib Require Import ZArith Lia Ascii.
From S2P Require Import Prelude RustStr RustPath Utf8 Config Event Matching Validation.
From S2P Require Import ValidationSpec Effects Host Command Vault Evidence Actions ActionsProps.
From S2P Require Import ConfigLoader Fixtures ConfigFixtures.
Local Open Scope Z_scope.
Local Open Scope stdpp_scope.

Definition root_file : Metadata := {|
  meta_is_file := true; meta_is_dir := false; meta_is_symlink := false; meta_is_socket := false;
  meta_uid := 0;
  meta_mode := 493; meta_len := 4; meta_readonly := false; meta_modified := Some 0;
|}.

Definition root_directory : Metadata := {|
  meta_is_file := false; meta_is_dir := true; meta_is_symlink := false; meta_is_socket := false;
  meta_uid := 0;
  meta_mode := 493; meta_len := 0; meta_readonly := false; meta_modified := None;
|}.

Definition hook_digest : string :=
  "5f4dcc3b5aa765d61d8327deb882cf995f4dcc3b5aa765d61d8327deb882cf99".

#[global] Instance fixture_host : Host := {|
  host_is_file := fun _ path => eqb (path_parent path) (Some "/usr/bin");
  host_spawn := fun _ _ => Ok (mkChild None (Exited true) (Ok "done") (Ok EmptyString));
  host_read_proc := fun _ => Ok [Ok "1"; Ok "self"; Ok "42"];
  host_read_comm := fun _ entry => if eqb entry "42" then Ok "gdb" else Err "no such process";
  host_kill := fun _ _ _ => Ok tt;
  host_metadata := fun _ _ => Ok root_file;
  host_open := fun _ _ => Ok tt;
  host_read := fun _ _ => Ok "hook";
  host_create_dir_all := fun _ _ => Ok tt;
  host_create_new := fun _ _ _ => Ok tt;
  host_write := fun _ _ _ => Ok tt;
  host_now := fun h => secs (Z.of_nat (length h));
  host_pid := 7;
|}.

(** Times up to the year 262142, as [chrono] has them. *)
#[global] Instance fixture_evidence : EvidenceText := {|
  utc_from_system_time := fun time =>
    if (Z.abs time <? secs 8210266876800) then Some time else None;
  evidence_stamp := fun _ => "19700101T000000.000Z";
  evidence_stamp_plain := fun _ => eq_refl;
  evidence_rfc3339 := fun _ => "1970-01-01T00:00:00+00:00";
  bundle_text := fun bundle => Ok (event_id (bundle_event bundle));
|}.

(** One content has the digest of the configuration. *)
#[global] Instance fixture_action_text : ActionText := {|
  action_debug := fun _ => "action";
  sha256_hex := fun content => if eqb content "hook" then hook_digest else EmptyString;
|}.

(** The text of the fixture's configuration is its name. *)
#[global] Instance fixture_toml : Toml := {|
  from_toml := fun text => if eqb text "fixture" then Ok fixture_config else Err "not TOML";
|}.

Definition fixture_files : ConfigFiles := {|
  files_symlink_metadata := fun _ => Ok root_file;
  files_metadata := fun _ => Ok root_directory;
  files_read := fun _ => Ok "fixture";
|}.

Lemma fixture_times_ok : modification_times_ok.
Proof. intros h path (m & time & [= <-] & [= <-] & Hu). by vm_compute in Hu. Qed.

(** ** Instances *)
Lemma run_command_result_witness :
  exists result h',
    run_command "/usr/bin/nmcli" ["networking"; "off"] None [] (secs 10) [] = (Return result, h')
    /\ result_stdout result = "done" /\ bounded_output (result_stdout result)
    /\ h' = [Spawn (command_line "/usr/bin/nmcli" ["networking"; "off"] None [])].
Proof.
  destruct (run_command "/usr/bin/nmcli" ["networking"; "off"] None [] (secs 10) [])
    as [[result|e|] h'] eqn:Hr; [|vm_compute in Hr; discriminate..].
  exists result, h'.
  destruct (run_command_result _ _ _ _ _ _ _ _ Hr) as (_ & Hh & Hb & _).
  split; [reflexivity|]. split; [|by split].
  vm_compute in Hr. by injection Hr as <- _.
Defined.

Definition exec_hook : ActionSpec :=
  ActionSpec.Exec "/usr/local/bin/hook" ["--now"] (Some hook_digest) ∅.

Definition fixture_context : ExecutionContext := {|
  ctx_dry_run := false; ctx_command_timeout := secs 10;
  ctx_allowed_executables := {[ components "/usr/local/bin/hook" ]};
  ctx_managed_processes := {[ "gdb" ]}; ctx_vaults := [documents_vault; archive_vault];
  ctx_desktop_notifications := false;
|}.

Lemma exec_only_verified_witness :
  Spawn (command_line "/usr/local/bin/hook" ["--now"] None []) ∈
    calls_of (execute_action fixture_context exec_hook (debugger_event "e0" 1)) []
  /\ exists content, eq_ignore_ascii_case (sha256_hex content) hook_digest = true.
Proof.
  assert (Spawn (command_line "/usr/local/bin/hook" ["--now"] None []) ∈
    calls_of (execute_action fixture_context exec_hook (debugger_event "e0" 1)) []) as Hin.
  { vm_compute. do 3 right. left. }
  split; [exact Hin|].
  destruct (exec_only_verified _ _ _ _ _ _ _ _ Hin) as [_ Hd].
  destruct (Hd hook_digest eq_refl) as (content & _ & ?). by exists content.
Defined.

Lemma load_sound_witness :
  load fixture_files "/etc/kovert/config.toml" false = Ok fixture_config
  /\ protected fixture_files "/etc/kovert/config.toml".
Proof.
  assert (load fixture_files "/etc/kovert/config.toml" false = Ok fixture_config) as Hl.
  { vm_compute. reflexivity. }
  split; [exact Hl|]. by apply (load_sound _ _ _ _ Hl).
Defined.

(** A file dated to the end of the 64-bit range of seconds, as [touch] can date
    one on a file system with such timestamps, stops the capture. *)
Definition dated_file : Metadata := {|
  meta_is_file := true; meta_is_dir := false; meta_is_symlink := false; meta_is_socket := false;
  meta_uid := 1000;
  meta_mode := 420; meta_len := 0; meta_readonly := false;
  meta_modified := Some (secs 9223372036854775807);
|}.

Definition dated_host : Host := {|
  host_is_file := fun _ _ => false;
  host_spawn := fun _ _ => Err "no such file";
  host_read_proc := fun _ => Ok [];
  host_read_comm := fun _ _ => Err "no such process";
  host_kill := fun _ _ _ => Ok tt;
  host_metadata := fun _ _ => Ok dated_file;
  host_open := fun _ _ => Ok tt;
  host_read := fun _ _ => Ok EmptyString;
  host_create_dir_all := fun _ _ => Ok tt;
  host_create_new := fun _ _ _ => Ok tt;
  host_write := fun _ _ _ => Ok tt;
  host_now := fun h => secs (Z.of_nat (length h));
  host_pid := 7;
|}.

Example capture_of_dated_file_panics :
  (capture_metadata (H := dated_host) ["/srv/share/note"] "/var/lib/kovert/evidence"
     (debugger_event "e0" 1) []).1 = Panic.
Proof. vm_compute. reflexivity. Qed.
