(* ===== verification/Setup.v ===== *)
(** * Preparing the state and the socket ([audit.rs], [server.rs])

    What the daemon does to the file system before it runs: [AuditStore::open]
    and the start of [server::serve]. The calls it makes are recorded, and
    each is answered by the host. *)

From stdpp Require Import base tactics option list strings gmap.
From Stdlib Require Import ZArith Lia Ascii.
From S2P Require Import Prelude RustStr RustPath Config Event Matching Validation Effects.
From S2P Require Import Json AuditBytes AuditStore Host ConfigLoader.
Local Open Scope Z_scope.
Local Open Scope stdpp_scope.

Inductive SetupCall :=
| InitTracing (json : bool)
| MakeDirs (path : PathBuf)
| Lstat (path : PathBuf)
| CreateDatabase (path : PathBuf) (mode : Z)
| OpenDatabase (path : PathBuf)
| Pragma (name value : string)
| Exists (path : PathBuf)
| SetPermissions (path : PathBuf) (mode : Z)
| CreateTables
| RemoveFile (path : PathBuf)
| Bind (path : PathBuf)
| FindGroup (name : string)
| Chown (path : PathBuf) (gid : Z).

(** The answer of [symlink_metadata], with the kind of its error. *)
Inductive Stat :=
| Found (m : Metadata)
| NotFound (error : string)
| StatFailed (error : string).

Abbreviation Calls := (list SetupCall) (only parsing).

(** The answers of the host and of SQLite; an opened database has its tables,
    empty where the file has none. *)
Class SetupHost := {
  setup_tracing : Calls -> bool -> Result unit;
  setup_make_dirs : Calls -> PathBuf -> Result unit;
  setup_lstat : Calls -> PathBuf -> Stat;
  setup_create : Calls -> PathBuf -> Z -> Result unit;
  setup_open : Calls -> PathBuf -> Result Tables;
  setup_pragma : Calls -> string -> string -> Result unit;
  setup_exists : Calls -> PathBuf -> bool;
  setup_permissions : Calls -> PathBuf -> Z -> Result unit;
  setup_tables : Calls -> Result unit;
  setup_remove : Calls -> PathBuf -> Result unit;
  setup_bind : Calls -> PathBuf -> Result unit;
  setup_group : Calls -> string -> Result (option Z);
  setup_chown : Calls -> PathBuf -> Z -> Result unit;
  setup_euid : Z;
}.

Section setup.
Context `{SetupHost}.

Definition stat (path : PathBuf) : M Calls Stat :=
  call (Lstat path) (fun h => Ok (setup_lstat h path)).

(** [symlink_metadata(path)?]. *)
Definition found (s : Stat) : Result Metadata :=
  match s with Found m => Ok m | NotFound e | StatFailed e => Err e end.

Definition make_dirs (path : PathBuf) : M Calls unit :=
  call (MakeDirs path) (fun h => setup_make_dirs h path).
Definition set_permissions (path : PathBuf) (mode : Z) : M Calls unit :=
  call (SetPermissions path mode) (fun h => setup_permissions h path mode).
Definition pragma_update (name value : string) : M Calls unit :=
  call (Pragma name value) (fun h => setup_pragma h name value).

(** ** The state database *)
Definition verify_state_path (path : PathBuf) (directory : bool) : M Calls unit :=
  m ← with_context ("inspect state path " +:+ path) (s ← stat path; lift_result (found s));
  let expected_type := if directory then meta_is_dir m
                       else meta_is_file m && negb (meta_is_symlink m) in
  require (negb (negb expected_type || meta_is_symlink m))
    ("state path has an unsafe file type: " +:+ path);;
  require (negb (negb (meta_uid m =? 0) || writable_by_others m))
    ("state path must be root-owned and not group/world writable: " +:+ path).

Definition sidecar_path (path : PathBuf) (suffix : string) : PathBuf := path +:+ suffix.

Definition harden_database_files (path : PathBuf) : M Calls unit :=
  for_each (fun candidate =>
    present ← call (Exists candidate) (fun h => Ok (setup_exists h candidate));
    if present : bool then
      with_context ("secure database file " +:+ candidate) (set_permissions candidate 384)
    else mret tt)
    [path; sidecar_path path "-wal"; sidecar_path path "-shm"].

(** The checks before the database is opened. *)
Definition prepare_state (path : PathBuf) (allow_unsafe : bool) : M Calls unit :=
  match path_parent path with
  | Some parent =>
      with_context ("create state directory " +:+ parent) (make_dirs parent);;
      if negb allow_unsafe then verify_state_path parent true else mret tt
  | None => mret tt
  end;;
  s ← stat path;
  match s with
  | Found _ => if negb allow_unsafe then verify_state_path path false else mret tt
  | NotFound _ =>
      with_context ("create state database " +:+ path)
        (call (CreateDatabase path 384) (fun h => setup_create h path 384))
  | StatFailed _ => throw ("inspect state database " +:+ path)
  end.

(** [AuditStore::open]. *)
Definition AuditStore_open (path : PathBuf) (allow_unsafe : bool) : M Calls Db :=
  prepare_state path allow_unsafe;;
  tables ← with_context ("open state database " +:+ path)
             (call (OpenDatabase path) (fun h => setup_open h path));
  pragma_update "journal_mode" "WAL";;
  pragma_update "synchronous" "FULL";;
  pragma_update "foreign_keys" "ON";;
  harden_database_files path;;
  call CreateTables setup_tables;;
  mret (mkDb tables 0).

(** ** The control socket *)
Definition prepare_socket (path : PathBuf) (allow_unsafe_dev : bool) : M Calls unit :=
  parent ← lift_result (ok_or (path_parent path) "control socket has no parent directory");
  with_context ("create socket directory " +:+ parent) (make_dirs parent);;
  (if negb allow_unsafe_dev then
     m ← with_context ("inspect socket directory " +:+ parent)
           (s ← stat parent; lift_result (found s));
     require (negb (meta_is_symlink m || negb (meta_is_dir m) || negb (meta_uid m =? 0)
                    || writable_by_others m))
       ("socket directory must be root-owned and not group/world writable: " +:+ parent)
   else mret tt);;
  s ← stat path;
  match s with
  | Found m =>
      require (meta_is_socket m) ("refusing to replace non-socket path: " +:+ path);;
      with_context "remove stale control socket"
        (call (RemoveFile path) (fun h => setup_remove h path))
  | NotFound _ | StatFailed _ => mret tt
  end.

(** [serve] up to its loop. *)
Definition open_socket (path : PathBuf) (group : string) (allow_unsafe_dev : bool)
    : M Calls unit :=
  prepare_socket path allow_unsafe_dev;;
  with_context ("bind control socket " +:+ path) (call (Bind path) (fun h => setup_bind h path));;
  if allow_unsafe_dev then set_permissions path 384
  else
    set_permissions path 432;;
    found ← with_context "resolve socket group"
              (call (FindGroup group) (fun h => setup_group h group));
    gid ← lift_result (ok_or found ("socket group does not exist: " +:+ group));
    with_context "set control socket group" (call (Chown path gid) (fun h => setup_chown h path gid)).

(** [serve] after its loop: [let _ = remove_file(socket_path)]. *)
Definition close_socket (path : PathBuf) : M Calls unit :=
  try_catch (call (RemoveFile path) (fun h => setup_remove h path)) mret (fun _ => mret tt).
End setup.
