(* ===== verification/SetupProps.v ===== *)
(** * What is checked before it is used

    A call that opens the database, binds the socket or removes a file is made
    only after the checks that protect it, whatever the host answers and
    however the setup ends. *)

From stdpp Require Import base tactics option list strings gmap.
From Stdlib Require Import ZArith Lia Ascii.
From S2P Require Import Prelude RustStr RustPath Config Event Matching Validation Effects.
From S2P Require Import Json AuditBytes AuditStore Host ConfigLoader Setup.
Local Open Scope Z_scope.
Local Open Scope stdpp_scope.

(** ** Guarded computations

    Every call is made at a history that permits it; what a computation
    returns comes with a fact about the calls made. *)
Section guarded.
Context {C : Type} (permits : list C -> C -> Prop).

Definition permitted (h h' : list C) : Prop :=
  exists new, h' = h ++ new /\
    forall before c after, new = before ++ c :: after -> permits (h ++ before) c.

#[global] Instance permitted_preorder : PreOrder permitted.
Proof.
  split.
  - intros h. exists []. split; [by rewrite app_nil_r|]. intros [] ? ? ?; done.
  - intros h1 h2 h3 (n1 & -> & H1) (n2 & -> & H2). exists (n1 ++ n2).
    split; [by rewrite app_assoc|]. intros before c after Heq.
    apply app_eq_inv in Heq as [(k & -> & Heq)|(k & -> & ->)].
    + destruct k as [|c' k].
      * simpl in Heq. subst n2. specialize (H2 [] c after eq_refl). by rewrite !app_nil_r in H2.
      * simpl in Heq. injection Heq as <- ->. by apply (H1 before c k).
    + rewrite app_assoc. by apply (H2 k c after).
Qed.

Definition guarded {A} (P : list C -> Prop) (m : M (list C) A) (Q : A -> list C -> Prop) : Prop :=
  forall h, P h -> permitted h (m h).2 /\ forall a, (m h).1 = Return a -> Q a (m h).2.

Lemma guarded_ret {A} (P : list C -> Prop) (Q : A -> list C -> Prop) a :
  (forall h, P h -> Q a h) -> guarded P (mret a) Q.
Proof. intros HQ h HP. split; [reflexivity|]. intros ? [= <-]. by apply HQ. Qed.

Lemma guarded_throw {A} P (Q : A -> list C -> Prop) e : guarded P (throw e) Q.
Proof. intros h HP. split; [reflexivity|done]. Qed.

Lemma guarded_lift {A} (P : list C -> Prop) (Q : A -> list C -> Prop) r :
  (forall a h, r = Ok a -> P h -> Q a h) -> guarded P (lift_result r) Q.
Proof. intros HQ. destruct r; [apply guarded_ret; eauto|apply guarded_throw]. Qed.

Lemma guarded_require (P : list C -> Prop) (Q : unit -> list C -> Prop) b e :
  (forall h, b = true -> P h -> Q tt h) -> guarded P (require b e) Q.
Proof. intros HQ. destruct b; [apply guarded_ret; auto|apply guarded_throw]. Qed.

Lemma guarded_bind {A B} P (Q : A -> list C -> Prop) (R : B -> list C -> Prop) m k :
  guarded P m Q -> (forall a, guarded (Q a) (k a) R) -> guarded P (m ≫= k) R.
Proof.
  intros Hm Hk h HP. destruct (Hm h HP) as [H1 H2]. rewrite bind_eq.
  destruct (m h) as [[a|e|] h']; simpl in *; [|done|done].
  destruct (Hk a h' (H2 a eq_refl)) as [H3 H4]. split; [by etrans|done].
Qed.

Lemma guarded_context {A} P (Q : A -> list C -> Prop) context m :
  guarded P m Q -> guarded P (with_context context m) Q.
Proof.
  intros Hm h HP. destruct (Hm h HP) as [H1 H2]. unfold with_context, try_catch.
  destruct (m h) as [[a|e|] h']; simpl in *; [|done|done]. split; [done|]. intros ? [= <-]. auto.
Qed.

Lemma guarded_call {A} (P : list C -> Prop) (Q : A -> list C -> Prop) c answer :
  (forall h, P h -> permits h c) ->
  (forall h a, P h -> answer h = Ok a -> Q a (h ++ [c])) -> guarded P (call c answer) Q.
Proof.
  intros Hc HQ h HP. unfold call. split.
  - assert (permitted h (h ++ [c])) as Hp; [|by destruct (answer h)].
    exists [c]. split; [done|]. intros before c2 after Heq. destruct before as [|b before]; simpl in Heq; simplify_eq.
    + rewrite app_nil_r. by apply Hc.
    + by destruct before.
  - destruct (answer h) eqn:Ha; simpl; intros a' [= <-]. by apply HQ.
Qed.

Lemma guarded_for_each {A} (P : list C -> Prop) (f : A -> M (list C) unit) l :
  (forall x, guarded P (f x) (fun _ => P)) -> guarded P (for_each f l) (fun _ => P).
Proof.
  intros Hf. induction l as [|x l IH]; simpl; [by apply guarded_ret|].
  apply (guarded_bind _ (fun _ => P)); [apply Hf|by intros ?].
Qed.

Lemma guarded_weaken {A} (P P' : list C -> Prop) (Q Q' : A -> list C -> Prop) m :
  guarded P m Q -> (forall h, P' h -> P h) -> (forall a h, Q a h -> Q' a h) -> guarded P' m Q'.
Proof. intros Hm HP HQ h Hh. destruct (Hm h (HP h Hh)) as [H1 H2]. eauto. Qed.

(** What later calls cannot undo is kept. *)
Lemma guarded_frame {A} (P S : list C -> Prop) (Q : A -> list C -> Prop) m :
  (forall h c, S h -> S (h ++ [c])) ->
  guarded P m Q -> guarded (fun h => P h /\ S h) m (fun a h => Q a h /\ S h).
Proof.
  intros HS Hm h [HP Hs]. destruct (Hm h HP) as [Hper HQ]. split; [done|]. intros a Ha.
  split; [by apply HQ|]. destruct Hper as (new & -> & _). clear -HS Hs.
  induction new as [|c new IH] using rev_ind; [by rewrite app_nil_r|].
  rewrite app_assoc. by apply HS.
Qed.
End guarded.

(** ** The checks of the setup *)
Section setup.
Context `{SetupHost}.

(** The path was looked at, and what was found there passed the test. *)
Definition checked (test : Metadata -> Prop) (path : PathBuf) (h : Calls) : Prop :=
  exists before after m, h = before ++ Lstat path :: after
    /\ setup_lstat before path = Found m /\ test m.

Definition owned_by_root (m : Metadata) : Prop :=
  meta_is_symlink m = false /\ meta_uid m = 0 /\ Z.land (meta_mode m) 18 = 0.
Definition safe_directory (m : Metadata) : Prop := meta_is_dir m = true /\ owned_by_root m.
Definition safe_file (m : Metadata) : Prop := meta_is_file m = true /\ owned_by_root m.

Definition directory_checked (path : PathBuf) (h : Calls) : Prop :=
  forall parent, path_parent path = Some parent -> checked safe_directory parent h.

Definition database_checked (path : PathBuf) (h : Calls) : Prop :=
  directory_checked path h
  /\ (checked safe_file path h \/ (CreateDatabase path 384 ∈ h)).

(** What a call needs before it. *)
Definition setup_permits (h : Calls) (c : SetupCall) : Prop :=
  match c with
  | OpenDatabase path => database_checked path h
  | RemoveFile path => checked (fun m => meta_is_socket m = true) path h
  | Bind path => directory_checked path h
  | SetPermissions path mode => mode = 384 \/ (mode = 432 /\ (Bind path ∈ h))
  | CreateDatabase _ mode => mode = 384
  | _ => True
  end.

Abbreviation setup_guarded := (guarded setup_permits).

Lemma checked_app test path h c : checked test path h -> checked test path (h ++ [c]).
Proof.
  intros (before & after & m & -> & Hm). exists before, (after ++ [c]), m.
  by rewrite <- app_assoc.
Qed.

Lemma directory_checked_app path h c : directory_checked path h -> directory_checked path (h ++ [c]).
Proof. intros Hd parent Hp. by apply checked_app, Hd. Qed.

Lemma database_checked_app path h c : database_checked path h -> database_checked path (h ++ [c]).
Proof.
  intros [Hd [Hf|Hc]]; (split; [by apply directory_checked_app|]).
  - left. by apply checked_app.
  - right. apply elem_of_app. by left.
Qed.

Definition stable (P : Calls -> Prop) : Prop := forall h c, P h -> P (h ++ [c]).

(** A call that needs nothing. *)
Lemma plain_call {A} (P : Calls -> Prop) c (answer : Calls -> Result A) :
  stable P -> (forall h, setup_permits h c) ->
  setup_guarded P (call c answer) (fun _ => P).
Proof. intros HP Hc. apply guarded_call; auto. Qed.

Lemma guarded_stat (P : Calls -> Prop) path :
  stable P ->
  setup_guarded P (stat path)
    (fun s h => P h /\ forall m (test : Metadata -> Prop), s = Found m -> test m -> checked test path h).
Proof.
  intros HP. apply guarded_call; [done|]. intros h s Hh [= <-]. split; [auto|].
  intros m test Hm Ht. by exists h, [], m.
Qed.

Lemma guarded_found (P : Calls -> Prop) path context :
  stable P ->
  setup_guarded P (with_context context (s ← stat path; lift_result (found s)))
    (fun m h => P h /\ forall test : Metadata -> Prop, test m -> checked test path h).
Proof.
  intros HP. apply guarded_context. eapply guarded_bind; [by apply guarded_stat|]. intros s.
  apply guarded_lift. intros m h Hs [Hh Ht]. split; [done|]. intros test Hm.
  destruct s; try done. injection Hs as ->. by apply Ht with m.
Qed.

Lemma guarded_verify (P : Calls -> Prop) path (directory : bool) :
  stable P ->
  setup_guarded P (verify_state_path path directory)
    (fun _ h => P h /\ checked (if directory then safe_directory else safe_file) path h).
Proof.
  intros HP. unfold verify_state_path. eapply guarded_bind; [by apply guarded_found|]. intros m.
  apply (guarded_bind _ _ (fun _ h => (P h /\ forall test : Metadata -> Prop, test m -> checked test path h)
    /\ (if directory then meta_is_dir m else meta_is_file m) = true /\ meta_is_symlink m = false)).
  - apply guarded_require. intros h Ht Hh. split; [done|].
    apply negb_true_iff, orb_false_iff in Ht as [Ht%negb_false_iff Hs].
    destruct directory; [done|]. by apply andb_true_iff in Ht as [? _].
  - intros ?. apply guarded_require. intros h Ht ((Hh & Htest) & Hd & Hs). split; [done|].
    apply Htest. apply negb_true_iff, orb_false_iff in Ht as [Hu%negb_false_iff Hw].
    apply Z.eqb_eq in Hu. apply writable_false in Hw.
    destruct directory; repeat split; done.
Qed.

Lemma guarded_prepare_state path :
  setup_guarded (fun _ => True) (prepare_state path false) (fun _ h => database_checked path h).
Proof.
  unfold prepare_state. cbn [negb].
  apply (guarded_bind _ _ (fun _ => directory_checked path)).
  - unfold directory_checked. destruct (path_parent path) as [parent|]; [|by apply guarded_ret].
    eapply guarded_bind; [apply guarded_context; by apply plain_call|]. intros ?.
    eapply guarded_weaken; [by apply (guarded_verify (fun _ => True))|done|].
    intros [] h [_ Hc] ? [= <-]. done.
  - intros ?. eapply guarded_bind; [apply guarded_stat; intros h c; apply directory_checked_app|].
    intros [m|e|e]; [| |apply guarded_throw].
    + eapply guarded_weaken;
        [apply (guarded_verify (directory_checked path)); intros h c; apply directory_checked_app| |].
      * by intros h [? _].
      * intros [] h [Hd Hc]. split; [done|by left].
    + apply guarded_context, guarded_call; [done|]. intros h [] [Hd _] _. split.
      * by apply directory_checked_app.
      * right. apply elem_of_app. right. by left.
Qed.

(** What an opened store holds is what SQLite read. *)
Definition opened (path : PathBuf) (db : Db) : Prop :=
  exists h, setup_open h path = Ok (db_tables db).

Lemma guarded_open path :
  setup_guarded (fun _ => True) (AuditStore_open path false)
    (fun db h => opened path db /\ database_checked path h).
Proof.
  assert (stable (database_checked path)) as HS by (intros h c; apply database_checked_app).
  unfold AuditStore_open. eapply guarded_bind; [apply guarded_prepare_state|]. intros ?.
  apply (guarded_bind _ _ (fun t h => opened path (mkDb t 0) /\ database_checked path h)).
  { apply guarded_context, guarded_call; [done|]. intros h t Hh Ht. split; [by exists h|by apply HS]. }
  intros tables.
  assert (stable (fun h => opened path (mkDb tables 0) /\ database_checked path h)) as HS'
    by (intros h c []; auto).
  do 3 (eapply guarded_bind; [by apply plain_call|]; intros ?).
  eapply guarded_bind.
  - apply guarded_for_each. intros candidate.
    eapply guarded_bind; [by apply plain_call|]. intros [|]; [|by apply guarded_ret].
    apply guarded_context, plain_call; [done|]. by left.
  - intros ?. eapply guarded_bind; [by apply plain_call|]. intros ?. by apply guarded_ret.
Qed.

(** ** The socket *)
Lemma guarded_prepare_socket path :
  setup_guarded (fun _ => True) (prepare_socket path false) (fun _ => directory_checked path).
Proof.
  assert (stable (directory_checked path)) as HS by (intros h c; apply directory_checked_app).
  unfold prepare_socket. cbn [negb].
  apply (guarded_bind _ _ (fun parent _ => path_parent path = Some parent));
    [apply guarded_lift; by destruct (path_parent path); intros ? ? [= ->]|]. intros parent.
  apply (guarded_bind _ _ (fun _ _ => path_parent path = Some parent));
    [apply guarded_context, plain_call; [by intros h c|done]|]. intros ?.
  apply (guarded_bind _ _ (fun _ => directory_checked path)).
  - eapply guarded_bind; [apply guarded_found; by intros h c|]. intros m. apply guarded_require.
    intros h Ht [Hp Htest] ? [= <-]%(eq_trans (eq_sym Hp)). apply Htest.
    apply negb_true_iff, orb_false_iff in Ht as [Ht Hw%writable_false].
    apply orb_false_iff in Ht as [Ht Hu%negb_false_iff%Z.eqb_eq].
    apply orb_false_iff in Ht as [Hs Hd%negb_false_iff]. by repeat split.
  - intros ?. eapply guarded_bind; [by apply guarded_stat|]. intros [m|e|e].
    + apply (guarded_bind _ _ (fun _ h => directory_checked path h
                                 /\ checked (fun m => meta_is_socket m = true) path h)).
      * apply guarded_require. intros h Hm [Hd Ht]. split; [done|]. by apply Ht with m.
      * intros ?. apply guarded_context, guarded_call; [by intros h [_ ?]|].
        intros h [] [Hd _] _. by apply HS.
    + apply guarded_ret. by intros h [? _].
    + apply guarded_ret. by intros h [? _].
Qed.

(** The socket of the path is bound, restricted to its owner and group, and
    given to the group. *)
Definition socket_shared (path : PathBuf) (group : string) (h : Calls) : Prop :=
  exists h1 h2 gid, h = h1 ++ [Bind path; SetPermissions path 432; FindGroup group] ++ h2
    /\ setup_group (h1 ++ [Bind path; SetPermissions path 432]) group = Ok (Some gid)
    /\ h2 = [Chown path gid].

Lemma guarded_open_socket path group :
  setup_guarded (fun _ => True) (open_socket path group false)
    (fun _ h => directory_checked path h /\ socket_shared path group h).
Proof.
  assert (stable (directory_checked path)) as HS by (intros h c; apply directory_checked_app).
  unfold open_socket. eapply guarded_bind; [apply guarded_prepare_socket|]. intros ?.
  apply (guarded_bind _ _ (fun _ h => directory_checked path h /\ exists h1, h = h1 ++ [Bind path])).
  { apply guarded_context, guarded_call; [done|]. intros h [] Hd _. split; [by apply HS|by exists h]. }
  intros ?. apply (guarded_bind _ _ (fun _ h => directory_checked path h
                     /\ exists h1, h = h1 ++ [Bind path; SetPermissions path 432])).
  { apply guarded_call.
    - intros h [_ [h1 ->]]. right. split; [done|]. apply elem_of_app. right. by left.
    - intros h [] [Hd [h1 ->]] _. split; [by apply HS|]. exists h1. by rewrite <- app_assoc. }
  intros ?. apply (guarded_bind _ _ (fun found h => directory_checked path h
    /\ exists h1, h = h1 ++ [Bind path; SetPermissions path 432; FindGroup group]
                  /\ setup_group (h1 ++ [Bind path; SetPermissions path 432]) group = Ok found)).
  { apply guarded_context, guarded_call; [done|]. intros h found [Hd [h1 ->]] Hg.
    split; [by apply HS|]. exists h1. by rewrite <- app_assoc. }
  intros found. apply (guarded_bind _ _ (fun gid h => directory_checked path h
    /\ exists h1, h = h1 ++ [Bind path; SetPermissions path 432; FindGroup group]
                  /\ setup_group (h1 ++ [Bind path; SetPermissions path 432]) group
                     = Ok (Some gid))).
  { apply guarded_lift. by destruct found; intros ? h [= ->]. }
  intros gid. apply guarded_context, guarded_call; [done|].
  intros h [] [Hd (h1 & -> & Hg)] _. split; [by apply HS|]. exists h1, [Chown path gid], gid.
  split_and!; [by rewrite <- app_assoc|done|done].
Qed.

End setup.

#[export] Hint Resolve checked_app directory_checked_app database_checked_app : effects.
