(* ===== verification/Order.v ===== *)
(** * Orders of the Rust standard library

    [Ord] as a class with the instances the sources use, and the iteration
    order of [BTreeSet] and [BTreeMap]. *)

From stdpp Require Import base tactics option list strings gmap sorting.
From Stdlib Require Import ZArith Ascii.
From S2P Require Import Prelude RustStr RustPath Config.
Local Open Scope Z_scope.
Local Open Scope stdpp_scope.

(** [Ord::cmp]. *)
Class RustOrd (A : Type) := cmp : A -> A -> comparison.

(** Strings by their bytes; [None] first; pairs and sequences by their first
    difference. *)
#[global] Instance string_ord : RustOrd string := String.compare.
#[global] Instance Z_ord : RustOrd Z := Z.compare.

#[global] Instance option_ord `{RustOrd A} : RustOrd (option A) := fun x y =>
  match x, y with
  | None, None => Eq
  | None, Some _ => Lt
  | Some _, None => Gt
  | Some x, Some y => cmp x y
  end.

#[global] Instance pair_ord `{RustOrd A} `{RustOrd B} : RustOrd (A * B) := fun x y =>
  match cmp x.1 y.1 with Eq => cmp x.2 y.2 | c => c end.

Fixpoint list_cmp `{RustOrd A} (l k : list A) : comparison :=
  match l, k with
  | [], [] => Eq
  | [], _ => Lt
  | _ :: _, [] => Gt
  | x :: l, y :: k => match cmp x y with Eq => list_cmp l k | c => c end
  end.
#[global] Instance list_ord `{RustOrd A} : RustOrd (list A) := list_cmp.

Definition component_rank (c : Component) : Z :=
  match c with RootDir => 0 | CurDir => 1 | ParentDir => 2 | Normal _ => 3 end.

#[global] Instance component_ord : RustOrd Component := fun a b =>
  match a, b with
  | Normal a, Normal b => cmp a b
  | _, _ => cmp (component_rank a) (component_rank b)
  end.

#[global] Instance protocol_ord : RustOrd NetworkProtocol := fun a b =>
  match a, b with
  | NetworkProtocol.Tcp, NetworkProtocol.Udp => Lt
  | NetworkProtocol.Udp, NetworkProtocol.Tcp => Gt
  | _, _ => Eq
  end.

Definition ord_le `{RustOrd A} (a b : A) : Prop := cmp a b <> Gt.

#[global] Instance ord_le_dec `{RustOrd A} : RelDecision (ord_le (A:=A)).
Proof. intros a b. unfold ord_le. destruct (cmp a b); [left|left|right]; naive_solver. Defined.

(** The iteration of a [BTreeSet], and of a [BTreeMap]: by ascending key. *)
Definition set_iter `{Countable A} `{RustOrd A} (m : gset A) : list A :=
  merge_sort ord_le (elements m).

Definition map_iter `{Countable K} `{RustOrd K} {V} (m : gmap K V) : list (K * V) :=
  merge_sort (fun a b => ord_le a.1 b.1) (map_to_list m).

Lemma elem_of_set_iter `{Countable A} `{RustOrd A} (m : gset A) x : x ∈ set_iter m <-> x ∈ m.
Proof. unfold set_iter. rewrite merge_sort_Permutation. apply elem_of_elements. Qed.

Lemma set_iter_empty `{Countable A} `{RustOrd A} : set_iter (∅ : gset A) = [].
Proof. unfold set_iter. by rewrite elements_empty. Qed.

Lemma elem_of_map_iter `{Countable K} `{RustOrd K} {V} (m : gmap K V) k v :
  (k, v) ∈ map_iter m <-> m !! k = Some v.
Proof. unfold map_iter. rewrite merge_sort_Permutation. apply elem_of_map_to_list. Qed.

Lemma NoDup_map_iter `{Countable K} `{RustOrd K} {V} (m : gmap K V) : NoDup (map_iter m).*1.
Proof. unfold map_iter. rewrite merge_sort_Permutation. apply NoDup_fst_map_to_list. Qed.
