(* ===== verification/Filesystem.v ===== *)
(** * The file watcher ([kovert-sensors/src/filesystem.rs])

    The start of the watcher thread over the paths to watch, and the callback
    that turns the notifications of the [notify] crate into events. *)

From stdpp Require Import base tactics option list strings gmap sorting.
From Stdlib Require Import ZArith Lia Ascii.
From S2P Require Import Prelude RustStr RustPath Config Event Order.
Local Open Scope Z_scope.
Local Open Scope stdpp_scope.
Local Open Scope kovert_scope.

(** ** Notifications *)

(** [notify::event::ModifyKind] and [EventKind], without the details that are
    ignored here. *)
Module ModifyKind.
Inductive ModifyKind := Any | Data | Metadata | Name | Other.
End ModifyKind.
Abbreviation ModifyKind := ModifyKind.ModifyKind.

Module NotifyKind.
Inductive NotifyKind := Any | Access | Create | Modify (kind : ModifyKind) | Remove | Other.
End NotifyKind.
Abbreviation NotifyKind := NotifyKind.NotifyKind.

Record NotifyEvent := mkNotifyEvent { notify_kind : NotifyKind; notify_paths : list PathBuf }.

Definition map_operation (kind : NotifyKind) : FileOperation :=
  match kind with
  | NotifyKind.Create => FileOperation.Create
  | NotifyKind.Remove => FileOperation.Delete
  | NotifyKind.Modify ModifyKind.Name => FileOperation.Rename
  | NotifyKind.Modify ModifyKind.Metadata => FileOperation.Metadata
  | NotifyKind.Modify _ => FileOperation.Modify
  | NotifyKind.Access => FileOperation.Access
  | _ => FileOperation.Other
  end.

(** The loop over the paths; [capacity] is the number of sends before the
    receiver is dropped, after which the loop returns. *)
Fixpoint send_paths (capacity : nat) (operation : FileOperation) (paths : list PathBuf)
    : list EventKind * nat :=
  match paths, capacity with
  | [], _ => ([], capacity)
  | _ :: _, O => ([], O)
  | path :: paths, S capacity =>
      let (sent, capacity) := send_paths capacity operation paths in
      (EventKind.File path operation :: sent, capacity)
  end.

(** The closure given to [RecommendedWatcher::new]. *)
Definition watcher_callback (capacity : nat) (result : Result NotifyEvent)
    : list EventKind * nat :=
  match result with
  | Ok event => send_paths capacity (map_operation (notify_kind event)) (notify_paths event)
  | Err error =>
      match capacity with
      | O => ([], O)
      | S capacity => ([EventKind.SensorFailure "filesystem" error], capacity)
      end
  end.

(** ** Starting *)

(** The paths in the order in which the map is consumed. *)
Definition watch_list (watches : gmap (list Component) (PathBuf * bool)) : list (PathBuf * bool) :=
  map snd (map_iter watches).

(** What the operating system and [notify] answer during a start. *)
Record WatchHost := mkWatchHost {
  watch_thread : Result unit;
  watch_new : Result unit;
  watch_path : PathBuf -> bool -> Result unit;
}.

(** The loop of the watcher thread over the paths to watch. *)
Fixpoint watch_paths (host : WatchHost) (paths : list (PathBuf * bool)) : Result unit :=
  match paths with
  | [] => Ok tt
  | (path, recursive) :: paths =>
      match watch_path host path recursive with
      | Err error => Err ("watch " +:+ path +:+ ": " +:+ error)
      | Ok _ => watch_paths host paths
      end
  end.

(** [filesystem::spawn]: the thread reports the outcome of its start. *)
Definition spawn_filesystem (host : WatchHost) (watches : gmap (list Component) (PathBuf * bool))
    : Result unit :=
  let? _ := with_message (watch_thread host) "spawn filesystem sensor" in
  let? _ := watch_new host in
  watch_paths host (watch_list watches).

(** ** What is watched and sent *)
Lemma watch_list_elem watches path recursive :
  (path, recursive) ∈ watch_list watches
  <-> exists key, watches !! key = Some (path, recursive).
Proof.
  unfold watch_list. rewrite elem_of_map. split.
  - intros ([key v] & Hv & Hin). simpl in Hv. subst v. exists key. by apply elem_of_map_iter.
  - intros (key & Hk). exists (key, (path, recursive)). split; [done|]. by apply elem_of_map_iter.
Qed.

Lemma watch_paths_ok host paths :
  watch_paths host paths = Ok tt
  <-> forall path recursive, (path, recursive) ∈ paths -> watch_path host path recursive = Ok tt.
Proof.
  induction paths as [|[p r] paths IH]; simpl.
  { split; [|done]. intros _ path recursive Hin. by inversion Hin. }
  destruct (watch_path host p r) as [[]|e] eqn:Hw.
  - rewrite IH. setoid_rewrite elem_of_cons. naive_solver.
  - split; [done|]. intros Hall. specialize (Hall p r). rewrite Hw in Hall.
    discriminate Hall. by left.
Qed.

(** The watcher starts exactly when every required path can be watched. *)
Lemma spawn_filesystem_exact host watches :
  spawn_filesystem host watches = Ok tt
  <-> watch_thread host = Ok tt /\ watch_new host = Ok tt
      /\ forall key path recursive, watches !! key = Some (path, recursive) ->
           watch_path host path recursive = Ok tt.
Proof.
  unfold spawn_filesystem. destruct (watch_thread host) as [[]|e]; simpl; [|naive_solver].
  destruct (watch_new host) as [[]|e]; simpl; [|naive_solver].
  rewrite watch_paths_ok. setoid_rewrite watch_list_elem. naive_solver.
Qed.

(** The events of a notification are one per path, in order, up to the drop of
    the receiver. *)
Lemma send_paths_prefix capacity operation paths :
  (send_paths capacity operation paths).1
  = map (fun path => EventKind.File path operation) (take capacity paths).
Proof.
  revert capacity. induction paths as [|path paths IH]; intros [|capacity]; simpl; try done.
  specialize (IH capacity). destruct (send_paths capacity operation paths). simpl in *.
  by rewrite IH.
Qed.
