(* ===== verification/Probes.v ===== *)
(** * The probes of the polling sensor ([kovert-sensors/src/polling.rs])

    What each probe reads from the kernel and the system tools, and how it is
    decoded. The machine is what it answers during one polling cycle. *)

From stdpp Require Import base tactics option list strings gmap.
From Stdlib Require Import ZArith Lia Ascii.
From S2P Require Import Prelude RustStr RustPath Utf8 Text Config Order.
Local Open Scope Z_scope.
Local Open Scope stdpp_scope.
Local Open Scope kovert_scope.

Record WifiState := mkWifiState {
  wifi_connected : bool;
  wifi_ssid : option string;
  wifi_bssid : option string;
}.

Record NetworkState := mkNetworkState {
  net_online : bool;
  net_interface : option string;
  net_vpn : bool;
}.

Record UsbDevice := mkUsbDevice {
  usb_vendor_id : option string;
  usb_product_id : option string;
  usb_serial : option string;
}.

Record SessionInfo := mkSessionInfo {
  session_state : SessionState;
  session_user : option string;
  session_remote : bool;
}.

Record PowerState := mkPowerState {
  power_on_ac : option bool;
  power_battery_percent : option Z;
  power_lid_closed : option bool;
}.

#[global] Instance WifiState_eq_dec : EqDecision WifiState.
Proof. solve_decision. Defined.
#[global] Instance NetworkState_eq_dec : EqDecision NetworkState.
Proof. solve_decision. Defined.
#[global] Instance UsbDevice_eq_dec : EqDecision UsbDevice.
Proof. solve_decision. Defined.
#[global] Instance SessionInfo_eq_dec : EqDecision SessionInfo.
Proof. solve_decision. Defined.
#[global] Instance PowerState_eq_dec : EqDecision PowerState.
Proof. solve_decision. Defined.

Definition usb_fields (d : UsbDevice) : option string * (option string * option string) :=
  (usb_vendor_id d, (usb_product_id d, usb_serial d)).

#[global] Instance UsbDevice_countable : Countable UsbDevice.
Proof.
  refine (inj_countable' usb_fields (fun '(v, (p, s)) => mkUsbDevice v p s) _). by intros [].
Defined.

(** The derived [Ord]. *)
#[global] Instance UsbDevice_ord : RustOrd UsbDevice := fun a b => cmp (usb_fields a) (usb_fields b).

(** The answers of the machine in a cycle. A directory lists names; a command
    is run with an empty environment, and answers whether it succeeded and
    what it printed. *)
Record Machine := mkMachine {
  m_is_file : PathBuf -> bool;
  m_exists : PathBuf -> bool;
  m_read_dir : PathBuf -> Result (list (Result string));
  m_read_to_string : PathBuf -> Result string;
  m_read : PathBuf -> Result string;
  m_run : PathBuf -> list string -> Result (bool * string);
}.

(** A loop over directory entries, each of which may be an error. *)
Fixpoint for_entries {A} (f : A -> string -> A) (acc : A) (entries : list (Result string))
    : Result A :=
  match entries with
  | [] => Ok acc
  | Err e :: _ => Err e
  | Ok name :: entries => for_entries f (f acc name) entries
  end.

Definition result_or (r : Result string) : string :=
  match r with Ok s => s | Err _ => EmptyString end.

Definition result_option {A} (r : Result A) : option A :=
  match r with Ok a => Some a | Err _ => None end.

Definition nonempty_value (value : string) : option string :=
  if is_empty value then None else Some value.

(** ** Decoding *)

(** The loop of [parse_nmcli_fields] from a field and the escape flag on. *)
Fixpoint nmcli_go (field : string) (escaped : bool) (line : string) : list string :=
  match line with
  | EmptyString => [if escaped then snoc field backslash else field]
  | String c line =>
      if escaped then nmcli_go (snoc field c) false line
      else if eqb c backslash then nmcli_go field true line
      else if eqb c ":"%char then field :: nmcli_go EmptyString false line
      else nmcli_go (snoc field c) false line
  end.
Definition parse_nmcli_fields (line : string) : list string := nmcli_go EmptyString false line.

Definition tab_char : ascii := "009"%char.
Definition char_text (c : ascii) : string := String c EmptyString.
Definition escape_text (digits : string) : string := String backslash digits.

Definition unescape_mount (value : string) : string :=
  replace (escape_text "134") (char_text backslash)
    (replace (escape_text "012") (char_text newline_char)
       (replace (escape_text "011") (char_text tab_char)
          (replace (escape_text "040") (char_text space) value))).

(** A line of [mountinfo]: the mount point and its source. *)
Definition mount_of_line (line : string) : option (PathBuf * option string) :=
  match split_once " - " line with
  | None => None
  | Some (prefix, suffix) =>
      let fields := split_whitespace prefix in
      let suffix_fields := split_whitespace suffix in
      if (length fields <? 5)%nat then None
      else match fields !! 4%nat with
           | None => None
           | Some path => Some (unescape_mount path, unescape_mount <$> suffix_fields !! 1%nat)
           end
  end.

(** A line of a socket table: the local port, and whether the socket counts as
    open for the protocol. *)
Definition port_of_line (protocol : NetworkProtocol) (line : string) : option (Z * bool) :=
  let fields := split_whitespace line in
  match fields !! 1%nat with
  | None => None
  | Some address =>
      match rsplit_once ":" address with
      | None => None
      | Some (_, port) =>
          match u16_from_hex port with
          | None => None
          | Some port =>
              Some (port, eqb protocol NetworkProtocol.Udp || eqb (fields !! 3%nat) (Some "0A"))
          end
      end
  end.

Section probes.
Context (m : Machine).

Fixpoint find_sensor_tool (name : string) (directories : list PathBuf) : Result PathBuf :=
  match directories with
  | [] => Err ("required sensor tool is unavailable: " +:+ name)
  | directory :: directories =>
      let candidate := path_join directory name in
      if m_is_file m candidate then Ok candidate else find_sensor_tool name directories
  end.

(** [resolve_tool] of [polling.rs]. *)
Definition resolve_sensor_tool (name : string) : Result PathBuf :=
  find_sensor_tool name ["/usr/bin"; "/usr/sbin"; "/bin"; "/sbin"].

Definition read_trimmed (path : PathBuf) : option string :=
  match m_read_to_string m path with
  | Err _ => None
  | Ok value => nonempty_value (trim value)
  end.

(** The first active network of the listing. *)
Fixpoint active_wifi (ls : list string) : WifiState :=
  match ls with
  | [] => mkWifiState false None None
  | line :: ls =>
      let fields := parse_nmcli_fields line in
      if negb (eqb (head fields) (Some "yes")) then active_wifi ls
      else mkWifiState true (fields !! 1%nat ≫= nonempty_value) (fields !! 2%nat ≫= nonempty_value)
  end.

Definition probe_wifi : Result WifiState :=
  let? nmcli := resolve_sensor_tool "nmcli" in
  let? output := with_message
                   (m_run m nmcli ["-t"; "-f"; "ACTIVE,SSID,BSSID"; "device"; "wifi"]) "run nmcli" in
  let? _ := ensure output.1 "nmcli failed" in
  Ok (active_wifi (lines (from_utf8_lossy output.2))).

Definition network_entry (acc : NetworkState) (entry : string) : NetworkState :=
  let name := from_utf8_lossy entry in
  if eqb name "lo" then acc else
  let state := result_or (m_read_to_string m
                 (path_join (path_join "/sys/class/net" entry) "operstate")) in
  if eqb (trim state) "up" then
    mkNetworkState true
      (match net_interface acc with None => Some name | Some i => Some i end)
      (net_vpn acc
       || (starts_with name "tun" || starts_with name "tap" || starts_with name "wg"
           || starts_with name "vpn"))
  else acc.

Definition probe_network : Result NetworkState :=
  let? entries := with_message (m_read_dir m "/sys/class/net") "read network interfaces" in
  for_entries network_entry (mkNetworkState false None false) entries.

Definition usb_entry (devices : gset UsbDevice) (entry : string) : gset UsbDevice :=
  let path := path_join "/sys/bus/usb/devices" entry in
  let vendor := read_trimmed (path_join path "idVendor") in
  let product := read_trimmed (path_join path "idProduct") in
  match vendor, product with
  | None, None => devices
  | _, _ => {[mkUsbDevice vendor product (read_trimmed (path_join path "serial"))]} ∪ devices
  end.

Definition probe_usb : Result (gset UsbDevice) :=
  let? entries := with_message (m_read_dir m "/sys/bus/usb/devices") "read USB devices" in
  for_entries usb_entry ∅ entries.

(** A [BTreeMap<PathBuf, Option<String>>]: an insertion on an equal path keeps
    the stored key. *)
Definition mount_insert (path : PathBuf) (source : option string)
    (mounts : gmap (list Component) (PathBuf * option string))
    : gmap (list Component) (PathBuf * option string) :=
  <[components path := (default path (fst <$> mounts !! components path), source)]> mounts.

Definition add_mount (mounts : gmap (list Component) (PathBuf * option string)) (line : string)
    : gmap (list Component) (PathBuf * option string) :=
  match mount_of_line line with
  | None => mounts
  | Some (path, source) => mount_insert path source mounts
  end.

Definition probe_mounts : Result (gmap (list Component) (PathBuf * option string)) :=
  let? text := with_message (m_read_to_string m "/proc/self/mountinfo") "read mountinfo" in
  Ok (foldl add_mount ∅ (lines text)).

Definition process_entry (result : gmap string bool) (entry : string) : gmap string bool :=
  match parse_u32 (from_utf8_lossy entry) with
  | None => result
  | Some _ =>
      let name := result_or (m_read_to_string m (path_join (path_join "/proc" entry) "comm")) in
      match result !! trim name with
      | Some _ => <[trim name := true]> result
      | None => result
      end
  end.

Definition probe_processes (names : gset string) : Result (gmap string bool) :=
  let? entries := with_message (m_read_dir m "/proc") "read /proc" in
  for_entries process_entry (gset_to_gmap false names) entries.

Fixpoint query_services (systemctl : PathBuf) (names : list string) (result : gmap string bool)
    : Result (gmap string bool) :=
  match names with
  | [] => Ok result
  | name :: names =>
      let? output := with_message (m_run m systemctl ["is-active"; "--quiet"; name])
                       ("query service " +:+ name) in
      query_services systemctl names (<[name := output.1]> result)
  end.

Definition probe_services (names : gset string) : Result (gmap string bool) :=
  let? systemctl := resolve_sensor_tool "systemctl" in
  query_services systemctl (set_iter names) ∅.

Definition add_port (required : gset (NetworkProtocol * Z)) (protocol : NetworkProtocol)
    (open : gset (NetworkProtocol * Z)) (line : string) : gset (NetworkProtocol * Z) :=
  match port_of_line protocol line with
  | None => open
  | Some (port, listening) =>
      if listening && bool_decide ((protocol, port) ∈ required)
      then {[(protocol, port)]} ∪ open else open
  end.

Definition socket_tables : list (PathBuf * NetworkProtocol) :=
  [("/proc/net/tcp", NetworkProtocol.Tcp); ("/proc/net/tcp6", NetworkProtocol.Tcp);
   ("/proc/net/udp", NetworkProtocol.Udp); ("/proc/net/udp6", NetworkProtocol.Udp)].

Definition add_table (required : gset (NetworkProtocol * Z)) (open : gset (NetworkProtocol * Z))
    (table : PathBuf * NetworkProtocol) : gset (NetworkProtocol * Z) :=
  match m_read_to_string m table.1 with
  | Err _ => open
  | Ok text => foldl (add_port required table.2) open (drop 1 (lines text))
  end.

Definition probe_ports (required : gset (NetworkProtocol * Z))
    : Result (gset (NetworkProtocol * Z)) :=
  Ok (foldl (add_table required) ∅ socket_tables).

Definition probe_session : Result SessionInfo :=
  let? loginctl := resolve_sensor_tool "loginctl" in
  let? output := with_message (m_run m loginctl ["list-sessions"; "--no-legend"])
                   "list login sessions" in
  let? _ := ensure output.1 "loginctl list-sessions failed" in
  match lines (from_utf8_lossy output.2) with
  | [] => Ok (mkSessionInfo SessionState.LoggedOut None false)
  | line :: _ =>
      let fields := split_whitespace line in
      let? session_id := ok_or (head fields) "invalid loginctl output" in
      let user := fields !! 2%nat in
      let? properties := with_message
                           (m_run m loginctl ["show-session"; session_id; "--property=LockedHint";
                                              "--property=Remote"; "--value"])
                           "query login session" in
      let? _ := ensure properties.1 "loginctl show-session failed" in
      let values := lines (from_utf8_lossy properties.2) in
      let locked := is_some_and (head values) (eqb "yes") in
      let remote := is_some_and (values !! 1%nat) (eqb "yes") in
      Ok (mkSessionInfo (if locked then SessionState.Locked else SessionState.Unlocked) user remote)
  end.

(** The loop over the supplies: whether one is online, and the first battery
    with a readable charge. *)
Definition power_entry (acc : option bool * option Z) (entry : string) : option bool * option Z :=
  let '(on_ac, battery_percent) := acc in
  let path := path_join "/sys/class/power_supply" entry in
  let kind := default EmptyString (read_trimmed (path_join path "type")) in
  if list_contains ["Mains"; "USB"; "USB_C"] kind then
    match read_trimmed (path_join path "online") ≫= parse_u8 with
    | Some value => (Some (default false on_ac || (value =? 1)), battery_percent)
    | None => acc
    end
  else if eqb kind "Battery" then
    match battery_percent with
    | None => (on_ac, read_trimmed (path_join path "capacity") ≫= parse_u8)
    | Some _ => acc
    end
  else acc.

Definition lid_closed_now : option bool :=
  entries ← result_option (m_read_dir m "/proc/acpi/button/lid");
  entry ← head entries;
  name ← result_option entry;
  value ← read_trimmed (path_join (path_join "/proc/acpi/button/lid" name) "state");
  Some (contains_str (to_ascii_lowercase value) "closed").

Definition probe_power : Result PowerState :=
  let? supplies :=
    if m_exists m "/sys/class/power_supply" then
      let? entries := with_message (m_read_dir m "/sys/class/power_supply") "read power supplies" in
      for_entries power_entry (None, None) entries
    else Ok (None, None) in
  Ok (mkPowerState supplies.1 supplies.2 lid_closed_now).
End probes.
