(* ===== verification/ProbesProps.v ===== *)
(** * The decoders of the polling sensor

    The decoders are inverse to the encoders of the tools and of the kernel,
    which are written out here as reference functions. *)

From stdpp Require Import base tactics option list strings gmap pretty.
From Stdlib Require Import ZArith Lia Ascii.
From S2P Require Import Prelude RustStr RustPath Utf8 Text Config Order Probes.
Local Open Scope Z_scope.
Local Open Scope stdpp_scope.

(** ** [nmcli -t] *)

(** Terse output: fields separated by colons, a colon or backslash in a field
    preceded by a backslash. *)
Fixpoint nmcli_escape (field : string) : string :=
  match field with
  | EmptyString => EmptyString
  | String c field =>
      if eqb c backslash || eqb c ":"%char then String backslash (String c (nmcli_escape field))
      else String c (nmcli_escape field)
  end.

Definition nmcli_line (fields : list string) : string := String.concat ":" (map nmcli_escape fields).

Lemma nmcli_go_field field s rest :
  nmcli_go field false (nmcli_escape s +:+ rest) = nmcli_go (field +:+ s) false rest.
Proof.
  revert field. induction s as [|c s IH]; intros field; [by rewrite append_empty_r|].
  simpl. destruct (eqb c backslash) eqn:Hb; simpl; [by rewrite IH, snoc_append|].
  destruct (eqb c ":"%char) eqn:Hc; simpl; rewrite ?Hb, ?Hc, IH; by rewrite snoc_append.
Qed.

Lemma nmcli_line_cons f fields :
  nmcli_line (f :: fields)
  = match fields with
    | [] => nmcli_escape f
    | _ => nmcli_escape f +:+ String ":" (nmcli_line fields)
    end.
Proof. by destruct fields. Qed.

(** Fields written with nmcli's escapes are read back as they were. *)
Theorem nmcli_fields_roundtrip field fields :
  parse_nmcli_fields (nmcli_line (field :: fields)) = field :: fields.
Proof.
  unfold parse_nmcli_fields. revert field. induction fields as [|g fields IH]; intros f;
    rewrite nmcli_line_cons.
  - rewrite <- (append_empty_r (nmcli_escape f)), nmcli_go_field. reflexivity.
  - rewrite nmcli_go_field. simpl. by rewrite IH.
Qed.

(** ** [mountinfo] *)

(** The escapes of the kernel in a mount point ([seq_path], with blank, tab,
    line feed and backslash). *)
Definition mangle_char (c : ascii) : string :=
  if eqb c space then escape_text "040"
  else if eqb c tab_char then escape_text "011"
  else if eqb c newline_char then escape_text "012"
  else if eqb c backslash then escape_text "134"
  else char_text c.

(** An encoding character by character. *)
Fixpoint encode (f : ascii -> string) (s : string) : string :=
  match s with
  | EmptyString => EmptyString
  | String c s => f c +:+ encode f s
  end.

Definition mangle (s : string) : string := encode mangle_char s.

(** A replacement that undoes the encoding of one character. *)
Lemma replace_encode pattern to (f g : ascii -> string) s :
  (forall c rest, replace pattern to (f c +:+ rest) = g c +:+ replace pattern to rest) ->
  replace pattern to (encode f s) = encode g s.
Proof.
  intros Hfg. induction s as [|c s IH]; [done|]. simpl. by rewrite Hfg, IH.
Qed.

(** In a source the kernel escapes the hash as well ([mangle]), unless the file
    system writes its own ([show_devname]). *)
Definition hash : ascii := "#"%char.
Definition hash_text (escaped : bool) (c : ascii) : string :=
  if escaped && eqb c hash then escape_text "043" else char_text c.
Definition source_char (escaped : bool) (c : ascii) : string :=
  if escaped && eqb c hash then escape_text "043" else mangle_char c.
Definition mangle_source (escaped : bool) (s : string) : string := encode (source_char escaped) s.

(** What remains encoded after the first replacements. *)
Definition mangle_after (escaped : bool) (done : list ascii) (c : ascii) : string :=
  if list_contains done c then char_text c else source_char escaped c.

Lemma inert_plain digits to c : c <> backslash -> inert (escape_text digits) to (char_text c).
Proof.
  intros Hc. apply inert_cons; [|apply inert_empty]. intros rest. simpl.
  unfold eqb. by rewrite bool_decide_eq_false_2 by congruence.
Qed.

Ltac decode_stage :=
  apply replace_encode; intros c rest; unfold mangle_after, source_char, mangle_char;
  destruct (decide (c = space)) as [->|?]; [rewrite andb_false_r; reflexivity|];
  destruct (decide (c = tab_char)) as [->|?]; [rewrite andb_false_r; reflexivity|];
  destruct (decide (c = newline_char)) as [->|?]; [rewrite andb_false_r; reflexivity|];
  destruct (decide (c = backslash)) as [->|?]; [rewrite andb_false_r; reflexivity|];
  unfold list_contains, eqb; simpl; rewrite !(bool_decide_eq_false_2 (c = space)),
    !(bool_decide_eq_false_2 (c = tab_char)), !(bool_decide_eq_false_2 (c = newline_char)),
    !(bool_decide_eq_false_2 (c = backslash)) by done;
  case_bool_decide; simpl;
  match goal with
  | |- context [?b && true] => destruct b; [reflexivity|subst c; by apply inert_plain]
  | |- _ => rewrite ?andb_false_r; by apply inert_plain
  end.

Lemma unescape_stages escaped s :
  replace (escape_text "040") (char_text space) (encode (mangle_after escaped []) s)
    = encode (mangle_after escaped [space]) s
  /\ replace (escape_text "011") (char_text tab_char) (encode (mangle_after escaped [space]) s)
    = encode (mangle_after escaped [tab_char; space]) s
  /\ replace (escape_text "012") (char_text newline_char)
       (encode (mangle_after escaped [tab_char; space]) s)
    = encode (mangle_after escaped [newline_char; tab_char; space]) s
  /\ replace (escape_text "134") (char_text backslash)
       (encode (mangle_after escaped [newline_char; tab_char; space]) s)
    = encode (mangle_after escaped [backslash; newline_char; tab_char; space]) s.
Proof. split_and!; decode_stage. Qed.

Lemma encode_ext f g s : (forall c, f c = g c) -> encode f s = encode g s.
Proof. intros Hfg. induction s as [|c s IH]; [done|]. simpl. by rewrite Hfg, IH. Qed.

Lemma encode_id s : encode char_text s = s.
Proof. induction s as [|c s IH]; [done|]. simpl. by rewrite IH. Qed.

(** All escapes are undone but that of the hash. *)
Lemma unescape_source escaped s :
  unescape_mount (mangle_source escaped s) = encode (hash_text escaped) s.
Proof.
  unfold unescape_mount, mangle_source. destruct (unescape_stages escaped s) as (H1 & H2 & H3 & H4).
  rewrite (encode_ext (source_char escaped) (mangle_after escaped [])) by done.
  rewrite H1, H2, H3, H4. apply encode_ext.
  intros c. unfold mangle_after, hash_text. destruct (list_contains _ c) eqn:Hc.
  - apply list_contains_true in Hc. rewrite !elem_of_cons, elem_of_nil in Hc.
    destruct_or! Hc; subst; by rewrite ?andb_false_r.
  - unfold list_contains in Hc. simpl in Hc. rewrite !orb_false_iff in Hc.
    destruct Hc as (Hb & Hn & Ht & Hs & _). unfold source_char, mangle_char.
    unfold eqb in *. rewrite bool_decide_eq_false in Hb, Hn, Ht, Hs.
    by rewrite !(bool_decide_eq_false_2 (c = space)), !(bool_decide_eq_false_2 (c = tab_char)),
      !(bool_decide_eq_false_2 (c = newline_char)), !(bool_decide_eq_false_2 (c = backslash))
      by congruence.
Qed.

Lemma unescape_mangle s : unescape_mount (mangle s) = s.
Proof.
  change (mangle s) with (mangle_source false s). rewrite unescape_source. apply encode_id.
Qed.

(** An entry of the mount table. *)
Record MountEntry := mkMountEntry {
  entry_ids : string * string * string * string;
  entry_point : PathBuf;
  entry_options : list string;
  entry_type : string;
  entry_source : string;
  entry_escapes_hash : bool;
  entry_super : string;
}.

Definition entry_words (e : MountEntry) : list string :=
  let '(id, parent, device, root) := entry_ids e in
  id :: parent :: device :: root :: mangle (entry_point e) :: entry_options e.

Definition entry_mangled (e : MountEntry) : string :=
  mangle_source (entry_escapes_hash e) (entry_source e).

Definition entry_suffix (e : MountEntry) : list string :=
  [entry_type e; entry_mangled e; entry_super e].

(** Its line: the fields, a lone dash, and the fields of the file system. *)
Definition mount_line (e : MountEntry) : string :=
  unwords (entry_words e) +:+ (" - " +:+ unwords (entry_suffix e)).

(** The fields are words: in a mount point or source this excludes the white
    space that the kernel does not escape. A source may be empty. *)
Definition entry_ok (e : MountEntry) : Prop :=
  Forall word_ok (entry_words e) /\ ("-" ∉ entry_words e)
  /\ word_ok (entry_type e) /\ no_space (entry_mangled e) = true /\ word_ok (entry_super e).

(** The source as the probe reports it: a hash stays escaped, and in place of
    an empty source the options of the file system are read. *)
Definition reported_source (e : MountEntry) : string :=
  match entry_source e with
  | EmptyString => unescape_mount (entry_super e)
  | source => encode (hash_text (entry_escapes_hash e)) source
  end.

(** A source that is reported as it is. *)
Definition plain_source (e : MountEntry) : Prop :=
  entry_source e <> EmptyString
  /\ (entry_escapes_hash e = false \/ contains_char hash (entry_source e) = false).

Lemma reported_plain e : plain_source e -> reported_source e = entry_source e.
Proof.
  unfold plain_source, reported_source. destruct (entry_source e) as [|c s]; [by intros []|].
  intros [_ Hh]. rewrite <- encode_id. generalize (String c s) as t, Hh. clear.
  induction t as [|c t IH]; intros Hh; [done|]. cbn [encode]. rewrite IH.
  - f_equal. unfold hash_text. destruct Hh as [->|Hh]; [done|]. cbn [contains_char] in Hh.
    apply orb_false_iff in Hh as [Hc _].
    assert (eqb c hash = false) as -> by (unfold eqb in *;
      apply bool_decide_eq_false; apply bool_decide_eq_false in Hc; congruence).
    by rewrite andb_false_r.
  - destruct Hh as [?|Hh]; [by left|right]. cbn [contains_char] in Hh.
    by apply orb_false_iff in Hh as [_ ?].
Qed.

(** The fields of the file system: a type, the source if any, the options. *)
Lemma suffix_line e :
  unwords (entry_suffix e)
  = padded_line 0 (entry_type e)
      (match entry_source e with
       | EmptyString => [(1%nat, entry_super e)]
       | _ => [(0%nat, entry_mangled e); (0%nat, entry_super e)]
       end) 0.
Proof.
  unfold entry_suffix, padded_line, entry_mangled, mangle_source.
  destruct (entry_source e) as [|c s]; cbn [columns spaces]; rewrite !append_empty_r; reflexivity.
Qed.

Lemma encode_nonempty f c s : f c <> EmptyString -> encode f (String c s) <> EmptyString.
Proof. cbn [encode]. by destruct (f c). Qed.

Lemma source_char_nonempty escaped c : source_char escaped c <> EmptyString.
Proof. unfold source_char, mangle_char. repeat case_match; discriminate. Qed.

(** The columns after the type are words. *)
Lemma suffix_words e :
  entry_ok e ->
  Forall word_ok (map snd (match entry_source e with
                           | EmptyString => [(1%nat, entry_super e)]
                           | _ => [(0%nat, entry_mangled e); (0%nat, entry_super e)]
                           end)).
Proof.
  intros (_ & _ & _ & Hm & Hs). destruct (entry_source e) as [|c s] eqn:Hsrc.
  { by constructor; [|constructor]. }
  constructor; [|by constructor; [|constructor]]. split; [done|]. unfold entry_mangled.
  rewrite Hsrc. apply encode_nonempty, source_char_nonempty.
Qed.

Lemma mount_of_mount_line e :
  entry_ok e -> mount_of_line (mount_line e) = Some (entry_point e, Some (reported_source e)).
Proof.
  intros Hok. pose proof (suffix_words e Hok) as Hs. destruct Hok as (Hw & Hd & Ht & _).
  unfold mount_of_line, mount_line.
  assert (entry_words e <> []) as Hne
    by (unfold entry_words; by destruct (entry_ids e) as [[[]]]).
  rewrite split_dash, split_unwords, suffix_line, split_padded_line by done.
  unfold entry_words, reported_source, entry_mangled. destruct (entry_ids e) as [[[]]]. simpl.
  rewrite unescape_mangle. destruct (entry_source e); [done|]. simpl map.
  cbn [lookup list_lookup fmap option_fmap option_map]. by rewrite unescape_source.
Qed.

Lemma unwords_no_newline ws : Forall word_ok ws -> no_newline (unwords ws).
Proof.
  unfold no_newline. induction 1 as [|w ws [Hw _] Hws IH]; [done|]. rewrite unwords_cons.
  pose proof (no_space_char newline_char w eq_refl Hw) as Hc. destruct ws; [done|].
  rewrite contains_char_app, Hc. exact IH.
Qed.

Lemma mount_line_line e :
  entry_ok e -> no_newline (mount_line e) /\ strip_return (mount_line e) = mount_line e.
Proof.
  intros Hok. pose proof (suffix_words e Hok) as Hs. destruct Hok as (Hw & _ & Ht & _).
  unfold mount_line. rewrite suffix_line.
  destruct (padded_line_line 0 _ _ 0 Ht Hs) as [Hn Hr]. split.
  - unfold no_newline. rewrite !contains_char_app, (unwords_no_newline _ Hw), Hn. done.
  - destruct Ht as [_ Hne]. rewrite !strip_return_app.
    + by rewrite Hr.
    + by destruct (entry_type e).
    + discriminate.
Qed.

(** The mount points and the reported sources, the last entry of a path counting. *)
Definition mount_table (entries : list MountEntry)
    : gmap (list Component) (PathBuf * option string) :=
  foldl (fun mounts e => mount_insert (entry_point e) (Some (reported_source e)) mounts) ∅ entries.

Lemma mount_table_points entries key :
  is_Some (mount_table entries !! key) <-> exists e, e ∈ entries /\ components (entry_point e) = key.
Proof.
  unfold mount_table. induction entries as [|e entries IH] using rev_ind.
  { cbn. rewrite lookup_empty. split; [by intros []|]. by intros (e & He%elem_of_nil & _). }
  rewrite foldl_snoc. setoid_rewrite elem_of_app. setoid_rewrite list_elem_of_singleton.
  unfold mount_insert at 1. destruct (decide (components (entry_point e) = key)) as [<-|Hne].
  - rewrite lookup_insert_eq. split; [intros _; eauto|by eexists].
  - rewrite lookup_insert_ne by done. rewrite IH. naive_solver.
Qed.

(** C25: From a mount table written as the kernel writes it, with its escapes, the probe
    recovers exactly the mount points; with each, the source of the last entry on it, where
    a non-empty source is recovered as it is except that an escaped hash sign stays escaped,
    and an empty source is read as the file system's options. No field may contain white
    space that the kernel leaves unescaped. *)
Theorem probe_mounts_roundtrip m entries :
  m_read_to_string m "/proc/self/mountinfo" = Ok (unlines (map mount_line entries)) ->
  Forall entry_ok entries ->
  probe_mounts m = Ok (mount_table entries)
  /\ (forall key, is_Some (mount_table entries !! key)
        <-> exists e, e ∈ entries /\ components (entry_point e) = key)
  /\ forall e, e ∈ entries -> plain_source e -> reported_source e = entry_source e.
Proof.
  intros Hread Hok. split_and!; [|apply mount_table_points|intros e _; apply reported_plain].
  unfold probe_mounts. rewrite Hread. simpl. f_equal. rewrite lines_unlines.
  2:{ apply Forall_map. eapply Forall_impl; [exact Hok|]. intros e. apply mount_line_line. }
  clear Hread. unfold mount_table. generalize (∅ : gmap (list Component) (PathBuf * option string)).
  induction Hok as [|e entries He Hok IH]; intros mounts; [done|]. simpl.
  unfold add_mount at 2. rewrite mount_of_mount_line by done. apply IH.
Qed.

(** ** Socket tables *)
Definition hex_digit (d : Z) : ascii :=
  ascii_of_N (Z.to_N (if d <? 10 then 48 + d else 55 + d)).

(** [%04X]. *)
Definition hex4 (p : Z) : string :=
  String (hex_digit (p / 4096)) (String (hex_digit ((p / 256) `mod` 16))
    (String (hex_digit ((p / 16) `mod` 16)) (String (hex_digit (p `mod` 16)) EmptyString))).

Lemma hex_digit_cases (P : Z -> Prop) d :
  0 <= d < 16 -> Forall P [0;1;2;3;4;5;6;7;8;9;10;11;12;13;14;15] -> P d.
Proof.
  intros Hd Hall. rewrite Forall_forall in Hall. apply Hall.
  assert (d = 0 \/ d = 1 \/ d = 2 \/ d = 3 \/ d = 4 \/ d = 5 \/ d = 6 \/ d = 7 \/ d = 8 \/ d = 9
          \/ d = 10 \/ d = 11 \/ d = 12 \/ d = 13 \/ d = 14 \/ d = 15) as Hc by lia.
  rewrite !elem_of_cons. naive_solver.
Qed.

Lemma hex_value_digit d : 0 <= d < 16 -> hex_value (hex_digit d) = Some d.
Proof. intros Hd. apply (hex_digit_cases (fun d => hex_value (hex_digit d) = Some d) d Hd). repeat constructor. Qed.

Lemma hex_digit_plain d : 0 <= d < 16 ->
  hex_digit d <> "+"%char /\ hex_digit d <> ":"%char /\ (forall s, ws_len (String (hex_digit d) s) = 0%nat).
Proof.
  intros Hd. apply (hex_digit_cases
    (fun d => hex_digit d <> "+"%char /\ hex_digit d <> ":"%char
              /\ (forall s, ws_len (String (hex_digit d) s) = 0%nat)) d Hd).
  repeat constructor; try discriminate; intros [|? [|? ?]]; reflexivity.
Qed.

Lemma hex4_digits p :
  0 <= p < 65536 ->
  0 <= p / 4096 < 16 /\ 0 <= (p / 256) `mod` 16 < 16 /\ 0 <= (p / 16) `mod` 16 < 16
  /\ 0 <= p `mod` 16 < 16
  /\ 16 * (16 * (16 * (16 * 0 + p / 4096) + (p / 256) `mod` 16) + (p / 16) `mod` 16) + p `mod` 16 = p.
Proof.
  intros Hp.
  assert (p / 256 = p / 16 / 16) as -> by (by rewrite Z.div_div).
  assert (p / 4096 = p / 16 / 16 / 16) as -> by (by rewrite !Z.div_div).
  pose proof (Z.div_mod p 16 ltac:(lia)). pose proof (Z.div_mod (p / 16) 16 ltac:(lia)).
  pose proof (Z.div_mod (p / 16 / 16) 16 ltac:(lia)).
  pose proof (Z.mod_pos_bound p 16 ltac:(lia)). pose proof (Z.mod_pos_bound (p / 16) 16 ltac:(lia)).
  pose proof (Z.mod_pos_bound (p / 16 / 16) 16 ltac:(lia)).
  split_and!; lia.
Qed.

Lemma u16_from_hex4 p : 0 <= p < 65536 -> u16_from_hex (hex4 p) = Some p.
Proof.
  intros Hp. destruct (hex4_digits p Hp) as (Ha & Hb & Hc & Hd & Hsum).
  unfold u16_from_hex, hex4. destruct (hex_digit_plain _ Ha) as [Hplus _].
  unfold without_plus, eqb. rewrite bool_decide_eq_false_2 by done.
  cbn [is_empty parse_hex]. rewrite !hex_value_digit by done.
  rewrite Hsum. by rewrite (proj2 (Z.leb_le p 65535)) by lia.
Qed.

(** A row of a socket table: its number after the indentation ([%4d:] for TCP,
    [%5d:] for UDP), the local address and port, the remote address, the state,
    further columns, each with the spaces beyond the first before it, and the
    padding up to the width of the table (TCP and UDP of IPv4 have one). *)
Record SocketEntry := mkSocketEntry {
  socket_indent : nat;
  socket_number : string;
  socket_address : string;
  socket_port : Z;
  socket_remote : string;
  socket_state : string;
  socket_rest : list (nat * string);
  socket_padding : nat;
}.

Definition socket_columns (e : SocketEntry) : list (nat * string) :=
  (0%nat, socket_address e +:+ String ":" (hex4 (socket_port e)))
  :: (0%nat, socket_remote e) :: (0%nat, socket_state e) :: socket_rest e.

Definition socket_line (e : SocketEntry) : string :=
  padded_line (socket_indent e) (socket_number e) (socket_columns e) (socket_padding e).

Definition socket_ok (e : SocketEntry) : Prop :=
  word_ok (socket_number e) /\ Forall word_ok (map snd (socket_columns e))
  /\ 0 <= socket_port e < 65536.

(** A listening socket: any of UDP, those in the state LISTEN of TCP. *)
Definition listening (protocol : NetworkProtocol) (e : SocketEntry) : bool :=
  eqb protocol NetworkProtocol.Udp || eqb (socket_state e) "0A".

Lemma hex4_no_colon p : 0 <= p < 65536 -> contains_char ":" (hex4 p) = false.
Proof.
  intros Hp. destruct (hex4_digits p Hp) as (Ha & Hb & Hc & Hd & _). unfold hex4.
  cbn [contains_char]. unfold eqb.
  rewrite !bool_decide_eq_false_2; [done|..];
    by (intros He; symmetry in He; revert He; apply hex_digit_plain).
Qed.

Lemma port_of_socket_line protocol e :
  socket_ok e ->
  port_of_line protocol (socket_line e) = Some (socket_port e, listening protocol e).
Proof.
  intros (Hn & Hw & Hp). unfold port_of_line, socket_line. rewrite split_padded_line by done. simpl.
  rewrite rsplit_once_app by (by apply hex4_no_colon). rewrite u16_from_hex4 by done.
  unfold listening. do 3 f_equal. unfold eqb. apply bool_decide_ext. split; congruence.
Qed.

(** What a table shows: nothing when it cannot be read, else a heading and its
    entries. *)
Definition shows (m : Machine) (path : PathBuf) (entries : list SocketEntry) : Prop :=
  (exists e, m_read_to_string m path = Err e /\ entries = [])
  \/ exists heading, m_read_to_string m path = Ok (unlines (heading :: map socket_line entries))
     /\ no_newline heading /\ strip_return heading = heading /\ Forall socket_ok entries.

Lemma add_ports_elem required protocol entries open p :
  Forall socket_ok entries ->
  p ∈ foldl (add_port required protocol) open (map socket_line entries)
  <-> p ∈ open \/ p ∈ required /\ exists e, e ∈ entries /\ p = (protocol, socket_port e)
                                         /\ listening protocol e = true.
Proof.
  intros Hok. revert open. induction Hok as [|e entries He Hok IH]; intros open; simpl.
  { split; [by left|]. intros [?|(_ & e & He & _)]; [done|]. by apply not_elem_of_nil in He. }
  rewrite IH. setoid_rewrite elem_of_cons. unfold add_port at 1.
  rewrite port_of_socket_line by done. destruct (listening protocol e) eqn:Hl; simpl.
  - case_bool_decide as Hreq; [rewrite elem_of_union, elem_of_singleton|]; split.
    + intros [[->|?]|(? & e' & ? & ? & ?)]; [right; eauto 6|by left|right; eauto 7].
    + intros [?|(? & e' & [->|?] & -> & ?)]; [by left; right|by left; left|right; eauto 6].
    + intros [?|(? & e' & ? & ? & ?)]; [by left|right; eauto 7].
    + intros [?|(? & e' & [->|?] & -> & ?)]; [by left|done|right; eauto 6].
  - split.
    + intros [?|(? & e' & ? & ? & ?)]; [by left|right; eauto 7].
    + intros [?|(? & e' & [->|?] & -> & ?)]; [by left|congruence|right; eauto 6].
Qed.

Lemma add_table_elem m required open path protocol entries p :
  shows m path entries ->
  p ∈ add_table m required open (path, protocol)
  <-> p ∈ open \/ p ∈ required /\ exists e, e ∈ entries /\ p = (protocol, socket_port e)
                                         /\ listening protocol e = true.
Proof.
  unfold add_table. simpl. intros [(e & -> & ->)|(heading & -> & Hn & Hr & Hok)].
  { split; [by left|]. intros [?|(_ & e' & He & _)]; [done|]. by apply not_elem_of_nil in He. }
  rewrite lines_unlines.
  - simpl. by apply add_ports_elem.
  - constructor; [done|]. apply Forall_map. eapply Forall_impl; [exact Hok|].
    intros e (Hnum & Hw & _). by apply padded_line_line.
Qed.

Definition tables_show (m : Machine) (tables : PathBuf -> list SocketEntry) : Prop :=
  forall path protocol, (path, protocol) ∈ socket_tables -> shows m path (tables path).

Lemma add_tables_elem m required (tables : PathBuf -> list SocketEntry) list open p :
  (forall path protocol, (path, protocol) ∈ list -> shows m path (tables path)) ->
  p ∈ foldl (add_table m required) open list
  <-> p ∈ open \/ p ∈ required /\ exists path protocol e, (path, protocol) ∈ list
        /\ e ∈ tables path /\ p = (protocol, socket_port e) /\ listening protocol e = true.
Proof.
  revert open. induction list as [|[path protocol] list IH]; intros open Hshow; simpl.
  { split; [by left|]. intros [?|(_ & ? & ? & ? & Hin & _)]; [done|]. by apply not_elem_of_nil in Hin. }
  rewrite IH by (intros; eapply Hshow; by right). rewrite (add_table_elem _ _ _ _ _ (tables path))
    by (eapply Hshow; by left).
  setoid_rewrite elem_of_cons. split.
  - intros [[?|(? & e & ? & ? & ?)]|(? & path' & protocol' & e & ? & ? & ? & ?)];
      [by left|right; eauto 10|right; eauto 11].
  - intros [?|(? & path' & protocol' & e & [[= -> ->]|?] & ? & ? & ?)];
      [by left; left|left; right; eauto 6|right; eauto 10].
Qed.

(** C26: From socket tables written as the kernel writes them, with any indentation of the
    row numbers, spacing of the columns and padding of the lines, the probe finds exactly
    the required ports that have a UDP socket or a TCP socket in the state LISTEN; a table
    that cannot be read counts as empty. *)
Theorem probe_ports_exact m required tables :
  tables_show m tables ->
  exists open, probe_ports m required = Ok open /\
    forall protocol port, (protocol, port) ∈ open <->
      (protocol, port) ∈ required /\ exists path e, (path, protocol) ∈ socket_tables
        /\ e ∈ tables path /\ socket_port e = port /\ listening protocol e = true.
Proof.
  intros Hshow. eexists. split; [reflexivity|]. intros protocol port.
  rewrite (add_tables_elem _ _ tables) by exact Hshow. split.
  - intros [Hp|(Hreq & path & protocol' & e & Hin & He & [= -> ->] & Hl)];
      [by apply not_elem_of_empty in Hp|]. eauto 8.
  - intros (Hreq & path & e & Hin & He & <- & Hl). right. eauto 10.
Qed.
