(* ===== verification/Polling.v ===== *)
(** * The polling sensor ([kovert-sensors/src/polling.rs])

    The state between cycles, the cycle with its reports, and the task that
    repeats it. A report is an event before it is stamped: its source and its
    kind. *)

From stdpp Require Import base tactics option list strings gmap.
From Stdlib Require Import ZArith Lia Ascii.
From S2P Require Import Prelude RustStr RustPath Config Event Order Probes AuditBytes.
From S2P Require Import Requirements.
Local Open Scope Z_scope.
Local Open Scope stdpp_scope.

Abbreviation Report := (string * EventKind)%type (only parsing).
Abbreviation MountMap := (gmap (list Component) (PathBuf * option string)) (only parsing).

Record PollState := mkPollState {
  poll_initialized : bool;
  poll_wifi : option WifiState;
  poll_network : option NetworkState;
  poll_usb : gset UsbDevice;
  poll_mounts : MountMap;
  poll_processes : gmap string bool;
  poll_services : gmap string bool;
  poll_ports : gset (NetworkProtocol * Z);
  poll_session : option SessionInfo;
  poll_power : option PowerState;
  poll_config_hash : option string;
  poll_binary_hash : option string;
  poll_failed : gset string;
}.

Definition PollState_default : PollState :=
  mkPollState false None None ∅ ∅ ∅ ∅ ∅ None None None None ∅.

(** Assignments to fields. *)
Definition set_poll_initialized v '(mkPollState i w n u m p s o e b c x f) :=
  mkPollState v w n u m p s o e b c x f.
Definition set_poll_wifi v '(mkPollState i w n u m p s o e b c x f) :=
  mkPollState i v n u m p s o e b c x f.
Definition set_poll_network v '(mkPollState i w n u m p s o e b c x f) :=
  mkPollState i w v u m p s o e b c x f.
Definition set_poll_usb v '(mkPollState i w n u m p s o e b c x f) :=
  mkPollState i w n v m p s o e b c x f.
Definition set_poll_mounts v '(mkPollState i w n u m p s o e b c x f) :=
  mkPollState i w n u v p s o e b c x f.
Definition set_poll_processes v '(mkPollState i w n u m p s o e b c x f) :=
  mkPollState i w n u m v s o e b c x f.
Definition set_poll_services v '(mkPollState i w n u m p s o e b c x f) :=
  mkPollState i w n u m p v o e b c x f.
Definition set_poll_ports v '(mkPollState i w n u m p s o e b c x f) :=
  mkPollState i w n u m p s v e b c x f.
Definition set_poll_session v '(mkPollState i w n u m p s o e b c x f) :=
  mkPollState i w n u m p s o v b c x f.
Definition set_poll_power v '(mkPollState i w n u m p s o e b c x f) :=
  mkPollState i w n u m p s o e v c x f.
Definition set_poll_config_hash v '(mkPollState i w n u m p s o e b c x f) :=
  mkPollState i w n u m p s o e b v x f.
Definition set_poll_binary_hash v '(mkPollState i w n u m p s o e b c x f) :=
  mkPollState i w n u m p s o e b c v f.
Definition set_poll_failed v '(mkPollState i w n u m p s o e b c x f) :=
  mkPollState i w n u m p s o e b c x v.

(** A part of a cycle: it changes the state and pushes reports. *)
Definition Poll : Type := PollState -> PollState * list Report.

Definition poll_skip : Poll := fun s => (s, []).

Definition poll_seq (a b : Poll) : Poll := fun s =>
  let (s1, e1) := a s in
  let (s2, e2) := b s1 in
  (s2, e1 ++ e2).

Notation "a ⨟ b" := (poll_seq a b) (at level 60, right associativity) : kovert_scope.
Local Open Scope kovert_scope.

Definition poll_when (b : bool) (a : Poll) : Poll := if b then a else poll_skip.

(** [if let Some(value) = probe_value(sensor, result, state, events) {...}]: a
    failure is reported once, until a success. *)
Definition probe_value {T} (sensor : string) (result : Result T) (use : T -> Poll) : Poll := fun s =>
  match result with
  | Ok value => use value (set_poll_failed (poll_failed s ∖ {[sensor]}) s)
  | Err error =>
      (set_poll_failed ({[sensor]} ∪ poll_failed s) s,
       if bool_decide (sensor ∈ poll_failed s) then []
       else [(sensor, EventKind.SensorFailure sensor error)])
  end.

Definition report_if (b : bool) (r : Report) : list Report := if b then [r] else [].

(** ** The parts *)
Definition wifi_kind (value : WifiState) : EventKind :=
  EventKind.Wifi (wifi_connected value) (wifi_ssid value) (wifi_bssid value).

Definition update_wifi (first : bool) (value : WifiState) : Poll := fun s =>
  (set_poll_wifi (Some value) s,
   report_if (first || negb (eqb (poll_wifi s) (Some value))) ("wifi", wifi_kind value)).

Definition network_kind (value : NetworkState) : EventKind :=
  EventKind.Network (net_online value) (net_interface value) (net_vpn value).

Definition update_network (first : bool) (value : NetworkState) : Poll := fun s =>
  (set_poll_network (Some value) s,
   report_if (first || negb (eqb (poll_network s) (Some value))) ("network", network_kind value)).

Definition usb_event (action : DeviceAction) (device : UsbDevice) : Report :=
  ("usb", EventKind.Usb action (usb_vendor_id device) (usb_product_id device) (usb_serial device)).

Definition update_usb (first : bool) (value : gset UsbDevice) : Poll := fun s =>
  (set_poll_usb value s,
   if first then map (usb_event DeviceAction.Added) (set_iter value)
   else map (usb_event DeviceAction.Added) (set_iter (value ∖ poll_usb s))
        ++ map (usb_event DeviceAction.Removed) (set_iter (poll_usb s ∖ value))).

Definition mount_event (action : DeviceAction) (mount : list Component * (PathBuf * option string))
    : Report :=
  ("mounts", EventKind.Mount action mount.2.1 mount.2.2).

Definition absent_from (mounts : MountMap) (mount : list Component * (PathBuf * option string))
    : bool :=
  match mounts !! mount.1 with None => true | Some _ => false end.

Definition update_mounts (first : bool) (value : MountMap) : Poll := fun s =>
  (set_poll_mounts value s,
   if first then map (mount_event DeviceAction.Added) (map_iter value)
   else map (mount_event DeviceAction.Added)
          (List.filter (absent_from (poll_mounts s)) (map_iter value))
        ++ map (mount_event DeviceAction.Removed)
             (List.filter (absent_from value) (map_iter (poll_mounts s)))).

(** The entries that differ from the ones before. *)
Definition changed (first : bool) (before : gmap string bool) (entry : string * bool) : bool :=
  first || negb (eqb (before !! entry.1) (Some entry.2)).

Definition update_processes (first : bool) (value : gmap string bool) : Poll := fun s =>
  (set_poll_processes value s,
   map (fun entry => ("processes", EventKind.Process entry.1 entry.2 None))
     (List.filter (changed first (poll_processes s)) (map_iter value))).

Definition update_services (first : bool) (value : gmap string bool) : Poll := fun s =>
  (set_poll_services value s,
   map (fun entry => ("services", EventKind.Service entry.1 entry.2))
     (List.filter (changed first (poll_services s)) (map_iter value))).

Definition port_event (value : gset (NetworkProtocol * Z)) (item : NetworkProtocol * Z) : Report :=
  ("ports", EventKind.Port item.2 item.1 (bool_decide (item ∈ value))).

Definition update_ports (first : bool) (required value : gset (NetworkProtocol * Z)) : Poll :=
  fun s =>
  (set_poll_ports value s,
   if first then map (port_event value) (set_iter required)
   else map (port_event value)
          (set_iter ((value ∖ poll_ports s) ∪ (poll_ports s ∖ value)))).

Definition session_kind (state : SessionState) (value : SessionInfo) : EventKind :=
  EventKind.Session state (session_user value) (session_remote value).

Definition logged_in (first : bool) (before : option SessionInfo) (value : SessionInfo) : bool :=
  negb (eqb (session_state value) SessionState.LoggedOut)
  && (first || is_some_and before (fun previous =>
                 eqb (session_state previous) SessionState.LoggedOut)).

Definition update_session (first : bool) (value : SessionInfo) : Poll := fun s =>
  (set_poll_session (Some value) s,
   if first || negb (eqb (poll_session s) (Some value)) then
     report_if (logged_in first (poll_session s) value)
       ("sessions", session_kind SessionState.LoggedIn value)
     ++ [("sessions", session_kind (session_state value) value)]
   else []).

Definition power_kind (value : PowerState) : EventKind :=
  EventKind.Power (power_on_ac value) (power_battery_percent value) (power_lid_closed value).

Definition update_power (first : bool) (value : PowerState) : Poll := fun s =>
  (set_poll_power (Some value) s,
   report_if (first || negb (eqb (poll_power s) (Some value))) ("power", power_kind value)).

Section cycle.
Context `{Blake3}.

(** [check_integrity]: the new content of the slot, and the reports. *)
Definition check_integrity (m : Machine) (component : string) (path : PathBuf)
    (slot : option string) : option string * list Report :=
  match m_read m path with
  | Ok bytes =>
      let current := blake3_hex bytes in
      (Some current,
       report_if (is_some_and slot (fun previous => negb (eqb previous current)))
         ("integrity", EventKind.Integrity component false (Some (path +:+ " changed on disk"))))
  | Err error =>
      (slot, [("integrity",
               EventKind.SensorFailure "integrity" ("read " +:+ path +:+ ": " +:+ error))])
  end.

Definition probe_integrity (m : Machine) (config_path executable : PathBuf) : Poll := fun s =>
  let (config_hash, e1) := check_integrity m "configuration" config_path (poll_config_hash s) in
  let s := set_poll_config_hash config_hash s in
  let (binary_hash, e2) := check_integrity m "binary" executable (poll_binary_hash s) in
  (set_poll_binary_hash binary_hash s, e1 ++ e2).

(** [poll_cycle]. *)
Definition poll_cycle (requirements : SensorRequirements) (config_path executable : PathBuf)
    (m : Machine) : Poll := fun s =>
  let first := negb (poll_initialized s) in
  ( poll_when (req_wifi requirements) (probe_value "wifi" (probe_wifi m) (update_wifi first))
  ⨟ poll_when (req_network requirements)
      (probe_value "network" (probe_network m) (update_network first))
  ⨟ poll_when (req_usb requirements) (probe_value "usb" (probe_usb m) (update_usb first))
  ⨟ poll_when (req_mounts requirements)
      (probe_value "mounts" (probe_mounts m) (update_mounts first))
  ⨟ poll_when (negb (bool_decide (req_processes requirements = ∅)))
      (probe_value "processes" (probe_processes m (req_processes requirements))
         (update_processes first))
  ⨟ poll_when (negb (bool_decide (req_services requirements = ∅)))
      (probe_value "services" (probe_services m (req_services requirements))
         (update_services first))
  ⨟ poll_when (negb (bool_decide (req_ports requirements = ∅)))
      (probe_value "ports" (probe_ports m (req_ports requirements))
         (update_ports first (req_ports requirements)))
  ⨟ poll_when (req_sessions requirements)
      (probe_value "sessions" (probe_session m) (update_session first))
  ⨟ poll_when (req_power requirements) (probe_value "power" (probe_power m) (update_power first))
  ⨟ poll_when (req_integrity requirements) (probe_integrity m config_path executable)
  ⨟ (fun s => (set_poll_initialized true s, [])) ) s.

(** How a turn of the task's loop goes: the cycle runs on the machine of the
    moment, or the blocking task is lost. *)
Inductive Turn :=
| Polled (m : Machine)
| Lost (error : string).

(** The reports of a turn, after the tick, and the state for the next. *)
Definition turn (requirements : SensorRequirements) (config_path executable : PathBuf) (t : Turn)
    : Poll := fun s =>
  match t with
  | Polled m => poll_cycle requirements config_path executable m s
  | Lost error => (PollState_default, [("polling", EventKind.SensorFailure "polling" error)])
  end.

(** The task over the turns until its channel closes, which the number of
    accepted sends decides. *)
Fixpoint polling_task (requirements : SensorRequirements) (config_path executable : PathBuf)
    (turns : list Turn) (capacity : nat) (s : PollState) : list Report :=
  match turns, capacity with
  | [], _ | _, O => []
  | t :: turns, S capacity =>
      let (s, reports) := turn requirements config_path executable t s in
      ("time", EventKind.Tick)
      :: if (length reports <=? capacity)%nat
         then reports ++ polling_task requirements config_path executable turns
                           (capacity - length reports) s
         else take capacity reports
  end.
End cycle.
