(* ===== verification/PollingProps.v ===== *)
(** * The snapshot follows the machine

    The part of the snapshot that polling keeps is an abstract state of its
    own, the view; a cycle keeps the view equal to what the probes last
    reported. *)

From stdpp Require Import base tactics option list strings gmap.
From Stdlib Require Import ZArith Lia Ascii.
From S2P Require Import Prelude RustStr RustPath Config Event Order Probes AuditBytes.
From S2P Require Import Utf8 Text Requirements Polling.
Local Open Scope Z_scope.
Local Open Scope stdpp_scope.
Local Open Scope kovert_scope.

(** ** Views *)
Record View := mkView {
  v_wifi : bool * option string * option string;
  v_network : bool * option string * bool;
  v_mounts : gset (list Component);
  v_processes : gset string;
  v_services : gmap string bool;
  v_ports : gset (NetworkProtocol * Z);
  v_session : option SessionState * option string * bool;
  v_power : option bool * option Z * option bool;
}.

Definition view_of (s : SystemSnapshot) : View := {|
  v_wifi := (snap_wifi_connected s, snap_wifi_ssid s, snap_wifi_bssid s);
  v_network := (snap_network_online s, snap_active_interface s, snap_vpn_active s);
  v_mounts := snap_mounts s; v_processes := snap_processes s; v_services := snap_services s;
  v_ports := snap_ports s;
  v_session := (snap_session_state s, snap_session_user s, snap_session_remote s);
  v_power := (snap_on_ac s, snap_battery_percent s, snap_lid_closed s);
|}.

(** Put or take out an element. *)
Definition toggle `{Countable A} (b : bool) (x : A) (m : gset A) : gset A :=
  if b then {[x]} ∪ m else m ∖ {[x]}.

Definition added (action : DeviceAction) : bool :=
  match action with DeviceAction.Removed => false | _ => true end.

Definition view_step (w : View) (kind : EventKind) : View :=
  let '(mkView wi ne mo pr se po si pw) := w in
  match kind with
  | EventKind.Wifi c s b => mkView (c, s, b) ne mo pr se po si pw
  | EventKind.Network o i v => mkView wi (o, i, v) mo pr se po si pw
  | EventKind.Mount a p _ => mkView wi ne (toggle (added a) (components p) mo) pr se po si pw
  | EventKind.Process n r _ => mkView wi ne mo (toggle r n pr) se po si pw
  | EventKind.Service n a => mkView wi ne mo pr (<[n := a]> se) po si pw
  | EventKind.Port p q o => mkView wi ne mo pr se (toggle o (q, p) po) si pw
  | EventKind.Session s u r => mkView wi ne mo pr se po (Some s, u, r) pw
  | EventKind.Power a b l => mkView wi ne mo pr se po si (a, b, l)
  | _ => w
  end.

Definition view_steps (w : View) (kinds : list EventKind) : View := fold_left view_step kinds w.

(** The kinds of event that change the view. *)
Definition sensed_kind (kind : EventKind) : bool :=
  match kind with
  | EventKind.Wifi _ _ _ | EventKind.Network _ _ _ | EventKind.Mount _ _ _
  | EventKind.Process _ _ _ | EventKind.Service _ _ | EventKind.Port _ _ _
  | EventKind.Session _ _ _ | EventKind.Power _ _ _ => true
  | _ => false
  end.

Lemma view_apply s event : view_of (apply s event) = view_step (view_of s) (event_kind event).
Proof.
  destruct event as [id at_ source kind]. unfold apply. cbn [event_kind].
  destruct kind; try reflexivity.
  - by destruct action.
  - by destruct running.
  - by destruct open.
Qed.

Lemma view_step_other w kind : sensed_kind kind = false -> view_step w kind = w.
Proof. by destruct w, kind. Qed.

Lemma view_steps_filter w kinds :
  view_steps w (List.filter sensed_kind kinds) = view_steps w kinds.
Proof.
  revert w. induction kinds as [|kind kinds IH]; intros w; [done|]. simpl.
  destruct (sensed_kind kind) eqn:Hk; simpl; [apply IH|].
  rewrite IH. unfold view_steps at 2. simpl. by rewrite view_step_other.
Qed.

Lemma view_apply_all s events :
  view_of (apply_all s events) = view_steps (view_of s) (map event_kind events).
Proof.
  revert s. induction events as [|event events IH]; intros s; [done|].
  unfold apply_all in *. simpl. rewrite IH, view_apply. done.
Qed.

(** The events carry the reports, among events of other kinds: hotkeys, file
    events, requests, ticks and failures. *)
Definition carries (events : list Event) (reports : list Report) : Prop :=
  List.filter sensed_kind (map event_kind events) = List.filter sensed_kind (map snd reports).

Lemma view_carries s events reports :
  carries events reports ->
  view_of (apply_all s events) = view_steps (view_of s) (map snd reports).
Proof.
  intros Hc. by rewrite view_apply_all, <- view_steps_filter, Hc, view_steps_filter.
Qed.

Lemma view_steps_app w k1 k2 : view_steps w (k1 ++ k2) = view_steps (view_steps w k1) k2.
Proof. apply fold_left_app. Qed.

(** ** Runs of reports of one kind *)
Definition toggles `{Countable A} (flag : A -> bool) (m : gset A) (l : list A) : gset A :=
  fold_left (fun m a => toggle (flag a) a m) l m.

Lemma elem_of_toggles `{Countable A} (flag : A -> bool) m l x :
  x ∈ toggles flag m l <-> ((x ∈ l) /\ flag x = true) \/ ((x ∉ l) /\ (x ∈ m)).
Proof.
  unfold toggles. revert m. induction l as [|a l IH]; intros m; simpl; [set_solver|].
  rewrite IH. unfold toggle. destruct (decide (x = a)) as [->|Hne].
  - destruct (flag a) eqn:Hf; destruct (decide (a ∈ l)); set_solver.
  - destruct (flag a); set_solver.
Qed.

Definition set_v_mounts m '(mkView wi ne mo pr se po si pw) := mkView wi ne m pr se po si pw.
Definition set_v_processes p '(mkView wi ne mo pr se po si pw) := mkView wi ne mo p se po si pw.
Definition set_v_services x '(mkView wi ne mo pr se po si pw) := mkView wi ne mo pr x po si pw.
Definition set_v_ports p '(mkView wi ne mo pr se po si pw) := mkView wi ne mo pr se p si pw.

Lemma view_mount_events action l w :
  view_steps w (map snd (map (mount_event action) l))
  = set_v_mounts (toggles (fun _ => added action) (v_mounts w)
                    (map (fun x => components x.2.1) l)) w.
Proof.
  revert w. induction l as [|x l IH]; intros w; [by destruct w|].
  cbn [map snd mount_event view_steps fold_left]. fold (view_steps (view_step w (EventKind.Mount action x.2.1 x.2.2))
    (map snd (map (mount_event action) l))). rewrite IH. by destruct w.
Qed.

Lemma view_process_events (flag : string -> bool) l w :
  (forall name b, (name, b) ∈ l -> b = flag name) ->
  view_steps w (map snd (map (fun entry : string * bool =>
                  ("processes", EventKind.Process entry.1 entry.2 None)) l))
  = set_v_processes (toggles flag (v_processes w) l.*1) w.
Proof.
  revert w. induction l as [|[name b] l IH]; intros w Hl; [by destruct w|].
  cbn [map snd fst view_steps fold_left].
  rewrite (Hl name b) by left. change (fold_left view_step ?k ?v) with (view_steps v k).
  rewrite IH by (intros; apply Hl; by right). by destruct w.
Qed.

Lemma view_service_events l w :
  view_steps w (map snd (map (fun entry : string * bool =>
                  ("services", EventKind.Service entry.1 entry.2)) l))
  = set_v_services (fold_left (fun m entry => <[entry.1 := entry.2]> m) l (v_services w)) w.
Proof.
  revert w. induction l as [|[name b] l IH]; intros w; [by destruct w|].
  cbn [map snd fst view_steps fold_left]. change (fold_left view_step ?k ?v) with (view_steps v k).
  rewrite IH. by destruct w.
Qed.

Lemma view_port_events value l w :
  view_steps w (map snd (map (port_event value) l))
  = set_v_ports (toggles (fun x => bool_decide (x ∈ value)) (v_ports w) l) w.
Proof.
  revert w. induction l as [|[q p] l IH]; intros w; [by destruct w|].
  cbn [map snd fst port_event view_steps fold_left].
  change (fold_left view_step ?k ?v) with (view_steps v k). rewrite IH. by destruct w.
Qed.

Lemma view_usb_events action l w : view_steps w (map snd (map (usb_event action) l)) = w.
Proof.
  rewrite <- view_steps_filter. replace (List.filter sensed_kind _) with (@nil EventKind); [done|].
  by induction l.
Qed.

Lemma lookup_inserts (l : list (string * bool)) (m : gmap string bool) name b :
  NoDup l.*1 -> (name, b) ∈ l ->
  fold_left (fun m entry => <[entry.1 := entry.2]> m) l m !! name = Some b.
Proof.
  revert m. induction l as [|[n c] l IH]; intros m; [intros _ Hin; by inversion Hin|].
  cbn [fmap list_fmap fst]. intros [Hn Hnd]%NoDup_cons [[= -> ->]|Hin]%elem_of_cons;
    cbn [fold_left]; [|by apply IH].
  cbn [fst snd]. clear IH. revert m Hn. induction l as [|[n' c'] l IH]; intros m Hn.
  - simpl. by rewrite lookup_insert_eq.
  - cbn [fold_left fst snd]. cbn in Hn, Hnd. apply not_elem_of_cons in Hn as [Hne Hn].
    rewrite insert_insert_ne by congruence. apply IH; [by inversion Hnd|done].
Qed.

Lemma lookup_inserts_other (l : list (string * bool)) (m : gmap string bool) name :
  name ∉ l.*1 -> fold_left (fun m entry => <[entry.1 := entry.2]> m) l m !! name = m !! name.
Proof.
  revert m. induction l as [|[n c] l IH]; intros m; [done|]. cbn [fmap list_fmap fst fold_left snd].
  intros [Hne Hn]%not_elem_of_cons. rewrite IH by done. by rewrite lookup_insert_ne.
Qed.

(** Mounts are stored under the components of their path. *)
Definition paths_match (mounts : MountMap) : Prop :=
  forall key x, mounts !! key = Some x -> components x.1 = key.

Lemma iter_keys mounts key :
  paths_match mounts ->
  key ∈ map (fun x => components x.2.1) (map_iter mounts) <-> key ∈ dom mounts.
Proof.
  intros Hp. rewrite elem_of_map, elem_of_dom. split.
  - intros ([k x] & -> & Hx%elem_of_map_iter). simpl. rewrite (Hp _ _ Hx). by eexists.
  - intros [x Hx]. exists (key, x). rewrite elem_of_map_iter. simpl. by rewrite (Hp _ _ Hx).
Qed.

Lemma absent_keys mounts before key :
  paths_match mounts ->
  key ∈ map (fun x => components x.2.1) (List.filter (absent_from before) (map_iter mounts))
  <-> key ∈ dom mounts /\ before !! key = None.
Proof.
  intros Hp. rewrite elem_of_map, elem_of_dom. setoid_rewrite list_elem_of_In.
  setoid_rewrite filter_In. setoid_rewrite <- list_elem_of_In. unfold absent_from. split.
  - intros ([k x] & -> & Hx%elem_of_map_iter & Hb). simpl in *. rewrite (Hp _ _ Hx).
    split; [by eexists|]. by destruct (before !! k).
  - intros [[x Hx] Hb]. exists (key, x). rewrite elem_of_map_iter. simpl.
    by rewrite (Hp _ _ Hx), Hb.
Qed.

(** ** What is kept

    A task that starts on a snapshot with mounts in it never reports those that
    went away before ([clean] is then false), and knows the ports only after
    its first cycle ([known]). *)
Section tracks.
Context (v : SensorRequirements) (clean : bool).

Record tracks (known : bool) (s : PollState) (w : View) : Prop := {
  tr_wifi : forall x, poll_wifi s = Some x ->
    v_wifi w = (wifi_connected x, wifi_ssid x, wifi_bssid x);
  tr_network : forall x, poll_network s = Some x ->
    v_network w = (net_online x, net_interface x, net_vpn x);
  tr_mounts : clean = true -> v_mounts w = dom (poll_mounts s);
  tr_mount_paths : paths_match (poll_mounts s);
  tr_processes : forall name b, poll_processes s !! name = Some b -> (name ∈ v_processes w <-> b = true);
  tr_services : forall name b, poll_services s !! name = Some b -> v_services w !! name = Some b;
  tr_ports : known = true -> forall x, x ∈ req_ports v -> (x ∈ v_ports w <-> x ∈ poll_ports s);
  tr_session : forall x, poll_session s = Some x ->
    v_session w = (Some (session_state x), session_user x, session_remote x);
  tr_power : forall x, poll_power s = Some x ->
    v_power w = (power_on_ac x, power_battery_percent x, power_lid_closed x);
}.

(** Before its mounts are known, a new task assumes none. *)
Definition fresh (first : bool) (s : PollState) (w : View) : Prop :=
  tracks (negb first) s w /\ (first = true -> poll_mounts s = ∅).

(** A part of a cycle, as a triple. *)
Definition triple (P : PollState -> View -> Prop) (a : Poll) (Q : PollState -> View -> Prop) : Prop :=
  forall s w, P s w -> Q (a s).1 (view_steps w (map snd (a s).2)).

Lemma triple_seq P Q R a b : triple P a Q -> triple Q b R -> triple P (a ⨟ b) R.
Proof.
  intros Ha Hb s w HP. specialize (Ha s w HP). unfold poll_seq.
  destruct (a s) as [s1 e1]. specialize (Hb _ _ Ha). simpl in *. destruct (b s1) as [s2 e2].
  simpl in *. by rewrite map_app, view_steps_app.
Qed.

Lemma triple_skip P : triple P poll_skip P.
Proof. by intros s w. Qed.

Lemma triple_when P b a : triple P a P -> triple P (poll_when b a) P.
Proof. intros Ha. destruct b; [done|apply triple_skip]. Qed.

Lemma tracks_failed known f s w : tracks known s w -> tracks known (set_poll_failed f s) w.
Proof. destruct s. intros Ht. split; apply Ht. Qed.

Lemma fresh_failed first f s w : fresh first s w -> fresh first (set_poll_failed f s) w.
Proof. intros [Ht Hm]. split; [by apply tracks_failed|]. by destruct s. Qed.

Lemma fresh_part first a :
  triple (tracks (negb first)) a (tracks (negb first)) -> (forall s, poll_mounts (a s).1 = poll_mounts s) ->
  triple (fresh first) a (fresh first).
Proof. intros Ha Hm s w [Ht Hf]. split; [by apply Ha|]. intros Hfirst. rewrite Hm. by apply Hf. Qed.

(** A failure changes nothing of what is tracked. *)
Lemma triple_probe {T} P Q sensor (result : Result T) use :
  (forall f s w, P s w -> P (set_poll_failed f s) w) -> (forall s w, P s w -> Q s w) ->
  (forall value, result = Ok value -> triple P (use value) Q) ->
  triple P (probe_value sensor result use) Q.
Proof.
  intros HP HPQ Huse s w Hs. unfold probe_value. destruct result as [value|error].
  - by apply Huse, HP.
  - cbn [fst snd]. apply HPQ. case_bool_decide; cbn [map snd view_steps fold_left].
    + by apply HP.
    + rewrite view_step_other by done. by apply HP.
Qed.

(** A probe that answers. *)
Lemma triple_probe_ok {T} P Q sensor (value : T) use :
  (forall f s w, P s w -> P (set_poll_failed f s) w) -> triple P (use value) Q ->
  triple P (probe_value sensor (Ok value) use) Q.
Proof. intros HP Huse s w Hs. by apply Huse, HP. Qed.

(** ** The parts *)
Ltac fields Ht := split; try (apply Ht); cbn.

(** A value reported whole, when it differs from the one kept. *)
Ltac tracks_value :=
  intros s w Ht; unfold update_wifi, update_network, update_power, report_if; cbn [fst snd];
  let Hr := fresh in
  match goal with |- context [if orb ?a ?b then _ else _] => destruct (orb a b) eqn:Hr end;
  cbn [map snd view_steps fold_left wifi_kind network_kind power_kind];
  [ destruct s, w; fields Ht; by intros x [= ->]
  | apply orb_false_iff in Hr as [_ Hr]; apply negb_false_iff in Hr; rewrite eqb_true in Hr;
    destruct s; cbn in Hr; subst; apply Ht ].

Lemma tracks_wifi known first value :
  triple (tracks known) (update_wifi first value) (tracks known).
Proof. tracks_value. Qed.
Lemma tracks_network known first value :
  triple (tracks known) (update_network first value) (tracks known).
Proof. tracks_value. Qed.
Lemma tracks_power known first value :
  triple (tracks known) (update_power first value) (tracks known).
Proof. tracks_value. Qed.

Lemma tracks_session known first value :
  triple (tracks known) (update_session first value) (tracks known).
Proof.
  intros s w Ht. unfold update_session, report_if. cbn [fst snd].
  destruct (first || _) eqn:Hr; cbn [map snd view_steps fold_left].
  - destruct (logged_in _ _ _); cbn [app map snd view_steps fold_left session_kind];
      destruct s, w; fields Ht; by intros x [= ->].
  - apply orb_false_iff in Hr as [_ Hr]. apply negb_false_iff in Hr. rewrite eqb_true in Hr.
    destruct s. cbn in Hr. subst. apply Ht.
Qed.

Lemma tracks_usb P first value :
  (forall s w, P s w -> P (set_poll_usb value s) w) -> triple P (update_usb first value) P.
Proof.
  intros HP s w Ht. unfold update_usb. cbn [fst snd].
  destruct first; rewrite ?map_app, ?view_steps_app, ?view_usb_events; by apply HP.
Qed.

Lemma tracks_mounts first value :
  paths_match value -> triple (fresh first) (update_mounts first value) (tracks (negb first)).
Proof.
  intros Hpaths s w [Ht Hfresh]. unfold update_mounts. cbn [fst snd].
  pose proof (tr_mounts _ _ _ Ht) as Hm. pose proof (tr_mount_paths _ _ _ Ht) as Hold.
  destruct first.
  - rewrite view_mount_events. destruct s as [? ? ? ? mounts processes services ports ? ? ? ? ?], w.
    fields Ht; [|exact Hpaths].
    cbn in Hm, Hfresh. intros Hclean. rewrite (Hm Hclean), (Hfresh eq_refl). apply set_eq. intros key.
    rewrite elem_of_toggles, iter_keys by done. rewrite dom_empty_L. simpl. set_solver.
  - rewrite map_app, view_steps_app, !view_mount_events. destruct s as [? ? ? ? mounts processes services ports ? ? ? ? ?], w.
    fields Ht; [|exact Hpaths].
    cbn in Hm, Hold |- *. intros Hclean. rewrite (Hm Hclean). apply set_eq. intros key.
    rewrite !elem_of_toggles, !absent_keys, !elem_of_dom by done. simpl.
    rewrite <- !not_eq_None_Some.
    destruct (value !! key), (mounts !! key); naive_solver.
Qed.

(** The entries reported are those that changed. *)
Lemma changed_spec (first : bool) before (value : gmap string bool) name b :
  (name, b) ∈ List.filter (changed first before) (map_iter value)
  <-> value !! name = Some b /\ (first = true \/ before !! name <> Some b).
Proof.
  rewrite list_elem_of_In, filter_In, <- list_elem_of_In, elem_of_map_iter.
  unfold changed. simpl. rewrite orb_true_iff, negb_true_iff. unfold eqb.
  by rewrite bool_decide_eq_false.
Qed.

Lemma changed_names (first : bool) before (value : gmap string bool) name :
  name ∈ (List.filter (changed first before) (map_iter value)).*1
  <-> exists b, value !! name = Some b /\ (first = true \/ before !! name <> Some b).
Proof.
  rewrite list_elem_of_fmap. split.
  - intros ([n b] & -> & Hin%changed_spec). by exists b.
  - intros (b & Hb). exists (name, b). by rewrite changed_spec.
Qed.

Lemma NoDup_changed first before (value : gmap string bool) :
  NoDup (List.filter (changed first before) (map_iter value)).*1.
Proof.
  assert (forall l : list (string * bool), NoDup l.*1 -> NoDup (List.filter (changed first before) l).*1)
    as Hf; [|apply Hf, NoDup_map_iter].
  induction l as [|x l IH]; [done|]. cbn. intros [Hx Hnd]%NoDup_cons.
  destruct (changed first before x); cbn; [|by apply IH]. constructor; [|by apply IH].
  rewrite list_elem_of_fmap in Hx |- *. intros (y & Hy & Hin). destruct Hx. exists y. split; [done|].
  rewrite list_elem_of_In, filter_In, <- list_elem_of_In in Hin. by destruct Hin.
Qed.

Lemma tracks_processes known first value :
  triple (tracks known) (update_processes first value) (tracks known).
Proof.
  intros s w Ht. unfold update_processes. cbn [fst snd].
  rewrite (view_process_events (fun name => default false (value !! name)))
    by (intros name b [-> _]%changed_spec; done).
  pose proof (tr_processes _ _ _ Ht) as Hp. destruct s as [? ? ? ? mounts processes services ports ? ? ? ? ?], w.
    fields Ht.
  cbn in Hp. intros name b Hb. rewrite elem_of_toggles, changed_names, Hb. simpl.
  destruct (decide (first = true \/ processes !! name <> Some b)) as [Hc|Hc].
  - split; [intros [[_ ?]|[Hn _]]; [done|]; destruct Hn; eauto|].
    intros ->. left. split; [by exists true|done].
  - assert (processes !! name = Some b) as Hold
      by (destruct (decide (processes !! name = Some b)); naive_solver).
    rewrite <- (Hp name b Hold). split.
    + intros [[(b' & [= <-] & ?) _]|[_ ?]]; [naive_solver|done].
    + intros Hin. right. split; [|done]. intros (b' & [= <-] & ?). naive_solver.
Qed.

Lemma tracks_services known first value :
  triple (tracks known) (update_services first value) (tracks known).
Proof.
  intros s w Ht. unfold update_services. cbn [fst snd]. rewrite view_service_events.
  pose proof (tr_services _ _ _ Ht) as Hp. destruct s as [? ? ? ? mounts processes services ports ? ? ? ? ?], w.
    fields Ht.
  cbn in Hp. intros name b Hb.
  destruct (decide (first = true \/ services !! name <> Some b)) as [Hc|Hc].
  - apply lookup_inserts; [apply NoDup_changed|]. by apply changed_spec.
  - rewrite lookup_inserts_other.
    + apply Hp. destruct (decide (services !! name = Some b)); naive_solver.
    + rewrite changed_names. intros (b' & Hb' & ?). simplify_eq. naive_solver.
Qed.

Lemma tracks_ports first value :
  triple (tracks (negb first)) (update_ports first (req_ports v) value) (tracks true).
Proof.
  intros s w Ht. unfold update_ports. cbn [fst snd].
  pose proof (tr_ports _ _ _ Ht) as Hp.
  destruct first; rewrite view_port_events; destruct s, w; fields Ht; cbn in Hp;
    intros _ x Hx; rewrite elem_of_toggles, elem_of_set_iter, bool_decide_eq_true; [set_solver|].
  specialize (Hp eq_refl x Hx). rewrite elem_of_union, !elem_of_difference.
  destruct (decide (x ∈ value)), (decide (x ∈ poll_ports)); naive_solver.
Qed.
End tracks.

(** ** What the probes return *)
Lemma mount_insert_paths path source mounts :
  paths_match mounts -> paths_match (mount_insert path source mounts).
Proof.
  intros Hm key x. unfold mount_insert. destruct (decide (components path = key)) as [<-|Hne].
  - rewrite lookup_insert_eq. intros [= <-]. simpl.
    destruct (mounts !! components path) as [y|] eqn:Hy; [|done]. simpl. by apply Hm.
  - rewrite lookup_insert_ne by done. apply Hm.
Qed.

Lemma probe_mounts_paths m value : probe_mounts m = Ok value -> paths_match value.
Proof.
  unfold probe_mounts. destruct (with_message _ _) as [text|]; [|done]. simpl. intros [= <-].
  assert (forall mounts ls, paths_match mounts -> paths_match (foldl add_mount mounts ls)) as Hl.
  { intros mounts ls. revert mounts. induction ls as [|line ls IH]; intros mounts Hm; [done|].
    apply IH. unfold add_mount. destruct (mount_of_line line) as [[path source]|]; [|done].
    by apply mount_insert_paths. }
  by apply Hl.
Qed.

Lemma probe_processes_dom m names value : probe_processes m names = Ok value -> dom value = names.
Proof.
  unfold probe_processes. destruct (with_message _ _) as [entries|]; [|done]. simpl.
  assert (forall (r : gmap string bool), dom r = names ->
            for_entries (process_entry m) r entries = Ok value -> dom value = names) as He.
  { induction entries as [|[entry|e] entries IH]; intros r Hr; simpl; [by intros [= <-]| |done].
    apply IH. unfold process_entry. destruct (parse_u32 _); [|done].
    destruct (r !! trim _) eqn:Hl; [|done]. rewrite dom_insert_L, Hr.
    assert (trim (result_or (m_read_to_string m (path_join (path_join "/proc" entry) "comm")))
            ∈ names) by (rewrite <- Hr; by eapply elem_of_dom_2). set_solver. }
  apply He. by rewrite dom_gset_to_gmap.
Qed.

Lemma probe_services_dom m names value : probe_services m names = Ok value -> dom value = names.
Proof.
  unfold probe_services. destruct (resolve_sensor_tool _ _) as [tool|]; [|done]. simpl.
  assert (forall l (r : gmap string bool), query_services m tool l r = Ok value ->
            dom value = dom r ∪ list_to_set l) as Hq.
  { induction l as [|name l IH]; intros r; simpl; [intros [= <-]; set_solver|].
    destruct (with_message _ _) as [output|]; [|done]. simpl. intros ->%IH.
    rewrite dom_insert_L. set_solver. }
  intros ->%Hq. apply set_eq. intros x. rewrite dom_empty_L, elem_of_union, elem_of_list_to_set.
  rewrite elem_of_set_iter. set_solver.
Qed.

(** ** The cycle *)
Section cycle.
Context `{Blake3} (v : SensorRequirements) (clean : bool) (config_path executable : PathBuf).

Lemma tracks_integrity known m :
  triple (tracks v clean known) (probe_integrity m config_path executable) (tracks v clean known).
Proof.
  intros s w Ht. unfold probe_integrity, check_integrity. 
  assert (forall kinds, Forall (fun k => sensed_kind k = false) kinds -> view_steps w kinds = w) as Hv.
  { intros kinds Hk. rewrite <- view_steps_filter.
    replace (List.filter sensed_kind kinds) with (@nil EventKind); [done|].
    induction Hk as [|k kinds Hk1 Hk2 IH]; [done|]. simpl. by rewrite Hk1. }
  destruct (m_read m config_path), (m_read m executable); cbn [fst snd]; unfold report_if;
    rewrite Hv by (repeat case_match; repeat constructor); destruct s; split; apply Ht.
Qed.

Lemma tracks_cycle m s w :
  fresh v clean (negb (poll_initialized s)) s w ->
  tracks v clean true (poll_cycle v config_path executable m s).1
    (view_steps w (map snd (poll_cycle v config_path executable m s).2)).
Proof.
  unfold poll_cycle. generalize (negb (poll_initialized s)) as first. intros first.
  revert s w. match goal with |- forall s w, _ -> tracks v clean true (?a s).1 _ =>
    change (triple (fresh v clean first) a (tracks v clean true)) end.
  apply (triple_seq _ (fresh v clean first)); [|apply (triple_seq _ (fresh v clean first));
    [|apply (triple_seq _ (fresh v clean first)); [|apply (triple_seq _ (tracks v clean (negb first)));
      [|apply (triple_seq _ (tracks v clean (negb first)))]]]].
  - apply triple_when, triple_probe; [apply fresh_failed|done|]. intros value _.
    apply fresh_part; [apply tracks_wifi|by intros []].
  - apply triple_when, triple_probe; [apply fresh_failed|done|]. intros value _.
    apply fresh_part; [apply tracks_network|by intros []].
  - apply triple_when, triple_probe; [apply fresh_failed|done|]. intros value _.
    apply tracks_usb. intros s w [Ht Hm]. destruct s. split; [split; apply Ht|done].
  - destruct (req_mounts v); [|by intros s w [Ht _]].
    apply triple_probe; [apply fresh_failed|by intros s w [Ht _]|]. intros value Hv.
    by apply tracks_mounts, probe_mounts_paths with m.
  - apply triple_when, triple_probe; [apply tracks_failed|done|]. intros value _.
    apply tracks_processes.
  - apply (triple_seq _ (tracks v clean (negb first))).
    { apply triple_when, triple_probe; [apply tracks_failed|done|]. intros value _.
      apply tracks_services. }
    apply (triple_seq _ (tracks v clean true)).
    { case_bool_decide as Hreq; cbn [negb poll_when].
      - intros s w Ht. split; try apply Ht. intros _ x. set_solver.
      - apply triple_probe_ok; [apply tracks_failed|apply tracks_ports]. }
    repeat apply (triple_seq _ (tracks v clean true)).
    + apply triple_when, triple_probe; [apply tracks_failed|done|]. intros value _.
      apply tracks_session.
    + apply triple_when, triple_probe; [apply tracks_failed|done|]. intros value _.
      apply tracks_power.
    + apply triple_when, tracks_integrity.
    + intros s w Ht. destruct s. split; apply Ht.
Qed.
End cycle.
