(* ===== verification/Monitor.v ===== *)
(** * What the conditions see of the machine

    The polling task and the snapshot its reports feed, turn after turn,
    through lost turns and restarts of the task: the snapshot agrees with what
    the probes answered in the last cycle, so a condition is decided on the
    machine as it was then. The exception are mounts that went away while no
    task remembered them. *)

From stdpp Require Import base tactics option list strings gmap.
From Stdlib Require Import ZArith Lia Ascii.
From S2P Require Import Prelude RustStr RustPath Config Event Matching Order Text Probes AuditBytes.
From S2P Require Import Requirements Polling PollingProps.
Local Open Scope Z_scope.
Local Open Scope stdpp_scope.
Local Open Scope kovert_scope.

(** ** What a part of a cycle leaves alone, and what it decides *)
Definition leaves {A} (f : PollState -> A) (a : Poll) : Prop := forall s, f (a s).1 = f s.
Definition decides {A} (f : PollState -> A) (x : A) (a : Poll) : Prop := forall s, f (a s).1 = x.

Section parts.
Context {A : Type} (f : PollState -> A).

Lemma leaves_seq a b : leaves f a -> leaves f b -> leaves f (a ⨟ b).
Proof.
  intros Ha Hb s. specialize (Ha s). unfold poll_seq. destruct (a s) as [s1 e1].
  specialize (Hb s1). destruct (b s1). simpl in *. congruence.
Qed.

Lemma leaves_when b a : leaves f a -> leaves f (poll_when b a).
Proof. by destruct b. Qed.

Lemma leaves_probe {T} sensor (result : Result T) use :
  (forall x s, f (set_poll_failed x s) = f s) -> (forall value, leaves f (use value)) ->
  leaves f (probe_value sensor result use).
Proof. intros Hf Hu s. unfold probe_value. destruct result; simpl; [by rewrite Hu, Hf|apply Hf]. Qed.

Lemma decides_left x a b : decides f x a -> leaves f b -> decides f x (a ⨟ b).
Proof.
  intros Ha Hb s. specialize (Ha s). unfold poll_seq. destruct (a s) as [s1 e1].
  specialize (Hb s1). destruct (b s1). simpl in *. congruence.
Qed.

Lemma decides_right x a b : decides f x b -> decides f x (a ⨟ b).
Proof.
  intros Hb s. unfold poll_seq. destruct (a s) as [s1 e1]. specialize (Hb s1). by destruct (b s1).
Qed.

Lemma decides_when x b a : b = true -> decides f x a -> decides f x (poll_when b a).
Proof. by intros ->. Qed.

Lemma decides_probe {T} sensor (result : Result T) use value x :
  result = Ok value -> decides f x (use value) -> decides f x (probe_value sensor result use).
Proof. intros -> Hu s. apply Hu. Qed.
End parts.

Lemma leaves_integrity `{Blake3} {A} (f : PollState -> A) m config_path executable :
  (forall x s, f (set_poll_config_hash x s) = f s) ->
  (forall x s, f (set_poll_binary_hash x s) = f s) ->
  leaves f (probe_integrity m config_path executable).
Proof.
  intros Hc Hb s. unfold probe_integrity. destruct (check_integrity _ _ _ _).
  destruct (check_integrity _ _ _ _). simpl. by rewrite Hb, Hc.
Qed.

(** One field of the state, which no other part assigns. *)
Ltac leave_part :=
  first [ apply leaves_when; leave_part
        | apply leaves_probe; [by intros ? [] | intros ? []; reflexivity]
        | apply leaves_integrity; by intros ? []
        | intros []; reflexivity ].
Ltac leave := repeat (apply leaves_seq; [leave_part|]); leave_part.
Ltac decide_field required ok :=
  unfold decides; intros; unfold poll_cycle;
  repeat first
    [ apply decides_left; [apply decides_when; [exact required|
        eapply decides_probe; [exact ok|intros []; reflexivity]] | leave]
    | apply decides_right ].

(** ** After a cycle *)
Section cycle.
Context `{Blake3} (v : SensorRequirements) (config_path executable : PathBuf) (m : Machine).
Abbreviation cycle := (poll_cycle v config_path executable m).

Lemma cycle_wifi x s :
  req_wifi v = true -> probe_wifi m = Ok x -> poll_wifi (cycle s).1 = Some x.
Proof. intros Hr Ho. revert s. decide_field Hr Ho. Qed.

Lemma cycle_network x s :
  req_network v = true -> probe_network m = Ok x -> poll_network (cycle s).1 = Some x.
Proof. intros Hr Ho. revert s. decide_field Hr Ho. Qed.

Lemma cycle_mounts x s :
  req_mounts v = true -> probe_mounts m = Ok x -> poll_mounts (cycle s).1 = x.
Proof. intros Hr Ho. revert s. decide_field Hr Ho. Qed.

Lemma some_required `{Countable A} (x : A) (required : gset A) :
  x ∈ required -> negb (bool_decide (required = ∅)) = true.
Proof. intros Hx. rewrite negb_true_iff, bool_decide_eq_false. set_solver. Qed.

Lemma cycle_processes x s :
  negb (bool_decide (req_processes v = ∅)) = true -> probe_processes m (req_processes v) = Ok x ->
  poll_processes (cycle s).1 = x.
Proof. intros Hr Ho. revert s. decide_field Hr Ho. Qed.

Lemma cycle_services x s :
  negb (bool_decide (req_services v = ∅)) = true -> probe_services m (req_services v) = Ok x ->
  poll_services (cycle s).1 = x.
Proof. intros Hr Ho. revert s. decide_field Hr Ho. Qed.

Lemma cycle_ports x s :
  negb (bool_decide (req_ports v = ∅)) = true -> probe_ports m (req_ports v) = Ok x -> poll_ports (cycle s).1 = x.
Proof. intros Hr Ho. revert s. decide_field Hr Ho. Qed.

Lemma cycle_session x s :
  req_sessions v = true -> probe_session m = Ok x -> poll_session (cycle s).1 = Some x.
Proof. intros Hr Ho. revert s. decide_field Hr Ho. Qed.

Lemma cycle_power x s :
  req_power v = true -> probe_power m = Ok x -> poll_power (cycle s).1 = Some x.
Proof. intros Hr Ho. revert s. decide_field Hr Ho. Qed.

Lemma cycle_initialized s : poll_initialized (cycle s).1 = true.
Proof.
  revert s. unfold poll_cycle. intros s. set (first := negb _).
  match goal with |- _ (?a s).1 = _ => enough (decides poll_initialized true a) as Hd by apply Hd end.
  repeat apply decides_right. by intros [].
Qed.
End cycle.

(** ** The machine as a snapshot

    The snapshot with each required part replaced by what the probe answers
    now, where it answers. *)
Definition answered {A} (required : bool) (result : Result A) : option A :=
  if required then result_option result else None.

Definition current (v : SensorRequirements) (m : Machine) (s : SystemSnapshot) : SystemSnapshot :=
  let wifi := default (mkWifiState (snap_wifi_connected s) (snap_wifi_ssid s) (snap_wifi_bssid s))
                (answered (req_wifi v) (probe_wifi m)) in
  let net := default (mkNetworkState (snap_network_online s) (snap_active_interface s)
                        (snap_vpn_active s))
               (answered (req_network v) (probe_network m)) in
  let power := default (mkPowerState (snap_on_ac s) (snap_battery_percent s) (snap_lid_closed s))
                 (answered (req_power v) (probe_power m)) in
  let session := answered (req_sessions v) (probe_session m) in {|
  snap_now := snap_now s;
  snap_wifi_connected := wifi_connected wifi;
  snap_wifi_ssid := wifi_ssid wifi;
  snap_wifi_bssid := wifi_bssid wifi;
  snap_network_online := net_online net;
  snap_active_interface := net_interface net;
  snap_vpn_active := net_vpn net;
  snap_mounts := from_option dom (snap_mounts s) (answered (req_mounts v) (probe_mounts m));
  snap_processes :=
    from_option (fun running => dom (filter (fun entry => entry.2 = true) running))
      (snap_processes s) (result_option (probe_processes m (req_processes v)));
  snap_services := default (snap_services s) (result_option (probe_services m (req_services v)));
  snap_ports := default (snap_ports s) (result_option (probe_ports m (req_ports v)));
  snap_session_state := from_option (fun x => Some (session_state x)) (snap_session_state s) session;
  snap_session_user := from_option session_user (snap_session_user s) session;
  snap_session_remote := from_option session_remote (snap_session_remote s) session;
  snap_on_ac := power_on_ac power;
  snap_battery_percent := power_battery_percent power;
  snap_lid_closed := power_lid_closed power;
  snap_mode := snap_mode s;
  snap_sensor_health := snap_sensor_health s;
|}.

(** ** The task and the snapshot together *)
Section monitored.
Context `{Blake3} (v : SensorRequirements) (config_path executable : PathBuf).

Definition polled (t : Turn) : bool := match t with Polled _ => true | Lost _ => false end.

(** The states of the task and of the snapshot between turns: from a new task
    on the snapshot of a new engine, or on any snapshot (after a reload, which
    aborts the task and keeps the engine's snapshot); turns whose reports reach
    the snapshot among other events, those that are lost included; and changes
    of the mode. [clean] as long as no task was started on a snapshot that
    another one had fed. *)
Inductive monitored : bool -> PollState -> SystemSnapshot -> Prop :=
| monitored_start now mode :
    monitored true PollState_default (set_snapshot_mode mode (SystemSnapshot_default now))
| monitored_restart snap : monitored false PollState_default snap
| monitored_mode clean s snap mode :
    monitored clean s snap -> monitored clean s (set_snapshot_mode mode snap)
| monitored_turn clean s snap t events :
    monitored clean s snap -> carries events (turn v config_path executable t s).2 ->
    monitored (clean && polled t) (turn v config_path executable t s).1 (apply_all snap events).

Lemma view_of_mode mode snap : view_of (set_snapshot_mode mode snap) = view_of snap.
Proof. done. Qed.

(** A new task knows nothing yet. *)
Lemma new_task_fresh w : fresh v false true PollState_default w.
Proof. split; [split|]; done. Qed.

(** The invariant, by induction on the steps. *)
Lemma monitored_fresh clean s snap :
  monitored clean s snap -> fresh v clean (negb (poll_initialized s)) s (view_of snap).
Proof.
  induction 1 as [now mode|snap|clean s snap mode _ IH|clean s snap [m|error] events _ IH Hc].
  - split; [split; done|done].
  - apply new_task_fresh.
  - by rewrite view_of_mode.
  - cbn [turn polled] in *. rewrite andb_true_r.
    split; [|by rewrite cycle_initialized]. rewrite cycle_initialized, (view_carries _ _ _ Hc).
    by apply tracks_cycle.
  - rewrite andb_false_r. apply new_task_fresh.
Qed.

(** The fields of a snapshot whose view is tracked, part by part. *)
Lemma tracked_reflects clean m s snap :
  tracks v clean true (poll_cycle v config_path executable m s).1 (view_of snap) ->
  same_view clean v snap (current v m snap).
Proof.
  intros Ht. unfold current, answered. split; cbn; try done.
  - intros Hr. rewrite Hr. destruct (probe_wifi m) as [x|] eqn:Ho; [|done].
    pose proof (tr_wifi _ _ _ _ _ Ht x (cycle_wifi _ _ _ _ _ _ Hr Ho)) as Hw.
    cbn in Hw. by injection Hw as -> -> ->.
  - intros Hr. rewrite Hr. destruct (probe_network m) as [x|] eqn:Ho; [|done].
    pose proof (tr_network _ _ _ _ _ Ht x (cycle_network _ _ _ _ _ _ Hr Ho)) as Hw.
    cbn in Hw. by injection Hw as -> -> ->.
  - intros Hclean Hr. rewrite Hr. destruct (probe_mounts m) as [x|] eqn:Ho; [|done].
    pose proof (tr_mounts _ _ _ _ _ Ht Hclean) as Hm. by rewrite (cycle_mounts _ _ _ _ _ _ Hr Ho) in Hm.
  - intros name Hr. destruct (probe_processes m _) as [x|] eqn:Ho; [|done]. cbn.
    pose proof (tr_processes _ _ _ _ _ Ht) as Hp. rewrite (cycle_processes _ _ _ _ _ _ (some_required _ _ Hr) Ho) in Hp.
    rewrite <- (probe_processes_dom _ _ _ Ho), elem_of_dom in Hr. destruct Hr as [b Hb].
    change (snap_processes snap) with (v_processes (view_of snap)).
    rewrite (Hp _ _ Hb), elem_of_dom. unfold is_Some. setoid_rewrite map_lookup_filter_Some.
    split; [intros ->; by exists true|]. intros (b' & Hb' & Hb''). cbn in Hb''. congruence.
  - intros name Hr. destruct (probe_services m _) as [x|] eqn:Ho; [|done]. cbn.
    pose proof (tr_services _ _ _ _ _ Ht) as Hp. rewrite (cycle_services _ _ _ _ _ _ (some_required _ _ Hr) Ho) in Hp.
    rewrite <- (probe_services_dom _ _ _ Ho), elem_of_dom in Hr. destruct Hr as [b Hb].
    rewrite Hb. by apply Hp.
  - intros port Hr. pose proof (tr_ports _ _ _ _ _ Ht eq_refl port Hr) as Hp.
    rewrite (cycle_ports _ _ _ _ _ _ (some_required _ _ Hr) eq_refl) in Hp.
    exact Hp.
  - intros Hr. rewrite Hr. destruct (probe_session m) as [x|] eqn:Ho; [|done].
    pose proof (tr_session _ _ _ _ _ Ht x (cycle_session _ _ _ _ _ _ Hr Ho)) as Hw.
    cbn in Hw. by injection Hw as -> -> ->.
  - intros Hr. rewrite Hr. destruct (probe_power m) as [x|] eqn:Ho; [|done].
    pose proof (tr_power _ _ _ _ _ Ht x (cycle_power _ _ _ _ _ _ Hr Ho)) as Hw.
    cbn in Hw. by injection Hw as -> -> ->.
Qed.

Lemma monitored_reflects clean s snap m events :
  monitored clean s snap -> carries events (poll_cycle v config_path executable m s).2 ->
  same_view clean v (apply_all snap events) (current v m (apply_all snap events)).
Proof.
  intros Hm Hc. apply (tracked_reflects clean m s).
  rewrite (view_carries _ _ _ Hc). by apply tracks_cycle, monitored_fresh.
Qed.

End monitored.

(** C5: Through the turns of the polling task, lost turns and restarts on a snapshot kept by
    a reload included: once the reports of a cycle reached the snapshot, with no report of
    another task among the events of the sensed kinds, the condition of a rule has the value
    it has on the machine itself, that is, on the snapshot whose required parts are replaced
    by what the probes answered in that cycle, where they answered. For a condition that
    asks for a mount this needs that the task was never started anew on a snapshot that was
    already fed. *)
Theorem conditions_reflect_machine `{EngineEnv} `{Blake3} config config_path executable rule c
    clean s snap m events :
  rule ∈ config_rules config -> rule_when rule = Some c ->
  monitored (from_config config) config_path executable clean s snap ->
  clean = true \/ mount_free c ->
  carries events (poll_cycle (from_config config) config_path executable m s).2 ->
  condition_matches c (apply_all snap events)
  = condition_matches c (current (from_config config) m (apply_all snap events)).
Proof.
  intros Hr Hc Hm Hclean He.
  apply (condition_view clean (from_config config)); [by eapply monitored_reflects|done|].
  destruct (from_config_meets config rule Hr) as [_ Hneeds]. intros u. by apply Hneeds.
Qed.
