(* ===== verification/PollingFailures.v ===== *)
(** * When the polling task reports, and when it is silent

    A failed probe is reported on the cycle it starts to fail, a file under
    integrity monitoring that cannot be read in every cycle; a cycle on an
    unchanged machine reports nothing else. *)

From stdpp Require Import base tactics option list strings gmap.
From Stdlib Require Import ZArith Lia Ascii.
From S2P Require Import Prelude RustStr RustPath Config Event Order Utf8 Text Probes AuditBytes.
From S2P Require Import Requirements Polling PollingProps Monitor.
Local Open Scope Z_scope.
Local Open Scope stdpp_scope.
Local Open Scope kovert_scope.

Definition is_failure (kind : EventKind) : bool :=
  match kind with EventKind.SensorFailure _ _ => true | _ => false end.

(** ** Parts that report no failure *)
Definition quiet (a : Poll) : Prop :=
  forall s, Forall (fun r => is_failure r.2 = false) (a s).2
            /\ poll_failed (a s).1 = poll_failed s.

Lemma Forall_report_if (P : Report -> Prop) b r : P r -> Forall P (report_if b r).
Proof. intros Hr. destruct b; repeat constructor; done. Qed.

Lemma Forall_events {A} (P : Report -> Prop) (f : A -> Report) l :
  (forall x, P (f x)) -> Forall P (map f l).
Proof. intros Hf. induction l; constructor; auto. Qed.

Create HintDb reports.
#[export] Hint Resolve Forall_report_if Forall_events Forall_app_2 Forall_nil_2 : reports.

Ltac quiet_part :=
  intros s; unfold update_wifi, update_network, update_usb, update_mounts, update_processes,
    update_services, update_ports, update_session, update_power; cbn [fst snd];
  split; [repeat case_match; auto 7 with reports|by destruct s].

Lemma quiet_wifi first value : quiet (update_wifi first value).
Proof. quiet_part. Qed.
Lemma quiet_network first value : quiet (update_network first value).
Proof. quiet_part. Qed.
Lemma quiet_usb first value : quiet (update_usb first value).
Proof. quiet_part. Qed.
Lemma quiet_mounts first value : quiet (update_mounts first value).
Proof. quiet_part. Qed.
Lemma quiet_processes first value : quiet (update_processes first value).
Proof. quiet_part. Qed.
Lemma quiet_services first value : quiet (update_services first value).
Proof. quiet_part. Qed.
Lemma quiet_ports first required value : quiet (update_ports first required value).
Proof. quiet_part. Qed.
Lemma quiet_session first value : quiet (update_session first value).
Proof. quiet_part. Qed.
Lemma quiet_power first value : quiet (update_power first value).
Proof. quiet_part. Qed.

#[export] Hint Resolve quiet_wifi quiet_network quiet_usb quiet_mounts quiet_processes
  quiet_services quiet_ports quiet_session quiet_power : reports.

(** ** Failures of one sensor *)
Section sensor.
Context (sensor : string).

Abbreviation failure e := (sensor, EventKind.SensorFailure sensor e).

(** The part neither reports a failure of the sensor nor changes its mark. *)
Definition silent (a : Poll) : Prop :=
  forall s, (forall e, failure e ∉ (a s).2)
            /\ (sensor ∈ poll_failed (a s).1 <-> sensor ∈ poll_failed s).

(** The part probes the sensor, with this error or none: an error is reported
    unless the sensor is marked, and the mark follows the error. *)
Definition probes (error : option string) (a : Poll) : Prop :=
  forall s, (forall e, failure e ∈ (a s).2 <-> error = Some e /\ sensor ∉ poll_failed s)
            /\ (sensor ∈ poll_failed (a s).1 <-> is_Some error).

Lemma silent_seq a b : silent a -> silent b -> silent (a ⨟ b).
Proof.
  intros Ha Hb s. unfold poll_seq. destruct (Ha s) as [Ha1 Ha2]. destruct (a s) as [s1 e1].
  destruct (Hb s1) as [Hb1 Hb2]. destruct (b s1) as [s2 e2]. cbn in *. split.
  - intros e. rewrite elem_of_app. by intros [?%Ha1|?%Hb1].
  - by rewrite Hb2.
Qed.

Lemma silent_when b a : silent a -> silent (poll_when b a).
Proof. intros Ha. destruct b; [done|]. intros s. split; [intros e He; by inversion He|done]. Qed.

Lemma silent_quiet a : quiet a -> silent a.
Proof.
  intros Ha s. destruct (Ha s) as [Hr Hf]. split; [|by rewrite Hf].
  intros e He. rewrite Forall_forall in Hr. by specialize (Hr _ He).
Qed.

Lemma set_failed f s : poll_failed (set_poll_failed f s) = f.
Proof. by destruct s. Qed.

Lemma silent_probe {T} other (result : Result T) use :
  other <> sensor -> (forall value, quiet (use value)) -> silent (probe_value other result use).
Proof.
  intros Hne Hu s. unfold probe_value. destruct result as [value|error].
  - destruct (silent_quiet _ (Hu value) (set_poll_failed (poll_failed s ∖ {[other]}) s)) as [H1 H2].
    split; [done|]. rewrite H2, set_failed. set_solver.
  - cbn [fst snd]. rewrite set_failed. split; [|set_solver].
    intros e. case_bool_decide; [by apply not_elem_of_nil|].
    rewrite list_elem_of_singleton. congruence.
Qed.

Lemma probes_probe {T} (result : Result T) use :
  (forall value, quiet (use value)) ->
  probes (match result with Ok _ => None | Err e => Some e end) (probe_value sensor result use).
Proof.
  intros Hu s. unfold probe_value. destruct result as [value|error].
  - destruct (silent_quiet _ (Hu value) (set_poll_failed (poll_failed s ∖ {[sensor]}) s)) as [H1 H2].
    split; [intros e; split; [by intros ?%H1|naive_solver]|]. rewrite H2, set_failed.
    split; [set_solver|by intros []].
  - cbn [fst snd]. rewrite set_failed. split.
    + intros e. case_bool_decide; [split; [by intros ?%elem_of_nil|by intros []]|].
      rewrite list_elem_of_singleton. naive_solver.
    + split; [by eexists|set_solver].
Qed.

Lemma probes_left error a b : probes error a -> silent b -> probes error (a ⨟ b).
Proof.
  intros Ha Hb s. unfold poll_seq. destruct (Ha s) as [Ha1 Ha2]. destruct (a s) as [s1 e1].
  destruct (Hb s1) as [Hb1 Hb2]. destruct (b s1) as [s2 e2]. cbn in *. split.
  - intros e. rewrite elem_of_app, Ha1. specialize (Hb1 e). tauto.
  - by rewrite Hb2.
Qed.

Lemma probes_right error a b : silent a -> probes error b -> probes error (a ⨟ b).
Proof.
  intros Ha Hb s. unfold poll_seq. destruct (Ha s) as [Ha1 Ha2]. destruct (a s) as [s1 e1].
  destruct (Hb s1) as [Hb1 Hb2]. destruct (b s1) as [s2 e2]. cbn in *. split.
  - intros e. rewrite elem_of_app, Hb1, Ha2. specialize (Ha1 e). tauto.
  - by rewrite Hb2.
Qed.

Lemma silent_integrity `{Blake3} m config_path executable :
  sensor <> "integrity" -> silent (probe_integrity m config_path executable).
Proof.
  intros Hne s. unfold probe_integrity, check_integrity.
  destruct (m_read m config_path), (m_read m executable); cbn [fst snd]; unfold report_if;
    (split; [|by destruct s]); intros e; repeat case_match; cbn [app];
    rewrite ?elem_of_cons, ?elem_of_nil; naive_solver.
Qed.
End sensor.

(** ** The sensors of a cycle *)
Definition polled_sensors : list string :=
  ["wifi"; "network"; "usb"; "mounts"; "processes"; "services"; "ports"; "sessions"; "power"].

Definition polls (v : SensorRequirements) (sensor : string) : bool :=
  if eqb sensor "wifi" then req_wifi v
  else if eqb sensor "network" then req_network v
  else if eqb sensor "usb" then req_usb v
  else if eqb sensor "mounts" then req_mounts v
  else if eqb sensor "processes" then negb (bool_decide (req_processes v = ∅))
  else if eqb sensor "services" then negb (bool_decide (req_services v = ∅))
  else if eqb sensor "ports" then negb (bool_decide (req_ports v = ∅))
  else if eqb sensor "sessions" then req_sessions v
  else if eqb sensor "power" then req_power v
  else false.

Definition error_of {T} (result : Result T) : option string :=
  match result with Ok _ => None | Err e => Some e end.

(** The error of the sensor's probe on a machine. *)
Definition probe_error (v : SensorRequirements) (m : Machine) (sensor : string) : option string :=
  if eqb sensor "wifi" then error_of (probe_wifi m)
  else if eqb sensor "network" then error_of (probe_network m)
  else if eqb sensor "usb" then error_of (probe_usb m)
  else if eqb sensor "mounts" then error_of (probe_mounts m)
  else if eqb sensor "processes" then error_of (probe_processes m (req_processes v))
  else if eqb sensor "services" then error_of (probe_services m (req_services v))
  else if eqb sensor "ports" then error_of (probe_ports m (req_ports v))
  else if eqb sensor "sessions" then error_of (probe_session m)
  else if eqb sensor "power" then error_of (probe_power m)
  else None.

Ltac compare_names :=
  repeat match goal with
  | H : context [eqb ?a ?b] |- _ => let r := eval vm_compute in (eqb a b) in change (eqb a b) with r in H
  | |- context [eqb ?a ?b] => let r := eval vm_compute in (eqb a b) in change (eqb a b) with r
  end; cbn iota in *.
Ltac silent_part :=
  first [ by intros s; split; [intros e He; by inversion He|] | apply silent_when ];
  first [ apply silent_probe; [done|auto with reports] | by apply silent_integrity ].
Ltac silent_rest :=
  repeat first [apply silent_seq; [silent_part|] | silent_part];
  intros s; split; [intros e He; by inversion He|by destruct s].

Section runs.
Context `{Blake3} (v : SensorRequirements) (config_path executable : PathBuf).
Abbreviation cycle m := (poll_cycle v config_path executable m).

Lemma cycle_probes m sensor :
  sensor ∈ polled_sensors -> polls v sensor = true ->
  probes sensor (probe_error v m sensor) (cycle m).
Proof.
  intros Hin Hp s. unfold poll_cycle. generalize (negb (poll_initialized s)) as first.
  intros first. revert s.
  match goal with |- forall s, _ /\ (_ ∈ poll_failed (?a s).1 <-> _) =>
    change (probes sensor (probe_error v m sensor) a) end.
  unfold polled_sensors in Hin. rewrite !elem_of_cons, elem_of_nil in Hin.
  destruct_or! Hin; subst; try done; unfold polls, probe_error in *; compare_names;
    repeat first
      [ apply probes_left; [rewrite Hp; apply probes_probe; auto with reports|silent_rest]
      | apply probes_right; [silent_part|] ].
Qed.

Lemma cycle_silent m sensor :
  sensor ∈ polled_sensors -> polls v sensor = false -> silent sensor (cycle m).
Proof.
  intros Hin Hp s. unfold poll_cycle. generalize (negb (poll_initialized s)) as first.
  intros first. revert s.
  match goal with |- forall s, _ /\ (_ ∈ poll_failed (?a s).1 <-> _) =>
    change (silent sensor a) end.
  unfold polled_sensors in Hin. rewrite !elem_of_cons, elem_of_nil in Hin.
  destruct_or! Hin; subst; try done; unfold polls in *; compare_names; rewrite Hp; silent_rest.
Qed.

(** The reports of unreadable files under integrity monitoring. *)
Definition unreadable (m : Machine) (path : PathBuf) : list Report :=
  match m_read m path with
  | Ok _ => []
  | Err error =>
      [("integrity", EventKind.SensorFailure "integrity" ("read " +:+ path +:+ ": " +:+ error))]
  end.

(** *** Integrity *)

(** The part reports exactly the failures [P] of the integrity monitoring. *)
Definition integrity_part (P : string -> Prop) (a : Poll) : Prop :=
  forall s e, ("integrity", EventKind.SensorFailure "integrity" e) ∈ (a s).2 <-> P e.

Lemma integrity_left P a b : integrity_part P a -> silent "integrity" b -> integrity_part P (a ⨟ b).
Proof.
  intros Ha Hb s e. unfold poll_seq. specialize (Ha s e). destruct (a s) as [s1 e1].
  destruct (Hb s1) as [Hb1 _]. destruct (b s1) as [s2 e2]. cbn in *. rewrite elem_of_app, Ha.
  specialize (Hb1 e). tauto.
Qed.

Lemma integrity_right P a b : silent "integrity" a -> integrity_part P b -> integrity_part P (a ⨟ b).
Proof.
  intros Ha Hb s e. unfold poll_seq. destruct (Ha s) as [Ha1 _]. destruct (a s) as [s1 e1].
  specialize (Hb s1 e). destruct (b s1) as [s2 e2]. cbn in *. rewrite elem_of_app, Hb.
  specialize (Ha1 e). tauto.
Qed.

Lemma probe_integrity_part m :
  integrity_part (fun e => ("integrity", EventKind.SensorFailure "integrity" e)
                           ∈ unreadable m config_path ++ unreadable m executable)
    (probe_integrity m config_path executable).
Proof.
  intros s e. unfold probe_integrity, check_integrity, unreadable, report_if.
  destruct (m_read m config_path), (m_read m executable); cbn; repeat case_match; cbn;
    rewrite ?elem_of_cons, ?elem_of_nil; naive_solver.
Qed.

Lemma cycle_integrity m :
  integrity_part (fun e => req_integrity v = true
                           /\ ("integrity", EventKind.SensorFailure "integrity" e)
                              ∈ unreadable m config_path ++ unreadable m executable) (cycle m).
Proof.
  intros s. unfold poll_cycle. generalize (negb (poll_initialized s)) as first.
  intros first. revert s.
  match goal with |- forall s e, _ ∈ (?a s).2 <-> @?P e => change (integrity_part P a) end.
  do 9 (apply integrity_right; [silent_part|]). apply integrity_left.
  - intros s e. destruct (req_integrity v); cbn [poll_when].
    + rewrite (probe_integrity_part m s e). naive_solver.
    + cbn. rewrite elem_of_nil. naive_solver.
  - intros s. split; [intros e He; by inversion He|by destruct s].
Qed.

(** Every failure is reported under the name of its sensor. *)
Definition named_failure (r : Report) : Prop :=
  match r.2 with
  | EventKind.SensorFailure sensor _ =>
      r.1 = sensor /\ (sensor ∈ polled_sensors \/ sensor = "integrity")
  | _ => True
  end.

Definition named_failures (a : Poll) : Prop := forall s, Forall named_failure (a s).2.

Lemma named_failures_seq a b : named_failures a -> named_failures b -> named_failures (a ⨟ b).
Proof.
  intros Ha Hb s. unfold poll_seq. specialize (Ha s). destruct (a s) as [s1 e1].
  specialize (Hb s1). destruct (b s1). by apply Forall_app.
Qed.

Lemma named_failures_quiet a : quiet a -> named_failures a.
Proof.
  intros Ha s. destruct (Ha s) as [Hr _]. eapply Forall_impl; [exact Hr|].
  intros [source kind]. by destruct kind.
Qed.

Lemma named_failures_probe {T} b sensor (result : Result T) use :
  list_contains polled_sensors sensor = true -> (forall value, quiet (use value)) ->
  named_failures (poll_when b (probe_value sensor result use)).
Proof.
  intros Hin%list_contains_true Hu s. destruct b; [|constructor]. cbn. unfold probe_value.
  destruct result as [value|error]; [by apply named_failures_quiet|]. cbn.
  case_bool_decide; constructor; [|constructor]. split; [done|by left].
Qed.

Lemma cycle_named_failures m : named_failures (cycle m).
Proof.
  intros s. unfold poll_cycle. generalize (negb (poll_initialized s)) as first.
  intros first. revert s.
  match goal with |- forall s, Forall _ (?a s).2 => change (named_failures a) end.
  do 9 (apply named_failures_seq; [apply named_failures_probe; [reflexivity|auto with reports]|]).
  apply named_failures_seq; [|intros s; constructor].
  intros s. destruct (req_integrity v); [|constructor]. cbn.
  unfold probe_integrity, check_integrity, report_if.
  destruct (m_read m config_path), (m_read m executable); cbn; repeat case_match;
    repeat constructor; by right.
Qed.

(** *** Runs *)

(** The state after cycles on these machines. *)
Definition cycles (ms : list Machine) (s : PollState) : PollState :=
  fold_left (fun s m => (cycle m s).1) ms s.

Lemma cycles_failed sensor ms :
  sensor ∈ polled_sensors ->
  (sensor ∈ poll_failed (cycles ms PollState_default)
   <-> polls v sensor = true /\ exists m, last ms = Some m /\ is_Some (probe_error v m sensor)).
Proof.
  intros Hin. induction ms as [|m ms IH] using rev_ind; [cbn; set_solver|].
  unfold cycles in *. rewrite fold_left_app, last_snoc. cbn [fold_left].
  destruct (polls v sensor) eqn:Hp.
  - destruct (cycle_probes m sensor Hin Hp (fold_left (fun s m => (cycle m s).1) ms PollState_default))
      as [_ ->]. naive_solver.
  - destruct (cycle_silent m sensor Hin Hp (fold_left (fun s m => (cycle m s).1) ms PollState_default))
      as [_ ->]. naive_solver.
Qed.

(** The failure of a polled sensor starts in the cycle on [m]. *)
Definition starts_failing (ms : list Machine) (m : Machine) (sensor e : string) : Prop :=
  polls v sensor = true /\ probe_error v m sensor = Some e
  /\ forall m0, last ms = Some m0 -> probe_error v m0 sensor = None.

Lemma polled_on_edges sensor ms m e :
  sensor ∈ polled_sensors ->
  ((sensor, EventKind.SensorFailure sensor e) ∈ (cycle m (cycles ms PollState_default)).2
   <-> starts_failing ms m sensor e).
Proof.
  intros Hin. unfold starts_failing. destruct (polls v sensor) eqn:Hp.
  - destruct (cycle_probes m sensor Hin Hp (cycles ms PollState_default)) as [-> _].
    rewrite cycles_failed by done. rewrite Hp. setoid_rewrite eq_None_not_Some. naive_solver.
  - destruct (cycle_silent m sensor Hin Hp (cycles ms PollState_default)) as [Hs _].
    naive_solver.
Qed.

(** C23: In every run of polling cycles of a task, the sensor failures reported in a cycle
    are exactly these: for each of the nine probed sensors that is polled, whose probe fails
    now and did not fail in the cycle before, its probe's error under its name; and when
    integrity is monitored, in every cycle, the error of reading the configuration or the
    executable where that fails. *)
Theorem failures_on_edges source sensor ms m e :
  (source, EventKind.SensorFailure sensor e) ∈ (cycle m (cycles ms PollState_default)).2
  <-> source = sensor
      /\ (sensor ∈ polled_sensors /\ starts_failing ms m sensor e
          \/ sensor = "integrity" /\ req_integrity v = true
             /\ exists path error, path ∈ [config_path; executable] /\ m_read m path = Err error
                                   /\ e = "read " +:+ path +:+ ": " +:+ error).
Proof.
  assert (forall path, ("integrity", EventKind.SensorFailure "integrity" e) ∈ unreadable m path
            <-> exists error, m_read m path = Err error /\ e = "read " +:+ path +:+ ": " +:+ error)
    as Hun.
  { intros path. unfold unreadable. destruct (m_read m path) as [bytes|error].
    - rewrite elem_of_nil. naive_solver.
    - rewrite list_elem_of_singleton. naive_solver. }
  split.
  - intros Hin. pose proof (cycle_named_failures m (cycles ms PollState_default)) as Hn.
    rewrite Forall_forall in Hn. specialize (Hn _ Hin). cbn in Hn.
    destruct Hn as [-> [Hp| ->]]; (split; [done|]).
    + left. split; [done|]. by apply polled_on_edges.
    + right. apply cycle_integrity in Hin as [Hr Hin]. split_and!; [done..|].
      rewrite elem_of_app, !Hun in Hin. destruct Hin as [(error & ?)|(error & ?)].
      * exists config_path, error. split; [by left|done].
      * exists executable, error. split; [by right; left|done].
  - intros [-> [[Hp Hs]|(-> & Hr & path & error & Hpath & He)]]; [by apply polled_on_edges|].
    apply cycle_integrity. split; [done|]. rewrite elem_of_app, !Hun.
    rewrite !elem_of_cons, elem_of_nil in Hpath. destruct_or! Hpath; subst; eauto.
Qed.

(** ** An unchanged machine *)
Lemma cycle_usb m x s :
  req_usb v = true -> probe_usb m = Ok x -> poll_usb (cycle m s).1 = x.
Proof. intros Hr Ho. revert s. decide_field Hr Ho. Qed.

(** The slots after the hashing of the configuration and the binary. *)
Lemma cycle_config_hash m bytes s :
  req_integrity v = true -> m_read m config_path = Ok bytes ->
  poll_config_hash (cycle m s).1 = Some (blake3_hex bytes).
Proof.
  intros Hr Ho. revert s. unfold poll_cycle. intros s.
  do 9 apply (decides_right poll_config_hash (Some (blake3_hex bytes))).
  apply decides_left; [apply decides_when; [done|]|by intros []].
  intros s0. unfold probe_integrity, check_integrity. rewrite Ho.
  destruct (m_read m executable), s0; done.
Qed.

Lemma cycle_binary_hash m bytes s :
  req_integrity v = true -> m_read m executable = Ok bytes ->
  poll_binary_hash (cycle m s).1 = Some (blake3_hex bytes).
Proof.
  intros Hr Ho. revert s. unfold poll_cycle. intros s.
  do 9 apply (decides_right poll_binary_hash (Some (blake3_hex bytes))).
  apply decides_left; [apply decides_when; [done|]|by intros []].
  intros s0. unfold probe_integrity, check_integrity. rewrite Ho.
  destruct (m_read m config_path), s0; done.
Qed.

Lemma steady_seq (a b : Poll) s r1 r2 :
  a s = (s, r1) -> b s = (s, r2) -> (a ⨟ b) s = (s, r1 ++ r2).
Proof. intros Ha Hb. unfold poll_seq. by rewrite Ha, Hb. Qed.

Lemma steady_when b (a : Poll) s : (b = true -> a s = (s, [])) -> poll_when b a s = (s, []).
Proof. destruct b; [intros Ha; by apply Ha|done]. Qed.

(** A probe that repeats its answer. *)
Lemma steady_probe {T} m sensor (result : Result T) use s0 :
  sensor ∈ polled_sensors -> polls v sensor = true ->
  probe_error v m sensor = error_of result ->
  (forall value, result = Ok value -> use value (cycle m s0).1 = ((cycle m s0).1, [])) ->
  probe_value sensor result use (cycle m s0).1 = ((cycle m s0).1, []).
Proof.
  intros Hin Hp He Hu. destruct (cycle_probes m sensor Hin Hp s0) as [_ Hf]. rewrite He in Hf.
  unfold probe_value. set (s := (cycle m s0).1) in *. destruct result as [value|error].
  - rewrite <- (Hu value eq_refl). f_equal. destruct s. cbn in *. f_equal.
    assert (sensor ∉ poll_failed) by (rewrite Hf; by intros []). set_solver.
  - rewrite bool_decide_true by (apply Hf; by eexists). f_equal. destruct s. cbn in *. f_equal.
    assert (sensor ∈ poll_failed) by (apply Hf; by eexists). set_solver.
Qed.

Lemma steady_integrity m s0 :
  poll_when (req_integrity v) (probe_integrity m config_path executable) (cycle m s0).1
  = ((cycle m s0).1,
     if req_integrity v then unreadable m config_path ++ unreadable m executable else []).
Proof.
  destruct (req_integrity v) eqn:Hr; [|done].
  pose proof (fun bytes => cycle_config_hash m bytes s0 Hr) as Hc.
  pose proof (fun bytes => cycle_binary_hash m bytes s0 Hr) as Hb.
  set (s := (cycle m s0).1) in *.
  unfold poll_when, probe_integrity, check_integrity, unreadable.
  destruct s as [? ? ? ? ? ? ? ? ? ? config binary ?]. cbn in *.
  destruct (m_read m config_path); [rewrite (Hc _ eq_refl)|]; cbn;
    (destruct (m_read m executable); [rewrite (Hb _ eq_refl)|]); cbn;
    unfold eqb; rewrite ?bool_decide_true by done; done.
Qed.

Ltac steady_field Hs :=
  match type of Hs with _ ?s = _ => destruct s end; cbn in Hs; subst;
  unfold update_wifi, update_network, update_session, update_power, report_if, eqb; cbn;
  rewrite bool_decide_true by done; done.

Lemma steady_wifi x s : poll_wifi s = Some x -> update_wifi false x s = (s, []).
Proof. intros Hs. steady_field Hs. Qed.
Lemma steady_network x s : poll_network s = Some x -> update_network false x s = (s, []).
Proof. intros Hs. steady_field Hs. Qed.
Lemma steady_session x s : poll_session s = Some x -> update_session false x s = (s, []).
Proof. intros Hs. steady_field Hs. Qed.
Lemma steady_power x s : poll_power s = Some x -> update_power false x s = (s, []).
Proof. intros Hs. steady_field Hs. Qed.

Lemma steady_usb s : update_usb false (poll_usb s) s = (s, []).
Proof. destruct s. unfold update_usb. cbn. by rewrite difference_diag_L, set_iter_empty. Qed.

Lemma steady_ports required s : update_ports false required (poll_ports s) s = (s, []).
Proof.
  unfold update_ports. assert (forall x : gset (NetworkProtocol * Z), (x ∖ x) ∪ (x ∖ x) = ∅) as ->
    by set_solver. rewrite set_iter_empty. by destruct s.
Qed.

Lemma filter_none {A} (f : A -> bool) l : (forall x, x ∈ l -> f x = false) -> List.filter f l = [].
Proof.
  intros Hf. induction l as [|x l IH]; [done|]. cbn. rewrite Hf by left. apply IH.
  intros y Hy. apply Hf. by right.
Qed.

Lemma steady_mounts s : update_mounts false (poll_mounts s) s = (s, []).
Proof.
  destruct s as [? ? ? ? mounts ? ? ? ? ? ? ? ?]. unfold update_mounts. cbn.
  assert (List.filter (absent_from mounts) (map_iter mounts) = []) as ->; [|done].
  apply filter_none. intros [key x] Hx%elem_of_map_iter. unfold absent_from. cbn. by rewrite Hx.
Qed.

Lemma unchanged_filter (value : gmap string bool) :
  List.filter (changed false value) (map_iter value) = [].
Proof.
  apply filter_none. intros [key b] Hx%elem_of_map_iter. unfold changed, eqb. cbn.
  by rewrite Hx, bool_decide_true.
Qed.

Lemma steady_processes s : update_processes false (poll_processes s) s = (s, []).
Proof. unfold update_processes. rewrite unchanged_filter. by destruct s. Qed.

Lemma steady_services s : update_services false (poll_services s) s = (s, []).
Proof. unfold update_services. rewrite unchanged_filter. by destruct s. Qed.

(** C24: A second polling cycle on a machine that answers as in the first changes nothing of
    the state and reports nothing, except that a file under integrity monitoring that cannot
    be read is reported again. *)
Theorem unchanged_machine_quiet m s :
  cycle m (cycle m s).1
  = ((cycle m s).1,
     if req_integrity v then unreadable m config_path ++ unreadable m executable else []).
Proof.
  unfold poll_cycle at 1. rewrite cycle_initialized. cbn [negb].
  repeat (apply (steady_seq _ _ _ []);
    [apply steady_when; intros Hr; apply (steady_probe m);
       [unfold polled_sensors; set_solver|exact Hr|reflexivity|intros x Ho]|]).
  - by apply steady_wifi, cycle_wifi.
  - by apply steady_network, cycle_network.
  - rewrite <- (cycle_usb m x s Hr Ho) at 1. apply steady_usb.
  - rewrite <- (cycle_mounts v config_path executable m x s Hr Ho) at 1. apply steady_mounts.
  - rewrite <- (cycle_processes v config_path executable m x s Hr Ho) at 1. apply steady_processes.
  - rewrite <- (cycle_services v config_path executable m x s Hr Ho) at 1. apply steady_services.
  - rewrite <- (cycle_ports v config_path executable m x s Hr Ho) at 1. apply steady_ports.
  - by apply steady_session, cycle_session.
  - by apply steady_power, cycle_power.
  - match goal with |- _ = (_, ?reports) => rewrite <- (app_nil_r reports) end.
    apply steady_seq; [apply steady_integrity|].
    pose proof (cycle_initialized v config_path executable m s) as Hi.
    by destruct (cycle m s).1; cbn in *; subst.
Qed.
End runs.
