(* ===== verification/PollingFixtures.v ===== *)
(** * Machines

    Concrete machines on which the theorems about polling are instantiated,
    and behaviours of the polling task that they show. *)

From stdpp Require Import base tactics option list strings gmap.
From Stdlib Require Import ZArith Lia Ascii.
From S2P Require Import Prelude RustStr RustPath Config Event Matching Engine EngineRun Fixtures.
From S2P Require Import Validation ConfigFixtures Requirements AuditBytes AuditFixtures Utf8 Text.
From S2P Require Import Order Probes ProbesProps Polling PollingProps Monitor PollingFailures.
Local Open Scope Z_scope.
Local Open Scope stdpp_scope.
Local Open Scope kovert_scope.

Definition line_of (text : string) : string := text +:+ char_text newline_char.

(** A mount on [/media/usb disk] and the root. *)
Definition usb_disk : MountEntry :=
  mkMountEntry ("36", "25", "8:17", "/") "/media/usb disk" ["rw"; "shared:1"] "vfat" "/dev/sdb1"
    true "rw".
Definition root_disk : MountEntry :=
  mkMountEntry ("25", "1", "8:1", "/") "/" ["rw"] "ext4" "/dev/sda1" true "rw".

(** Sources the kernel lets through: one with a hash, and an empty one. *)
Definition hash_disk : MountEntry :=
  mkMountEntry ("40", "25", "0:41", "/") "/mnt/a" ["rw"] "tmpfs" "#scratch" true "rw,size=4k".
Definition nameless_disk : MountEntry :=
  mkMountEntry ("41", "25", "0:42", "/") "/mnt/b" ["rw"] "tmpfs" EmptyString true "rw,size=4k".

(** The sockets of a machine: SSH listening, a connection to it. *)
Definition socket_row (number local : string) (port : Z) (remote state : string) : SocketEntry :=
  mkSocketEntry 3 number local port remote state
    [(0%nat, "00000000:00000000"); (0%nat, "00:00000000"); (0%nat, "00000000"); (4%nat, "0");
     (7%nat, "0"); (0%nat, "706"); (0%nat, "1"); (0%nat, "00000000e5ee2c30"); (0%nat, "100");
     (0%nat, "0"); (0%nat, "0"); (0%nat, "10"); (0%nat, "0")] 23.
Definition ssh_socket : SocketEntry := socket_row "0:" "00000000" 22 "00000000:0000" "0A".
Definition ssh_connection : SocketEntry := socket_row "1:" "0100007F" 8022 "0100007F:9999" "01".

(** A row of [/proc/net/tcp] as Linux prints it. *)
Example kernel_row :
  socket_line (socket_row "0:" "00000000" 2024 "00000000:0000" "0A")
  = "   0: 00000000:07E8 00000000:0000 0A 00000000:00000000 00:00000000 00000000     0        0 706 1 00000000e5ee2c30 100 0 0 10 0                       ".
Proof. vm_compute. reflexivity. Qed.

Definition socket_header : string :=
  "  sl  local_address rem_address   st tx_queue rx_queue tr tm->when retrnsmt   uid  timeout inode                                                     ".
Definition fixture_tables (path : PathBuf) : list SocketEntry :=
  if eqb path "/proc/net/tcp" then [ssh_socket; ssh_connection] else [].

(** A machine with these mounts, on which [nmcli] succeeds or not. *)
Definition machine (mounts : list MountEntry) (nmcli : bool) : Machine := {|
  m_is_file := fun path => starts_with path "/usr/bin/";
  m_exists := fun _ => false;
  m_read_dir := fun path =>
    if eqb path "/proc" then Ok [Ok "1"; Ok "self"; Ok "42"] else Err "No such file or directory";
  m_read_to_string := fun path =>
    if eqb path "/proc/self/mountinfo" then Ok (unlines (map mount_line mounts))
    else if eqb path "/proc/42/comm" then Ok (line_of "gdb")
    else if eqb path "/proc/1/comm" then Ok (line_of "systemd")
    else if list_contains (map fst socket_tables) path
         then Ok (unlines (socket_header :: map socket_line (fixture_tables path)))
    else Err "No such file or directory";
  m_read := fun path => if eqb path "/etc/kovert/config.toml" then Ok "version = 1"
                        else Err "Permission denied";
  m_run := fun tool _ =>
    if eqb tool "/usr/bin/nmcli"
    then Ok (nmcli, line_of "no:cafe:00\:11" +:+ line_of "yes:office\:5G:AA\:BB")
    else Ok (true, EmptyString);
|}.

Definition probed_machine : Machine := machine [root_disk; usb_disk] true.

Lemma probe_mounts_roundtrip_witness :
  probe_mounts probed_machine = Ok (mount_table [root_disk; usb_disk])
  /\ (forall key, is_Some (mount_table [root_disk; usb_disk] !! key)
        <-> exists e, e ∈ [root_disk; usb_disk] /\ components (entry_point e) = key)
  /\ forall e, e ∈ [root_disk; usb_disk] -> plain_source e -> reported_source e = entry_source e.
Proof.
  apply (probe_mounts_roundtrip probed_machine [root_disk; usb_disk]); [reflexivity|].
  repeat constructor; try done; vm_compute; set_solver.
Defined.

Lemma probe_ports_exact_witness :
  exists open, probe_ports probed_machine {[(NetworkProtocol.Tcp, 22); (NetworkProtocol.Tcp, 8022)]} = Ok open
    /\ forall protocol port, (protocol, port) ∈ open <->
      (protocol, port) ∈ ({[(NetworkProtocol.Tcp, 22); (NetworkProtocol.Tcp, 8022)]} : gset (NetworkProtocol * Z))
      /\ exists path e, (path, protocol) ∈ socket_tables /\ e ∈ fixture_tables path
           /\ socket_port e = port /\ listening protocol e = true.
Proof.
  apply (probe_ports_exact probed_machine _ fixture_tables).
  intros path protocol Hin. right. exists socket_header.
  unfold socket_tables in Hin. rewrite !elem_of_cons, elem_of_nil in Hin.
  destruct_or! Hin; simplify_eq; (split; [reflexivity|]);
    repeat split; try done; repeat constructor; try done; vm_compute; done.
Defined.

(** A rule that asks for a mount, and its configuration. *)
Definition vault_condition : ConditionSpec :=
  ConditionSpec.All [ConditionSpec.Mounted "/media/usb disk" true;
                     ConditionSpec.SensorHealthy "wifi" true].
Definition vault_rule : Rule := {|
  rule_id := "vault"; rule_description := EmptyString; rule_enabled := true; rule_priority := 1;
  rule_cooldown := 0; rule_sustain_for := 0; rule_once_per_boot := false;
  rule_on_sensor_failure := SensorFailurePolicy.Alert;
  rule_trigger := TriggerSpec.Mount None None; rule_when := Some vault_condition;
  rule_actions := [ActionSpec.LockVault "documents"];
|}.
Definition vault_config : Config := config_with [vault_rule].
Definition vault_needs : SensorRequirements := from_config vault_config.

Abbreviation vault_cycle m := (poll_cycle vault_needs "/etc/kovert/config.toml" "/usr/bin/kovertd" m).

(** The reports as events. *)
Definition stamp (now : Z) (report : Report) : Event := Event_new "e" now report.1 report.2.
Definition observe (now : Z) (m : Machine) (at_ : PollState * SystemSnapshot)
    : PollState * SystemSnapshot :=
  let (s, reports) := vault_cycle m at_.1 in
  (s, apply_all at_.2 (map (stamp now) reports)).
Definition observe_all (ms : list Machine) (at_ : PollState * SystemSnapshot)
    : PollState * SystemSnapshot :=
  fold_left (fun st m => observe 1 m st) ms at_.
Definition started : PollState * SystemSnapshot :=
  (PollState_default, SystemSnapshot_default 0).

Lemma conditions_reflect_machine_witness :
  let events := map (stamp 1) (vault_cycle probed_machine PollState_default).2 in
  let snap := apply_all (set_snapshot_mode "normal" (SystemSnapshot_default 0)) events in
  condition_matches vault_condition snap = true
  /\ condition_matches vault_condition snap
     = condition_matches vault_condition (current vault_needs probed_machine snap).
Proof.
  split; [vm_compute; reflexivity|].
  apply (conditions_reflect_machine vault_config "/etc/kovert/config.toml" "/usr/bin/kovertd"
           vault_rule vault_condition true PollState_default
           (set_snapshot_mode "normal" (SystemSnapshot_default 0)) probed_machine).
  - vm_compute. left.
  - reflexivity.
  - apply monitored_start.
  - by left.
  - unfold carries. rewrite List.map_map. reflexivity.
Defined.

(** ** Behaviours of the task *)

(** A sensor that fails for a cycle and then answers as before is reported by
    no event, so the snapshot keeps it unhealthy. *)
Theorem recovered_sensor_unhealthy :
  let snap := (observe_all [probed_machine; machine [root_disk; usb_disk] false; probed_machine]
                 started).2 in
  probe_wifi probed_machine = Ok (mkWifiState true (Some "office:5G") (Some "AA:BB"))
  /\ (snap_wifi_connected snap, snap_wifi_ssid snap) = (true, Some "office:5G")
  /\ snap_sensor_health snap !! "wifi" = Some false
  /\ condition_matches (ConditionSpec.SensorHealthy "wifi" true) snap = false.
Proof. vm_compute. done. Qed.

(** A task started anew on a snapshot, as after a reload or a lost cycle, never
    reports the mounts that went away in between: the snapshot keeps them. *)
Theorem restart_keeps_stale_mount :
  let before := (observe_all [probed_machine] started).2 in
  let snap := (observe_all [machine [root_disk] true; machine [root_disk] true]
                 (PollState_default, before)).2 in
  probe_mounts (machine [root_disk] true) = Ok (mount_table [root_disk])
  /\ condition_matches (ConditionSpec.Mounted "/media/usb disk" true) snap = true.
Proof. vm_compute. done. Qed.

(** A no-break space in a mount point: white space to the sensor, and not
    escaped by the kernel. *)
Definition no_break_space : string := String "194" (String "160" EmptyString).
Definition named_disk : MountEntry :=
  mkMountEntry ("36", "25", "8:17", "/") ("/media/my" +:+ (no_break_space +:+ "disk")) ["rw"]
    "vfat" "/dev/sdb1" true "rw".

Theorem mount_point_truncated :
  exists mounts, probe_mounts (machine [named_disk] true) = Ok mounts
    /\ mounts !! components (entry_point named_disk) = None
    /\ mounts !! components "/media/my" = Some ("/media/my", Some "/dev/sdb1").
Proof. eexists. repeat split; vm_compute; reflexivity. Qed.

(** The source with a hash is reported with the kernel's escape in it, and in
    place of the empty source the options of the file system. *)
Theorem mount_source_garbled :
  exists mounts, probe_mounts (machine [hash_disk; nameless_disk] true) = Ok mounts
    /\ mounts !! components "/mnt/a" = Some ("/mnt/a", Some "\043scratch")
    /\ mounts !! components "/mnt/b" = Some ("/mnt/b", Some "rw,size=4k").
Proof. eexists. repeat split; vm_compute; reflexivity. Qed.
