(* ===== verification/SensorHub.v ===== *)
(** * Starting the sensors ([kovert-sensors/src/lib.rs])

    [SensorHub::start], with the start of a hotkey task ([hotkey::spawn]) and
    of the polling task ([polling::spawn]). What the kernel and the crates [notify]
    and [evdev] answer is a parameter of each start. *)

From stdpp Require Import base tactics option list strings gmap.
From Stdlib Require Import ZArith Lia Ascii.
From S2P Require Import Prelude RustStr RustPath Config Event Matching Validation Hotkey.
From S2P Require Import Requirements Filesystem.
Local Open Scope Z_scope.
Local Open Scope stdpp_scope.
Local Open Scope kovert_scope.

(** A started task. *)
Inductive SensorHandle :=
| FilesystemTask (watches : gmap (list Component) (PathBuf * bool))
| HotkeyTask (name : string) (sequence : list Z) (within : Duration)
| PollingTask (requirements : SensorRequirements) (interval : Duration).

(** The answers during one start: to the file watcher, opening an input device
    as an event stream, the path of the executable. *)
Record SensorHost := mkSensorHost {
  sensor_watcher : WatchHost;
  sensor_device : PathBuf -> Result unit;
  sensor_stream : PathBuf -> Result unit;
  sensor_current_exe : Result unit;
}.

(** [filesystem::spawn], with its task. *)
Definition start_filesystem (host : SensorHost) (watches : gmap (list Component) (PathBuf * bool))
    : Result SensorHandle :=
  let? _ := spawn_filesystem (sensor_watcher host) watches in
  Ok (FilesystemTask watches).

(** [hotkey::spawn]. *)
Definition spawn_hotkey (host : SensorHost) (config : HotkeyConfig) : Result SensorHandle :=
  let? sequence := sequence_codes (hotkey_sequence config) in
  let? _ := with_message (sensor_device host (hotkey_device config))
              ("open input device " +:+ hotkey_device config) in
  let? _ := with_message (sensor_stream host (hotkey_device config))
              "create asynchronous input stream" in
  Ok (HotkeyTask (hotkey_name config) sequence (hotkey_within config)).

(** [polling::spawn]. *)
Definition spawn_polling (host : SensorHost) (requirements : SensorRequirements)
    (interval : Duration) : Result SensorHandle :=
  let? _ := with_message (sensor_current_exe host) "resolve current executable" in
  Ok (PollingTask requirements interval).

(** The loop over the hotkeys: a hotkey that cannot start is reported as a
    sensor failure and skipped. *)
Fixpoint start_hotkeys (host : SensorHost) (hotkeys : list HotkeyConfig)
    : list SensorHandle * list EventKind :=
  match hotkeys with
  | [] => ([], [])
  | hotkey :: hotkeys =>
      let (handles, sent) := start_hotkeys host hotkeys in
      match spawn_hotkey host hotkey with
      | Ok handle => (handle :: handles, sent)
      | Err error => (handles, EventKind.SensorFailure "hotkeys" error :: sent)
      end
  end.

(** [SensorHub::start]: the started tasks, or the error, and the events offered
    to the channel. *)
Definition start (host : SensorHost) (config : Config)
    : Result (list SensorHandle) * list EventKind :=
  let requirements := from_config config in
  let watcher :=
    if bool_decide (req_file_watches requirements = ∅) then Ok []
    else let? handle := start_filesystem host (req_file_watches requirements) in Ok [handle] in
  match watcher with
  | Err error => (Err error, [])
  | Ok handles =>
      let (hotkeys, sent) := start_hotkeys host (config_hotkeys config) in
      match spawn_polling host requirements (daemon_poll_interval (config_daemon config)) with
      | Err error => (Err error, sent)
      | Ok polling => (Ok (handles ++ hotkeys ++ [polling]), sent)
      end
  end.
