(* ===== verification/Runtime.v ===== *)
(** * The daemon's runtime ([kovert-daemon/src/runtime.rs])

    The state of [Runtime] and its operations, over the audit store, the
    policy engine, the executor and the sensors. A panic of the engine is a
    panic of the operation that called it. *)

From stdpp Require Import base tactics option list strings gmap pretty.
From Stdlib Require Import ZArith Lia Ascii.
From S2P Require Import Prelude RustStr RustPath Config Event Matching Engine Validation Effects.
From S2P Require Import Json AuditBytes AuditStore Host Evidence Actions Ipc ConfigLoader SensorHub.
Local Open Scope Z_scope.
Local Open Scope stdpp_scope.

Record Runtime := mkRuntime {
  rt_config_path : PathBuf;
  rt_allow_unsafe_config : bool;
  rt_config : Config;
  rt_engine : PolicyEngine;
  rt_executor : ExecutionContext;
  rt_audit : Db;
  rt_max_records : Z;
  rt_host : History;
  rt_handles : list SensorHandle;
  rt_sent : list EventKind;
}.

Definition set_config (v : Config) (rt : Runtime) : Runtime :=
  mkRuntime (rt_config_path rt) (rt_allow_unsafe_config rt) v (rt_engine rt) (rt_executor rt)
    (rt_audit rt) (rt_max_records rt) (rt_host rt) (rt_handles rt) (rt_sent rt).
Definition set_engine (v : PolicyEngine) (rt : Runtime) : Runtime :=
  mkRuntime (rt_config_path rt) (rt_allow_unsafe_config rt) (rt_config rt) v (rt_executor rt)
    (rt_audit rt) (rt_max_records rt) (rt_host rt) (rt_handles rt) (rt_sent rt).
Definition set_executor (v : ExecutionContext) (rt : Runtime) : Runtime :=
  mkRuntime (rt_config_path rt) (rt_allow_unsafe_config rt) (rt_config rt) (rt_engine rt) v
    (rt_audit rt) (rt_max_records rt) (rt_host rt) (rt_handles rt) (rt_sent rt).
Definition set_audit (v : Db) (rt : Runtime) : Runtime :=
  mkRuntime (rt_config_path rt) (rt_allow_unsafe_config rt) (rt_config rt) (rt_engine rt)
    (rt_executor rt) v (rt_max_records rt) (rt_host rt) (rt_handles rt) (rt_sent rt).
Definition set_host (v : History) (rt : Runtime) : Runtime :=
  mkRuntime (rt_config_path rt) (rt_allow_unsafe_config rt) (rt_config rt) (rt_engine rt)
    (rt_executor rt) (rt_audit rt) (rt_max_records rt) v (rt_handles rt) (rt_sent rt).
Definition set_handles (v : list SensorHandle) (rt : Runtime) : Runtime :=
  mkRuntime (rt_config_path rt) (rt_allow_unsafe_config rt) (rt_config rt) (rt_engine rt)
    (rt_executor rt) (rt_audit rt) (rt_max_records rt) (rt_host rt) v (rt_sent rt).
Definition add_sent (v : list EventKind) (rt : Runtime) : Runtime :=
  mkRuntime (rt_config_path rt) (rt_allow_unsafe_config rt) (rt_config rt) (rt_engine rt)
    (rt_executor rt) (rt_audit rt) (rt_max_records rt) (rt_host rt) (rt_handles rt)
    (rt_sent rt ++ v).

(** The derived serializers, fresh identifiers, and the file system and
    sensors at a time (counted in statements of the audit store). *)
Class RuntimeEnv := {
  package_version : string;
  event_json : Event -> Result Json;
  action_json : ActionSpec -> Result Json;
  action_bytes : ActionSpec -> Result string;
  outcome_json : ActionOutcome -> Result Json;
  snapshot_json : SystemSnapshot -> Result Json;
  rules_json : list Rule -> Result Json;
  records_json : list AuditRecord -> Result Json;
  uuid_new : nat -> Uuid;
  config_files : nat -> ConfigFiles;
  sensor_host : nat -> SensorHost;
}.

(** [executor_for]. *)
Definition executor_for (config : Config) : ExecutionContext := {|
  ctx_dry_run := daemon_dry_run (config_daemon config);
  ctx_command_timeout := daemon_command_timeout (config_daemon config);
  ctx_allowed_executables :=
    list_to_set (map components (daemon_allowed_executables (config_daemon config)));
  ctx_managed_processes := list_to_set (daemon_managed_processes (config_daemon config));
  ctx_vaults := config_vaults config;
  ctx_desktop_notifications := daemon_desktop_notifications (config_daemon config);
|}.

(** The mode of a new runtime without a stored one. *)
Definition configured_mode (config : Config) : string :=
  match List.find mode_initial (config_modes config) with
  | Some mode => mode_name mode
  | None => match config_modes config with
            | mode :: _ => mode_name mode
            | [] => "normal"
            end
  end.

Definition known_mode (config : Config) (mode : string) : bool :=
  existsb (fun item => eqb (mode_name item) mode) (config_modes config).

(** The stored mode, when the configuration still allows it. *)
Definition initial_mode (config : Config) (stored : option string) : string :=
  match stored with
  | Some mode =>
      if match config_modes config with [] => true | _ => false end || known_mode config mode
      then mode else configured_mode config
  | None => configured_mode config
  end.

Section runtime.
Context `{EngineEnv} `{Regex} `{Toml} `{DbEnv} `{Blake3} `{SerdeJson}.
Context `{Host} `{EvidenceText} `{ActionText} `{RuntimeEnv}.

Definition audit {A} (m : M Db A) : M Runtime A := zoom rt_audit set_audit m.
Definition on_host {A} (m : M History A) : M Runtime A := zoom rt_host set_host m.

Definition audit_append (event_id : option string) (kind : string) (rule_id : option string)
    (payload : Json) : M Runtime unit :=
  rt ← get;
  audit (append (rt_max_records rt) event_id kind rule_id payload);;
  mret tt.

(** [Runtime::new]; [started_at] is the clock of the engine's first snapshot. *)
Definition Runtime_new (config_path : PathBuf) (allow_unsafe_config : bool) (config : Config)
    (max_records : Z) (handles : list SensorHandle) (started_at : DateTime) : M Db Runtime :=
  stored_mode ← get_state "mode";
  let engine := PolicyEngine_new (config_rules config) (initial_mode config stored_mode)
                  started_at in
  recovery ← get_state "recovery_mode";
  let engine := set_recovery_mode (is_some_and recovery (eqb "true")) engine in
  db ← get;
  mret (mkRuntime config_path allow_unsafe_config config engine (executor_for config) db
          max_records [] handles []).

Definition apply_effect (effect : ActionEffect) : M Runtime unit :=
  match effect with
  | ActionEffect.SetMode mode =>
      modify (fun rt => set_engine (set_mode mode (rt_engine rt)) rt);;
      audit (set_state "mode" mode)
  | ActionEffect.NetworkIsolation enabled =>
      audit (set_state "network_isolated" (if enabled then "true" else "false"))
  | ActionEffect.None => mret tt
  end.

(** The handling of what the executor returned. *)
Definition finish_plan (event_id rule_id action_hash : string) (outcome : ActionOutcome)
    : M Runtime unit :=
  outcome_value ← lift_result (outcome_json outcome);
  audit (record_action event_id rule_id action_hash
           (if outcome_success outcome then "succeeded" else "failed") (Some outcome_value));;
  audit_append (Some event_id)
    (if outcome_success outcome then "action_succeeded" else "action_failed") (Some rule_id)
    outcome_value;;
  if outcome_success outcome && negb (outcome_dry_run outcome)
  then apply_effect (outcome_effect outcome) else mret tt.

Definition fail_plan (event_id rule_id action_hash : string) (error : string) : M Runtime unit :=
  let outcome := Json.Object [("error", Json.String error)] in
  audit (record_action event_id rule_id action_hash "failed" (Some outcome));;
  audit_append (Some event_id) "action_failed" (Some rule_id) outcome.

(** The execution of a plan that was not completed before: recorded as started
    and audited, then run. *)
Definition attempt_plan (event : Event) (plan : ActionPlan) (action_hash : string)
    : M Runtime unit :=
  let id := event_id event in
  let rule_id := plan_rule_id plan in
  audit (record_action id rule_id action_hash "started" None);;
  action_value ← lift_result (action_json (plan_action plan));
  audit_append (Some id) "action_started" (Some rule_id) action_value;;
  rt ← get;
  try_catch (on_host (execute_action (rt_executor rt) (plan_action plan) event))
    (finish_plan id rule_id action_hash)
    (fail_plan id rule_id action_hash).

(** [execute_plan]; the ledger key of the action is
    [blake3::hash(&action_bytes).to_hex()]. *)
Definition execute_plan (event : Event) (plan : ActionPlan) : M Runtime unit :=
  bytes ← lift_result (action_bytes (plan_action plan));
  let action_hash := blake3_hex bytes in
  completed ← audit (action_completed (event_id event) (plan_rule_id plan) action_hash);
  if completed : bool then mret tt else attempt_plan event plan action_hash.

(** [self.engine.handle(&event)]. *)
Definition engine_handle (event : Event) : M Runtime (list ActionPlan) := fun rt =>
  match handle (rt_engine rt) event with
  | Some (engine, plans) => (Return plans, set_engine engine rt)
  | None => (Panic, rt)
  end.

Definition process_event (event : Event) : M Runtime Z :=
  value ← lift_result (event_json event);
  audit_append (Some (event_id event)) "event" None value;;
  plans ← engine_handle event;
  for_each (execute_plan event) plans;;
  mret (Z.of_nat (length plans)).

(** [reload]. The sensors that started are the new ones even when a later step
    fails; the ones running before are then aborted. *)
Definition reload : M Runtime unit :=
  rt ← get;
  let time := db_count (rt_audit rt) in
  config ← lift_result (load (config_files time) (rt_config_path rt) (rt_allow_unsafe_config rt));
  let (started, sent) := start (sensor_host time) config in
  modify (add_sent sent);;
  new_handles ← with_context "restart sensors" (lift_result started);
  modify (set_handles new_handles);;
  modify (fun rt => set_engine (replace_rules (config_rules config) (rt_engine rt)) rt);;
  modify (set_executor (executor_for config));;
  modify (set_config config);;
  rt ← get;
  audit_append None "configuration_reloaded" None
    (Json.Object [("rules", Json.Number (Z.of_nat (length (engine_rules (rt_engine rt)))))]).

(** A serialization inside [json!], which panics on an error. *)
Definition json_value (r : Result Json) : M Runtime Json :=
  match r with Ok v => mret v | Err _ => panic end.

Fixpoint plan_values (plans : list ActionPlan) : M Runtime (list Json) :=
  match plans with
  | [] => mret []
  | plan :: plans =>
      action ← json_value (action_json (plan_action plan));
      rest ← plan_values plans;
      mret (Json.Object [("rule_id", Json.String (plan_rule_id plan));
                         ("priority", Json.Number (plan_priority plan)); ("action", action)]
            :: rest)
  end.

Definition handle_control_result (request : Request) : M Runtime Response :=
  match request with
  | Request.Status =>
      rt ← get;
      snapshot ← json_value (snapshot_json (engine_snapshot (rt_engine rt)));
      mret (success "Kovert is running"
              (Some (Json.Object
                 [("version", Json.String package_version);
                  ("dry_run", Json.Bool (daemon_dry_run (config_daemon (rt_config rt))));
                  ("recovery_mode", Json.Bool (engine_recovery_mode (rt_engine rt)));
                  ("rules", Json.Number (Z.of_nat (length (engine_rules (rt_engine rt)))));
                  ("snapshot", snapshot)])))
  | Request.Rules =>
      rt ← get;
      rules ← lift_result (rules_json (engine_rules (rt_engine rt)));
      mret (success "active rules" (Some rules))
  | Request.Audit limit =>
      records ← audit (recent limit);
      value ← lift_result (records_json records);
      mret (success "audit records" (Some value))
  | Request.Reload => reload;; mret (success "configuration reloaded" None)
  | Request.Trigger name =>
      rt ← get;
      let time := db_count (rt_audit rt) in
      count ← process_event (Event_new (uuid_new time) (utc_now time) "manual"
                               (EventKind.Manual name));
      mret (success ("manual event processed; " +:+ pretty count +:+ " action(s) planned") None)
  | Request.Simulate event =>
      rt ← get;
      match handle (rt_engine rt) event with
      | None => panic
      | Some (_, plans) =>
          values ← plan_values plans;
          mret (success ("simulation produced " +:+ pretty (Z.of_nat (length plans))
                         +:+ " action(s)") (Some (Json.Object [("plans", Json.Array values)])))
      end
  | Request.SetMode mode =>
      rt ← get;
      require (known_mode (rt_config rt) mode) ("unknown security mode " +:+ mode);;
      modify (fun rt => set_engine (set_mode mode (rt_engine rt)) rt);;
      audit (set_state "mode" mode);;
      audit_append None "mode_changed" None (Json.Object [("mode", Json.String mode)]);;
      mret (success "security mode changed" None)
  | Request.Recovery enabled =>
      modify (fun rt => set_engine (set_recovery_mode enabled (rt_engine rt)) rt);;
      audit (set_state "recovery_mode" (if enabled then "true" else "false"));;
      audit_append None "recovery_mode_changed" None
        (Json.Object [("enabled", Json.Bool enabled)]);;
      mret (success (if enabled then "recovery mode enabled; automatic rules are suspended"
                     else "recovery mode disabled; automatic rules are active") None)
  | Request.VerifyAudit =>
      verified ← audit verify;
      mret (success ("verified " +:+ pretty verified +:+ " audit record(s)")
              (Some (Json.Object [("verified", Json.Number verified)])))
  end.

Definition handle_control (request : Request) : M Runtime Response :=
  try_catch (handle_control_result request) mret (fun e => mret (error e)).

(** What wakes the loop of [run]. *)
Inductive Input :=
| EventInput (event : Event)
| ControlInput (request : Request).

(** One turn of the loop: an error of an event is logged, a control request is
    answered. *)
Definition run_input (input : Input) : M Runtime (option Response) :=
  match input with
  | EventInput event =>
      try_catch (process_event event) (fun _ => mret None) (fun _ => mret None)
  | ControlInput request => response ← handle_control request; mret (Some response)
  end.

Fixpoint run_inputs (inputs : list Input) : M Runtime (list (option Response)) :=
  match inputs with
  | [] => mret []
  | input :: inputs =>
      response ← run_input input;
      responses ← run_inputs inputs;
      mret (response :: responses)
  end.

(** [Runtime::run] on the inputs that arrive before the shutdown. *)
Definition run (inputs : list Input) : M Runtime (list (option Response)) :=
  rt ← get;
  audit_append None "daemon_started" None
    (Json.Object [("version", Json.String package_version);
                  ("dry_run", Json.Bool (daemon_dry_run (config_daemon (rt_config rt))));
                  ("recovery_mode", Json.Bool (engine_recovery_mode (rt_engine rt)))]);;
  responses ← run_inputs inputs;
  audit_append None "daemon_stopped" None (Json.Object [("graceful", Json.Bool true)]);;
  mret responses.
End runtime.
