(* ===== verification/Server.v ===== *)
(** * The control socket ([kovert-daemon/src/server.rs]) and the daemon's loop

    The connections, the channels and the runtime as one transition system:
    the tasks of [serve], one per connection, send their requests through a
    bounded channel to the loop of [Runtime::run], which takes them and the
    events of the sensors one at a time. *)

From stdpp Require Import base tactics option list strings gmap pretty.
From Stdlib Require Import ZArith Lia Ascii.
From S2P Require Import Prelude RustStr RustPath Config Event Matching Engine Validation Effects.
From S2P Require Import Json AuditBytes AuditStore Host Evidence Actions Ipc ConfigLoader SensorHub.
From S2P Require Import Runtime.
Local Open Scope Z_scope.
Local Open Scope stdpp_scope.
Local Open Scope kovert_scope.

(** [serde_json] on the protocol's messages. *)
Class IpcSerde := {
  envelope_to_vec : RequestEnvelope -> Result string;
  envelope_from_slice : string -> Result RequestEnvelope;
  response_to_vec : Response -> Result string;
  response_from_slice : string -> Result Response;
}.

Definition MAX_REQUEST_SIZE : Z := 1024 * 1024.
Definition MAX_CLIENTS : nat := 64.
Definition CONTROL_BUFFER : nat := 64.

Definition byte_len (s : string) : Z := Z.of_nat (String.length s).

(** [take(limit).read_to_end(..)] on what the peer sent before it closed its
    side. *)
Fixpoint take_bytes (limit : Z) (s : string) : string :=
  match s with
  | EmptyString => EmptyString
  | String c s => if limit <=? 0 then EmptyString else String c (take_bytes (limit - 1) s)
  end.

(** What a connection does with its input: pass the request on, answer at
    once, or close. *)
Inductive Verdict :=
| Serve (request : Request)
| Refuse (response : Response)
| Hangup (error : string).

Section decide.
Context `{IpcSerde}.

Definition decide_request (sent : string) : Verdict :=
  let input := take_bytes (MAX_REQUEST_SIZE + 1) sent in
  if MAX_REQUEST_SIZE <? byte_len input then Refuse (error "request exceeds 1 MiB")
  else match envelope_from_slice input with
       | Err _ => Hangup "parse control request"
       | Ok envelope =>
           if negb (envelope_version envelope =? IPC_VERSION) then
             Refuse (error ("unsupported protocol version " +:+ pretty (envelope_version envelope)
                            +:+ "; daemon supports " +:+ pretty IPC_VERSION))
           else Serve (envelope_request envelope)
       end.

(** [write_response]: what the peer receives. *)
Definition response_bytes (response : Response) : Result string :=
  let? bytes := response_to_vec response in Ok (bytes +:+ newline).
End decide.

(** ** The transition system *)

(** A connection: reading its request, waiting for room in the channel,
    waiting for the response, writing it. *)
Inductive Client :=
| Reading
| Sending (request : Request)
| Waiting
| Replying (response : Response).

Record Daemon := mkDaemon {
  dm_runtime : Runtime;
  dm_events : list Event;
  dm_controls : list (nat * Request);
  dm_clients : gmap nat Client;
  dm_next : nat;
  dm_panicked : bool;
}.

Definition Daemon_new (rt : Runtime) : Daemon := mkDaemon rt [] [] ∅ 0 false.

Inductive Label :=
| Sense (event : Event)
| Accept (client : nat)
| TurnAway
| Receive (client : nat) (sent : string)
| Enqueue (client : nat) (request : Request)
| RunEvent (event : Event)
| RunControl (client : nat) (request : Request) (response : Response)
| Reply (client : nat) (response : Response)
| Drop (client : nat)
| Crash (input : Input).

(** After the input was decided. *)
Definition decided (verdict : Verdict) (client : nat) (clients : gmap nat Client)
    : gmap nat Client :=
  match verdict with
  | Serve request => <[client := Sending request]> clients
  | Refuse response => <[client := Replying response]> clients
  | Hangup _ => delete client clients
  end.

(** [control.response.send(response)], ignored when the connection is gone. *)
Definition answer (client : nat) (response : Response) (clients : gmap nat Client)
    : gmap nat Client :=
  match clients !! client with
  | Some Waiting => <[client := Replying response]> clients
  | _ => clients
  end.

Section server.
Context `{EngineEnv} `{Regex} `{Toml} `{DbEnv} `{Blake3} `{SerdeJson}.
Context `{Host} `{EvidenceText} `{ActionText} `{RuntimeEnv} `{IpcSerde}.
Context (event_buffer : nat).

Inductive step : Daemon -> Label -> Daemon -> Prop :=
| step_sense rt events controls clients next event :
    (length events < event_buffer)%nat ->
    step (mkDaemon rt events controls clients next false) (Sense event)
         (mkDaemon rt (events ++ [event]) controls clients next false)
| step_accept rt events controls clients next :
    (size clients < MAX_CLIENTS)%nat ->
    step (mkDaemon rt events controls clients next false) (Accept next)
         (mkDaemon rt events controls (<[next := Reading]> clients) (S next) false)
| step_turn_away rt events controls clients next :
    (MAX_CLIENTS <= size clients)%nat ->
    step (mkDaemon rt events controls clients next false) TurnAway
         (mkDaemon rt events controls clients next false)
| step_receive rt events controls clients next client sent :
    clients !! client = Some Reading ->
    step (mkDaemon rt events controls clients next false) (Receive client sent)
         (mkDaemon rt events controls (decided (decide_request sent) client clients) next false)
| step_enqueue rt events controls clients next client request :
    clients !! client = Some (Sending request) -> (length controls < CONTROL_BUFFER)%nat ->
    step (mkDaemon rt events controls clients next false) (Enqueue client request)
         (mkDaemon rt events (controls ++ [(client, request)]) (<[client := Waiting]> clients)
            next false)
| step_event rt rt' event events controls clients next :
    run_input (EventInput event) rt = (Return None, rt') ->
    step (mkDaemon rt (event :: events) controls clients next false) (RunEvent event)
         (mkDaemon rt' events controls clients next false)
| step_control rt rt' client request response events controls clients next :
    run_input (ControlInput request) rt = (Return (Some response), rt') ->
    step (mkDaemon rt events ((client, request) :: controls) clients next false)
         (RunControl client request response)
         (mkDaemon rt' events controls (answer client response clients) next false)
| step_reply rt events controls clients next client response :
    clients !! client = Some (Replying response) ->
    step (mkDaemon rt events controls clients next false) (Reply client response)
         (mkDaemon rt events controls (delete client clients) next false)
| step_drop rt events controls clients next client state :
    clients !! client = Some state ->
    step (mkDaemon rt events controls clients next false) (Drop client)
         (mkDaemon rt events controls (delete client clients) next false)
| step_crash_event rt rt' event events controls clients next :
    run_input (EventInput event) rt = (Panic, rt') ->
    step (mkDaemon rt (event :: events) controls clients next false) (Crash (EventInput event))
         (mkDaemon rt' events controls clients next true)
| step_crash_control rt rt' client request events controls clients next :
    run_input (ControlInput request) rt = (Panic, rt') ->
    step (mkDaemon rt events ((client, request) :: controls) clients next false)
         (Crash (ControlInput request))
         (mkDaemon rt' events controls clients next true).

Inductive steps : Daemon -> list Label -> Daemon -> Prop :=
| steps_nil d : steps d [] d
| steps_snoc d labels d' label d'' :
    steps d labels d' -> step d' label d'' -> steps d (labels ++ [label]) d''.
End server.
