(* ===== verification/Cli.v ===== *)
(** * The command line client ([kovert-cli/src/main.rs])

    The commands, the exchange with the daemon, the local validation and the
    interactive shell, on a console that records what is written and which
    requests are sent. Standard output accepts what is written to it. *)

From stdpp Require Import base tactics option list strings gmap pretty.
From Stdlib Require Import ZArith Lia Ascii.
From S2P Require Import Prelude RustStr RustPath Utf8 Text Config Event Matching Validation Effects.
From S2P Require Import Json Ipc ConfigLoader Runtime Server.
Local Open Scope Z_scope.
Local Open Scope stdpp_scope.
Local Open Scope kovert_scope.

Definition MAX_RESPONSE_SIZE : Z := 8 * 1024 * 1024.

Module RecoveryState.
Inductive RecoveryState := On | Off.
End RecoveryState.
Abbreviation RecoveryState := RecoveryState.RecoveryState.

Module CliCommand.
Inductive CliCommand :=
| Status
| Rules
| Audit (limit : Z)
| Validate (config : PathBuf)
| Reload
| Trigger (name : string)
| Simulate (event : PathBuf)
| Mode (name : string)
| Recovery (state : RecoveryState)
| VerifyAudit
| Repl.
End CliCommand.
Abbreviation CliCommand := CliCommand.CliCommand.

(** The parsed arguments. *)
Record CliArguments := mkCliArguments {
  cli_socket : PathBuf;
  cli_json : bool;
  cli_command : option CliCommand;
}.

(** Text written to the terminal. *)
Inductive Written :=
| Out (text : string)
| ErrOut (text : string).

Record Console := mkConsole {
  con_written : list Written;
  con_sent : list Request;
}.

(** Files and standard input; the serializers; the peer of a connection, by
    the number of requests sent before: whether it is reached, takes the
    request, what it sends back, and whether the time runs out. *)
Class CliEnv := {
  cli_read_file : PathBuf -> Result string;
  cli_read_stdin : Result string;
  event_from_str : string -> Result Event;
  json_display : Json -> string;
  json_pretty : Json -> Result string;
  response_pretty : Response -> Result string;
  peer_connect : nat -> Result unit;
  peer_write : nat -> string -> Result unit;
  peer_shutdown : nat -> Result unit;
  peer_read : nat -> string -> Result string;
  peer_timeout : nat -> bool;
}.

Section cli.
Context `{EngineEnv} `{Regex} `{Toml} `{IpcSerde} `{CliEnv}.

Definition println (text : string) : M Console unit :=
  modify (fun c => mkConsole (con_written c ++ [Out (text +:+ newline)]) (con_sent c)).
Definition print (text : string) : M Console unit :=
  modify (fun c => mkConsole (con_written c ++ [Out text]) (con_sent c)).
Definition eprintln (text : string) : M Console unit :=
  modify (fun c => mkConsole (con_written c ++ [ErrOut (text +:+ newline)]) (con_sent c)).

Definition read_event (path : PathBuf) : Result Event :=
  let? text := if path_eqb path "-" then cli_read_stdin
               else with_message (cli_read_file path) ("read event " +:+ path) in
  with_message (event_from_str text) "parse event JSON".

Definition request_from_command (command : CliCommand) : Result Request :=
  match command with
  | CliCommand.Status => Ok Request.Status
  | CliCommand.Rules => Ok Request.Rules
  | CliCommand.Audit limit => Ok (Request.Audit limit)
  | CliCommand.Reload => Ok Request.Reload
  | CliCommand.Trigger name => Ok (Request.Trigger name)
  | CliCommand.Simulate event => let? event := read_event event in Ok (Request.Simulate event)
  | CliCommand.Mode name => Ok (Request.SetMode name)
  | CliCommand.Recovery state =>
      Ok (Request.Recovery (match state with RecoveryState.On => true | _ => false end))
  | CliCommand.VerifyAudit => Ok Request.VerifyAudit
  | CliCommand.Validate _ | CliCommand.Repl => Err "command is handled locally"
  end.

(** [send_inner], on the connection made after [n] requests. *)
Definition send_inner (n : nat) (socket : PathBuf) (request : Request) : Result Response :=
  let? _ := with_message (peer_connect n) ("connect to " +:+ socket) in
  let? bytes := envelope_to_vec (RequestEnvelope_new request) in
  let? _ := with_message (peer_write n bytes) "write request" in
  let? _ := with_message (peer_shutdown n) "finish request" in
  let? sent := with_message (peer_read n bytes) "read response" in
  let response := take_bytes (MAX_RESPONSE_SIZE + 1) sent in
  let? _ := ensure (negb (MAX_RESPONSE_SIZE <? byte_len response))
              "daemon response exceeds 8 MiB" in
  let? response := with_message (response_from_slice response) "parse daemon response" in
  let? _ := ensure (response_version response =? IPC_VERSION)
              ("unsupported daemon protocol version " +:+ pretty (response_version response)
               +:+ "; CLI supports " +:+ pretty IPC_VERSION) in
  Ok response.

Definition send (socket : PathBuf) (request : Request) : M Console Response :=
  c ← get;
  let n := length (con_sent c) in
  modify (fun c => mkConsole (con_written c) (con_sent c ++ [request]));;
  if peer_timeout n then throw "daemon request timed out"
  else lift_result (send_inner n socket request).

Definition print_response (response : Response) (json : bool) : M Console unit :=
  if json then
    text ← lift_result (response_pretty response);
    println text
  else
    println (response_message response);;
    match response_data response with
    | Some data => text ← lift_result (json_pretty data); println text
    | None => mret tt
    end.

(** The line for a valid configuration. *)
Definition rules_line (config : Config) : string :=
  "valid configuration: " +:+ pretty (Z.of_nat (length (config_rules config))) +:+ " rule(s)".

Definition validate (path : PathBuf) (json : bool) : M Console unit :=
  text ← lift_result (with_message (cli_read_file path) ("read configuration " +:+ path));
  config ← lift_result (with_message (from_toml text) ("parse configuration " +:+ path));
  match validate_config config with
  | inl _ =>
      if json then
        println (json_display (Json.Object [("ok", Json.Bool true);
                   ("rules", Json.Number (Z.of_nat (length (config_rules config))))]))
      else println (rules_line config)
  | inr errors =>
      (if json then
         println (json_display (Json.Object [("ok", Json.Bool false);
                    ("errors", Json.Array (map (fun e => Json.String (error_text e)) errors))]))
       else mret tt);;
      throw ("configuration is invalid:" +:+ newline
             +:+ String.concat newline (map (fun e => "- " +:+ error_text e) errors))
  end.

(** ** The shell *)
Definition usize_max : Z := 2 ^ 64 - 1.

Definition required (words : list string) (index : nat) (name : string) : Result string :=
  ok_or (words !! index) ("missing " +:+ name).

(** What a line asks for: nothing, to leave, the help, a complaint, an error
    that ends the shell, a request. *)
Inductive ShellAction :=
| Nothing
| Leave
| Help
| Complain (message : string)
| Abandon (error : string)
| Ask (request : Request).

Definition named (words : list string) (name : string) (k : string -> ShellAction) : ShellAction :=
  match required words 1 name with Ok value => k value | Err error => Abandon error end.

Definition interpret (words : list string) : ShellAction :=
  match head words with
  | None => Nothing
  | Some command =>
      if eqb command "quit" || eqb command "exit" then Leave
      else if eqb command "help" then Help
      else if eqb command "status" then Ask Request.Status
      else if eqb command "rules" then Ask Request.Rules
      else if eqb command "audit" then
        Ask (Request.Audit (default 50 (words !! 1%nat ≫= parse_unsigned usize_max)))
      else if eqb command "reload" then Ask Request.Reload
      else if eqb command "trigger" then
        named words "trigger name" (fun name => Ask (Request.Trigger name))
      else if eqb command "mode" then
        named words "mode name" (fun mode => Ask (Request.SetMode mode))
      else if eqb command "recovery" then
        named words "on or off" (fun state =>
          if eqb state "on" then Ask (Request.Recovery true)
          else if eqb state "off" then Ask (Request.Recovery false)
          else Complain "expected 'on' or 'off'")
      else if eqb command "verify-audit" then Ask Request.VerifyAudit
      else Complain ("unknown command: " +:+ command)
  end.

Definition help_text : string :=
  "status | rules | audit [limit] | reload | trigger <name> | mode <name> | recovery <on|off> | verify-audit | quit".

(** The loop of [repl], on the lines that can still be read. *)
Fixpoint repl_loop (socket : PathBuf) (json : bool) (input : list (Result string))
    : M Console unit :=
  print "kovert> ";;
  match input with
  | [] => mret tt
  | Err error :: _ => throw error
  | Ok line :: input =>
      match interpret (split_whitespace line) with
      | Nothing => repl_loop socket json input
      | Leave => mret tt
      | Help => println help_text;; repl_loop socket json input
      | Complain message => eprintln message;; repl_loop socket json input
      | Abandon error => throw error
      | Ask request =>
          try_catch (send socket request)
            (fun response => print_response response json;; repl_loop socket json input)
            (fun error => eprintln ("error: " +:+ error);; repl_loop socket json input)
      end
  end.

Definition repl (socket : PathBuf) (json : bool) (input : list (Result string)) : M Console unit :=
  println "Kovert interactive shell. Type 'help' for commands; 'quit' to exit.";;
  repl_loop socket json input.

(** [run] of the client. *)
Definition cli_run (arguments : CliArguments)
    (input : list (Result string)) : M Console unit :=
  match default CliCommand.Repl (cli_command arguments) with
  | CliCommand.Validate config => validate config (cli_json arguments)
  | CliCommand.Repl => repl (cli_socket arguments) (cli_json arguments) input
  | command =>
      request ← lift_result (request_from_command command);
      response ← send (cli_socket arguments) request;
      print_response response (cli_json arguments);;
      if response_ok response then mret tt else throw (response_message response)
  end.
End cli.
