(* ===== verification/ServerProps.v ===== *)
(** * The served daemon

    However the connections, the sensors and the loop interleave, the runtime
    goes through a run of [run_inputs] on the inputs in the order of their
    channels; resources are bounded; every response goes to the connection
    that asked; and without new arrivals the daemon comes to rest with every
    request answered. *)

From stdpp Require Import base tactics option list strings gmap.
From Stdlib Require Import ZArith Lia Ascii.
From S2P Require Import Prelude RustStr RustPath Config Event Matching Engine Validation Effects.
From S2P Require Import Json AuditBytes AuditStore Host Evidence Actions Ipc ConfigLoader SensorHub.
From S2P Require Import Runtime Server.
Local Open Scope Z_scope.
Local Open Scope stdpp_scope.

(** ** What a trace shows *)
Definition label_input (label : Label) : option Input :=
  match label with
  | RunEvent event => Some (EventInput event)
  | RunControl _ request _ => Some (ControlInput request)
  | Crash input => Some input
  | _ => None
  end.

Definition label_response (label : Label) : option (option Response) :=
  match label with
  | RunEvent _ => Some None
  | RunControl _ _ response => Some (Some response)
  | _ => None
  end.

(** Events taken from the sensors, and events run. *)
Definition sensed (label : Label) : option Event :=
  match label with Sense event => Some event | _ => None end.
Definition handled (label : Label) : option Event :=
  match label with RunEvent event | Crash (EventInput event) => Some event | _ => None end.

(** Requests that entered the channel, and requests run. *)
Definition queued (label : Label) : option (nat * Request) :=
  match label with Enqueue client request => Some (client, request) | _ => None end.
Definition executed (label : Label) : option (nat * Request) :=
  match label with RunControl client request _ => Some (client, request) | _ => None end.

Lemma omap_snoc {A B} (f : A -> option B) l x :
  omap f (l ++ [x]) = omap f l ++ match f x with Some y => [y] | None => [] end.
Proof. rewrite omap_app. cbn. by destruct (f x). Qed.

Section served.
Context `{EngineEnv} `{Regex} `{Toml} `{DbEnv} `{Blake3} `{SerdeJson}.
Context `{Host} `{EvidenceText} `{ActionText} `{RuntimeEnv} `{IpcSerde}.
Context (event_buffer : nat).

Abbreviation step := (step event_buffer).
Abbreviation steps := (steps event_buffer).

Lemma run_inputs_snoc inputs input rt :
  run_inputs (inputs ++ [input]) rt
  = match run_inputs inputs rt with
    | (Return responses, rt1) =>
        match run_input input rt1 with
        | (Return response, rt2) => (Return (responses ++ [response]), rt2)
        | (Throw e, rt2) => (Throw e, rt2)
        | (Panic, rt2) => (Panic, rt2)
        end
    | (Throw e, rt1) => (Throw e, rt1)
    | (Panic, rt1) => (Panic, rt1)
    end.
Proof.
  revert rt. induction inputs as [|i inputs IH]; intros rt; cbn [app run_inputs].
  - rewrite bind_eq. cbn. destruct (run_input input rt) as [[r|e|] rt2]; done.
  - rewrite !bind_eq. destruct (run_input i rt) as [[r|e|] rt1]; [|done|done].
    rewrite !bind_eq, IH. destruct (run_inputs inputs rt1) as [[rs|e|] rt2]; [|done|done].
    cbn. destruct (run_input input rt2) as [[r'|e|] rt3]; done.
Qed.

(** What the interleaving does to the runtime is a sequential run. *)
Definition simulates (rt : Runtime) (labels : list Label) (d : Daemon) : Prop :=
  run_inputs (omap label_input labels) rt
  = (if dm_panicked d then Panic else Return (omap label_response labels), dm_runtime d).

Lemma simulates_step rt labels d label d' :
  simulates rt labels d -> step d label d' -> simulates rt (labels ++ [label]) d'.
Proof.
  unfold simulates. rewrite !omap_snoc. intros Hs Hstep.
  destruct Hstep as [| | | | |? ? ? ? ? ? ? Hrun|? ? ? ? ? ? ? ? ? Hrun| | |? ? ? ? ? ? ? Hrun|? ? ? ? ? ? ? ? Hrun];
    cbn [label_input label_response dm_panicked dm_runtime] in *; rewrite ?app_nil_r, ?run_inputs_snoc, Hs;
    rewrite ?Hrun; done.
Qed.

Lemma steps_app d l1 d' l2 d'' : steps d l1 d' -> steps d' l2 d'' -> steps d (l1 ++ l2) d''.
Proof.
  intros H1s H2s. revert H1s. induction H2s as [|d' l2 d1 label d2 _ IH Hs]; intros H1s.
  - by rewrite app_nil_r.
  - rewrite app_assoc. apply (steps_snoc _ _ _ d1); [by apply IH|done].
Qed.

(** Rule induction over the steps of a new daemon. *)
Lemma steps_invariant (P : list Label -> Daemon -> Prop) rt labels d :
  P [] (Daemon_new rt) ->
  (forall labels d label d', P labels d -> step d label d' -> P (labels ++ [label]) d') ->
  steps (Daemon_new rt) labels d -> P labels d.
Proof.
  intros Hnew Hstep Hsteps. remember (Daemon_new rt) as d0 eqn:Hd.
  induction Hsteps as [|d0 labels d label d' Hsteps IH Hs]; [by subst|].
  apply (Hstep labels d); [by apply IH|done].
Qed.

(** ** Channels *)
Record channels (labels : list Label) (d : Daemon) : Prop := {
  ch_events : omap sensed labels = omap handled labels ++ dm_events d;
  ch_controls : dm_panicked d = false ->
    omap queued labels = omap executed labels ++ dm_controls d;
  ch_prefix : omap executed labels `prefix_of` omap queued labels;
}.

Lemma channels_step labels d label d' :
  channels labels d -> step d label d' -> channels (labels ++ [label]) d'.
Proof.
  intros [He Hc Hx] Hstep. split; rewrite !omap_snoc.
  - destruct Hstep; cbn in *; rewrite ?app_nil_r, ?He, <- ?app_assoc; done.
  - destruct Hstep; cbn in *; intros Hp; rewrite ?app_nil_r, ?Hc, <- ?app_assoc by done; done.
  - destruct Hstep; cbn in *; rewrite ?app_nil_r; try done; try (by apply prefix_app_r).
    rewrite Hc by done. by exists controls; rewrite <- app_assoc.
Qed.

(** ** What a step does to one connection *)
Lemma decided_other verdict c k clients :
  k <> c -> decided verdict c clients !! k = clients !! k.
Proof. intros Hne. destruct verdict; simpl; by simplify_map_eq. Qed.

Lemma decided_same verdict c clients :
  decided verdict c clients !! c
  = match verdict with
    | Serve request => Some (Sending request) | Refuse response => Some (Replying response)
    | Hangup _ => None
    end.
Proof. destruct verdict; simpl; by simplify_map_eq. Qed.

Lemma answer_lookup c response clients k :
  answer c response clients !! k
  = match clients !! k with
    | Some Waiting => if bool_decide (k = c) then Some (Replying response) else Some Waiting
    | x => x
    end.
Proof.
  unfold answer. destruct (decide (k = c)) as [->|Hne].
  - rewrite bool_decide_true by done. destruct (clients !! c) as [[]|] eqn:Hc; by simplify_map_eq.
  - rewrite bool_decide_false by done.
    destruct (clients !! c) as [[]|], (clients !! k) as [[]|] eqn:Hk; by simplify_map_eq.
Qed.

(** A connection after a step. *)
Definition client_after (label : Label) (k : nat) (x : option Client) : option Client :=
  match label with
  | Accept c => if bool_decide (k = c) then Some Reading else x
  | Receive c sent =>
      if bool_decide (k = c) then
        match decide_request sent with
        | Serve request => Some (Sending request) | Refuse response => Some (Replying response)
        | Hangup _ => None
        end
      else x
  | Enqueue c _ => if bool_decide (k = c) then Some Waiting else x
  | RunControl c _ response =>
      match x with
      | Some Waiting => if bool_decide (k = c) then Some (Replying response) else x
      | _ => x
      end
  | Reply c _ | Drop c => if bool_decide (k = c) then None else x
  | _ => x
  end.

Lemma step_client d label d' k :
  step d label d' -> dm_clients d' !! k = client_after label k (dm_clients d !! k).
Proof.
  destruct 1; cbn [dm_clients client_after]; try done.
  - case_bool_decide; by simplify_map_eq.
  - case_bool_decide; [subst; apply decided_same|by apply decided_other].
  - case_bool_decide; by simplify_map_eq.
  - rewrite answer_lookup. by destruct (clients !! k) as [[]|].
  - case_bool_decide; by simplify_map_eq.
  - case_bool_decide; by simplify_map_eq.
Qed.

Definition label_client (label : Label) : option nat :=
  match label with
  | Receive c _ | Enqueue c _ | Reply c _ | Drop c => Some c
  | _ => None
  end.

Lemma client_after_some label k x y :
  client_after label k x = Some y -> label = Accept k \/ is_Some x \/ label_client label = Some k.
Proof.
  destruct label; cbn; try case_bool_decide; subst; try by eauto.
  all: intros; destruct x; eauto; try done.
Qed.

Lemma client_after_reading label k x :
  client_after label k x = Some Reading -> label = Accept k \/ x = Some Reading.
Proof.
  destruct label; cbn; try case_bool_decide; subst; eauto; repeat case_match; naive_solver.
Qed.

Lemma client_after_sending label k x request :
  client_after label k x = Some (Sending request) ->
  (exists sent, label = Receive k sent /\ decide_request sent = Serve request)
  \/ x = Some (Sending request).
Proof.
  destruct label; cbn; try case_bool_decide; subst; eauto; repeat case_match; naive_solver.
Qed.

Lemma client_after_replying label k x response :
  client_after label k x = Some (Replying response) ->
  (exists sent, label = Receive k sent /\ decide_request sent = Refuse response)
  \/ (exists request, label = RunControl k request response) \/ x = Some (Replying response).
Proof.
  destruct label; cbn; try case_bool_decide; subst; eauto; repeat case_match; naive_solver.
Qed.

(** The connection a step is about, as it was before. *)
Definition client_before (label : Label) (x : option Client) : Prop :=
  match label with
  | Receive _ _ => x = Some Reading
  | Enqueue _ request => x = Some (Sending request)
  | Reply _ response => x = Some (Replying response)
  | Drop _ => is_Some x
  | _ => True
  end.

Lemma step_before d label d' c :
  step d label d' -> label_client label = Some c -> client_before label (dm_clients d !! c).
Proof. destruct 1; intros [= <-]; cbn; by eauto. Qed.

Lemma step_present d label d' c :
  step d label d' -> label_client label = Some c -> is_Some (dm_clients d !! c).
Proof.
  intros Hs Hl. pose proof (step_before _ _ _ _ Hs Hl) as Hb. destruct label; cbn in *; naive_solver.
Qed.

Lemma step_next d label d' :
  step d label d' ->
  dm_next d' = match label with Accept _ => S (dm_next d) | _ => dm_next d end
  /\ forall c, label = Accept c -> c = dm_next d.
Proof. destruct 1; split; try done. by intros ? [= <-]. Qed.

(** ** Connections *)
Record connections (labels : list Label) (d : Daemon) : Prop := {
  cn_clients : forall c x, dm_clients d !! c = Some x -> (c < dm_next d)%nat;
  cn_received : forall c sent, Receive c sent ∈ labels ->
    (c < dm_next d)%nat /\ dm_clients d !! c <> Some Reading
    /\ forall other, Receive c other ∈ labels -> other = sent;
  cn_queued : forall c, c ∈ (omap queued labels).*1 ->
    (c < dm_next d)%nat /\ dm_clients d !! c <> Some Reading
    /\ forall request, dm_clients d !! c <> Some (Sending request);
  cn_once : NoDup (omap queued labels).*1;
}.

Lemma connections_step labels d label d' :
  connections labels d -> step d label d' -> connections (labels ++ [label]) d'.
Proof.
  intros [Hc Hr Hq Ho] Hstep. pose proof (fun k => step_client _ _ _ k Hstep) as Hk.
  pose proof (fun c => step_before _ _ _ c Hstep) as Hb.
  pose proof (fun c => step_present _ _ _ c Hstep) as Hp.
  destruct (step_next _ _ _ Hstep) as [Hn Hacc]. clear Hstep. split.
  - intros c x. rewrite Hk. intros [->|[[y Hy]|Hl]]%client_after_some.
    + rewrite Hn, <- (Hacc c eq_refl). lia.
    + specialize (Hc c y Hy). destruct label; lia.
    + destruct (Hp c Hl) as [y Hy]. specialize (Hc c y Hy). destruct label; lia.
  - assert (forall c sent, label = Receive c sent -> dm_clients d !! c = Some Reading) as Hread
      by (intros c sent ->; by apply (Hb c)).
    intros c sent [Hin|Hl%list_elem_of_singleton]%elem_of_app.
    + destruct (Hr c sent Hin) as (Hlt & Hne & Hu). split_and!.
      * rewrite Hn. destruct label; lia.
      * rewrite Hk. intros [->|?]%client_after_reading; [|done].
        pose proof (Hacc c eq_refl). lia.
      * intros other [?|Ho'%list_elem_of_singleton]%elem_of_app; [by apply Hu|].
        by rewrite (Hread c other) in Hne.
    + pose proof (Hread c sent (eq_sym Hl)) as Hx. subst label. split_and!.
      * rewrite Hn. by apply (Hc c Reading).
      * rewrite Hk. cbn. rewrite bool_decide_true by done. by destruct (decide_request sent).
      * intros other [Hin|Ho'%list_elem_of_singleton]%elem_of_app; [|congruence].
        by destruct (Hr c other Hin) as (_ & Hne & _).
  - rewrite omap_snoc, fmap_app. intros c [Hin|Hin]%elem_of_app.
    + destruct (Hq c Hin) as (Hlt & Hne & Hns). split_and!.
      * rewrite Hn. destruct label; lia.
      * rewrite Hk. intros [->|?]%client_after_reading; [|done].
        pose proof (Hacc c eq_refl). lia.
      * intros request. rewrite Hk. intros [(sent & -> & _)|?]%client_after_sending; [|naive_solver].
        by specialize (Hb c eq_refl).
    + destruct label; cbn in Hin; try (by apply elem_of_nil in Hin).
      apply list_elem_of_singleton in Hin as ->. specialize (Hb client eq_refl). split_and!.
      * rewrite Hn. by apply (Hc client (Sending request)).
      * rewrite Hk. cbn. by rewrite bool_decide_true.
      * intros r. rewrite Hk. cbn. by rewrite bool_decide_true.
  - rewrite omap_snoc, fmap_app. apply NoDup_app. split_and!; [done| |].
    + intros c Hin Hl. destruct label; cbn in Hl; try (by apply elem_of_nil in Hl).
      apply list_elem_of_singleton in Hl as ->. destruct (Hq client Hin) as (_ & _ & Hns).
      by destruct (Hns request); apply (Hb client).
    + destruct (queued label); cbn; [apply NoDup_singleton|constructor].
Qed.

(** ** Where a response comes from *)
Definition asked (labels : list Label) (c : nat) (request : Request) : Prop :=
  exists sent, Receive c sent ∈ labels /\ decide_request sent = Serve request.

Definition answered (labels : list Label) (c : nat) (response : Response) : Prop :=
  exists sent, Receive c sent ∈ labels
    /\ (decide_request sent = Refuse response
        \/ exists request, decide_request sent = Serve request
             /\ RunControl c request response ∈ labels).

Lemma asked_app labels more c request : asked labels c request -> asked (labels ++ more) c request.
Proof. intros (sent & Hin & Hd). exists sent. split; [apply elem_of_app; by left|done]. Qed.

Lemma answered_app labels more c response :
  answered labels c response -> answered (labels ++ more) c response.
Proof.
  intros (sent & Hin & Hd). exists sent. split; [apply elem_of_app; by left|].
  destruct Hd as [?|(request & ? & ?)]; [by left|]. right. exists request.
  split; [done|]. apply elem_of_app. by left.
Qed.

Lemma step_controls d label d' c request :
  step d label d' -> (c, request) ∈ dm_controls d' ->
  (c, request) ∈ dm_controls d \/ label = Enqueue c request.
Proof.
  destruct 1; cbn; try (by left); try (intros ?; left; by right).
  intros [?|[= <- <-]%list_elem_of_singleton]%elem_of_app; [by left|by right].
Qed.

Lemma step_control_head d c request response d' :
  step d (RunControl c request response) d' -> (c, request) ∈ dm_controls d.
Proof. inversion 1; subst. left. Qed.

Record provenance (labels : list Label) (d : Daemon) : Prop := {
  pv_controls : forall c request, (c, request) ∈ dm_controls d -> asked labels c request;
  pv_sending : forall c request, dm_clients d !! c = Some (Sending request) ->
    asked labels c request;
  pv_replying : forall c response, dm_clients d !! c = Some (Replying response) ->
    answered labels c response;
  pv_replied : forall c response, Reply c response ∈ labels -> answered labels c response;
}.

Lemma provenance_step labels d label d' :
  provenance labels d -> step d label d' -> provenance (labels ++ [label]) d'.
Proof.
  intros [Hq Hs Hr Hl] Hstep. pose proof (fun k => step_client _ _ _ k Hstep) as Hk.
  assert (forall label', label' ∈ [label] -> label' ∈ labels ++ [label]) as Hlast
    by (intros; apply elem_of_app; by right). split.
  - intros c request [Hin| ->]%(step_controls _ _ _ _ _ Hstep); [by apply asked_app, Hq|].
    apply asked_app, Hs. apply (step_before _ _ _ c Hstep eq_refl).
  - intros c request. rewrite Hk. intros [(sent & -> & Hd)|?]%client_after_sending.
    + exists sent. split; [apply Hlast; by left|done].
    + by apply asked_app, Hs.
  - intros c response. rewrite Hk.
    intros [(sent & -> & Hd)|[[request ->]|?]]%client_after_replying.
    + exists sent. split; [apply Hlast; by left|by left].
    + destruct (Hq c request (step_control_head _ _ _ _ _ Hstep)) as (sent & Hin & Hd).
      exists sent. split; [apply elem_of_app; by left|]. right. exists request.
      split; [done|]. apply Hlast. by left.
    + by apply answered_app, Hr.
  - intros c response [?|Heq%list_elem_of_singleton]%elem_of_app; [by apply answered_app, Hl|].
    subst label. apply answered_app, Hr. apply (step_before _ _ _ c Hstep eq_refl).
Qed.

(** ** Bounds *)
Record bounded (d : Daemon) : Prop := {
  bd_clients : (size (dm_clients d) <= MAX_CLIENTS)%nat;
  bd_controls : (length (dm_controls d) <= CONTROL_BUFFER)%nat;
  bd_events : (length (dm_events d) <= event_buffer)%nat;
}.

Lemma step_dom d label d' :
  step d label d' -> (forall c, label <> Accept c) -> dom (dm_clients d') ⊆ dom (dm_clients d).
Proof.
  intros Hs Hne c. rewrite !elem_of_dom, (step_client _ _ _ _ Hs).
  intros [y Hy]. destruct (client_after_some _ _ _ _ Hy) as [?|[?|Hl]]; [naive_solver|done|].
  by apply (step_present _ _ _ _ Hs).
Qed.

Lemma bounded_step labels d label d' :
  connections labels d -> bounded d -> step d label d' -> bounded d'.
Proof.
  intros Hcn [Hc Hq He] Hs. split.
  - assert ((exists c, label = Accept c) \/ forall c, label <> Accept c) as [[c ->]|Hne]
      by (destruct label; eauto).
    + inversion Hs; subst. cbn in *. destruct (clients !! c) as [x|] eqn:Hx.
      * pose proof (cn_clients _ _ Hcn c x Hx). cbn in *. lia.
      * rewrite map_size_insert_None by done. lia.
    + rewrite <- (size_dom (D:=gset nat)) in Hc |- *. etrans; [|exact Hc].
      by apply subseteq_size, (step_dom _ _ _ Hs).
  - destruct Hs; cbn in *; rewrite ?length_app; cbn; lia.
  - destruct Hs; cbn in *; rewrite ?length_app; cbn; lia.
Qed.

(** ** The work left *)
Definition weight (x : Client) : nat :=
  match x with Reading => 4 | Sending _ => 3 | Waiting | Replying _ => 1 end.

Definition add_weight (_ : nat) (x : Client) (n : nat) : nat := (weight x + n)%nat.

Definition total (clients : gmap nat Client) : nat :=
  map_fold add_weight 0%nat clients.

Definition work (d : Daemon) : nat :=
  (total (dm_clients d) + length (dm_controls d) + length (dm_events d))%nat.

Lemma total_delete clients c x :
  clients !! c = Some x -> total clients = (weight x + total (delete c clients))%nat.
Proof. intros Hx. apply (map_fold_delete_L add_weight); [unfold add_weight; intros; lia|done]. Qed.

Lemma total_insert clients c x :
  total (<[c := x]> clients) = (weight x + total (delete c clients))%nat.
Proof.
  rewrite (total_delete _ c x) by by simplify_map_eq. by rewrite delete_insert_eq.
Qed.

Lemma total_decided verdict clients c :
  clients !! c = Some Reading -> (total (decided verdict c clients) < total clients)%nat.
Proof.
  intros Hc. rewrite (total_delete clients c Reading Hc).
  destruct verdict; cbn [decided]; rewrite ?total_insert; cbn; lia.
Qed.

Lemma total_answer clients c response : total (answer c response clients) = total clients.
Proof.
  unfold answer. destruct (clients !! c) as [[]|] eqn:Hc; try done.
  by rewrite total_insert, (total_delete clients c Waiting Hc).
Qed.

Lemma total_bound clients : (total clients <= 4 * size clients)%nat.
Proof.
  unfold total. induction clients as [|c x m Hx IH] using map_ind.
  - rewrite map_fold_empty. lia.
  - rewrite map_fold_insert_L, map_size_insert_None by (done || (unfold add_weight; intros; lia)).
    unfold add_weight at 1. destruct x; cbn [weight]; lia.
Qed.

(** Steps that are not arrivals. *)
Definition internal (label : Label) : bool :=
  match label with Sense _ | Accept _ | TurnAway => false | _ => true end.

Lemma internal_decreases d label d' :
  step d label d' -> internal label = true -> (work d' < work d)%nat.
Proof.
  unfold work. destruct 1; intros Hi; try done; cbn; rewrite ?length_app; cbn.
  - match goal with Hc : _ !! _ = Some Reading |- context [decided ?v _ _] =>
      pose proof (total_decided v _ _ Hc) end. lia.
  - rewrite total_insert, (total_delete clients client (Sending request)) by done. cbn. lia.
  - lia.
  - rewrite total_answer. lia.
  - rewrite (total_delete clients client (Replying response)) by done. cbn. lia.
  - rewrite (total_delete clients client state) by done. destruct state; cbn; lia.
  - lia.
  - lia.
Qed.

(** ** Rest *)

(** An event is answered with nothing, a request with a response, or the task
    panics. *)
Lemma run_event_outcome event rt :
  exists rt', run_input (EventInput event) rt = (Return None, rt')
              \/ run_input (EventInput event) rt = (Panic, rt').
Proof.
  cbn. unfold try_catch. destruct (process_event event rt) as [[n|e|] rt']; exists rt'; eauto.
Qed.

Lemma run_control_outcome request rt :
  exists rt', (exists response, run_input (ControlInput request) rt = (Return (Some response), rt'))
              \/ run_input (ControlInput request) rt = (Panic, rt').
Proof.
  cbn. rewrite bind_eq. unfold handle_control, try_catch.
  destruct (handle_control_result request rt) as [[r|e|] rt']; exists rt'; cbn; eauto.
Qed.

Definition waiting_queued (d : Daemon) : Prop :=
  dm_panicked d = false ->
  forall c, dm_clients d !! c = Some Waiting -> c ∈ (dm_controls d).*1.

Lemma client_after_waiting label k x :
  client_after label k x = Some Waiting ->
  (exists request, label = Enqueue k request)
  \/ x = Some Waiting /\ forall request response, label <> RunControl k request response.
Proof.
  destruct label; cbn; try case_bool_decide; subst; eauto; repeat case_match; try naive_solver.
  all: try (right; split; [done|]; intros; congruence).
Qed.

Lemma waiting_step d label d' : waiting_queued d -> step d label d' -> waiting_queued d'.
Proof.
  intros Hw Hs Hp c. rewrite (step_client _ _ _ _ Hs).
  intros [[request ->]|[Hx Hne]]%client_after_waiting.
  - inversion Hs; subst. cbn. rewrite fmap_app. apply elem_of_app. right. by left.
  - destruct Hs; cbn in *; specialize (Hw eq_refl c Hx); cbn in Hw; try done.
    + rewrite fmap_app. apply elem_of_app. by left.
    + apply elem_of_cons in Hw as [->|?]; [|done]. by destruct (Hne request response).
Qed.

(** Only arrivals are left to happen. *)
Definition at_rest (d : Daemon) : Prop := forall label d', step d label d' -> internal label = false
  \/ (exists c, label = Drop c) \/ (exists c sent, label = Receive c sent).

Lemma empty_at_rest rt next : at_rest (mkDaemon rt [] [] ∅ next false).
Proof.
  intros label d' Hs. inversion Hs; subst; try (by left); exfalso;
    match goal with Hc : _ !! _ = Some _ |- _ => by rewrite lookup_empty in Hc end.
Qed.

(** Nothing is left to do: the remaining connections have not sent their
    request yet. *)
Definition idle (d : Daemon) : Prop :=
  dm_events d = [] /\ dm_controls d = [] /\ forall c x, dm_clients d !! c = Some x -> x = Reading.

Lemma rest_idle d :
  waiting_queued d -> dm_panicked d = false -> at_rest d -> idle d.
Proof.
  destruct d as [rt events controls clients next panicked]. cbn. intros Hw -> Hr.
  assert (events = []) as ->.
  { destruct events as [|event events]; [done|].
    destruct (run_event_outcome event rt) as [rt' [Hrun|Hrun]].
    - destruct (Hr _ _ (step_event _ _ _ _ _ _ _ _ Hrun)) as [?|[[]|(? & ? & ?)]]; done.
    - destruct (Hr _ _ (step_crash_event _ _ _ _ _ _ _ _ Hrun)) as [?|[[]|(? & ? & ?)]]; done. }
  assert (controls = []) as ->.
  { destruct controls as [|[c request] controls]; [done|].
    destruct (run_control_outcome request rt) as [rt' [[response Hrun]|Hrun]].
    - destruct (Hr _ _ (step_control _ _ _ c _ _ _ _ _ _ Hrun)) as [?|[[]|(? & ? & ?)]]; done.
    - destruct (Hr _ _ (step_crash_control _ _ _ c _ _ _ _ _ Hrun)) as [?|[[]|(? & ? & ?)]]; done. }
  split_and!; [done|done|]. cbn. intros c [|request| |response] Hx; [done|exfalso..].
  - destruct (Hr _ _ (step_enqueue _ rt [] [] clients next c request Hx ltac:(cbn; unfold CONTROL_BUFFER; lia)))
      as [?|[[]|(? & ? & ?)]]; done.
  - specialize (Hw eq_refl c Hx). cbn in Hw. by apply elem_of_nil in Hw.
  - destruct (Hr _ _ (step_reply _ rt [] [] clients next c response Hx)) as [?|[[]|(? & ? & ?)]]; done.
Qed.

(** A connection that sent a request is open, was dropped, or was answered. *)
Definition accounted (labels : list Label) (d : Daemon) : Prop :=
  forall c request, asked labels c request ->
    is_Some (dm_clients d !! c) \/ (Drop c ∈ labels) \/ exists response, Reply c response ∈ labels.

Lemma client_after_none label k x :
  client_after label k x = None ->
  x = None \/ label = Drop k \/ (exists response, label = Reply k response)
  \/ exists sent error, label = Receive k sent /\ decide_request sent = Hangup error.
Proof.
  destruct label; cbn; try case_bool_decide; subst; eauto; repeat case_match; naive_solver.
Qed.

Lemma accounted_step labels d label d' :
  connections labels d -> accounted labels d -> step d label d' ->
  accounted (labels ++ [label]) d'.
Proof.
  intros Hcn Ha Hs c request (sent & Hin & Hd). rewrite (step_client _ _ _ _ Hs).
  destruct (client_after label c (dm_clients d !! c)) eqn:Hx; [left; by eexists|]. right.
  setoid_rewrite elem_of_app. setoid_rewrite list_elem_of_singleton.
  destruct (client_after_none _ _ _ Hx) as [Hn|[->|[[r ->]|(sent' & e & -> & Hh)]]]; [|by eauto..|].
  - apply elem_of_app in Hin as [Hin|Hin%list_elem_of_singleton].
    + destruct (Ha c request) as [[]|[?|[]]]; [by exists sent|congruence|by eauto|by eauto].
    + subst label. pose proof (step_present _ _ _ c Hs eq_refl) as [? ?]. congruence.
  - exfalso. apply elem_of_app in Hin as [Hin|[= ->]%list_elem_of_singleton]; [|congruence].
    destruct (cn_received _ _ Hcn c sent Hin) as (_ & Hne & _). apply Hne.
    apply (step_before _ _ _ c Hs eq_refl).
Qed.

(** ** Reachable daemons *)
Record served (rt : Runtime) (labels : list Label) (d : Daemon) : Prop := {
  sv_simulates : simulates rt labels d;
  sv_channels : channels labels d;
  sv_connections : connections labels d;
  sv_provenance : provenance labels d;
  sv_bounded : bounded d;
  sv_waiting : waiting_queued d;
  sv_accounted : accounted labels d;
}.

Lemma steps_served rt labels d : steps (Daemon_new rt) labels d -> served rt labels d.
Proof.
  apply steps_invariant.
  - split; [done|split; done|split|split|split|by intros _ c|].
    all: try (intros *; cbn; rewrite ?lookup_empty, ?elem_of_nil; done).
    + constructor.
    + cbn. rewrite map_size_empty. lia.
    + cbn. lia.
    + cbn. lia.
    + intros c request (sent & Hin & _). by apply elem_of_nil in Hin.
  - clear. intros labels d label d' [] Hs. split.
    + by eapply simulates_step.
    + by eapply channels_step.
    + by eapply connections_step.
    + by eapply provenance_step.
    + by eapply bounded_step.
    + by eapply waiting_step.
    + by eapply accounted_step.
Qed.

(** C4: Every interleaving of the connections, the sensors and the loop takes the runtime
    through the same states as the sequential run of the inputs that were run, with the same
    answers, or panics exactly when that run does; and events and requests are run in the
    order in which they entered their channels. *)
Theorem daemon_refines_run rt labels d :
  steps (Daemon_new rt) labels d ->
  run_inputs (omap label_input labels) rt
  = (if dm_panicked d then Panic else Return (omap label_response labels), dm_runtime d)
  /\ omap sensed labels = omap handled labels ++ dm_events d
  /\ (dm_panicked d = false -> omap queued labels = omap executed labels ++ dm_controls d).
Proof. intros [Hs [He Hc _] _ _ _ _ _]%steps_served. split_and!; assumption. Qed.

(** C33: However many clients connect and events arrive, the daemon never has more than 64
    connections, 64 queued requests and event_buffer queued events. *)
Theorem served_bounded rt labels d :
  steps (Daemon_new rt) labels d ->
  (size (dm_clients d) <= 64)%nat /\ (length (dm_controls d) <= 64)%nat
  /\ (length (dm_events d) <= event_buffer)%nat.
Proof. intros [_ _ _ _ [Hc Hq He] _ _]%steps_served. split_and!; assumption. Qed.

(** C10: A response written to a connection is the refusal of what that connection sent, or
    what the runtime answered when it ran exactly that request for that connection; a
    connection's input is read once, and no connection's request is run twice. *)
Theorem responses_answer_requests rt labels d c response :
  steps (Daemon_new rt) labels d -> Reply c response ∈ labels ->
  NoDup (omap executed labels).*1
  /\ exists sent, (forall other, Receive c other ∈ labels <-> other = sent)
    /\ (decide_request sent = Refuse response
        \/ exists request, decide_request sent = Serve request
             /\ RunControl c request response ∈ labels).
Proof.
  intros Hsv%steps_served Hr. destruct Hsv as [_ [_ _ [rest Hq]] Hcn Hpv _ _ _]. split.
  - pose proof (cn_once _ _ Hcn) as Hnd. rewrite Hq, fmap_app in Hnd. by apply NoDup_app in Hnd as [? _].
  - destruct (pv_replied _ _ Hpv c response Hr) as (sent & Hin & Hd). exists sent.
    split; [|done]. intros other. split; [|by intros ->].
    by apply (cn_received _ _ Hcn c sent Hin).
Qed.

Lemma run_length d labels d' :
  steps d labels d' -> Forall (fun label => internal label = true) labels ->
  (length labels + work d' <= work d)%nat.
Proof.
  induction 1 as [|d labels d' label d'' Hs IH Hstep]; [done|].
  rewrite Forall_app, Forall_singleton. intros [Hl Hi]. specialize (IH Hl).
  pose proof (internal_decreases _ _ _ Hstep Hi). rewrite length_app. cbn. lia.
Qed.

(** C12: Without new connections and events, any sequence of steps of the daemon, in any
    order, has at most 4*64 + 64 + event_buffer steps. *)
Theorem internal_runs_bounded rt labels d more d' :
  steps (Daemon_new rt) labels d -> steps d more d' ->
  Forall (fun label => internal label = true) more ->
  (length more <= 4 * 64 + 64 + event_buffer)%nat.
Proof.
  intros Hsv%steps_served Hs Hi. pose proof (run_length _ _ _ Hs Hi) as Hl.
  destruct (sv_bounded _ _ _ Hsv) as [Hc Hq He]. pose proof (total_bound (dm_clients d)).
  unfold work in Hl. unfold MAX_CLIENTS, CONTROL_BUFFER in *. lia.
Qed.

(** C11: When a daemon that has not panicked can only wait for arrivals, its channels are
    empty, its remaining connections have sent nothing yet, and every request that was read
    has been run and its response written, unless its connection was dropped. *)
Theorem rest_answers_requests rt labels d c sent request :
  steps (Daemon_new rt) labels d -> dm_panicked d = false -> at_rest d ->
  Receive c sent ∈ labels -> decide_request sent = Serve request ->
  idle d /\ (Drop c ∈ labels
             \/ exists response, RunControl c request response ∈ labels
                                 /\ Reply c response ∈ labels).
Proof.
  intros Hsv%steps_served Hp Hrest Hin Hd. destruct Hsv as [_ _ Hcn Hpv _ Hw Ha].
  pose proof (rest_idle d Hw Hp Hrest) as Hidle. split; [done|]. destruct Hidle as (_ & _ & Hc).
  destruct (cn_received _ _ Hcn c sent Hin) as (_ & Hne & Hu).
  destruct (Ha c request) as [[x Hx]|[?|[response Hr]]]; [by exists sent| |by left|].
  - rewrite (Hc c x Hx) in Hx. done.
  - right. exists response. split; [|done].
    destruct (pv_replied _ _ Hpv c response Hr) as (other & Ho & Hcase).
    rewrite (Hu other Ho) in Hcase. destruct Hcase as [?|(r & ? & ?)]; congruence.
Qed.
End served.
