(* ===== verification/CliProps.v ===== *)
(** * The client and the daemon

    A request reaches the daemon as it was asked and the answer comes back
    unchanged; the shell understands the words of every command it has; the
    client validates as the daemon does. *)

From stdpp Require Import base tactics option list strings gmap pretty.
From Stdlib Require Import ZArith Lia Ascii.
From S2P Require Import Prelude RustStr RustPath Utf8 Text Config Event Matching Engine Validation.
From S2P Require Import ValidationSpec Effects Json AuditBytes AuditStore Host Evidence Actions Ipc.
From S2P Require Import ConfigLoader SensorHub Runtime Server ServerProps Cli.
Local Open Scope Z_scope.
Local Open Scope stdpp_scope.
Local Open Scope kovert_scope.

(** ** Numbers as words *)
Lemma digit_char (d : N) : (d < 10)%N -> digit_value (pretty_N_char d) = Some (Z.of_N d).
Proof.
  intros Hd. assert (d = 0 \/ d = 1 \/ d = 2 \/ d = 3 \/ d = 4 \/ d = 5 \/ d = 6 \/ d = 7
    \/ d = 8 \/ d = 9)%N as Hc by lia. by destruct_or! Hc; subst.
Qed.

Lemma parse_pretty_go (x : N) : forall s,
  parse_digits 0 (pretty_N_go x s) = parse_digits (Z.of_N x) s.
Proof.
  induction (N.lt_wf_0 x) as [x _ IH]. intros s. destruct (decide (0 < x)%N) as [Hx|Hx].
  - rewrite pretty_N_go_step by done. rewrite IH by (by apply N.div_lt). cbn [parse_digits].
    rewrite digit_char by (by apply N.mod_lt). f_equal. rewrite N2Z.inj_div, N2Z.inj_mod. cbn.
    rewrite Zmult_comm. symmetry. rewrite Z.mul_comm. apply Z.div_mod. lia.
  - assert (x = 0%N) as -> by lia. by rewrite pretty_N_go_0.
Qed.

Lemma parse_digits_pretty (x : Z) : 0 <= x -> parse_digits 0 (pretty x) = Some x.
Proof.
  intros Hx. destruct x as [|p|p]; [done| |lia].
  change (pretty (Z.pos p)) with (pretty (N.pos p)). unfold pretty, pretty_N.
  rewrite decide_False by done. by rewrite parse_pretty_go.
Qed.

Lemma digit_not_space c d s : digit_value c = Some d -> ws_len (String c s) = 0%nat.
Proof.
  unfold digit_value, is_ascii_digit, in_range. destruct (_ && _) eqn:Hc; [|done]. intros _.
  apply andb_true_iff in Hc as [Hlo%Z.leb_le Hhi%Z.leb_le]. unfold ws_len, in_range.
  rewrite (proj2 (Z.leb_gt (code c) 13)), andb_false_r by lia.
  rewrite (proj2 (Z.eqb_neq (code c) 32)) by lia. cbn.
  destruct s as [|b s]; [done|]. rewrite (proj2 (Z.eqb_neq (code c) 194)) by lia. cbn.
  destruct s as [|e s]; [done|].
  rewrite (proj2 (Z.eqb_neq (code c) 225)), (proj2 (Z.eqb_neq (code c) 226)),
    ?(proj2 (Z.eqb_neq (code c) 227)) by lia. done.
Qed.

Lemma digits_no_space s : forall acc n, parse_digits acc s = Some n -> no_space s = true.
Proof.
  induction s as [|c s IH]; intros acc n; [done|]. cbn [parse_digits no_space].
  destruct (digit_value c) as [d|] eqn:Hd; [|done]. intros Hn.
  by rewrite (digit_not_space c d s Hd), (IH _ _ Hn).
Qed.

Lemma parse_unsigned_pretty max n : 0 <= n <= max -> parse_unsigned max (pretty n) = Some n.
Proof.
  intros Hn. pose proof (parse_digits_pretty n ltac:(lia)) as Hp. unfold parse_unsigned.
  assert (pretty n <> EmptyString) as Hne.
  { intros He. rewrite He in Hp. injection Hp as <-. done. }
  destruct (pretty n) as [|c s]; [done|].
  destruct c as [[] [] [] [] [] [] [] []]; try discriminate Hp; cbn [is_empty]; rewrite Hp;
    by rewrite (proj2 (Z.leb_le n max)) by lia.
Qed.

Lemma pretty_word n : 0 <= n -> word_ok (pretty n).
Proof.
  intros Hn. pose proof (parse_digits_pretty n Hn) as Hp.
  split; [by eapply digits_no_space|]. intros He. rewrite He in Hp. injection Hp as <-. done.
Qed.

(** ** The shell's language *)

(** The words of a command in the shell; [simulate], [validate] and [repl]
    have none. *)
Definition shell_words (command : CliCommand) : option (list string) :=
  match command with
  | CliCommand.Status => Some ["status"]
  | CliCommand.Rules => Some ["rules"]
  | CliCommand.Audit limit => Some ["audit"; pretty limit]
  | CliCommand.Reload => Some ["reload"]
  | CliCommand.Trigger name => Some ["trigger"; name]
  | CliCommand.Mode name => Some ["mode"; name]
  | CliCommand.Recovery RecoveryState.On => Some ["recovery"; "on"]
  | CliCommand.Recovery RecoveryState.Off => Some ["recovery"; "off"]
  | CliCommand.VerifyAudit => Some ["verify-audit"]
  | CliCommand.Simulate _ | CliCommand.Validate _ | CliCommand.Repl => None
  end.

(** The arguments can be written as words. *)
Definition wordable (command : CliCommand) : Prop :=
  match command with
  | CliCommand.Audit limit => 0 <= limit <= usize_max
  | CliCommand.Trigger name | CliCommand.Mode name => word_ok name
  | _ => True
  end.

Lemma shell_words_ok command words :
  shell_words command = Some words -> wordable command -> Forall word_ok words.
Proof.
  destruct command as [| |limit| | |name| |name|[]| |]; cbn [shell_words]; intros [= <-] Hw;
    repeat constructor; try done; try apply Hw; apply pretty_word; cbn in Hw; lia.
Qed.

Section cli.
Context `{EngineEnv} `{Regex} `{Toml} `{IpcSerde} `{CliEnv}.

(** C37: Every command the shell has, written as its words in a line, is read back as the
    request that the same command given as arguments sends. *)
Theorem shell_understands_commands command words :
  shell_words command = Some words -> wordable command ->
  exists request, request_from_command command = Ok request
    /\ interpret (split_whitespace (unwords words)) = Ask request.
Proof.
  intros Hs Hw. rewrite split_unwords by by eapply shell_words_ok.
  destruct command as [| |limit| | |name| |name|[]| |]; cbn [shell_words] in Hs;
    try discriminate Hs; injection Hs as <-; cbn [request_from_command]; eexists; (split; [reflexivity|]);
    try reflexivity.
  unfold interpret. cbn [head]. cbn. by rewrite parse_unsigned_pretty.
Qed.

(** ** The exchange *)
Lemma take_bytes_all limit s : byte_len s <= limit -> take_bytes limit s = s.
Proof.
  unfold byte_len. revert limit. induction s as [|c s IH]; intros limit; [done|].
  cbn [String.length take_bytes]. rewrite Nat2Z.inj_succ. intros Hl.
  rewrite (proj2 (Z.leb_gt limit 0)) by lia. by rewrite IH by lia.
Qed.

(** The messages decode to what was encoded, with the line feed the daemon
    adds after its answer. *)
Definition request_decodes (request : Request) (bytes : string) : Prop :=
  envelope_to_vec (RequestEnvelope_new request) = Ok bytes
  /\ envelope_from_slice bytes = Ok (RequestEnvelope_new request).
Definition response_decodes (response : Response) (bytes : string) : Prop :=
  response_bytes response = Ok bytes /\ response_from_slice bytes = Ok response.

Lemma decide_sent request bytes :
  request_decodes request bytes -> byte_len bytes <= MAX_REQUEST_SIZE ->
  decide_request bytes = Serve request.
Proof.
  intros [_ Hd] Hlen. unfold decide_request. rewrite take_bytes_all by lia.
  rewrite (proj2 (Z.ltb_ge MAX_REQUEST_SIZE (byte_len bytes))) by done. rewrite Hd. done.
Qed.

(** The peer takes the request and sends the answer. *)
Definition exchanges (n : nat) (bytes answer : string) : Prop :=
  peer_connect n = Ok tt /\ peer_write n bytes = Ok tt /\ peer_shutdown n = Ok tt
  /\ peer_read n bytes = Ok answer.

Lemma send_receives n socket request bytes response answer :
  request_decodes request bytes -> response_decodes response answer ->
  byte_len answer <= MAX_RESPONSE_SIZE -> response_version response = IPC_VERSION ->
  exchanges n bytes answer -> send_inner n socket request = Ok response.
Proof.
  intros [Hto _] [_ Hfrom] Hlen Hver (Hc & Hw & Hs & Hr). unfold send_inner.
  rewrite Hc, Hto. cbn. rewrite Hw, Hs, Hr. cbn. rewrite take_bytes_all by lia.
  rewrite (proj2 (Z.ltb_ge MAX_RESPONSE_SIZE (byte_len answer))) by done. cbn. rewrite Hfrom. cbn.
  by rewrite Hver.
Qed.
End cli.

(** ** Through the daemon *)
Section daemon.
Context `{EngineEnv} `{Regex} `{Toml} `{DbEnv} `{Blake3} `{SerdeJson}.
Context `{Host} `{EvidenceText} `{ActionText} `{RuntimeEnv} `{IpcSerde} `{CliEnv}.

Ltac last_step H :=
  repeat (apply bind_return in H as (? & ? & _ & H)).

Lemma control_version request rt response rt' :
  handle_control request rt = (Return response, rt') -> response_version response = IPC_VERSION.
Proof.
  unfold handle_control, try_catch. destruct (handle_control_result request rt) as [[r|e|] rt1] eqn:Hr;
    [|by intros [= <- _]|done]. intros [= -> _].
  destruct request; cbn [handle_control_result] in Hr; cbv zeta in Hr; last_step Hr;
    try (by injection Hr as <- _).
  destruct (handle _ _) as [[? plans]|]; [|done]. last_step Hr. by injection Hr as <- _.
Qed.

Lemma served_version buffer rt labels d c request response :
  steps buffer (Daemon_new rt) labels d -> RunControl c request response ∈ labels ->
  response_version response = IPC_VERSION.
Proof.
  intros Hsteps. revert c request response.
  apply (steps_invariant buffer (fun labels _ => forall c request response,
    RunControl c request response ∈ labels -> response_version response = IPC_VERSION) rt labels d);
    [|clear; intros labels d label d' IH Hs|done].
  - intros c request response Hin. by apply elem_of_nil in Hin.
  - intros c request response [?|Heq%list_elem_of_singleton]%elem_of_app; [by eapply IH|]. subst.
    inversion Hs as [| | | | | |? rt1 ? ? ? ? ? ? ? Hrun| | | |]; subst. cbn in Hrun.
    apply bind_return in Hrun as (r & ? & Hc & Hrun). injection Hrun as <- <-.
    by eapply control_version.
Qed.

(** C19: A client whose request the daemon received on a connection and answered there gets
    back exactly the response that the runtime gave to this request, provided the messages
    decode to what was encoded and are within the size limits. *)
Theorem client_gets_its_answer buffer rt labels d c n socket request bytes response answer :
  steps buffer (Daemon_new rt) labels d ->
  Receive c bytes ∈ labels -> Reply c response ∈ labels ->
  exchanges n bytes answer ->
  request_decodes request bytes -> byte_len bytes <= MAX_REQUEST_SIZE ->
  response_decodes response answer -> byte_len answer <= MAX_RESPONSE_SIZE ->
  send_inner n socket request = Ok response /\ (RunControl c request response ∈ labels).
Proof.
  intros Hsteps Hin Hreply Hex Hreq Hlen Hres Hmax. pose proof (steps_served _ _ _ _ Hsteps) as Hsv.
  pose proof (decide_sent _ _ Hreq Hlen) as Hd.
  assert (RunControl c request response ∈ labels) as Hrun.
  { destruct (pv_replied _ _ (sv_provenance _ _ _ _ Hsv) c response Hreply) as (sent & Hs & Hcase).
    assert (sent = bytes) as ->.
    { by apply (cn_received _ _ (sv_connections _ _ _ _ Hsv) c bytes Hin). }
    destruct Hcase as [?|(r & ? & ?)]; congruence. }
  split; [|done]. eapply send_receives; eauto. by eapply served_version.
Qed.
End daemon.

(** ** Validation and the shell *)
Section local.
Context `{EngineEnv} `{Regex} `{Toml} `{IpcSerde} `{CliEnv}.

(** C38: The client's validation of a file succeeds exactly when the daemon's loader, its
    permission checks aside, accepts the file. *)
Theorem validate_agrees_with_load files path json c :
  cli_read_file path = files_read files path ->
  (validate path json c).1 = Return tt <-> exists config, load files path true = Ok config.
Proof.
  intros Hread. unfold validate, load. cbn [negb]. rewrite bind_eq, lift_eq, Hread.
  destruct (files_read files path) as [text|e]; cbn; [|by split; [|intros []]].
  rewrite bind_eq, lift_eq. destruct (from_toml text) as [config|e]; cbn; [|by split; [|intros []]].
  destruct (validate_config config) as [[]|errors].
  - split; [by exists config|]. by destruct json.
  - split; [|by intros []]. rewrite bind_eq. by destruct json.
Qed.

(** What a line read from the terminal makes the shell do. *)
Definition read_action (line : Result string) : ShellAction :=
  match line with Ok line => interpret (split_whitespace line) | Err error => Abandon error end.

Definition ends_shell (action : ShellAction) : bool :=
  match action with Leave | Abandon _ => true | _ => false end.

Definition asks (action : ShellAction) : option Request :=
  match action with Ask request => Some request | _ => None end.

Fixpoint before {A} (stop : A -> bool) (l : list A) : list A :=
  match l with [] => [] | x :: l => if stop x then [] else x :: before stop l end.

(** The answers can be printed. *)
Definition printable : Prop :=
  (forall v, exists text, json_pretty v = Ok text) /\ (forall r, exists text, response_pretty r = Ok text).

Definition sends_only (m : M Console unit) (o : Outcome unit) (requests : list Request) : Prop :=
  forall c, exists written, m c = (o, mkConsole written (con_sent c ++ requests)).

Lemma sends_then (m k : M Console unit) o r1 r2 :
  sends_only m (Return tt) r1 -> sends_only k o r2 -> sends_only (m;; k) o (r1 ++ r2).
Proof.
  intros Hm Hk c. rewrite bind_eq. destruct (Hm c) as [w1 ->].
  destruct (Hk (mkConsole w1 (con_sent c ++ r1))) as [w2 ->]. exists w2. cbn. by rewrite app_assoc.
Qed.

Lemma sends_println text : sends_only (println text) (Return tt) [].
Proof. intros c. eexists. cbn. by rewrite app_nil_r. Qed.
Lemma sends_print text : sends_only (print text) (Return tt) [].
Proof. intros c. eexists. cbn. by rewrite app_nil_r. Qed.
Lemma sends_eprintln text : sends_only (eprintln text) (Return tt) [].
Proof. intros c. eexists. cbn. by rewrite app_nil_r. Qed.
Lemma sends_nothing o : sends_only (fun c => (o, c)) o [].
Proof. intros [w s]. exists w. cbn. by rewrite app_nil_r. Qed.

Lemma sends_print_response response json :
  printable -> sends_only (print_response response json) (Return tt) [].
Proof.
  intros [Hj Hr]. unfold print_response. destruct json.
  - destruct (Hr response) as [text ->]. apply sends_println.
  - change (@nil Request) with (@nil Request ++ []).
    apply sends_then; [apply sends_println|].
    destruct (response_data response) as [data|]; [|apply sends_nothing].
    destruct (Hj data) as [text ->]. apply sends_println.
Qed.

Lemma sends_ask socket request (ok : Response -> M Console unit) err o requests :
  (forall response, sends_only (ok response) o requests) ->
  (forall e, sends_only (err e) o requests) ->
  sends_only (try_catch (send socket request) ok err) o (request :: requests).
Proof.
  intros Hok Herr c. unfold try_catch, send. rewrite bind_eq. cbn. rewrite bind_eq. cbn.
  destruct (peer_timeout _); cbn.
  - destruct (Herr "daemon request timed out" (mkConsole (con_written c) (con_sent c ++ [request])))
      as [w ->]. exists w. cbn. by rewrite <- app_assoc.
  - rewrite lift_eq. destruct (send_inner _ _ _) as [response|e].
    + destruct (Hok response (mkConsole (con_written c) (con_sent c ++ [request]))) as [w ->].
      exists w. cbn. by rewrite <- app_assoc.
    + destruct (Herr e (mkConsole (con_written c) (con_sent c ++ [request]))) as [w ->].
      exists w. cbn. by rewrite <- app_assoc.
Qed.

(** How the shell ends: at the first line that ends it. *)
Definition shell_outcome (actions : list ShellAction) : Outcome unit :=
  match List.find ends_shell actions with Some (Abandon error) => Throw error | _ => Return tt end.

(** The shell sends the requests of its lines up to the first line that ends it,
    in order and whatever becomes of each, and ends as that line says. *)
Theorem shell_runs_its_lines socket json input c :
  printable ->
  exists written,
    repl socket json input c
    = (shell_outcome (map read_action input),
       mkConsole written
         (con_sent c ++ omap asks (before ends_shell (map read_action input)))).
Proof.
  intros Hp. revert c. change (sends_only (repl socket json input) (shell_outcome (map read_action input))
    (omap asks (before ends_shell (map read_action input)))).
  change (omap asks ?l) with ([] ++ omap asks l). apply sends_then; [apply sends_println|].
  induction input as [|line input IH]; cbn [repl_loop];
    change (omap asks ?l) with ([] ++ omap asks l); (apply sends_then; [apply sends_print|]).
  { apply (sends_nothing (Return tt)). }
  destruct line as [line|error]; [|apply (sends_nothing (Throw error))].
  unfold shell_outcome. cbn [map read_action List.find before].
  destruct (interpret (split_whitespace line)) as [| | |message|error|request]; cbn [ends_shell].
  - exact IH.
  - apply (sends_nothing (Return tt)).
  - apply (sends_then _ _ _ []); [apply sends_println|exact IH].
  - apply (sends_then _ _ _ []); [apply sends_eprintln|exact IH].
  - apply (sends_nothing (Throw error)).
  - apply sends_ask; intros.
    + apply (sends_then _ _ _ []); [by apply sends_print_response|exact IH].
    + apply (sends_then _ _ _ []); [apply sends_eprintln|exact IH].
Qed.
End local.
