(* ===== verification/RuntimeProps.v ===== *)
(** * Properties of the daemon's runs

    A relation that the parts of the runtime respect is respected by every run
    ([Closed]); the theorems instantiate it with the integrity of the audit
    store, the ledger of completed actions, the confinement of the host and
    the persistence of the recovery mode. *)

From stdpp Require Import base tactics option list strings gmap pretty.
From Stdlib Require Import ZArith Lia Ascii.
From S2P Require Import Prelude RustStr RustPath Config Event Matching Engine Validation Effects.
From S2P Require Import Json AuditBytes AuditStore AuditFrame AuditProps Host Evidence Actions ActionsProps.
From S2P Require Import Ipc ConfigLoader SensorHub Runtime.
Local Open Scope Z_scope.
Local Open Scope stdpp_scope.

Section runs.
Context `{EngineEnv} `{Regex} `{Toml} `{DbEnv} `{Blake3} `{SerdeJson}.
Context `{Host} `{EvidenceText} `{ActionText} `{RuntimeEnv}.

(** The change of mode and of recovery mode. *)
Definition change_mode (mode : string) : M Runtime unit :=
  modify (fun rt => set_engine (set_mode mode (rt_engine rt)) rt);; audit (set_state "mode" mode).

Definition change_recovery (enabled : bool) : M Runtime unit :=
  modify (fun rt => set_engine (set_recovery_mode enabled (rt_engine rt)) rt);;
  audit (set_state "recovery_mode" (if enabled then "true" else "false")).

(** The parts of the runtime respect [R], those of the requests in [allowed]
    only as far as needed. *)
Record Closed (allowed : Request -> Prop) (R : Runtime -> Runtime -> Prop) : Prop := {
  closed_preorder : PreOrder R;
  closed_append : forall event_id kind rule_id payload,
    respects R (audit_append event_id kind rule_id payload);
  closed_engine : forall event, respects R (engine_handle event);
  closed_plan : forall event plan rt plans engine,
    handle (rt_engine rt) event = Some (engine, plans) -> plan ∈ plans ->
    forall rt', R (set_engine engine rt) rt' -> R rt' (execute_plan event plan rt').2;
  closed_recent : forall limit, respects R (audit (recent limit));
  closed_verify : respects R (audit verify);
  closed_mode : forall mode, respects R (change_mode mode);
  closed_recovery : forall enabled, allowed (Request.Recovery enabled) ->
    respects R (change_recovery enabled);
  closed_reload : allowed Request.Reload -> respects R reload;
}.

Definition input_allowed (allowed : Request -> Prop) (input : Input) : Prop :=
  match input with
  | EventInput _ => True
  | ControlInput request => allowed request
  end.

Section closed.
Context (allowed : Request -> Prop) (R : Runtime -> Runtime -> Prop) (HR : Closed allowed R).

#[local] Instance R_preorder : PreOrder R := closed_preorder _ _ HR.

Lemma bind_assoc_eq {A} (f g : M Runtime unit) (k : M Runtime A) rt :
  (f;; g;; k) rt = ((f;; g);; k) rt.
Proof. rewrite !bind_eq. by destruct (f rt) as [[[]|e|] rt1]. Qed.

Lemma execute_plans_respects event plans rt engine l :
  handle (rt_engine rt) event = Some (engine, plans) -> (forall p, p ∈ l -> p ∈ plans) ->
  forall rt', R (set_engine engine rt) rt' ->
  R (set_engine engine rt) (for_each (execute_plan event) l rt').2.
Proof using HR.
  intros Hh. induction l as [|plan l IH]; intros Hl rt' Hrt; simpl; [done|].
  rewrite bind_eq. pose proof (closed_plan _ _ HR event plan rt plans engine Hh) as Hp.
  specialize (Hp ltac:(apply Hl; by left) rt' Hrt).
  destruct (execute_plan event plan rt') as [[[]|e|] rt1]; simpl in *;
    [|by etrans..]. apply IH; [|by etrans]. intros p Hp'. apply Hl. by right.
Qed.

Lemma process_event_respects event : respects R (process_event event).
Proof using HR.
  apply respects_bind; [apply _|apply respects_lift, _|]. intros value.
  apply respects_bind; [apply _|apply (closed_append _ _ HR)|]. intros _.
  intros rt. rewrite bind_eq. pose proof (closed_engine _ _ HR event rt) as He.
  unfold engine_handle in *. destruct (handle (rt_engine rt) event) as [[engine plans]|] eqn:Hh;
    [|reflexivity].
  etrans; [exact He|]. simpl. rewrite bind_eq.
  pose proof (execute_plans_respects event plans rt engine plans Hh ltac:(done)
                (set_engine engine rt) ltac:(reflexivity)) as Hp.
  by destruct (for_each _ _ _) as [[[]|e|] rt1].
Qed.

Lemma plan_values_respects plans : respects R (plan_values plans).
Proof using HR.
  induction plans as [|plan plans IH]; simpl; [apply respects_ret, _|].
  apply respects_bind; [apply _| |intros action].
  { unfold json_value. case_match; [apply respects_ret|apply respects_panic]; apply _. }
  apply respects_bind; [apply _|apply IH|intros rest; apply respects_ret, _].
Qed.

Lemma handle_control_result_respects request :
  allowed request -> respects R (handle_control_result request).
Proof using HR.
  intros Hallow. destruct request; cbn [handle_control_result].
  - apply respects_bind; [apply _|apply respects_get, _|]. intros rt.
    apply respects_bind; [apply _| |intros; apply respects_ret, _].
    unfold json_value. case_match; [apply respects_ret|apply respects_panic]; apply _.
  - apply respects_bind; [apply _|apply respects_get, _|]. intros rt.
    apply respects_bind; [apply _|apply respects_lift, _|intros; apply respects_ret, _].
  - apply respects_bind; [apply _|apply (closed_recent _ _ HR)|]. intros records.
    apply respects_bind; [apply _|apply respects_lift, _|intros; apply respects_ret, _].
  - apply respects_bind; [apply _|by apply (closed_reload _ _ HR)|intros; apply respects_ret, _].
  - apply respects_bind; [apply _|apply respects_get, _|]. intros rt. cbv zeta.
    apply respects_bind; [apply _|apply process_event_respects|intros; apply respects_ret, _].
  - apply respects_bind; [apply _|apply respects_get, _|]. intros rt.
    destruct (handle _ _) as [[engine plans]|]; [|apply respects_panic, _].
    apply respects_bind; [apply _|apply plan_values_respects|intros; apply respects_ret, _].
  - apply respects_bind; [apply _|apply respects_get, _|]. intros rt.
    apply respects_guard; [apply _|]. intros _ rt'. rewrite bind_assoc_eq. revert rt'.
    apply respects_bind; [apply _|apply (closed_mode _ _ HR)|intros _].
    apply respects_bind; [apply _|apply (closed_append _ _ HR)|intros; apply respects_ret, _].
  - intros rt'. rewrite bind_assoc_eq. revert rt'.
    apply respects_bind; [apply _|by apply (closed_recovery _ _ HR)|intros _].
    apply respects_bind; [apply _|apply (closed_append _ _ HR)|intros; apply respects_ret, _].
  - apply respects_bind; [apply _|apply (closed_verify _ _ HR)|intros; apply respects_ret, _].
Qed.

Lemma run_input_respects input : input_allowed allowed input -> respects R (run_input input).
Proof using HR.
  intros Hallow. destruct input as [event|request]; simpl.
  - apply respects_try_catch; [apply _|apply process_event_respects|intros; apply respects_ret, _..].
  - apply respects_bind; [apply _| |intros; apply respects_ret, _].
    apply respects_try_catch;
      [apply _|by apply handle_control_result_respects|intros; apply respects_ret, _..].
Qed.

Lemma run_inputs_respects inputs :
  Forall (input_allowed allowed) inputs -> respects R (run_inputs inputs).
Proof using HR.
  induction 1 as [|input inputs Hi Hinputs IH]; simpl; [apply respects_ret, _|].
  apply respects_bind; [apply _|by apply run_input_respects|]. intros response.
  apply respects_bind; [apply _|apply IH|intros; apply respects_ret, _].
Qed.

Lemma run_respects inputs : Forall (input_allowed allowed) inputs -> respects R (run inputs).
Proof using HR.
  intros Hi. apply respects_bind; [apply _|apply respects_get, _|]. intros rt.
  apply respects_bind; [apply _|apply (closed_append _ _ HR)|intros _].
  apply respects_bind; [apply _|by apply run_inputs_respects|]. intros responses.
  apply respects_bind; [apply _|apply (closed_append _ _ HR)|intros; apply respects_ret, _].
Qed.
End closed.

(** ** Helpers *)
Lemma respects_modify (R : Runtime -> Runtime -> Prop) f :
  (forall rt, R rt (f rt)) -> respects R (modify f).
Proof. intros HR rt. apply HR. Qed.

(** An attempt respects what each of its steps respects. *)
Lemma attempt_plan_respects (R : Runtime -> Runtime -> Prop) `{!PreOrder R} event plan hash :
  (forall s o, respects R (audit (record_action (event_id event) (plan_rule_id plan) hash s o))) ->
  (forall e k r p, respects R (audit_append e k r p)) ->
  (forall rt, R rt (on_host (execute_action (rt_executor rt) (plan_action plan) event) rt).2) ->
  (forall effect, respects R (apply_effect effect)) ->
  respects R (attempt_plan event plan hash).
Proof.
  intros Hrecord Happend Hhost Heffect. unfold attempt_plan. cbv zeta.
  apply respects_bind; [apply _|apply Hrecord|]. intros _.
  apply respects_bind; [apply _|apply respects_lift, _|]. intros value.
  apply respects_bind; [apply _|apply Happend|]. intros _.
  assert (forall outcome, respects R (finish_plan (event_id event) (plan_rule_id plan) hash outcome))
    as Hfinish.
  { intros outcome. unfold finish_plan.
    apply respects_bind; [apply _|apply respects_lift, _|]. intros outcome_value.
    apply respects_bind; [apply _|apply Hrecord|]. intros _.
    apply respects_bind; [apply _|apply Happend|]. intros _.
    destruct (_ && _); [apply Heffect|apply respects_ret, _]. }
  intros rt. rewrite bind_eq. simpl. unfold try_catch. specialize (Hhost rt).
  destruct (on_host _ rt) as [[outcome|e|] rt1]; simpl in *; [by etrans; [|apply Hfinish]| |done].
  etrans; [exact Hhost|]. revert rt1 Hhost. intros rt1 _. revert rt1.
  apply respects_bind; [apply _|apply Hrecord|]. intros _. apply Happend.
Qed.

Lemma execute_plan_respects (R : Runtime -> Runtime -> Prop) `{!PreOrder R} event plan :
  (forall a b c s o, respects R (audit (record_action a b c s o))) ->
  (forall a b c, respects R (audit (action_completed a b c))) ->
  (forall e k r p, respects R (audit_append e k r p)) ->
  (forall rt, R rt (on_host (execute_action (rt_executor rt) (plan_action plan) event) rt).2) ->
  (forall effect, respects R (apply_effect effect)) ->
  respects R (execute_plan event plan).
Proof.
  intros Hrecord Hcompleted Happend Hhost Heffect. unfold execute_plan. cbv zeta.
  apply respects_bind; [apply _|apply respects_lift, _|]. intros bytes.
  apply respects_bind; [apply _|apply Hcompleted|]. intros [|]; [apply respects_ret, _|].
  by apply attempt_plan_respects.
Qed.

(** [apply_effect] changes the mode or a key of its own. *)
Lemma apply_effect_respects (R : Runtime -> Runtime -> Prop) `{!PreOrder R} effect :
  (forall mode, respects R (change_mode mode)) ->
  (forall value, respects R (audit (set_state "network_isolated" value))) ->
  respects R (apply_effect effect).
Proof. intros Hm Hn. destruct effect; simpl; [apply respects_ret, _|apply Hm|apply Hn]. Qed.

(** [reload] respects what its steps respect. *)
Lemma reload_respects (R : Runtime -> Runtime -> Prop) `{!PreOrder R} :
  (forall rt sent, R rt (add_sent sent rt)) -> (forall rt handles, R rt (set_handles handles rt)) ->
  (forall rt rules, R rt (set_engine (replace_rules rules (rt_engine rt)) rt)) ->
  (forall rt context, R rt (set_executor context rt)) ->
  (forall rt config, R rt (set_config config rt)) ->
  (forall e k r p, respects R (audit_append e k r p)) ->
  respects R reload.
Proof.
  intros Hsent Hhandles Hengine Hexec Hconfig Happend.
  apply respects_bind; [apply _|apply respects_get, _|]. intros rt. cbv zeta.
  apply respects_bind; [apply _|apply respects_lift, _|]. intros config.
  destruct (start _ _) as [started sent].
  apply respects_bind; [apply _|by apply respects_modify|intros _].
  apply respects_bind; [apply _|apply respects_with_context, respects_lift; apply _|]. intros handles.
  apply respects_bind; [apply _|by apply respects_modify|intros _].
  apply respects_bind; [apply _|apply respects_modify; intros; apply Hengine|intros _].
  apply respects_bind; [apply _|by apply respects_modify|intros _].
  apply respects_bind; [apply _|by apply respects_modify|intros _].
  apply respects_bind; [apply _|apply respects_get, _|]. intros rt'. apply Happend.
Qed.

Lemma audit_append_respects (R : Runtime -> Runtime -> Prop) `{!PreOrder R} e k r p :
  (forall max, respects R (audit (append max e k r p))) -> respects R (audit_append e k r p).
Proof.
  intros Ha. apply respects_bind; [apply _|apply respects_get, _|]. intros rt.
  apply respects_bind; [apply _|apply Ha|intros; apply respects_ret, _].
Qed.

Lemma engine_handle_respects (R : Runtime -> Runtime -> Prop) `{!PreOrder R} event :
  (forall rt engine plans, handle (rt_engine rt) event = Some (engine, plans) ->
     R rt (set_engine engine rt)) ->
  respects R (engine_handle event).
Proof.
  intros HR rt. unfold engine_handle. destruct (handle _ _) as [[engine plans]|] eqn:Hh;
    [by eapply HR|reflexivity].
Qed.

(** ** The audit store stays intact *)
Definition audit_ok (rt : Runtime) : Prop :=
  0 <= rt_max_records rt < 2 ^ 63 /\ db_ok (rt_audit rt).

Lemma audit_keeps {A} (m : M Db A) : respects (keeps db_ok) m -> respects (keeps audit_ok) (audit m).
Proof.
  apply respects_zoom. intros rt db Hdb [? ?]. split; [done|]. by apply Hdb.
Qed.

Lemma audit_append_keeps e k r p : respects (keeps audit_ok) (audit_append e k r p).
Proof.
  intros rt Hok. unfold audit_append. rewrite bind_eq. simpl. rewrite bind_eq.
  pose proof (append_keeps (rt_max_records rt) e k r p (proj1 Hok) (rt_audit rt) (proj2 Hok)) as Ha.
  unfold audit, zoom. destruct (append _ _ _ _ _ _) as [[a|?|] db]; simpl in *;
    (split; [apply Hok|exact Ha]).
Qed.

Lemma audit_ok_same rt rt' :
  rt_max_records rt' = rt_max_records rt -> rt_audit rt' = rt_audit rt -> keeps audit_ok rt rt'.
Proof. unfold keeps, audit_ok. by intros -> ->. Qed.

Lemma change_mode_keeps mode : respects (keeps audit_ok) (change_mode mode).
Proof.
  apply respects_bind; [apply _|apply respects_modify; intros; by apply audit_ok_same|]. intros _.
  by apply audit_keeps, set_state_keeps.
Qed.

Lemma audit_closed : Closed (fun _ => True) (keeps audit_ok).
Proof.
  split.
  - apply _.
  - apply audit_append_keeps.
  - intros event. apply engine_handle_respects; [apply _|]. intros. by apply audit_ok_same.
  - intros event plan rt plans engine _ _ rt' _. revert rt'. apply execute_plan_respects; [apply _|..].
    + intros. apply audit_keeps, record_action_keeps.
    + intros. apply audit_keeps, action_completed_keeps.
    + apply audit_append_keeps.
    + intros rt'. unfold on_host, zoom. destruct (execute_action _ _ _ _).
      by apply audit_ok_same.
    + intros effect. apply apply_effect_respects; [apply _|apply change_mode_keeps|].
      intros. by apply audit_keeps, set_state_keeps.
  - intros. apply audit_keeps, recent_keeps.
  - apply audit_keeps, verify_keeps.
  - apply change_mode_keeps.
  - intros enabled _. apply respects_bind; [apply _|apply respects_modify; intros; by apply audit_ok_same|]. intros _.
    by apply audit_keeps, set_state_keeps.
  - intros _. apply reload_respects; [apply _|intros; by apply audit_ok_same..|apply audit_append_keeps].
Qed.

(** C13: Through a whole run of the daemon, whatever inputs arrive and whatever statements,
    serializations and tools fail, the audit table stays a hash chain from its anchor with
    increasing keys. *)
Theorem run_audit_intact inputs rt :
  0 <= rt_max_records rt < 2 ^ 63 -> db_ok (rt_audit rt) ->
  db_ok (rt_audit (run inputs rt).2).
Proof.
  intros Hmax Hok. eapply (run_respects _ _ audit_closed inputs); [|done].
  apply Forall_forall. by intros [].
Qed.

(** ** Completed actions *)
Definition ledger_of (rt : Runtime) : gmap (string * string * string) LedgerRow :=
  t_ledger (db_tables (rt_audit rt)).

(** A relation on the tables, on runtimes. *)
Definition on_store (Q : Tables -> Tables -> Prop) (rt rt' : Runtime) : Prop :=
  Q (db_tables (rt_audit rt)) (db_tables (rt_audit rt')).

#[local] Instance on_store_preorder Q : PreOrder Q -> PreOrder (on_store Q).
Proof using. intros [Hr Ht]. split; [intros rt; apply Hr|intros rt1 rt2 rt3; apply Ht]. Qed.

Lemma on_store_audit {A} (Q : Tables -> Tables -> Prop) (m : M Db A) :
  respects (on_tables Q) m -> respects (on_store Q) (audit m).
Proof using. by apply respects_zoom. Qed.

Lemma on_store_same (Q : Tables -> Tables -> Prop) `{!Reflexive Q} rt rt' :
  rt_audit rt' = rt_audit rt -> on_store Q rt rt'.
Proof using. unfold on_store. intros ->. reflexivity. Qed.

Section store.
Context (Q : Tables -> Tables -> Prop) `{!PreOrder Q}.
Context (Q_rows : forall rows sequence t, Q t (set_rows rows sequence t)).
Context (Q_anchor : forall anchor t, Q t (set_key "audit_anchor" anchor t)).
Context (Q_mode : forall mode t, Q t (set_key "mode" mode t)).
Context (Q_isolated : forall value t, Q t (set_key "network_isolated" value t)).

Lemma store_append e k r p : respects (on_store Q) (audit_append e k r p).
Proof using Type*.
  apply audit_append_respects; [apply _|]. intros max. apply on_store_audit, append_frame; try apply _; auto.
Qed.

Lemma store_host {A} (m : M History A) : respects (on_store Q) (on_host m).
Proof using Type*. intros rt. unfold on_host, zoom. destruct (m _). by apply on_store_same; [apply _|]. Qed.

Lemma store_modify f : (forall rt, rt_audit (f rt) = rt_audit rt) -> respects (on_store Q) (modify f).
Proof using Type*. intros Hf rt. apply on_store_same; [apply _|apply Hf]. Qed.

Lemma store_mode mode : respects (on_store Q) (change_mode mode).
Proof using Type*.
  apply respects_bind; [apply _|by apply store_modify|intros _].
  apply on_store_audit, set_state_frame; try apply _; auto.
Qed.

Lemma store_effect effect : respects (on_store Q) (apply_effect effect).
Proof using Type*.
  apply apply_effect_respects; [apply _|apply store_mode|]. intros value.
  apply on_store_audit, set_state_frame; try apply _; auto.
Qed.

Lemma store_attempt event plan hash :
  (forall t row, Q t (mkTables (t_audit t) (t_sequence t) (t_state t)
      (<[(event_id event, plan_rule_id plan, hash) := row]> (t_ledger t)))) ->
  respects (on_store Q) (attempt_plan event plan hash).
Proof using Type*.
  intros HQ. apply attempt_plan_respects; [apply _| | | |].
  - intros. apply on_store_audit, record_action_frame; try apply _; auto.
  - apply store_append.
  - intros. apply store_host.
  - apply store_effect.
Qed.

Lemma store_reload : respects (on_store Q) reload.
Proof using Type*.
  apply reload_respects; [apply _|intros; by apply on_store_same; [apply _|]..|apply store_append].
Qed.

Lemma store_engine event : respects (on_store Q) (engine_handle event).
Proof using Type*.
  apply engine_handle_respects; [apply _|]. intros. by apply on_store_same; [apply _|].
Qed.
End store.

(** The answer of the ledger. *)
Lemma action_completed_eq a b c rt :
  audit (action_completed a b c) rt
  = match db_fault (db_count (rt_audit rt)) with
    | Some e => (Throw e, set_audit (mkDb (db_tables (rt_audit rt)) (S (db_count (rt_audit rt)))) rt)
    | None => (Return (eqb (ledger_status <$> ledger_of rt !! (a, b, c)) (Some "succeeded")),
               set_audit (mkDb (db_tables (rt_audit rt)) (S (db_count (rt_audit rt)))) rt)
    end.
Proof.
  unfold audit, zoom, action_completed. rewrite bind_eq, select_eq. by destruct (db_fault _).
Qed.

(** Rows of succeeded actions stay as they are. *)
Definition completed_kept (rt rt' : Runtime) : Prop :=
  forall key row, ledger_of rt !! key = Some row -> ledger_status row = "succeeded" ->
                  ledger_of rt' !! key = Some row.

#[local] Instance completed_kept_preorder : PreOrder completed_kept.
Proof using. unfold completed_kept. split; intros ? **; eauto. Qed.

Lemma same_ledger_kept rt rt' : on_store (same_ledger_but None) rt rt' -> completed_kept rt rt'.
Proof using. intros Hs key row Hl _. unfold ledger_of. by rewrite (Hs key). Qed.

Lemma execute_plan_kept event plan : respects completed_kept (execute_plan event plan).
Proof.
  apply respects_bind; [apply _|apply respects_lift, _|]. intros bytes. cbv zeta.
  set (hash := blake3_hex bytes). intros rt. rewrite bind_eq, action_completed_eq.
  destruct (db_fault _); [by intros key row|].
  destruct (eqb _ _) eqn:Hdone; [by intros key row|].
  unfold eqb in Hdone. apply bool_decide_eq_false in Hdone.
  set (rt1 := set_audit _ rt).
  assert (respects (on_store (same_ledger_but (Some (event_id event, plan_rule_id plan, hash))))
            (attempt_plan event plan hash)) as Hatt.
  { apply store_attempt; [apply _|by intros ???..|]. intros t row k Hk. simpl.
    rewrite lookup_insert_ne; [done|congruence]. }
  specialize (Hatt rt1). intros key row Hl Hs.
  destruct (decide (key = (event_id event, plan_rule_id plan, hash))) as [->|Hne].
  { exfalso. apply Hdone. by rewrite Hl, <- Hs. }
  unfold ledger_of. rewrite (Hatt key); [exact Hl|congruence].
Qed.

Lemma ledger_frame {A} (m : M Runtime A) :
  respects (on_store (same_ledger_but None)) m -> respects completed_kept m.
Proof using. apply respects_mono, same_ledger_kept. Qed.

Lemma completed_closed : Closed (fun _ => True) completed_kept.
Proof.
  assert (forall rows sequence t, same_ledger_but None t (set_rows rows sequence t)) by done.
  assert (forall key value t, same_ledger_but None t (set_key key value t)) by done.
  split.
  - apply _.
  - intros. apply ledger_frame. apply store_append; try apply _; auto.
  - intros. apply ledger_frame. apply store_engine; try apply _; auto.
  - intros event plan rt plans engine _ _ rt' _. apply execute_plan_kept.
  - intros. apply ledger_frame, on_store_audit, recent_frame; try apply _; auto.
  - apply ledger_frame, on_store_audit, verify_frame; try apply _; auto.
  - intros. apply ledger_frame. apply store_mode; try apply _; auto.
  - intros enabled _. apply ledger_frame.
    apply respects_bind; [apply _|apply store_modify; try apply _; auto|intros _].
    apply on_store_audit, set_state_frame; try apply _; auto.
  - intros _. apply ledger_frame. apply store_reload; try apply _; auto.
Qed.

(** C8: Once the ledger records an action of an event and rule as succeeded, then after any
    further inputs, reloads included, executing that plan again makes no call to the host
    and leaves the ledger as it is. *)
Theorem completed_action_not_repeated inputs rt event plan bytes row :
  action_bytes (plan_action plan) = Ok bytes ->
  ledger_of rt !! (event_id event, plan_rule_id plan, blake3_hex bytes) = Some row ->
  ledger_status row = "succeeded" ->
  let rt' := (run_inputs inputs rt).2 in
  rt_host (execute_plan event plan rt').2 = rt_host rt'
  /\ ledger_of (execute_plan event plan rt').2 = ledger_of rt'.
Proof.
  intros Hbytes Hrow Hstatus rt'.
  assert (completed_kept rt rt') as Hkept.
  { apply (run_inputs_respects _ _ completed_closed). apply Forall_forall. by intros []. }
  specialize (Hkept _ _ Hrow Hstatus).
  unfold execute_plan. rewrite bind_eq, lift_eq, Hbytes. cbv zeta.
  rewrite bind_eq, action_completed_eq. destruct (db_fault _); [done|].
  rewrite Hkept. simpl. rewrite Hstatus. by rewrite (proj2 (eqb_true _ _) eq_refl).
Qed.
End runs.
