(* ===== verification/RuntimeSafety.v ===== *)
(** * Confinement, ordering and persistence of the daemon

    What a run may do to the host and why, what is on record before anything
    is done, what survives a restart, and that simulation changes nothing. *)

From stdpp Require Import base tactics option list strings gmap pretty.
From Stdlib Require Import ZArith Lia Ascii.
From S2P Require Import Prelude RustStr RustPath Config Event Matching Engine EngineRun EngineFire EngineSafety.
From S2P Require Import Validation Effects Json AuditBytes AuditStore AuditFrame AuditProps Host Evidence.
From S2P Require Import Actions ActionsProps Ipc ConfigLoader SensorHub Runtime RuntimeProps.
Local Open Scope Z_scope.
Local Open Scope stdpp_scope.

Section safety.
Context `{EngineEnv} `{Regex} `{Toml} `{DbEnv} `{Blake3} `{SerdeJson}.
Context `{Host} `{EvidenceText} `{ActionText} `{RuntimeEnv}.

(** ** Confinement *)

(** An action that one of the rules may take on the event. *)
Definition rule_action (rules : list Rule) (event : Event) (action : ActionSpec) : Prop :=
  exists r, r ∈ rules /\ rule_enabled r = true /\ allowed_action r event action.

(** A host call that some action of the rules permits. *)
Definition rule_call (rules : list Rule) (context : ExecutionContext) (c : HostCall) : Prop :=
  exists event action, rule_action rules event action /\ permitted context event action c.

(** Rules and executor stay, and every call is one of theirs. *)
Record confined (rt rt' : Runtime) : Prop := {
  confined_rules : engine_rules (rt_engine rt') = engine_rules (rt_engine rt);
  confined_executor : rt_executor rt' = rt_executor rt;
  confined_calls :
    adds (rule_call (engine_rules (rt_engine rt)) (rt_executor rt)) (rt_host rt) (rt_host rt');
}.

#[local] Instance confined_preorder : PreOrder confined.
Proof.
  split.
  - intros rt. split; [done|done|reflexivity].
  - intros rt1 rt2 rt3 [R1 E1 C1] [R2 E2 C2]. split; [congruence|congruence|].
    etrans; [exact C1|]. by rewrite <- R1, <- E1.
Qed.

Lemma confined_same rt rt' :
  engine_rules (rt_engine rt') = engine_rules (rt_engine rt) ->
  rt_executor rt' = rt_executor rt -> rt_host rt' = rt_host rt -> confined rt rt'.
Proof. intros ? ? Hh. split; [done|done|]. rewrite Hh. reflexivity. Qed.

Lemma confined_audit {A} (m : M Db A) : respects confined (audit m).
Proof. intros rt. unfold audit, zoom. destruct (m _). by apply confined_same. Qed.

Lemma confined_append e k r p : respects confined (audit_append e k r p).
Proof. apply audit_append_respects; [apply _|]. intros. apply confined_audit. Qed.

Lemma confined_mode mode : respects confined (change_mode mode).
Proof.
  apply respects_bind; [apply _| |intros _; apply confined_audit].
  apply respects_modify. intros rt. by apply confined_same.
Qed.

(** While a plan's action is one of the rules'. *)
Definition planned (event : Event) (action : ActionSpec) (rt rt' : Runtime) : Prop :=
  rule_action (engine_rules (rt_engine rt)) event action -> confined rt rt'.

#[local] Instance planned_preorder event action : PreOrder (planned event action).
Proof.
  split.
  - intros rt _. reflexivity.
  - intros rt1 rt2 rt3 Hfirst Hsecond Hp. specialize (Hfirst Hp). etrans; [exact Hfirst|].
    apply Hsecond. by rewrite (confined_rules _ _ Hfirst).
Qed.

Lemma execute_plan_planned event plan :
  respects (planned event (plan_action plan)) (execute_plan event plan).
Proof.
  apply execute_plan_respects; [apply _|..].
  - intros. eapply respects_mono; [|apply confined_audit]. by intros ? ? ? ?.
  - intros. eapply respects_mono; [|apply confined_audit]. by intros ? ? ? ?.
  - intros. eapply respects_mono; [|apply confined_append]. by intros ? ? ? ?.
  - intros rt Hp. unfold on_host, zoom.
    pose proof (execute_action_adds (rt_executor rt) (plan_action plan) event (rt_host rt)) as Hc.
    destruct (execute_action _ _ _ _) as [o h]. split; [done|done|]. simpl in *.
    eapply adds_impl; [|exact Hc]. intros c Hperm. by exists event, (plan_action plan).
  - intros effect. eapply (respects_mono confined); [by intros ? ? ? ?|].
    apply apply_effect_respects; [apply _|apply confined_mode|]. intros. apply confined_audit.
Qed.

Definition not_reload (request : Request) : Prop := request <> Request.Reload.

Lemma confined_closed : Closed not_reload confined.
Proof.
  split.
  - apply _.
  - apply confined_append.
  - intros event. apply engine_handle_respects; [apply _|]. intros rt engine plans Hh.
    apply confined_same; [|done|done]. simpl. by eapply handle_rules.
  - intros event plan rt plans engine Hh Hp rt' Hrt. apply execute_plan_planned.
    destruct (handle_plans_accounted _ _ _ _ _ Hh Hp) as (_ & r & Hr & Hen & _ & Hact).
    exists r. split_and!; [|done|done].
    rewrite (confined_rules _ _ Hrt). simpl. by rewrite (handle_rules _ _ _ _ Hh).
  - intros. apply confined_audit.
  - apply confined_audit.
  - apply confined_mode.
  - intros enabled _. apply respects_bind; [apply _| |intros _; apply confined_audit].
    apply respects_modify. intros rt. by apply confined_same.
  - by intros [].
Qed.

(** C2: In a run of the daemon without a reload, every call made to the host (probing,
    starting or signalling a process, reading or writing a file) is one that an enabled
    rule's own action, or the action its sensor-failure policy allows, permits under the
    executor's context: for lock_vault only the locking commands of the named vault's
    adapter, for unlock_vault only its key lookup and unlocking commands, for the tools
    their fixed arguments, for capture_evidence metadata of the named paths and the file
    named by time and event in the destination, for exec the allowlisted executable. *)
Theorem run_confined inputs rt :
  Forall (input_allowed not_reload) inputs ->
  let rt' := (run inputs rt).2 in
  exists new, rt_host rt' = rt_host rt ++ new
    /\ Forall (rule_call (engine_rules (rt_engine rt)) (rt_executor rt)) new.
Proof. intros Hi. by destruct (run_respects _ _ confined_closed inputs Hi rt) as [_ _ ?]. Qed.

(** A run of a runtime in dry-run mode makes no call to the host at all. *)
Theorem dry_run_inert inputs rt :
  Forall (input_allowed not_reload) inputs -> ctx_dry_run (rt_executor rt) = true ->
  rt_host (run inputs rt).2 = rt_host rt.
Proof.
  intros Hi Hdry. destruct (run_respects _ _ confined_closed inputs Hi rt) as [_ _ (new & -> & Hn)].
  destruct new as [|c new]; [by rewrite app_nil_r|].
  inversion Hn as [|? ? (event & action & _ & [Hf _])]. congruence.
Qed.

(** ** Nothing happens before it is on record *)
Lemma audit_append_eq e k r p rt :
  audit_append e k r p rt
  = let (o, db) := append (rt_max_records rt) e k r p (rt_audit rt) in
    (match o with Return _ => Return tt | Throw m => Throw m | Panic => Panic end, set_audit db rt).
Proof.
  unfold audit_append. rewrite bind_eq. simpl. rewrite bind_eq. unfold audit, zoom.
  by destruct (append _ _ _ _ _ _) as [[a|m|] db].
Qed.

Lemma audit_eq {A} (m : M Db A) rt :
  audit m rt = let (o, db) := m (rt_audit rt) in (o, set_audit db rt).
Proof. done. Qed.

(** The records that precede the execution of an action. *)
Definition recorded_before (event : Event) (plan : ActionPlan) (max_records : Z) (db : Db) : Prop :=
  exists bytes value db1 db2 db3 record,
    let id := event_id event in
    let rule := plan_rule_id plan in
    let hash := blake3_hex bytes in
    action_bytes (plan_action plan) = Ok bytes /\ action_json (plan_action plan) = Ok value
    /\ action_completed id rule hash db = (Return false, db1)
    /\ record_action id rule hash "started" None db1 = (Return tt, db2)
    /\ append max_records (Some id) "action_started" (Some rule) value db2 = (Return record, db3).

(** C14: If executing a plan makes any call to the host, then before it the action was not
    marked completed, it was recorded as started in the ledger and its action_started record
    was appended to the audit log. *)
Theorem execute_plan_write_ahead event plan rt :
  rt_host (execute_plan event plan rt).2 <> rt_host rt ->
  recorded_before event plan (rt_max_records rt) (rt_audit rt).
Proof.
  unfold execute_plan, attempt_plan. rewrite bind_eq, lift_eq.
  destruct (action_bytes _) as [bytes|e] eqn:Hb; [|done]. cbv zeta. rewrite bind_eq, audit_eq.
  destruct (action_completed _ _ _ _) as [[[|]|e|] db1] eqn:Hc; try done.
  rewrite bind_eq, audit_eq. cbn [rt_audit set_audit].
  destruct (record_action _ _ _ _ _ db1) as [[[]|e|] db2] eqn:Hr; try done.
  rewrite bind_eq, lift_eq. destruct (action_json _) as [value|e] eqn:Hv; [|done].
  rewrite bind_eq, audit_append_eq. cbn [rt_audit rt_max_records set_audit].
  destruct (append _ _ _ _ _ db2) as [[record|e|] db3] eqn:Ha; try done. intros _.
  by exists bytes, value, db1, db2, db3, record.
Qed.

(** If processing an event changes the engine or makes a call to the host, the event
    was first appended to the audit log. *)
Theorem process_event_write_ahead event rt :
  rt_engine (process_event event rt).2 <> rt_engine rt
  \/ rt_host (process_event event rt).2 <> rt_host rt ->
  exists value record db, event_json event = Ok value
    /\ append (rt_max_records rt) (Some (event_id event)) "event" None value (rt_audit rt)
       = (Return record, db).
Proof.
  unfold process_event. rewrite bind_eq, lift_eq.
  destruct (event_json event) as [value|e]; [|intros [?|?]; done].
  rewrite bind_eq, audit_append_eq.
  destruct (append _ _ _ _ _ _) as [[record|e|] db] eqn:Ha; [|intros [?|?]; done..].
  intros _. by exists value, record, db.
Qed.

(** ** Simulation *)
Lemma plan_values_eq plans rt :
  (exists values, plan_values plans rt = (Return values, rt)) \/ plan_values plans rt = (Panic, rt).
Proof.
  induction plans as [|plan plans IH]; simpl; [left; by eexists|].
  rewrite bind_eq. unfold json_value. destruct (action_json _); [|by right]. simpl.
  rewrite bind_eq. destruct IH as [[values ->]| ->]; [left; by eexists|by right].
Qed.

Lemma process_event_count event rt n rt' :
  process_event event rt = (Return n, rt') ->
  exists engine plans, handle (rt_engine rt) event = Some (engine, plans)
                       /\ n = Z.of_nat (length plans).
Proof.
  unfold process_event. rewrite bind_eq, lift_eq. destruct (event_json event); [|done].
  rewrite bind_eq, audit_append_eq. destruct (append _ _ _ _ _ _) as [[record|e|] db]; try done.
  rewrite bind_eq. unfold engine_handle. cbn [rt_engine set_audit].
  destruct (handle (rt_engine rt) event) as [[engine plans]|]; [|done]. rewrite bind_eq.
  destruct (for_each _ _ _) as [[[]|e|] rt1]; try done. intros [= <- _]. by exists engine, plans.
Qed.

(** Simulating an event changes nothing of the runtime, and announces the number of
    actions that processing the event then plans. *)
Theorem simulate_predicts event rt :
  (handle_control (Request.Simulate event) rt).2 = rt
  /\ forall response rt' n,
       (handle_control (Request.Simulate event) rt).1 = Return response ->
       process_event event rt = (Return n, rt') ->
       response_ok response = true
       /\ response_message response = "simulation produced " +:+ pretty n +:+ " action(s)".
Proof.
  unfold handle_control, try_catch. cbn [handle_control_result]. rewrite bind_eq. simpl.
  destruct (handle (rt_engine rt) event) as [[engine plans]|] eqn:Hh; [|by split].
  rewrite bind_eq. destruct (plan_values_eq plans rt) as [[values ->]| ->]; simpl; [|by split].
  split; [done|]. intros response rt' n [= <-] (? & ? & Hh' & ->)%process_event_count.
  rewrite Hh in Hh'. by injection Hh' as <- <-.
Qed.
End safety.
