(* ===== verification/RuntimeRestart.v ===== *)
(** * What survives a restart of the daemon

    The recovery mode and the security mode of a running daemon are those a
    new [Runtime] reads from the store it left. *)

From stdpp Require Import base tactics option list strings gmap pretty.
From Stdlib Require Import ZArith Lia Ascii.
From S2P Require Import Prelude RustStr RustPath Config Event Matching Engine EngineRun.
From S2P Require Import Validation Effects Json AuditBytes AuditStore AuditFrame AuditProps Host Evidence.
From S2P Require Import Actions Ipc ConfigLoader SensorHub Runtime RuntimeProps RuntimeSafety.
Local Open Scope Z_scope.
Local Open Scope stdpp_scope.

Section restart.
Context `{EngineEnv} `{Regex} `{Toml} `{DbEnv} `{Blake3} `{SerdeJson}.
Context `{Host} `{EvidenceText} `{ActionText} `{RuntimeEnv}.

Definition stored (key : string) (rt : Runtime) : option string :=
  t_state (db_tables (rt_audit rt)) !! key.

Lemma handle_recovery e event e' plans :
  handle e event = Some (e', plans) -> engine_recovery_mode e' = engine_recovery_mode e.
Proof. unfold handle. destruct (engine_recovery_mode e); intros; repeat case_match; by simplify_eq/=. Qed.

Lemma apply_mode s event : snap_mode (apply s event) = snap_mode s.
Proof. apply mode_follows. Qed.

Lemma handle_mode e event e' plans :
  handle e event = Some (e', plans) ->
  snap_mode (engine_snapshot e') = snap_mode (engine_snapshot e).
Proof.
  unfold handle. intros Hh. rewrite <- (apply_mode (engine_snapshot e) event).
  destruct (engine_recovery_mode e); repeat case_match; by simplify_eq/=.
Qed.

(** ** Recovery mode *)
Definition recovery_kept (rt rt' : Runtime) : Prop :=
  engine_recovery_mode (rt_engine rt') = engine_recovery_mode (rt_engine rt)
  /\ stored "recovery_mode" rt' = stored "recovery_mode" rt.

#[local] Instance recovery_kept_preorder : PreOrder recovery_kept.
Proof.
  unfold recovery_kept. split; [done|]. intros ? ? ? [-> ->] [-> ->]. done.
Qed.

Lemma recovery_audit {A} (m : M Db A) :
  respects (on_tables (same_key "recovery_mode")) m -> respects recovery_kept (audit m).
Proof. apply respects_zoom. intros rt db Hdb. split; [done|]. apply Hdb. Qed.

Lemma recovery_append e k r p : respects recovery_kept (audit_append e k r p).
Proof.
  apply audit_append_respects; [apply _|]. intros max. apply recovery_audit, append_frame; [apply _|..].
  - done.
  - intros anchor t. unfold same_key. simpl. by rewrite lookup_insert_ne.
Qed.

Lemma other_key key key' value t : key <> key' -> same_key key t (set_key key' value t).
Proof. intros Hne. unfold same_key. simpl. by rewrite lookup_insert_ne. Qed.

Lemma recovery_mode_change mode : respects recovery_kept (change_mode mode).
Proof.
  apply respects_bind; [apply _|by apply respects_modify|intros _].
  apply recovery_audit, execute_frame; [apply _|]. intros t. by apply other_key.
Qed.

Definition not_recovery (request : Request) : Prop :=
  match request with Request.Recovery _ => False | _ => True end.

Lemma recovery_closed : Closed not_recovery recovery_kept.
Proof.
  split.
  - apply _.
  - apply recovery_append.
  - intros event. apply engine_handle_respects; [apply _|]. intros rt engine plans Hh.
    split; [|done]. by apply (handle_recovery _ _ _ _ Hh).
  - intros event plan rt plans engine _ _ rt' _. revert rt'.
    apply execute_plan_respects; [apply _|..].
    + intros. apply recovery_audit, record_action_frame; [apply _|done|..]; try done.
      intros anchor t. by apply other_key.
    + intros. apply recovery_audit, action_completed_frame; [apply _|done|].
      intros anchor t. by apply other_key.
    + apply recovery_append.
    + intros rt'. unfold on_host, zoom. by destruct (execute_action _ _ _ _).
    + intros effect. apply apply_effect_respects; [apply _|apply recovery_mode_change|].
      intros value. apply recovery_audit, execute_frame; [apply _|]. intros t. by apply other_key.
  - intros limit. apply recovery_audit, recent_frame; [apply _|done|].
    intros anchor t. by apply other_key.
  - apply recovery_audit, verify_frame; [apply _|done|]. intros anchor t. by apply other_key.
  - apply recovery_mode_change.
  - by intros enabled [].
  - intros _. apply reload_respects; [apply _|by intros..|apply recovery_append].
Qed.

(** A successful answer to a request for recovery mode. *)
Lemma recovery_request enabled rt response rt' :
  handle_control (Request.Recovery enabled) rt = (Return response, rt') ->
  response_ok response = true ->
  engine_recovery_mode (rt_engine rt') = enabled
  /\ stored "recovery_mode" rt' = Some (if enabled then "true" else "false").
Proof.
  unfold handle_control, try_catch. cbn [handle_control_result].
  rewrite bind_eq. simpl. rewrite bind_eq, audit_eq. unfold set_state, execute, statement.
  cbn [rt_audit set_engine].
  destruct (db_fault _); [by intros [= <- _]|]. cbn beta iota zeta.
  rewrite bind_eq.
  set (rt1 := set_audit _ _).
  pose proof (recovery_append None "recovery_mode_changed" None
                (Json.Object [("enabled", Json.Bool enabled)]) rt1) as [Hr Hs].
  destruct (audit_append _ _ _ _ rt1) as [[[]|e|] rt2]; simpl in *; intros [= <- <-] Hok;
    [|discriminate].
  rewrite Hr, Hs. split; [done|]. unfold stored. simpl. by rewrite lookup_insert_eq.
Qed.

(** A restart on the store a runtime leaves. *)
Lemma runtime_new_eq path unsafe config max handles at_ db :
  fault_free ->
  exists rt, Runtime_new path unsafe config max handles at_ db
             = (Return rt, mkDb (db_tables db) (S (S (db_count db))))
    /\ engine_recovery_mode (rt_engine rt)
       = is_some_and (t_state (db_tables db) !! "recovery_mode") (eqb "true")
    /\ snap_mode (engine_snapshot (rt_engine rt))
       = initial_mode config (t_state (db_tables db) !! "mode").
Proof.
  intros Hff. unfold Runtime_new, get_state. rewrite bind_eq, select_eq, Hff. cbv zeta.
  rewrite bind_eq, select_eq, Hff. rewrite bind_eq. simpl. eexists. by split_and!.
Qed.

(** C31: After a Recovery request was answered with success, recovery mode stays as
    requested through any events and other requests, and a runtime created afterwards on the
    same store starts with it, on a database none of whose statements fails. *)
Theorem recovery_survives_restart enabled rt response rt1 inputs path unsafe config max handles at_ :
  handle_control (Request.Recovery enabled) rt = (Return response, rt1) ->
  response_ok response = true -> Forall (input_allowed not_recovery) inputs -> fault_free ->
  let rt2 := (run_inputs inputs rt1).2 in
  engine_recovery_mode (rt_engine rt2) = enabled
  /\ exists rt3 db, Runtime_new path unsafe config max handles at_ (rt_audit rt2) = (Return rt3, db)
                    /\ engine_recovery_mode (rt_engine rt3) = enabled.
Proof.
  intros Hc Hok Hi Hff rt2. destruct (recovery_request _ _ _ _ Hc Hok) as [He Hs].
  destruct (run_inputs_respects _ _ recovery_closed inputs Hi rt1) as [He2 Hs2]. fold rt2 in He2, Hs2.
  split; [congruence|].
  destruct (runtime_new_eq path unsafe config max handles at_ (rt_audit rt2) Hff)
    as (rt3 & Hnew & Hrec & _).
  eexists rt3, _. split; [exact Hnew|]. rewrite Hrec. fold (stored "recovery_mode" rt2).
  rewrite Hs2, Hs. by destruct enabled.
Qed.

(** ** The security mode *)
Definition mode_synced (rt : Runtime) : Prop :=
  stored "mode" rt = Some (snap_mode (engine_snapshot (rt_engine rt))).

Definition mode_kept (rt rt' : Runtime) : Prop :=
  snap_mode (engine_snapshot (rt_engine rt')) = snap_mode (engine_snapshot (rt_engine rt))
  /\ stored "mode" rt' = stored "mode" rt.

#[local] Instance mode_kept_preorder : PreOrder mode_kept.
Proof. unfold mode_kept. split; [done|]. intros ? ? ? [-> ->] [-> ->]. done. Qed.

Lemma mode_kept_synced {A} (m : M Runtime A) : respects mode_kept m -> respects (keeps mode_synced) m.
Proof. apply respects_mono. unfold keeps, mode_synced. by intros rt rt' [-> ->]. Qed.

Lemma mode_audit {A} (m : M Db A) :
  respects (on_tables (same_key "mode")) m -> respects (keeps mode_synced) (audit m).
Proof.
  intros Hm. apply mode_kept_synced. revert Hm. apply respects_zoom.
  intros rt db Hdb. split; [done|]. apply Hdb.
Qed.

Lemma mode_append e k r p : respects (keeps mode_synced) (audit_append e k r p).
Proof.
  apply audit_append_respects; [apply _|]. intros max. apply mode_audit, append_frame; [apply _|done|].
  intros anchor t. by apply other_key.
Qed.

(** Without faults a change of mode is stored. *)
Lemma change_mode_synced mode : fault_free -> respects (keeps mode_synced) (change_mode mode).
Proof.
  intros Hff rt _. unfold change_mode. rewrite bind_eq. simpl. rewrite audit_eq.
  unfold set_state, execute, statement. rewrite Hff. unfold mode_synced, stored. simpl.
  by rewrite lookup_insert_eq.
Qed.

Lemma mode_modify f :
  (forall rt, mode_kept rt (f rt)) -> respects (keeps mode_synced) (modify f).
Proof. intros Hf. apply mode_kept_synced. by apply respects_modify. Qed.

Lemma mode_closed : fault_free -> Closed (fun _ => True) (keeps mode_synced).
Proof.
  intros Hff. split.
  - apply _.
  - apply mode_append.
  - intros event. apply mode_kept_synced, engine_handle_respects; [apply _|].
    intros rt engine plans Hh. split; [|done]. by apply (handle_mode _ _ _ _ Hh).
  - intros event plan rt plans engine _ _ rt' _. revert rt'.
    apply execute_plan_respects; [apply _|..].
    + intros. apply mode_audit, record_action_frame; [apply _|done|..]; try done.
      intros anchor t. by apply other_key.
    + intros. apply mode_audit, action_completed_frame; [apply _|done|].
      intros anchor t. by apply other_key.
    + apply mode_append.
    + intros rt' Hs. unfold on_host, zoom. destruct (execute_action _ _ _ _). exact Hs.
    + intros effect. apply apply_effect_respects; [apply _|intros; by apply change_mode_synced|].
      intros value. apply mode_audit, execute_frame; [apply _|]. intros t. by apply other_key.
  - intros limit. apply mode_audit, recent_frame; [apply _|done|]. intros anchor t. by apply other_key.
  - apply mode_audit, verify_frame; [apply _|done|]. intros anchor t. by apply other_key.
  - intros. by apply change_mode_synced.
  - intros enabled _. apply respects_bind; [apply _|by apply mode_modify|intros _].
    apply mode_audit, execute_frame; [apply _|]. intros t. by apply other_key.
  - intros _. apply reload_respects; [apply _|intros ? ? Hs; exact Hs..|apply mode_append].
Qed.

Lemma mode_request mode rt response rt' :
  fault_free -> handle_control (Request.SetMode mode) rt = (Return response, rt') ->
  response_ok response = true -> mode_synced rt'.
Proof.
  intros Hff. unfold handle_control, try_catch. cbn [handle_control_result].
  rewrite bind_eq. simpl. rewrite guard_eq. destruct (known_mode _ mode); [|by intros [= <- _]].
  rewrite bind_assoc_eq. fold (change_mode mode). rewrite bind_eq.
  assert (change_mode mode rt = (Return tt, (change_mode mode rt).2)
          /\ mode_synced (change_mode mode rt).2) as [-> Hs].
  { unfold change_mode. rewrite bind_eq. simpl. rewrite audit_eq.
    unfold set_state, execute, statement. rewrite Hff. split; [done|].
    unfold mode_synced, stored. simpl. by rewrite lookup_insert_eq. }
  rewrite bind_eq. pose proof (mode_append None "mode_changed" None
    (Json.Object [("mode", Json.String mode)]) _ Hs) as Ha.
  destruct (audit_append _ _ _ _ _) as [[[]|e|] rt2]; simpl in *; intros [= <- <-] Hok; done.
Qed.

(** C32: On a database none of whose statements fails: after a SetMode request was answered
    with success and any inputs followed, a runtime created afterwards on the same store
    starts in the mode the engine was in, when its configuration knows that mode. *)
Theorem mode_survives_restart mode rt response rt1 inputs path unsafe config max handles at_ :
  handle_control (Request.SetMode mode) rt = (Return response, rt1) ->
  response_ok response = true -> fault_free ->
  let rt2 := (run_inputs inputs rt1).2 in
  let current := snap_mode (engine_snapshot (rt_engine rt2)) in
  known_mode config current = true ->
  exists rt3 db, Runtime_new path unsafe config max handles at_ (rt_audit rt2) = (Return rt3, db)
                 /\ snap_mode (engine_snapshot (rt_engine rt3)) = current.
Proof.
  intros Hc Hok Hff rt2 current Hknown. pose proof (mode_request _ _ _ _ Hff Hc Hok) as Hs1.
  assert (mode_synced rt2) as Hs2.
  { apply (run_inputs_respects _ _ (mode_closed Hff)); [|done]. apply Forall_forall. by intros []. }
  destruct (runtime_new_eq path unsafe config max handles at_ (rt_audit rt2) Hff)
    as (rt3 & Hnew & _ & Hmode).
  eexists rt3, _. split; [exact Hnew|]. rewrite Hmode. fold (stored "mode" rt2).
  rewrite Hs2. unfold initial_mode. fold current. by rewrite Hknown, orb_true_r.
Qed.

(** The engine changes its mode before the store is written: when that statement fails,
    the request is answered with an error, and yet the engine is in the new mode, which
    the store does not have. *)
Theorem failed_mode_change_applies mode rt e :
  known_mode (rt_config rt) mode = true -> db_fault (db_count (rt_audit rt)) = Some e ->
  exists response rt', handle_control (Request.SetMode mode) rt = (Return response, rt')
    /\ response_ok response = false
    /\ snap_mode (engine_snapshot (rt_engine rt')) = mode /\ stored "mode" rt' = stored "mode" rt.
Proof.
  intros Hk Hf. unfold handle_control, try_catch. cbn [handle_control_result].
  rewrite bind_eq. simpl. rewrite guard_eq, Hk. rewrite bind_eq. simpl.
  rewrite bind_eq, audit_eq. unfold set_state, execute, statement. cbn [rt_audit set_engine].
  rewrite Hf. eexists _, _. by split_and!.
Qed.
End restart.
