(* ===== verification/NoPanic.v ===== *)
(** * Computations that do not panic

    The operations of the audit store and of the executor return or fail,
    whatever the database and the host answer; capturing evidence needs
    modification times that [chrono] can represent. *)

From stdpp Require Import base tactics option list strings gmap pretty.
From Stdlib Require Import ZArith Lia Ascii.
From S2P Require Import Prelude RustStr RustPath Config Event Effects Json AuditBytes AuditStore Host.
From S2P Require Import Command Vault Evidence Actions.
Local Open Scope Z_scope.
Local Open Scope stdpp_scope.

Definition never_panics {S A} (m : M S A) : Prop := forall s, (m s).1 <> Panic.

Section rules.
Context {S : Type}.

Lemma np_ret {A} (a : A) : never_panics (S:=S) (mret a).
Proof. done. Qed.
Lemma np_throw {A} e : never_panics (S:=S) (A:=A) (throw e).
Proof. done. Qed.
Lemma np_get : never_panics (S:=S) get.
Proof. done. Qed.
Lemma np_modify f : never_panics (S:=S) (modify f).
Proof. done. Qed.
Lemma np_lift {A} (r : Result A) : never_panics (S:=S) (lift_result r).
Proof. by destruct r. Qed.
Lemma np_require b e : never_panics (S:=S) (require b e).
Proof. by destruct b. Qed.
Lemma np_bind {A B} (m : M S A) (k : A -> M S B) :
  never_panics m -> (forall a, never_panics (k a)) -> never_panics (m ≫= k).
Proof.
  intros Hm Hk s. rewrite bind_eq. specialize (Hm s).
  destruct (m s) as [[a|e|] s']; simpl in *; [apply Hk|done|done].
Qed.
Lemma np_try_catch {A B} (m : M S A) (ok : A -> M S B) err :
  never_panics m -> (forall a, never_panics (ok a)) -> (forall e, never_panics (err e)) ->
  never_panics (try_catch m ok err).
Proof.
  intros Hm Hok Herr s. unfold try_catch. specialize (Hm s).
  destruct (m s) as [[a|e|] s']; simpl in *; [apply Hok|apply Herr|done].
Qed.
Lemma np_context {A} c (m : M S A) : never_panics m -> never_panics (with_context c m).
Proof. intros Hm. by apply np_try_catch. Qed.
Lemma np_zoom {T A} (view : T -> S) update (m : M S A) :
  never_panics m -> never_panics (zoom view update m).
Proof. intros Hm t. unfold zoom. specialize (Hm (view t)). by destruct (m (view t)). Qed.
End rules.

Create HintDb nopanic.
#[export] Hint Resolve np_ret np_throw np_get np_modify np_lift np_require np_context np_zoom : nopanic.
#[export] Hint Extern 2 (never_panics (_ ≫= _)) => apply np_bind; [|intros ?] : nopanic.
#[export] Hint Extern 2 (never_panics (try_catch _ _ _)) =>
  apply np_try_catch; [|intros ?|intros ?] : nopanic.
#[export] Hint Extern 3 (never_panics (match ?x with _ => _ end)) => destruct x : nopanic.

(** ** The audit store *)
Section audit.
Context `{DbEnv} `{Blake3} `{SerdeJson}.

Lemma np_statement {A} (f : Tables -> Result (A * Tables)) : never_panics (statement f).
Proof. intros db. unfold statement. destruct (db_fault _); [done|]. by destruct (f _) as [[]|]. Qed.
Lemma np_select {A} (f : Tables -> A) : never_panics (select f).
Proof. apply np_statement. Qed.
Lemma np_execute f : never_panics (execute f).
Proof. apply np_statement. Qed.
Lemma np_now : never_panics now.
Proof. done. Qed.
#[local] Hint Resolve np_statement np_select np_execute np_now : nopanic.

Lemma np_transaction {A} (body : M Db A) : never_panics body -> never_panics (transaction body).
Proof.
  intros Hbody db. unfold transaction.
  assert (never_panics (execute id;; a ← body; execute id;; mret a)) as Hall by eauto 10 with nopanic.
  specialize (Hall db). by destruct ((execute id;; a ← body; execute id;; mret a) db) as [[a|e|] db'].
Qed.
Lemma np_prune max : never_panics (prune max).
Proof. unfold prune. cbv zeta. eauto 20 with nopanic. Qed.
Lemma np_append max e k r p : never_panics (append max e k r p).
Proof. apply np_transaction. cbv zeta. eauto 30 using np_prune with nopanic. Qed.
Lemma np_collect_rows rows : never_panics (collect_rows rows).
Proof. induction rows as [|row rows IH]; simpl; eauto 20 with nopanic. Qed.
Lemma np_recent limit : never_panics (recent limit).
Proof. unfold recent. eauto using np_collect_rows with nopanic. Qed.
Lemma np_verify_rows rows : forall previous n, never_panics (verify_rows previous n rows).
Proof. induction rows as [|row rows IH]; intros; simpl; eauto 20 with nopanic. Qed.
Lemma np_verify : never_panics verify.
Proof. unfold verify. eauto using np_verify_rows with nopanic. Qed.
Lemma np_set_state key value : never_panics (set_state key value).
Proof. apply np_execute. Qed.
Lemma np_action_completed a b c : never_panics (action_completed a b c).
Proof. unfold action_completed. eauto with nopanic. Qed.
Lemma np_record_action a b c s o : never_panics (record_action a b c s o).
Proof. unfold record_action. eauto 10 with nopanic. Qed.
End audit.

(** ** The executor *)
Section actions.
Context `{Host} `{EvidenceText} `{ActionText}.

Lemma np_call {A} c (answer : History -> Result A) : never_panics (call c answer).
Proof. intros h. unfold call. by destruct (answer h). Qed.
Lemma np_clock : never_panics read_clock.
Proof. done. Qed.
#[local] Hint Resolve np_call np_clock : nopanic.

Lemma np_find_tool name directories : never_panics (find_tool name directories).
Proof. induction directories; simpl; eauto 10 with nopanic. Qed.
Lemma np_resolve_tool name : never_panics (resolve_tool name).
Proof. unfold resolve_tool. eauto using np_find_tool with nopanic. Qed.
Lemma np_run_raw e a s v t : never_panics (run_raw_command e a s v t).
Proof. unfold run_raw_command. cbv zeta. eauto 30 with nopanic. Qed.
Lemma np_run_command e a s v t : never_panics (run_command e a s v t).
Proof. unfold run_command. eauto using np_run_raw with nopanic. Qed.
Lemma np_read_command e a t : never_panics (read_command_bytes e a t).
Proof. unfold read_command_bytes. eauto 10 using np_run_raw with nopanic. Qed.
#[local] Hint Resolve np_resolve_tool np_run_command np_read_command : nopanic.

Lemma np_lock_vault v t : never_panics (lock_vault v t).
Proof. unfold lock_vault, resolve_fusermount. eauto 20 with nopanic. Qed.
Lemma np_read_keyring d t : never_panics (read_keyring d t).
Proof. unfold read_keyring. cbv zeta. eauto 30 with nopanic. Qed.
Lemma np_unlock_vault v t : never_panics (unlock_vault v t).
Proof. unfold unlock_vault. eauto 20 using np_read_keyring with nopanic. Qed.
Lemma np_all_metadata paths : modification_times_ok -> never_panics (all_metadata paths).
Proof.
  intros Htimes h. destruct (all_metadata_panics paths h) as [_ Hiff].
  intros (? & ? & ? & _ & Hu)%Hiff. by eapply Htimes.
Qed.
Lemma np_capture p d e : modification_times_ok -> never_panics (capture_metadata p d e).
Proof.
  intros Htimes. unfold capture_metadata. cbv zeta. eauto 30 using np_all_metadata with nopanic.
Qed.
Lemma np_signal_entries name signal entries : forall count,
  never_panics (signal_entries name signal count entries).
Proof. induction entries as [|e es IH]; intros count; simpl; eauto 30 with nopanic. Qed.
Lemma np_terminate name signal : never_panics (terminate_named_processes name signal).
Proof. unfold terminate_named_processes. eauto 10 using np_signal_entries with nopanic. Qed.
Lemma np_security path : never_panics (verify_executable_security path).
Proof. unfold verify_executable_security. eauto 20 with nopanic. Qed.
Lemma np_sha256 path expected : never_panics (verify_sha256 path expected).
Proof. unfold verify_sha256. eauto 20 with nopanic. Qed.
#[local] Hint Resolve np_lock_vault np_unlock_vault np_capture np_terminate np_security np_sha256
  : nopanic.

Lemma np_execute_action context action event :
  modification_times_ok -> never_panics (execute_action context action event).
Proof.
  intros Htimes. unfold execute_action. destruct (ctx_dry_run context); [done|].
  apply np_bind; [done|]. intros started.
  destruct action; unfold run_tool, finish_command, finish_internal, elapsed_ms; cbv zeta;
    eauto 30 with nopanic.
Qed.
End actions.

#[export] Hint Resolve np_append np_recent np_verify np_set_state np_action_completed
  np_record_action : nopanic.
