(* ===== verification/Integration.v ===== *)
(** * Components together

    A validated configuration gives a daemon that does not panic, hotkeys that
    start, and actions the executor does not refuse. *)

From stdpp Require Import base tactics option list strings gmap pretty.
From Stdlib Require Import ZArith Lia Ascii.
From S2P Require Import Prelude RustStr RustPath Config Event Matching Engine EngineRun EngineSafety.
From S2P Require Import Validation ValidationSpec Hotkey Effects Json AuditBytes AuditStore Host Command.
From S2P Require Import Vault Evidence Actions ActionsProps Ipc ConfigLoader Requirements SensorHub.
From S2P Require Import Runtime RuntimeProps RuntimeSafety NoPanic.
Local Open Scope Z_scope.
Local Open Scope stdpp_scope.

(** ** No panic *)

(** From a state in [I] the computation does not panic and ends in [I]. *)
Definition sound {S A} (I : S -> Prop) (m : M S A) : Prop :=
  forall s, I s -> (m s).1 <> Panic /\ I (m s).2.

Section sound.
Context {S : Type} (I : S -> Prop).

Lemma sound_bind {A B} (m : M S A) (k : A -> M S B) :
  sound I m -> (forall a, sound I (k a)) -> sound I (m ≫= k).
Proof.
  intros Hm Hk s Hs. rewrite bind_eq. destruct (Hm s Hs) as [Hnp Hi].
  destruct (m s) as [[a|e|] s']; simpl in *; [by apply Hk|by split|done].
Qed.

Lemma sound_try_catch {A B} (m : M S A) (ok : A -> M S B) err :
  sound I m -> (forall a, sound I (ok a)) -> (forall e, sound I (err e)) ->
  sound I (try_catch m ok err).
Proof.
  intros Hm Hok Herr s Hs. unfold try_catch. destruct (Hm s Hs) as [Hnp Hi].
  destruct (m s) as [[a|e|] s']; simpl in *; [by apply Hok|by apply Herr|done].
Qed.

Lemma sound_respects {A} (m : M S A) : never_panics m -> respects (keeps I) m -> sound I m.
Proof. intros Hnp Hk s Hs. split; [apply Hnp|by apply Hk]. Qed.

Lemma sound_ret {A} (a : A) : sound I (mret a).
Proof. by intros s. Qed.

Lemma sound_for_each {A} (f : A -> M S unit) l :
  (forall x, sound I (f x)) -> sound I (for_each f l).
Proof.
  intros Hf. induction l as [|x l IH]; simpl; [apply sound_ret|]. by apply sound_bind.
Qed.
End sound.

Section integration.
Context `{EngineEnv} `{Regex} `{Toml} `{DbEnv} `{Blake3} `{SerdeJson}.
Context `{Host} `{EvidenceText} `{ActionText} `{RuntimeEnv}.

(** The derived serializers of snapshots and actions do not fail. *)
Definition serializable : Prop :=
  (forall s, exists v, snapshot_json s = Ok v) /\ (forall a, exists v, action_json a = Ok v).

Definition engine_ok (rt : Runtime) : Prop := engine_wf (rt_engine rt).

Lemma sound_audit {A} (m : M Db A) : never_panics m -> sound engine_ok (audit m).
Proof.
  intros Hm. apply sound_respects; [by apply np_zoom|]. intros rt Hok. unfold audit, zoom.
  by destruct (m (rt_audit rt)).
Qed.

Lemma sound_append e k r p : sound engine_ok (audit_append e k r p).
Proof.
  apply sound_bind; [by intros rt|]. intros rt. apply sound_bind; [|intros; apply sound_ret].
  apply sound_audit, np_append.
Qed.

Lemma sound_modify f : (forall rt, engine_ok rt -> engine_ok (f rt)) -> sound engine_ok (modify f).
Proof. intros Hf rt Hok. split; [done|]. by apply Hf. Qed.

Lemma sound_lift {A} (r : Result A) : sound engine_ok (lift_result r).
Proof. apply sound_respects; [apply np_lift|]. apply respects_lift, _. Qed.

Lemma sound_change_mode mode : sound engine_ok (change_mode mode).
Proof.
  apply sound_bind; [|intros; apply sound_audit, np_set_state].
  apply sound_modify. intros rt. apply set_mode_wf.
Qed.

Lemma sound_effect effect : sound engine_ok (apply_effect effect).
Proof.
  destruct effect; simpl; [apply sound_ret|apply sound_change_mode|].
  apply sound_audit, np_set_state.
Qed.

Lemma sound_attempt event plan hash : modification_times_ok -> sound engine_ok (attempt_plan event plan hash).
Proof.
  intros Htimes. unfold attempt_plan. cbv zeta. apply sound_bind; [apply sound_audit, np_record_action|intros _].
  apply sound_bind; [apply sound_lift|intros value]. apply sound_bind; [apply sound_append|intros _].
  apply sound_bind; [by intros rt|intros rt]. apply sound_try_catch.
  - apply sound_respects; [by apply np_zoom, np_execute_action|]. intros rt' Hok. unfold on_host, zoom.
    by destruct (execute_action _ _ _ _).
  - intros outcome. apply sound_bind; [apply sound_lift|intros v].
    apply sound_bind; [apply sound_audit, np_record_action|intros _].
    apply sound_bind; [apply sound_append|intros _].
    destruct (_ && _); [apply sound_effect|apply sound_ret].
  - intros e. apply sound_bind; [apply sound_audit, np_record_action|intros _]. apply sound_append.
Qed.

Lemma sound_execute_plan event plan : modification_times_ok -> sound engine_ok (execute_plan event plan).
Proof.
  intros Htimes. apply sound_bind; [apply sound_lift|intros bytes]. cbv zeta.
  apply sound_bind; [apply sound_audit, np_action_completed|intros [|]];
    [apply sound_ret|by apply sound_attempt].
Qed.

Lemma sound_process_event event : modification_times_ok -> sound engine_ok (process_event event).
Proof.
  intros Htimes. apply sound_bind; [apply sound_lift|intros value].
  apply sound_bind; [apply sound_append|intros _].
  apply sound_bind; [|intros plans; apply sound_bind; [|intros; apply sound_ret]].
  - intros rt Hok. unfold engine_handle.
    destruct (handle_total _ event Hok) as (engine & plans & -> & Hwf). by split.
  - apply sound_for_each. intros plan. by apply sound_execute_plan.
Qed.

Lemma sound_plan_values plans : serializable -> sound engine_ok (plan_values plans).
Proof.
  intros [_ Ha]. induction plans as [|plan plans IH]; simpl; [apply sound_ret|].
  apply sound_bind; [|intros; apply sound_bind; [apply IH|intros; apply sound_ret]].
  destruct (Ha (plan_action plan)) as [v ->]. apply sound_ret.
Qed.

Lemma sound_control request :
  serializable -> modification_times_ok -> not_reload request -> sound engine_ok (handle_control request).
Proof.
  intros Hser Htimes Hno. apply sound_try_catch; [|intros; apply sound_ret..].
  destruct request; cbn [handle_control_result].
  - apply sound_bind; [by intros rt|intros rt]. apply sound_bind; [|intros; apply sound_ret].
    destruct (proj1 Hser (engine_snapshot (rt_engine rt))) as [v ->]. apply sound_ret.
  - apply sound_bind; [by intros rt|intros rt].
    apply sound_bind; [apply sound_lift|intros; apply sound_ret].
  - apply sound_bind; [apply sound_audit, np_recent|intros records].
    apply sound_bind; [apply sound_lift|intros; apply sound_ret].
  - by destruct Hno.
  - apply sound_bind; [by intros rt|intros rt]. cbv zeta.
    apply sound_bind; [by apply sound_process_event|intros; apply sound_ret].
  - intros rt Hok. rewrite bind_eq. simpl.
    destruct (handle_total _ event Hok) as (engine & plans & -> & _). revert rt Hok.
    apply sound_bind; [by apply sound_plan_values|intros; apply sound_ret].
  - apply sound_bind; [by intros rt|intros rt].
    apply sound_bind; [apply sound_respects; [apply np_require|apply respects_require, _]|intros _].
    apply sound_bind; [apply sound_modify; intros ?; apply set_mode_wf|intros _].
    apply sound_bind; [apply sound_audit, np_set_state|intros _].
    apply sound_bind; [apply sound_append|intros; apply sound_ret].
  - apply sound_bind; [apply sound_modify; intros ?; apply set_recovery_wf|intros _].
    apply sound_bind; [apply sound_audit, np_set_state|intros _].
    apply sound_bind; [apply sound_append|intros; apply sound_ret].
  - apply sound_bind; [apply sound_audit, np_verify|intros; apply sound_ret].
Qed.

Lemma sound_inputs inputs :
  serializable -> modification_times_ok -> Forall (input_allowed not_reload) inputs ->
  sound engine_ok (run_inputs inputs).
Proof.
  intros Hser Htimes. induction 1 as [|input inputs Hi Hinputs IH]; simpl; [apply sound_ret|].
  apply sound_bind; [|intros; apply sound_bind; [apply IH|intros; apply sound_ret]].
  destruct input as [event|request]; simpl in *.
  - apply sound_try_catch; [by apply sound_process_event|intros; apply sound_ret..].
  - apply sound_bind; [by apply sound_control|intros; apply sound_ret].
Qed.

Lemma new_runtime_ok path unsafe config max handles at_ db rt db' :
  NoDup (map rule_id (config_rules config)) ->
  Runtime_new path unsafe config max handles at_ db = (Return rt, db') -> engine_ok rt.
Proof.
  intros Hnd. unfold Runtime_new, get_state. rewrite bind_eq.
  destruct (select _ db) as [[mode|e|] db1]; try done. cbv zeta. rewrite bind_eq.
  destruct (select _ db1) as [[recovery|e|] db2]; try done. rewrite bind_eq. simpl.
  intros [= <- _]. by apply set_recovery_wf, new_engine_wf.
Qed.

(** C20: A runtime created for a validated configuration never panics, whatever events and
    control requests other than a reload arrive and whatever the database, the host and the
    tools answer, provided the derived serializers of snapshots and actions do not fail and
    the modification times the host reports for captured files are ones chrono can
    represent. *)
Theorem daemon_never_panics path unsafe config max handles at_ db rt db' inputs :
  validate_config config = inl tt -> serializable -> modification_times_ok ->
  Runtime_new path unsafe config max handles at_ db = (Return rt, db') ->
  Forall (input_allowed not_reload) inputs ->
  (run inputs rt).1 <> Panic.
Proof.
  intros Hv%validate_config_valid Hser Htimes Hnew Hi.
  apply new_runtime_ok in Hnew; [|apply Hv].
  assert (sound engine_ok (run inputs)) as Hs; [|by apply Hs].
  apply sound_bind; [by intros ?|intros ?]. apply sound_bind; [apply sound_append|intros _].
  apply sound_bind; [by apply sound_inputs|intros]. apply sound_bind; [apply sound_append|].
  intros. apply sound_ret.
Qed.

(** ** Hotkeys *)
Lemma sequence_codes_total names :
  Forall (fun name => valid_key_name name = true) names ->
  exists codes, sequence_codes names = Ok codes /\ length codes = length names.
Proof.
  induction 1 as [|name names Hn Hnames [codes [IH Hlen]]]; simpl; [by exists []|].
  destruct (key_code_total name Hn) as [code ->]. rewrite IH.
  exists (code :: codes). simpl. by rewrite Hlen.
Qed.

(** The task of a hotkey. *)
Definition hotkey_handle (hotkey : HotkeyConfig) (handle : SensorHandle) : Prop :=
  exists codes, sequence_codes (hotkey_sequence hotkey) = Ok codes
                /\ handle = HotkeyTask (hotkey_name hotkey) codes (hotkey_within hotkey).

(** Every hotkey of a validated configuration whose device opens gets its task, with
    the codes of its sequence, and no sensor failure is reported. *)
Theorem validated_hotkeys_start config host :
  validate_config config = inl tt ->
  (forall hotkey, hotkey ∈ config_hotkeys config ->
     sensor_device host (hotkey_device hotkey) = Ok tt
     /\ sensor_stream host (hotkey_device hotkey) = Ok tt) ->
  let (handles, failures) := start_hotkeys host (config_hotkeys config) in
  Forall2 hotkey_handle (config_hotkeys config) handles /\ failures = [].
Proof.
  intros Hv%validate_config_valid Hdev.
  assert (forall hotkey, hotkey ∈ config_hotkeys config ->
            Forall (fun name => valid_key_name name = true) (hotkey_sequence hotkey)) as Hkeys.
  { intros hotkey Hh. apply Forall_forall. by apply (cv_hotkeys _ Hv hotkey Hh). }
  clear Hv. induction (config_hotkeys config) as [|hotkey hotkeys IH]; simpl; [by split|].
  destruct (start_hotkeys host hotkeys) as [handles failures].
  destruct IH as [IH ->]; [intros; apply Hdev; by right|intros; apply Hkeys; by right|].
  destruct (sequence_codes_total (hotkey_sequence hotkey)) as (codes & Hc & _);
    [apply Hkeys; by left|].
  destruct (Hdev hotkey) as [Hd Hst]; [by left|].
  unfold spawn_hotkey. rewrite Hc. simpl. rewrite Hd. simpl. rewrite Hst. simpl.
  split; [|done]. constructor; [by exists codes|done].
Qed.

End integration.
