(* ===== verification/Startup.v ===== *)
(** * The daemon's entry point ([kovert-daemon/src/main.rs])

    [run] up to the two tasks it spawns, how it ends, and what a daemon that
    started then guarantees while it serves. *)

From stdpp Require Import base tactics option list strings gmap.
From Stdlib Require Import ZArith Lia Ascii.
From S2P Require Import Prelude RustStr RustPath Config Event Matching Engine Validation ValidationSpec.
From S2P Require Import Effects Json AuditBytes AuditStore AuditFrame AuditProps Host Evidence Actions.
From S2P Require Import Ipc ConfigLoader Requirements SensorHub Setup SetupProps Runtime Server.
From S2P Require Import RuntimeProps RuntimeSafety NoPanic Integration ServerProps.
Local Open Scope Z_scope.
Local Open Scope stdpp_scope.
Local Open Scope kovert_scope.

Record Arguments := mkArguments {
  arg_config : PathBuf;
  arg_allow_unsafe_dev : bool;
  arg_json_logs : bool;
}.

Section startup.
Context `{EngineEnv} `{Regex} `{Toml} `{DbEnv} `{Blake3} `{SerdeJson}.
Context `{Host} `{EvidenceText} `{ActionText} `{RuntimeEnv} `{SetupHost} `{IpcSerde}.

(** Statements on the opened database. *)
Definition on_database {A} (m : M Db A) (db : Db) : M Calls (A * Db) := fun h =>
  match m db with
  | (Return a, db) => (Return (a, db), h)
  | (Throw e, _) => (Throw e, h)
  | (Panic, _) => (Panic, h)
  end.

(** [init_tracing]; the crate's answer carries the message. *)
Definition init_tracing (json : bool) : M Calls unit :=
  call (InitTracing json) (fun h => setup_tracing h json).

(** [run] until its tasks are spawned: the runtime, and the events offered to
    the channel by the start of the sensors. *)
Definition startup (arguments : Arguments) (files : ConfigFiles) (sensors : SensorHost)
    (started_at : DateTime) : M Calls (Runtime * list EventKind) :=
  let unsafe := arg_allow_unsafe_dev arguments in
  init_tracing (arg_json_logs arguments);;
  require (negb (negb unsafe && negb (setup_euid =? 0)))
    "kovert-daemon must run as root; use --allow-unsafe-dev only for development";;
  config ← lift_result (load files (arg_config arguments) unsafe);
  db ← AuditStore_open (daemon_state_path (config_daemon config)) unsafe;
  db ← (if audit_verify_on_start (config_audit config) then
          r ← with_context "audit chain verification failed" (on_database verify db);
          mret r.2
        else mret db);
  let (handles, sent) := start sensors config in
  handles ← with_context "start sensors" (lift_result handles);
  r ← on_database (Runtime_new (arg_config arguments) unsafe config
                     (audit_max_records (config_audit config)) handles started_at) db;
  mret (r.1, sent).

(** The whole setup: the server task opens its socket after [run] spawned it. *)
Definition boot (arguments : Arguments) (files : ConfigFiles) (sensors : SensorHost)
    (started_at : DateTime) : M Calls (Runtime * list EventKind) :=
  r ← startup arguments files sensors started_at;
  let daemon := config_daemon (rt_config r.1) in
  open_socket (daemon_socket_path daemon) (daemon_socket_group daemon)
    (arg_allow_unsafe_dev arguments);;
  mret r.

(** The record [Runtime::run] starts with. *)
Definition announce : M Runtime unit :=
  rt ← get;
  audit_append None "daemon_started" None
    (Json.Object [("version", Json.String package_version);
                  ("dry_run", Json.Bool (daemon_dry_run (config_daemon (rt_config rt))));
                  ("recovery_mode", Json.Bool (engine_recovery_mode (rt_engine rt)))]).

(** ** The end of [run] *)

(** The signals [run] waits for. *)
Inductive ShutdownSignal :=
| CtrlC (waited : Result unit)
| Terminate.

Definition wait_for_shutdown (installed : Result unit) (signal : ShutdownSignal) : Result unit :=
  let? _ := with_message installed "install SIGTERM handler" in
  match signal with
  | CtrlC waited => with_message waited "wait for Ctrl-C"
  | Terminate => Ok tt
  end.

(** What wakes [run]: a signal, or the end of one of its tasks. *)
Inductive Wake :=
| SignalReceived (waited : Result unit)
| RuntimeEnded
| ServerEnded.

(** [task.await.context(..)??]. *)
Definition joined (context : string) (task : Outcome unit) : Result unit :=
  match task with
  | Return _ => Ok tt
  | Throw e => Err e
  | Panic => Err context
  end.

Definition finish (wake : Wake) (runtime_task server_task : Outcome unit) : Result unit :=
  match wake with
  | SignalReceived (Err e) => Err e
  | SignalReceived (Ok _) =>
      let? _ := joined "join runtime" runtime_task in
      joined "join control server" server_task
  | RuntimeEnded => joined "join runtime" runtime_task
  | ServerEnded => joined "join control server" server_task
  end.

(** [main]: the exit status. *)
Definition exit_status (result : Result unit) : Z := match result with Ok _ => 0 | Err _ => 1 end.

(** A daemon stopped by a signal exits with 0 exactly when the runtime wrote
    its last record and the server closed its socket. *)
Lemma signalled_exit waited runtime_task server_task :
  exit_status (finish (SignalReceived waited) runtime_task server_task) = 0
  <-> waited = Ok tt /\ runtime_task = Return tt /\ server_task = Return tt.
Proof.
  destruct waited as [[]|], runtime_task as [[]| |], server_task as [[]| |]; cbn;
    split; try done; by intros (? & ? & ?).
Qed.

(** ** A started daemon *)
Lemma on_database_eq {A} (m : M Db A) db h a db' h' :
  on_database m db h = (Return (a, db'), h') -> m db = (Return a, db') /\ h' = h.
Proof. unfold on_database. destruct (m db) as [[]]; intros [= <- <- <-]. done. Qed.

Lemma guarded_on_database {A} permits P (m : M Db A) db :
  guarded permits P (on_database m db) (fun r h => P h /\ m db = (Return r.1, r.2)).
Proof.
  intros h Hh. unfold on_database. destruct (m db) as [[a|e|] db']; (split; [reflexivity|]);
    [|done|done]. intros [a' db''] [= <- <-]. done.
Qed.

(** What holds of a runtime that started without the development switch. *)
Record Started (arguments : Arguments) (files : ConfigFiles) (rt : Runtime) (h : Calls) : Prop := {
  st_root : setup_euid = 0;
  st_protected : protected files (arg_config arguments);
  st_loaded : load files (arg_config arguments) false = Ok (rt_config rt);
  st_valid : ConfigValid (rt_config rt);
  st_database : database_checked (daemon_state_path (config_daemon (rt_config rt))) h;
  st_verified : audit_verify_on_start (config_audit (rt_config rt)) = true ->
    intact (db_tables (rt_audit rt));
  st_store : opened (daemon_state_path (config_daemon (rt_config rt))) (rt_audit rt);
  st_limit : rt_max_records rt = audit_max_records (config_audit (rt_config rt));
}.

Lemma new_runtime_fields path unsafe config max handles at_ db rt db' :
  Runtime_new path unsafe config max handles at_ db = (Return rt, db') ->
  rt_config rt = config /\ rt_max_records rt = max /\ db_tables (rt_audit rt) = db_tables db.
Proof.
  unfold Runtime_new, get_state. rewrite bind_eq, select_eq. destruct (db_fault _); [done|].
  cbv zeta. rewrite bind_eq, select_eq. destruct (db_fault _); [done|]. rewrite bind_eq. simpl.
  by intros [= <- _].
Qed.

Definition same_tables (db db' : Db) : Prop := db_tables db' = db_tables db.

#[local] Instance same_tables_preorder : PreOrder same_tables.
Proof. unfold same_tables. split; [by intros ?|]. intros ? ? ? E1 E2. congruence. Qed.

Lemma verify_rows_same rows : forall previous n, respects same_tables (verify_rows previous n rows).
Proof.
  induction rows as [|row rows IH]; intros previous n; simpl.
  - apply respects_bind; [apply _|by apply select_keeps|intros; apply respects_ret, _].
  - apply respects_bind; [apply _|by apply select_keeps|intros _].
    apply respects_guard; [apply _|intros _]. by apply respects_guard; [apply _|intros _].
Qed.

Lemma verify_same db n db' : verify db = (Return n, db') -> db_tables db' = db_tables db.
Proof.
  assert (respects same_tables verify) as Hs; [|intros Hv; specialize (Hs db); by rewrite Hv in Hs].
  apply respects_bind; [apply _|by apply select_keeps|]. intros anchor.
  apply respects_bind; [apply _|by apply select_keeps|]. intros rows. apply verify_rows_same.
Qed.

Lemma guarded_startup arguments files sensors at_ :
  arg_allow_unsafe_dev arguments = false ->
  guarded setup_permits (fun _ => True) (startup arguments files sensors at_)
    (fun r h => Started arguments files r.1 h).
Proof.
  intros Hsafe. unfold startup. rewrite Hsafe. cbn [negb andb].
  eapply guarded_bind; [apply guarded_call with (Q := fun _ _ => True); done|]. intros ?.
  apply (guarded_bind _ _ (fun _ _ => setup_euid = 0)).
  { apply guarded_require. by intros h ?%negb_true_iff%negb_false_iff%Z.eqb_eq. }
  intros ?. apply (guarded_bind _ _ (fun config _ => setup_euid = 0
                     /\ load files (arg_config arguments) false = Ok config)).
  { by apply guarded_lift. }
  intros config. apply (guarded_bind _ _ (fun db h => setup_euid = 0
      /\ load files (arg_config arguments) false = Ok config
      /\ opened (daemon_state_path (config_daemon config)) db
      /\ database_checked (daemon_state_path (config_daemon config)) h)).
  { intros h [Hroot Hload].
    destruct (guarded_open (daemon_state_path (config_daemon config)) h I) as [Hg Hp]. by eauto. }
  intros db. apply (guarded_bind _ _ (fun db h => setup_euid = 0
      /\ load files (arg_config arguments) false = Ok config
      /\ opened (daemon_state_path (config_daemon config)) db
      /\ database_checked (daemon_state_path (config_daemon config)) h
      /\ (audit_verify_on_start (config_audit config) = true -> intact (db_tables db)))).
  { destruct (audit_verify_on_start _); [|apply guarded_ret; naive_solver].
    eapply guarded_bind; [apply guarded_context, guarded_on_database|]. intros [n db'].
    apply guarded_ret. cbn. intros h [(? & ? & Hopen & ?) Hv].
    pose proof (verify_same _ _ _ Hv) as Ht. split_and!; try done.
    - destruct Hopen as [h0 Hopen]. exists h0. by rewrite Ht.
    - intros _. rewrite Ht. apply (verify_sound db n). by rewrite Hv. }
  intros db'. destruct (start sensors config) as [handles sent].
  eapply guarded_bind; [apply guarded_context, (guarded_lift _ _ (fun _ h => setup_euid = 0
      /\ load files (arg_config arguments) false = Ok config
      /\ opened (daemon_state_path (config_daemon config)) db'
      /\ database_checked (daemon_state_path (config_daemon config)) h
      /\ (audit_verify_on_start (config_audit config) = true -> intact (db_tables db')))); by intros|].
  intros started. eapply guarded_bind; [apply guarded_on_database|]. intros [rt db''].
  apply guarded_ret. cbn. intros h [(Hroot & Hload & [h0 Hopen] & Hdb & Hver) Hnew].
  destruct (new_runtime_fields _ _ _ _ _ _ _ _ _ Hnew) as (Hc & Hm & Ht).
  split; rewrite ?Hc, ?Ht; try done; [by apply (load_protected _ _ config)| |].
  { by eapply validate_config_valid, load_valid. }
  exists h0. by rewrite Ht.
Qed.

Lemma started_app arguments files rt h c :
  Started arguments files rt h -> Started arguments files rt (h ++ [c]).
Proof. intros [Hr Hp Hl Hc Hd Hv Hs Hm]. split; try done. by apply database_checked_app. Qed.

(** C6: Without the development switch, however the start ends: the database is opened only
    in a directory and on a file found to be root's and not writable by others, or created
    then with mode 0600; the socket is bound only in such a directory; a file is removed
    only where a socket was found. When the start succeeds, the daemon runs as root, its
    configuration was protected, loaded and satisfies ConfigValid, a log that had to be
    verified is intact, and the socket is restricted to its group. *)
Theorem boot_guarded arguments files sensors at_ :
  arg_allow_unsafe_dev arguments = false ->
  let (outcome, calls) := boot arguments files sensors at_ [] in
  (forall before c after, calls = before ++ c :: after -> setup_permits before c)
  /\ forall rt sent, outcome = Return (rt, sent) ->
       Started arguments files rt calls
       /\ socket_shared (daemon_socket_path (config_daemon (rt_config rt)))
            (daemon_socket_group (config_daemon (rt_config rt))) calls.
Proof.
  intros Hsafe.
  assert (guarded setup_permits (fun _ => True) (boot arguments files sensors at_)
    (fun r h => Started arguments files r.1 h
       /\ socket_shared (daemon_socket_path (config_daemon (rt_config r.1)))
            (daemon_socket_group (config_daemon (rt_config r.1))) h)) as Hg.
  { unfold boot. rewrite Hsafe. eapply guarded_bind; [by apply guarded_startup|]. intros r.
    cbv zeta. eapply guarded_bind.
    - eapply guarded_weaken; [apply (guarded_frame _ (fun _ => True) (Started arguments files r.1));
        [by intros; apply started_app|apply guarded_open_socket]|by intros|].
      intros ? h Hh. exact Hh.
    - intros ?. apply guarded_ret. by intros h [[_ Hs] Hst]. }
  destruct (Hg [] I) as [(new & Hnew & Hper) Hret].
  destruct (boot arguments files sensors at_ []) as [outcome calls]. cbn in *. subst. split.
  - intros before c after. apply Hper.
  - intros rt sent ->. by apply (Hret (rt, sent)).
Qed.

(** SQLite's keys: rows come in the order of their keys, none above the last
    one given out. *)
Definition sqlite_keys : Prop := forall h path t, setup_open h path = Ok t -> tables_wf t.

Lemma startup_engine_ok arguments files sensors at_ h rt sent h' :
  startup arguments files sensors at_ h = (Return (rt, sent), h') -> engine_ok rt.
Proof.
  unfold startup. cbv zeta. intros (? & ? & _ & Hk)%bind_return.
  apply bind_return in Hk as (? & ? & _ & Hk). apply bind_return in Hk as (config & ? & Hload & Hk).
  apply lift_return in Hload as [Hload _]. apply bind_return in Hk as (db & ? & _ & Hk).
  apply bind_return in Hk as (db1 & ? & _ & Hk). destruct (start sensors config) as [handles sent'].
  apply bind_return in Hk as (started & ? & _ & Hk). apply bind_return in Hk as ([rt' db2] & ? & Hnew & Hk).
  apply on_database_eq in Hnew as [Hnew _]. injection Hk as <- _ _. cbn.
  eapply new_runtime_ok; [|exact Hnew].
  apply (validate_config_valid _ (load_valid _ _ _ _ Hload)).
Qed.

Lemma sound_announce : sound engine_ok announce.
Proof. apply sound_bind; [by intros rt|]. intros rt. apply sound_append. Qed.

Lemma announce_keeps : respects (keeps audit_ok) announce.
Proof.
  apply respects_bind; [apply _|apply respects_get, _|]. intros rt. apply audit_append_keeps.
Qed.

(** C3: A daemon that started without the development switch never panics while it serves,
    however connections, sensors and the loop interleave and whatever events and requests
    other than a reload arrive, provided the serializers of snapshots and actions do not
    fail and the modification times of captured files are ones chrono can represent; and
    when it verified its log on start, the log stays an intact hash chain throughout, given
    SQLite's ordering of keys and a record limit of 63 bits. *)
Theorem started_daemon_safe arguments files sensors at_ calls rt sent calls' rt1 buffer labels d :
  serializable -> modification_times_ok -> sqlite_keys -> arg_allow_unsafe_dev arguments = false ->
  startup arguments files sensors at_ calls = (Return (rt, sent), calls') ->
  announce rt = (Return tt, rt1) ->
  steps buffer (Daemon_new rt1) labels d ->
  Forall (input_allowed not_reload) (omap label_input labels) ->
  dm_panicked d = false
  /\ (audit_verify_on_start (config_audit (rt_config rt)) = true ->
      0 <= audit_max_records (config_audit (rt_config rt)) < 2 ^ 63 ->
      db_ok (rt_audit (dm_runtime d))).
Proof.
  intros Hser Htimes Hkeys Hsafe Hstart Hann Hsteps Hin. pose proof (steps_served _ _ _ _ Hsteps) as Hsv.
  pose proof (sv_simulates _ _ _ _ Hsv) as Hsim. unfold simulates in Hsim. split.
  - apply startup_engine_ok in Hstart.
    destruct (sound_announce rt Hstart) as [_ Hok]. rewrite Hann in Hok.
    destruct (sound_inputs _ Hser Htimes Hin rt1 Hok) as [Hnp _]. rewrite Hsim in Hnp.
    by destruct (dm_panicked d).
  - intros Hver Hmax.
    destruct (guarded_startup arguments files sensors at_ Hsafe calls I) as [_ Hst].
    rewrite Hstart in Hst. destruct (Hst _ eq_refl) as [_ _ _ _ _ Hv [h0 Hopen] Hlim]. cbn in *.
    assert (audit_ok rt) as Hok by (split; [by rewrite Hlim|split; [by eapply Hkeys|by apply Hv]]).
    pose proof (announce_keeps rt Hok) as Hok1. rewrite Hann in Hok1.
    assert (audit_ok (run_inputs (omap label_input labels) rt1).2) as Hend.
    { apply (run_inputs_respects _ _ audit_closed); [|done]. apply Forall_forall. by intros []. }
    rewrite Hsim in Hend. apply Hend.
Qed.
End startup.
