(* ===== verification/Accepted.v ===== *)
(** * Validated actions reach the host

    The checks the executor repeats before it acts cannot fail for the actions
    of a validated configuration, with one exception: unlocking a vault that
    has no key description. *)

From stdpp Require Import base tactics option list strings gmap pretty.
From Stdlib Require Import ZArith Lia Ascii.
From S2P Require Import Prelude RustStr RustPath Utf8 Config Event Matching Validation ValidationSpec.
From S2P Require Import Effects Host Command Vault Evidence Actions ActionsProps Runtime.
From S2P Require Import Engine EngineRun EngineSafety Fixtures ConfigFixtures.
Local Open Scope Z_scope.
Local Open Scope stdpp_scope.

Definition any_call (c : HostCall) : Prop := True.

(** The computation makes at least one call. *)
Definition grows {A} (m : M History A) : Prop := forall h, (length h < length (m h).2)%nat.

Lemma grows_bind {A B} (m : M History A) (k : A -> M History B) :
  grows m -> (forall a, respects (adds any_call) (k a)) -> grows (m ≫= k).
Proof.
  intros Hm Hk h. rewrite bind_eq. specialize (Hm h).
  destruct (m h) as [[a|e|] h1]; simpl in *; [|done|done].
  destruct (Hk a h1) as (new & -> & _). rewrite length_app. lia.
Qed.

Lemma grows_guard {A} b e (m : M History A) : b = true -> grows m -> grows (require b e;; m).
Proof. intros -> Hm h. rewrite guard_eq. apply Hm. Qed.

Lemma grows_lift {A B} (a : A) (k : A -> M History B) : grows (k a) -> grows (lift_result (Ok a) ≫= k).
Proof. intros Hk h. rewrite bind_eq. apply Hk. Qed.

Lemma grows_call {A} c (answer : History -> Result A) : grows (call c answer).
Proof. intros h. unfold call. destruct (answer h); simpl; rewrite length_app; simpl; lia. Qed.

Lemma grows_try_catch {A B} (m : M History A) (ok : A -> M History B) err :
  grows m -> (forall a, respects (adds any_call) (ok a)) ->
  (forall e, respects (adds any_call) (err e)) -> grows (try_catch m ok err).
Proof.
  intros Hm Hok Herr h. unfold try_catch. specialize (Hm h).
  destruct (m h) as [[a|e|] h1]; simpl in *; [| |done].
  - destruct (Hok a h1) as (new & -> & _). rewrite length_app. lia.
  - destruct (Herr e h1) as (new & -> & _). rewrite length_app. lia.
Qed.

Lemma grows_context {A} c (m : M History A) : grows m -> grows (with_context c m).
Proof. intros Hm. apply grows_try_catch; [done|intros; apply respects_ret, _|intros; apply respects_throw, _]. Qed.

Section accepted.
Context `{EngineEnv} `{Regex} `{Host} `{EvidenceText} `{ActionText}.

Lemma any_adds {A} (P : HostCall -> Prop) (m : M History A) :
  respects (adds P) m -> respects (adds any_call) m.
Proof. apply respects_mono. intros h h'. by apply adds_impl. Qed.

Lemma grows_find_tool name d directories : grows (find_tool name (d :: directories)).
Proof.
  apply grows_bind; [apply grows_call|].
  intros [|]; [apply respects_ret, _|by apply find_tool_adds].
Qed.

Definition plain_name (name : string) : bool :=
  negb (contains_char slash name || contains_char "000"%char name).

Lemma grows_resolve_tool name : plain_name name = true -> grows (resolve_tool name).
Proof. intros Hn. apply grows_guard; [done|]. apply grows_find_tool. Qed.

Lemma grows_with_tool {A} name (k : PathBuf -> M History A) :
  plain_name name = true -> (forall path, respects (adds any_call) (k path)) ->
  grows (resolve_tool name ≫= k).
Proof. intros Hn Hk. apply grows_bind; [by apply grows_resolve_tool|done]. Qed.

Lemma grows_run_tool name args timeout : plain_name name = true -> grows (run_tool name args timeout).
Proof. intros Hn. apply grows_with_tool; [done|]. intros path. by apply run_command_adds. Qed.

Lemma grows_finish m started message :
  grows m -> grows (result ← m; finish_command started message result).
Proof. intros Hm. apply grows_bind; [done|]. intros. apply finish_command_adds. Qed.

Lemma grows_fusermount : grows resolve_fusermount.
Proof.
  apply grows_try_catch; [by apply grows_resolve_tool|intros; apply respects_ret, _|].
  intros _. eapply any_adds, (resolve_tool_adds ["fusermount"] (fun _ => True)). reflexivity.
Qed.

(** Nothing but calls happens to the history. *)
Ltac any := cbv zeta; repeat first
  [ apply respects_ret, _ | apply respects_lift, _ | by apply run_command_adds
  | by apply read_command_bytes_adds | by apply respects_call | apply finish_internal_adds
  | apply respects_guard; [apply _|intros _]
  | apply respects_with_context; [apply _|]
  | by apply find_tool_adds
  | apply respects_bind; [apply _| |intros ?]; cbv beta zeta ].

(** *** Vaults *)
Lemma grows_lock_vault vault timeout : VaultValid vault -> grows (lock_vault vault timeout).
Proof.
  intros Hv. unfold lock_vault. destruct (vault_adapter vault) eqn:Ha.
  - apply grows_with_tool; [done|]. intros. by apply run_command_adds.
  - destruct (vv_gocryptfs _ Hv Ha) as (encrypted & mount & _ & -> & _). apply grows_lift.
    apply grows_bind; [apply grows_fusermount|]. intros. by apply run_command_adds.
Qed.

Lemma grows_unlock_vault vault timeout description :
  VaultValid vault -> vault_keyring_description vault = Some description ->
  grows (unlock_vault vault timeout).
Proof.
  intros Hv Hd. unfold unlock_vault. pose proof (vv_keyring _ Hv _ Hd) as Hbad.
  rewrite Hd. apply grows_lift. apply grows_bind.
  - apply grows_guard; [unfold bad_keyring_description in Hbad; by rewrite Hbad|].
    apply grows_with_tool; [done|]. intros path. any.
  - intros key. any. destruct (vault_adapter vault); any.
Qed.

Lemma grows_with_vault context name (operation : VaultConfig -> M History CommandResult) message
    started vault :
  find_vault context name = Ok vault -> grows (operation vault) ->
  grows (vault ← lift_result (find_vault context name);
         result ← operation vault;
         finish_command started (message vault) result).
Proof. intros -> Hop. apply grows_lift. by apply grows_finish. Qed.

(** *** Every action *)
Lemma grows_capture paths destination event :
  is_absolute destination = true -> (forall p, p ∈ paths -> is_absolute p = true) ->
  grows (capture_metadata paths destination event).
Proof.
  intros Hd Hp. apply grows_guard.
  { rewrite Hd. simpl. apply negb_true_iff, existsb_false. intros p Hin. by rewrite Hp. }
  apply grows_bind; [apply grows_context, grows_call|]. intros _. apply respects_bind; [apply _| |].
  { by apply all_metadata_adds. }
  intros files. any; apply respects_clock.
Qed.

Lemma grows_exec executable args expected environment timeout started :
  grows (verify_executable_security executable;;
         match expected with
         | Some expected => verify_sha256 executable expected
         | None => mret tt
         end;;
         result ← run_command executable args None environment timeout;
         finish_command started ("executed " +:+ executable) result).
Proof.
  apply grows_bind; [apply grows_bind; [apply grows_context, grows_call|]|]; intros.
  - any. apply respects_require, _.
  - apply respects_bind; [apply _| |].
    + destruct expected; [by apply verify_sha256_adds|apply respects_ret, _].
    + intros _. apply respects_bind; [apply _|by apply run_command_adds|]. intros result.
      apply finish_command_adds.
Qed.

(** The executor's answer is an error, and it made no call. *)
Definition refused (context : ExecutionContext) (action : ActionSpec) (event : Event)
    (h : History) : Prop :=
  exists e, execute_action context action event h = (Throw e, h).

Lemma grows_not_refused (m : DateTime -> M History ActionOutcome) e h :
  (forall started, grows (m started)) -> (started ← read_clock; m started) h <> (Throw e, h).
Proof.
  intros Hm. rewrite bind_eq. unfold read_clock. specialize (Hm (host_now h) h).
  intros Hr. rewrite Hr in Hm. simpl in Hm. lia.
Qed.

Lemma find_vault_configured config name :
  name ∈ map vault_name (config_vaults config) ->
  exists vault, find_vault (executor_for config) name = Ok vault /\ vault ∈ config_vaults config
                /\ vault_name vault = name.
Proof.
  intros (v & -> & Hv)%elem_of_map. unfold find_vault. simpl.
  destruct (List.find _ (config_vaults config)) as [w|] eqn:Hf.
  - exists w. apply List.find_some in Hf as [Hin Heq]. rewrite eqb_true in Heq.
    rewrite <- list_elem_of_In in Hin. done.
  - eapply List.find_none in Hf; [|by apply list_elem_of_In].
    simpl in Hf. unfold eqb in Hf. by rewrite bool_decide_eq_true_2 in Hf.
Qed.

Lemma allowed_components paths executable :
  paths_contain paths executable = true -> components executable ∈ map components paths.
Proof.
  unfold paths_contain. intros (p & Hp & Heq)%existsb_exists. apply elem_of_map.
  exists p. rewrite list_elem_of_In. split; [|done]. unfold path_eqb in Heq.
  by rewrite eqb_true in Heq.
Qed.

(** The one action that validation accepts and the executor refuses. *)
Definition keyless_unlock (config : Config) (action : ActionSpec) : Prop :=
  exists vault, action = ActionSpec.UnlockVault (vault_name vault)
    /\ vault ∈ config_vaults config /\ vault_keyring_description vault = None.

Lemma configured_vault_valid config name vault :
  ConfigValid config -> find_vault (executor_for config) name = Ok vault -> VaultValid vault.
Proof. intros Hvalid [Hin _]%find_vault_ok. by apply (cv_vaults _ Hvalid). Qed.

Lemma vault_action_reaches config name :
  ConfigValid config -> name ∈ map vault_name (config_vaults config) ->
  exists vault, find_vault (executor_for config) name = Ok vault /\ vault ∈ config_vaults config
    /\ vault_name vault = name
    /\ (forall timeout, grows (lock_vault vault timeout))
    /\ (vault_keyring_description vault <> None -> forall timeout, grows (unlock_vault vault timeout)).
Proof.
  intros Hvalid (v & Hf & Hin & Hn)%find_vault_configured. exists v.
  pose proof (configured_vault_valid _ _ _ Hvalid Hf). split_and!; [done..| |].
  - intros. by apply grows_lock_vault.
  - intros Hk timeout. destruct (vault_keyring_description v) eqn:Hd; [|done].
    by eapply grows_unlock_vault.
Qed.

Lemma grows_checked {A} (r : Result unit) (m : M History A) :
  r = Ok tt -> grows m -> grows (lift_result r;; m).
Proof. intros -> Hm. by apply (grows_lift tt (fun _ => m)). Qed.

Lemma valid_action_reaches config rule action event h :
  ConfigValid config -> rule ∈ config_rules config -> action ∈ rule_actions rule ->
  refused (executor_for config) action event h -> keyless_unlock config action.
Proof.
  intros Hvalid Hrule Haction [e Hr].
  pose proof (rv_actions _ _ (cv_rules _ Hvalid rule Hrule) action Haction) as Hok.
  unfold execute_action in Hr. destruct (ctx_dry_run _); [done|].
  destruct action; cbv zeta in Hr; simpl in Hok;
    try (rewrite elem_of_list_to_set in Hok;
         destruct (vault_action_reaches _ _ Hvalid Hok) as (v & Hf & Hin & <- & Hlock & Hunlock)).
  2: destruct (decide (vault_keyring_description v = None)); [by exists v|].
  8: destruct (ctx_desktop_notifications _); [|done].
  10: done.
  all: exfalso; revert Hr; apply grows_not_refused; intros started.
  - by eapply grows_with_vault.
  - eapply grows_with_vault; [done|]. by apply Hunlock.
  - apply grows_checked; [|by apply grows_finish, grows_run_tool].
    unfold ensure_absolute, ensure. by rewrite Hok.
  - apply grows_bind; [by apply grows_run_tool|]. intros result.
    apply respects_bind; [apply _|apply finish_command_adds|intros; apply respects_ret, _].
  - apply grows_checked; [|by apply grows_finish, grows_run_tool].
    unfold validate_interface, ensure. unfold valid_interface_name, interface_char in Hok. by rewrite Hok.
  - apply grows_checked; [|by apply grows_finish, grows_run_tool].
    unfold validate_unit, ensure, slash. unfold valid_unit_name, unit_char in Hok. by rewrite Hok.
  - apply grows_guard; [by apply bool_decide_eq_true, elem_of_list_to_set|].
    apply grows_bind; [|intros; apply finish_internal_adds].
    apply grows_bind; [apply grows_context, grows_call|]. intros. by apply signal_entries_adds.
  - by apply grows_finish, grows_run_tool.
  - destruct Hok. apply grows_bind; [by apply grows_capture|]. intros. apply finish_internal_adds.
  - apply grows_guard; [|apply grows_exec]. destruct Hok as (_ & Hok & _).
    apply bool_decide_eq_true, elem_of_list_to_set. by apply allowed_components.
Qed.

Lemma find_unique {A} (name : A -> string) (l : list A) x :
  NoDup (map name l) -> x ∈ l -> List.find (fun y => eqb (name y) (name x)) l = Some x.
Proof.
  induction l as [|y l IH]; [intros _ Hx; by inversion Hx|]. simpl.
  intros [Hy Hnd]%NoDup_cons Hx. destruct (eqb (name y) (name x)) eqn:He.
  - rewrite eqb_true in He. apply elem_of_cons in Hx as [->|Hx]; [done|]. destruct Hy.
    rewrite He. by apply elem_of_map_1.
  - apply elem_of_cons in Hx as [->|Hx]; [|by apply IH]. unfold eqb in He.
    by rewrite bool_decide_eq_true_2 in He.
Qed.

Lemma keyless_unlock_refused config action event h :
  ConfigValid config -> daemon_dry_run (config_daemon config) = false ->
  keyless_unlock config action -> refused (executor_for config) action event h.
Proof.
  intros Hvalid Hdry (vault & -> & Hin & Hk).
  exists "automatic unlock requires keyring_description".
  unfold execute_action. simpl. rewrite Hdry, bind_eq. unfold read_clock.
  unfold find_vault. simpl.
  rewrite (find_unique vault_name _ _ (cv_vaults_unique _ Hvalid) Hin). simpl.
  rewrite bind_eq. simpl. rewrite bind_eq. unfold unlock_vault. rewrite Hk. done.
Qed.

(** C21: For the actions of a validated configuration, outside dry-run mode, the executor's
    own checks never refuse an action before it has made a call, with exactly one exception:
    unlocking a vault that has no keyring_description is always refused. *)
Theorem accepted_actions_reach_host config rule action event h :
  validate_config config = inl tt -> rule ∈ config_rules config -> action ∈ rule_actions rule ->
  daemon_dry_run (config_daemon config) = false ->
  refused (executor_for config) action event h <-> keyless_unlock config action.
Proof.
  intros Hv%validate_config_valid Hrule Haction Hdry. split.
  - by apply valid_action_reaches with (rule := rule).
  - by apply keyless_unlock_refused.
Qed.
End accepted.

(** ** Accepted triggers that never match *)
Definition nested_rule : Rule :=
  base_rule "nested" (TriggerSpec.Any [rule_trigger sequence_rule]).

Definition sensor_failure (event : Event) : bool :=
  match event_kind event with EventKind.SensorFailure _ _ => true | _ => false end.

Lemma nested_idle e event :
  engine_rules e = [nested_rule] -> sensor_failure event = false ->
  armed_at (runtime_entry (engine_runtime e) nested_rule) = None ->
  exists e', handle e event = Some (e', []) /\ engine_rules e' = [nested_rule]
             /\ armed_at (runtime_entry (engine_runtime e') nested_rule) = None.
Proof.
  intros Hrules Hev Harmed. unfold handle. destruct (engine_recovery_mode e).
  { eexists. split; [done|]. by split. }
  rewrite Hrules. cbn [eval_rules].
  change (negb (rule_enabled nested_rule)) with false.
  set (entry := runtime_entry (engine_runtime e) nested_rule) in *.
  assert (eval_rule (apply (engine_snapshot e) event) event nested_rule entry
          = Some (entry, [])) as ->.
  { unfold eval_rule. destruct (suppressed _ _ _); [done|].
    assert (failed_sensor nested_rule event = None) as ->.
    { unfold failed_sensor, sensor_failure in *. by destruct (event_kind event). }
    rewrite Harmed. done. }
  eexists. split; [done|]. split; [done|]. cbn [engine_runtime].
  unfold runtime_entry. by rewrite lookup_insert_eq.
Qed.

(** A sequence trigger nested under any is accepted by validation, and a rule with it
    never fires: whatever events other than sensor failures arrive, no action is planned. *)
Theorem nested_sequence_dead mode now events :
  validate_config (config_with [nested_rule]) = inl tt
  /\ let quiet := List.filter (fun event => negb (sensor_failure event)) events in
     exists e, handle_all (PolicyEngine_new [nested_rule] mode now) quiet
               = Some (e, replicate (length quiet) []).
Proof.
  split; [vm_compute; reflexivity|]. cbv zeta.
  assert (forall e, engine_rules e = [nested_rule] ->
            armed_at (runtime_entry (engine_runtime e) nested_rule) = None ->
            exists e', handle_all e (List.filter (fun event => negb (sensor_failure event)) events)
              = Some (e', replicate (length (List.filter (fun event => negb (sensor_failure event))
                                               events)) [])) as Hall.
  { induction events as [|event events IH]; intros e Hr Ha; simpl; [by eexists|].
    destruct (sensor_failure event) eqn:Hev; simpl; [by apply IH|].
    destruct (nested_idle e event Hr Hev Ha) as (e' & -> & Hr' & Ha').
    destruct (IH e' Hr' Ha') as (e'' & ->). by eexists. }
  apply Hall; [vm_compute; reflexivity|]. vm_compute. reflexivity.
Qed.
