(* ===== verification/RuntimeFixtures.v ===== *)
(** * A concrete daemon

    The daemon of [ConfigFixtures] on the host of [HostFixtures], with the
    theorems of the runtime instantiated on its runs. *)

From stdpp Require Import base tactics option list strings gmap pretty.
From Stdlib Require Import ZArith Lia Ascii.
From S2P Require Import Prelude RustStr RustPath Config Event Matching Engine Validation Effects.
From S2P Require Import ValidationSpec Json AuditBytes AuditStore AuditFixtures AuditProps Host Command.
From S2P Require Import Vault Evidence Actions ActionsProps Ipc ConfigLoader SensorHub Runtime.
From S2P Require Import Filesystem RuntimeProps RuntimeSafety RuntimeRestart Integration Accepted.
From S2P Require Import Fixtures ConfigFixtures HostFixtures.
Local Open Scope Z_scope.
Local Open Scope stdpp_scope.

(** A readable text of every value. *)
Fixpoint json_text (value : Json) : string :=
  match value with
  | Json.Null => "null"
  | Json.Bool b => if b then "true" else "false"
  | Json.Number n => pretty n
  | Json.String s => s
  | Json.Array items => "[" +:+ String.concat "," (map json_text items) +:+ "]"
  | Json.Object fields =>
      "{" +:+ String.concat "," (map (fun field => field.1 +:+ ":" +:+ json_text field.2) fields)
      +:+ "}"
  end.

#[global] Instance runtime_json : SerdeJson := {|
  json_to_string := fun value => Ok (json_text value);
  json_from_str := fun text => Ok (Json.String text);
|}.

Definition action_text (action : ActionSpec) : string :=
  match action with
  | ActionSpec.LockVault name => "lock_vault " +:+ name
  | ActionSpec.UnlockVault name => "unlock_vault " +:+ name
  | ActionSpec.SetMode mode => "set_mode " +:+ mode
  | _ => "other"
  end.

Definition fixture_sensors : SensorHost := {|
  sensor_watcher := mkWatchHost (Ok tt) (Ok tt) (fun _ _ => Ok tt);
  sensor_device := fun _ => Ok tt; sensor_stream := fun _ => Ok tt;
  sensor_current_exe := Ok tt;
|}.

#[global] Instance fixture_runtime_env : RuntimeEnv := {|
  package_version := "0.1.0";
  event_json := fun event => Ok (Json.String (event_id event));
  action_json := fun action => Ok (Json.String (action_text action));
  action_bytes := fun action => Ok (action_text action);
  outcome_json := fun outcome => Ok (Json.String (outcome_message outcome));
  snapshot_json := fun snapshot => Ok (Json.String (snap_mode snapshot));
  rules_json := fun rules => Ok (Json.Array (map (fun r => Json.String (rule_id r)) rules));
  records_json := fun records => Ok (Json.Number (Z.of_nat (length records)));
  uuid_new := fun n => pretty (Z.of_nat n);
  config_files := fun _ => fixture_files;
  sensor_host := fun _ => fixture_sensors;
|}.

Definition config_path : PathBuf := "/etc/kovert/config.toml".

Definition new_runtime (db : Db) : Outcome Runtime * Db :=
  Runtime_new config_path false fixture_config 100 [] 0 db.

Definition fixture_runtime : Runtime :=
  mkRuntime config_path false fixture_config fixture_engine (executor_for fixture_config)
    (mkDb (mkTables [] 0 ∅ ∅) 2) 100 [] [] [].

Lemma new_runtime_eq : new_runtime empty_db = (Return fixture_runtime, mkDb (mkTables [] 0 ∅ ∅) 2).
Proof. vm_compute. reflexivity. Qed.

Definition fixture_inputs : list Input :=
  [EventInput (debugger_event "e0" 1); ControlInput Request.Status;
   ControlInput (Request.SetMode "normal"); EventInput (lid_event "e1" 2 true);
   ControlInput (Request.Trigger "drill"); ControlInput Request.VerifyAudit].

Definition after (inputs : list Input) : Runtime := (run_inputs inputs fixture_runtime).2.

Lemma fixture_no_reload : Forall (input_allowed not_reload) fixture_inputs.
Proof. unfold fixture_inputs. repeat constructor; done. Qed.

Lemma fixture_store_ok : db_ok (rt_audit fixture_runtime).
Proof. exact empty_db_ok. Qed.

Lemma fixture_fault_free : fault_free.
Proof. by intros ?. Qed.

(** ** Instances *)
Lemma run_audit_intact_witness :
  db_ok (rt_audit (run fixture_inputs fixture_runtime).2)
  /\ length (t_audit (db_tables (rt_audit (run fixture_inputs fixture_runtime).2))) = 12%nat.
Proof.
  split; [|vm_compute; reflexivity].
  apply run_audit_intact; [vm_compute; split; [discriminate|reflexivity]|exact fixture_store_ok].
Defined.

Definition lock_plan : ActionPlan :=
  mkActionPlan "debugger" 10 "e0" (ActionSpec.LockVault "documents").

Definition first_turn : Runtime := after [EventInput (debugger_event "e0" 1)].

Lemma completed_action_not_repeated_witness :
  let rt' := (run_inputs fixture_inputs first_turn).2 in
  rt_host (execute_plan (debugger_event "e0" 1) lock_plan rt').2 = rt_host rt'.
Proof.
  destruct (ledger_of first_turn !! ("e0", "debugger", "lock_vault documents")) as [row|] eqn:Hr;
    [|vm_compute in Hr; discriminate].
  apply (completed_action_not_repeated fixture_inputs first_turn (debugger_event "e0" 1) lock_plan
           "lock_vault documents" row); [vm_compute; reflexivity|exact Hr|].
  vm_compute in Hr. by injection Hr as <-.
Defined.

Lemma run_confined_witness :
  exists new, rt_host (run fixture_inputs fixture_runtime).2 = [] ++ new
    /\ Forall (rule_call (engine_rules fixture_engine) (executor_for fixture_config)) new.
Proof. exact (run_confined fixture_inputs fixture_runtime fixture_no_reload). Defined.

Definition dry_runtime : Runtime :=
  set_executor (mkExecutionContext true (secs 10) ∅ ∅ [documents_vault; archive_vault] false)
    fixture_runtime.

Lemma dry_run_inert_witness : rt_host (run fixture_inputs dry_runtime).2 = [].
Proof. exact (dry_run_inert fixture_inputs dry_runtime fixture_no_reload eq_refl). Defined.

Lemma execute_plan_write_ahead_witness :
  recorded_before (debugger_event "e0" 1) lock_plan 100 (rt_audit fixture_runtime).
Proof.
  apply (execute_plan_write_ahead (debugger_event "e0" 1) lock_plan fixture_runtime).
  vm_compute. discriminate.
Defined.

Lemma process_event_write_ahead_witness :
  exists value record db, event_json (debugger_event "e0" 1) = Ok value
    /\ append 100 (Some "e0") "event" None value (rt_audit fixture_runtime) = (Return record, db).
Proof.
  apply (process_event_write_ahead (debugger_event "e0" 1) fixture_runtime).
  right. vm_compute. discriminate.
Defined.

Definition recovered : Runtime := (handle_control (Request.Recovery true) fixture_runtime).2.

Lemma recovery_survives_restart_witness :
  engine_recovery_mode (rt_engine (run_inputs fixture_inputs recovered).2) = true
  /\ exists rt3 db, new_runtime (rt_audit (run_inputs fixture_inputs recovered).2) = (Return rt3, db)
                    /\ engine_recovery_mode (rt_engine rt3) = true.
Proof.
  destruct (handle_control (Request.Recovery true) fixture_runtime) as [[response|e|] rt1] eqn:Hc;
    [|vm_compute in Hc; discriminate..].
  assert (recovered = rt1) as -> by (unfold recovered; by rewrite Hc).
  apply (recovery_survives_restart true fixture_runtime response rt1 fixture_inputs);
    [exact Hc| |unfold fixture_inputs; repeat constructor|exact fixture_fault_free].
  vm_compute in Hc. by injection Hc as <- _.
Defined.

Definition locked_down : Runtime := (handle_control (Request.SetMode "lockdown") fixture_runtime).2.
Definition quiet_inputs : list Input :=
  [EventInput (lid_event "e1" 2 true); ControlInput Request.Reload; ControlInput Request.Status].

Lemma mode_survives_restart_witness :
  exists rt3 db, new_runtime (rt_audit (run_inputs quiet_inputs locked_down).2) = (Return rt3, db)
                 /\ snap_mode (engine_snapshot (rt_engine rt3)) = "lockdown".
Proof.
  assert (snap_mode (engine_snapshot (rt_engine (run_inputs quiet_inputs locked_down).2))
          = "lockdown") as Hmode by (vm_compute; reflexivity).
  destruct (handle_control (Request.SetMode "lockdown") fixture_runtime)
    as [[response|e|] rt1] eqn:Hc; [|vm_compute in Hc; discriminate..].
  assert (locked_down = rt1) as Hrt by (unfold locked_down; by rewrite Hc).
  rewrite Hrt in *. rewrite <- Hmode.
  apply (mode_survives_restart "lockdown" fixture_runtime response rt1 quiet_inputs);
    [exact Hc| |exact fixture_fault_free|].
  - vm_compute in Hc. by injection Hc as <- _.
  - rewrite Hmode. vm_compute. reflexivity.
Defined.

Lemma daemon_never_panics_witness : (run fixture_inputs fixture_runtime).1 <> Panic.
Proof.
  apply (daemon_never_panics config_path false fixture_config 100 [] 0 empty_db fixture_runtime
           (mkDb (mkTables [] 0 ∅ ∅) 2)).
  - exact fixture_config_ok.
  - split; intros x; eexists; reflexivity.
  - exact fixture_times_ok.
  - exact new_runtime_eq.
  - exact fixture_no_reload.
Defined.

Lemma validated_hotkeys_start_witness :
  let (handles, failures) := start_hotkeys fixture_sensors [panic_hotkey] in
  Forall2 hotkey_handle [panic_hotkey] handles /\ failures = [].
Proof.
  exact (validated_hotkeys_start fixture_config fixture_sensors fixture_config_ok
           (fun _ _ => conj eq_refl eq_refl)).
Defined.

(** A rule that unlocks a vault without a key description is valid. *)
Definition unlock_rule : Rule := {|
  rule_id := "unlock"; rule_description := EmptyString; rule_enabled := true; rule_priority := 1;
  rule_cooldown := 0; rule_sustain_for := 0; rule_once_per_boot := false;
  rule_on_sensor_failure := SensorFailurePolicy.Ignore;
  rule_trigger := TriggerSpec.Hotkey "panic"; rule_when := None;
  rule_actions := [ActionSpec.UnlockVault "archive"; ActionSpec.UnlockVault "documents"];
|}.

Lemma accepted_actions_reach_host_witness :
  refused (executor_for (config_with [unlock_rule])) (ActionSpec.UnlockVault "archive")
    (hotkey_event "e0" 1) []
  /\ ~ refused (executor_for (config_with [unlock_rule])) (ActionSpec.UnlockVault "documents")
        (hotkey_event "e0" 1) [].
Proof.
  assert (validate_config (config_with [unlock_rule]) = inl tt) as Hv by (vm_compute; reflexivity).
  assert (unlock_rule ∈ config_rules (config_with [unlock_rule])) as Hr by left.
  split.
  - apply (accepted_actions_reach_host _ _ _ (hotkey_event "e0" 1) [] Hv Hr); [left|reflexivity|].
    exists archive_vault. split; [reflexivity|]. split; [right; left|reflexivity].
  - intros Hk. apply (accepted_actions_reach_host _ _ _ (hotkey_event "e0" 1) [] Hv Hr) in Hk
      as (vault & Heq & Hin & Hnone); [|right; left|reflexivity].
    apply elem_of_cons in Hin as [->|Hin%list_elem_of_singleton]; [discriminate Hnone|].
    subst vault. discriminate Heq.
Defined.
