(* ===== verification/ServedFixtures.v ===== *)
(** * A concrete served daemon

    The daemon of [RuntimeFixtures] from its setup to a served request, a
    client, and the theorems about them instantiated there. *)

From stdpp Require Import base tactics option list strings gmap pretty.
From Stdlib Require Import ZArith Lia Ascii.
From S2P Require Import Prelude RustStr RustPath Utf8 Text Config Event Matching Engine Validation.
From S2P Require Import ValidationSpec Effects Json AuditBytes AuditStore AuditFixtures AuditProps Host.
From S2P Require Import Command Vault Evidence Actions Ipc ConfigLoader SensorHub Setup SetupProps.
From S2P Require Import Runtime Server ServerProps Cli CliProps RuntimeProps RuntimeSafety Integration.
From S2P Require Import Startup Fixtures ConfigFixtures HostFixtures RuntimeFixtures.
Local Open Scope Z_scope.
Local Open Scope stdpp_scope.

(** A stale socket is in the way, and there is no database yet. *)
Definition stale_socket : Metadata := {|
  meta_is_file := false; meta_is_dir := false; meta_is_symlink := false; meta_is_socket := true;
  meta_uid := 0; meta_mode := 432; meta_len := 0; meta_readonly := false; meta_modified := None;
|}.

#[global] Instance fixture_setup : SetupHost := {|
  setup_tracing := fun _ _ => Ok tt;
  setup_make_dirs := fun _ _ => Ok tt;
  setup_lstat := fun _ path =>
    if eqb path default_socket_path then Found stale_socket
    else if eqb path default_state_path then NotFound "No such file or directory"
    else Found HostFixtures.root_directory;
  setup_create := fun _ _ _ => Ok tt;
  setup_open := fun _ _ => Ok (mkTables [] 0 ∅ ∅);
  setup_pragma := fun _ _ _ => Ok tt;
  setup_exists := fun _ path => eqb path default_state_path;
  setup_permissions := fun _ _ _ => Ok tt;
  setup_tables := fun _ => Ok tt;
  setup_remove := fun _ _ => Ok tt;
  setup_bind := fun _ _ => Ok tt;
  setup_group := fun _ _ => Ok (Some 990);
  setup_chown := fun _ _ _ => Ok tt;
  setup_euid := 0;
|}.

Definition fixture_arguments : Arguments := mkArguments config_path false false.

Lemma boot_guarded_witness :
  let (outcome, calls) := boot fixture_arguments fixture_files fixture_sensors 0 [] in
  (exists rt sent, outcome = Return (rt, sent)
     /\ socket_shared default_socket_path "kovert" calls)
  /\ forall before c after, calls = before ++ c :: after -> setup_permits before c.
Proof.
  pose proof (boot_guarded fixture_arguments fixture_files fixture_sensors 0 eq_refl) as Hb.
  destruct (boot fixture_arguments fixture_files fixture_sensors 0 []) as [outcome calls] eqn:Ho.
  destruct Hb as [Hp Hr]. split; [|exact Hp].
  destruct outcome as [[rt sent]|e|]; [|vm_compute in Ho; discriminate..].
  exists rt, sent. split; [reflexivity|]. destruct (Hr rt sent eq_refl) as [Hs Hsock].
  assert (rt_config rt = fixture_config) as Hc by (vm_compute in Ho; by injection Ho as <- _ _).
  rewrite Hc in Hsock. exact Hsock.
Defined.

(** ** A served request *)
Definition started_runtime : Runtime :=
  match startup fixture_arguments fixture_files fixture_sensors 0 [] with
  | (Return (rt, _), _) => rt
  | _ => fixture_runtime
  end.
Definition announced : Runtime := (announce started_runtime).2.

Definition answer_of (request : Request) (rt : Runtime) : Response :=
  match handle_control request rt with (Return response, _) => response | _ => error EmptyString end.
Definition status_answer : Response := answer_of Request.Status announced.

(** The messages of one exchange. *)
#[global] Instance fixture_ipc : IpcSerde := {|
  envelope_to_vec := fun envelope =>
    match envelope_request envelope with
    | Request.Status => Ok "status" | _ => Err "not encoded"
    end;
  envelope_from_slice := fun bytes =>
    if eqb bytes "status" then Ok (RequestEnvelope_new Request.Status) else Err "not JSON";
  response_to_vec := fun response => Ok (response_message response);
  response_from_slice := fun bytes =>
    if eqb bytes ("Kovert is running" +:+ newline) then Ok status_answer else Err "not JSON";
|}.

Definition queue_labels : list Label :=
  [Accept 0; Receive 0 "status"; Sense (lid_event "e1" 2 true); Enqueue 0 Request.Status].
Definition drain_labels : list Label :=
  [RunControl 0 Request.Status status_answer; RunEvent (lid_event "e1" 2 true);
   Reply 0 status_answer].
Definition served_labels : list Label := queue_labels ++ drain_labels.

Definition after_status : Runtime := (run_input (ControlInput Request.Status) announced).2.
Definition after_event : Runtime :=
  (run_input (EventInput (lid_event "e1" 2 true)) after_status).2.
Definition queued_daemon : Daemon :=
  mkDaemon announced [lid_event "e1" 2 true] [(0%nat, Request.Status)] {[0%nat := Waiting]} 1 false.
Definition served_daemon : Daemon := mkDaemon after_event [] [] ∅ 1 false.

Lemma queue_steps : steps 16 (Daemon_new announced) queue_labels queued_daemon.
Proof.
  set (e := lid_event "e1" 2 true).
  set (d1 := mkDaemon announced [] [] {[0%nat := Reading]} 1 false).
  set (d2 := mkDaemon announced [] [] {[0%nat := Sending Request.Status]} 1 false).
  set (d3 := mkDaemon announced [e] [] {[0%nat := Sending Request.Status]} 1 false).
  assert (steps 16 (Daemon_new announced) (take 1 queue_labels) d1) as H1.
  { apply (steps_snoc _ _ [] (Daemon_new announced)); [constructor|].
    apply (step_accept 16 announced [] [] ∅ 0). rewrite map_size_empty. unfold MAX_CLIENTS. lia. }
  assert (steps 16 (Daemon_new announced) (take 2 queue_labels) d2) as H2.
  { apply (steps_snoc _ _ _ _ (Receive 0 "status") d2 H1). unfold d2.
    assert ({[0%nat := Sending Request.Status]}
            = decided (decide_request "status") 0 {[0%nat := Reading]}) as ->
      by (vm_compute; reflexivity).
    apply (step_receive 16 announced [] [] {[0%nat := Reading]} 1 0 "status"). reflexivity. }
  assert (steps 16 (Daemon_new announced) (take 3 queue_labels) d3) as H3.
  { apply (steps_snoc _ _ _ _ (Sense e) d3 H2), (step_sense 16 announced []). cbn. lia. }
  apply (steps_snoc _ _ _ _ (Enqueue 0 Request.Status) queued_daemon H3). unfold queued_daemon.
  rewrite <- (insert_singleton_eq 0%nat Waiting (Sending Request.Status)).
  apply (step_enqueue 16 announced [e] [] {[0%nat := Sending Request.Status]} 1 0);
    [reflexivity|cbn; unfold CONTROL_BUFFER; lia].
Qed.

Lemma drain_steps : steps 16 queued_daemon drain_labels served_daemon.
Proof.
  set (e := lid_event "e1" 2 true).
  set (d5 := mkDaemon after_status [e] [] {[0%nat := Replying status_answer]} 1 false).
  set (d6 := mkDaemon after_event [] [] {[0%nat := Replying status_answer]} 1 false).
  assert (steps 16 queued_daemon (take 1 drain_labels) d5) as H5.
  { apply (steps_snoc _ _ [] queued_daemon); [constructor|]. unfold d5.
    assert ({[0%nat := Replying status_answer]} = answer 0 status_answer {[0%nat := Waiting]}) as ->
      by (unfold answer; by rewrite lookup_singleton_eq, insert_singleton_eq).
    apply (step_control 16 announced after_status 0 Request.Status status_answer [e] []
             {[0%nat := Waiting]} 1). vm_compute. reflexivity. }
  assert (steps 16 queued_daemon (take 2 drain_labels) d6) as H6.
  { apply (steps_snoc _ _ _ _ (RunEvent e) d6 H5), (step_event 16 after_status after_event e).
    vm_compute. reflexivity. }
  apply (steps_snoc _ _ _ _ (Reply 0 status_answer) served_daemon H6). unfold served_daemon.
  rewrite <- (delete_singleton_eq 0%nat (Replying status_answer)).
  apply (step_reply 16 after_event [] [] {[0%nat := Replying status_answer]} 1 0). reflexivity.
Qed.

Lemma served_steps : steps 16 (Daemon_new announced) served_labels served_daemon.
Proof. exact (steps_app _ _ _ _ _ _ queue_steps drain_steps). Qed.

Lemma served_reply : Reply 0 status_answer ∈ served_labels.
Proof. unfold served_labels, queue_labels, drain_labels. set_solver. Qed.

Lemma daemon_refines_run_witness :
  run_inputs [ControlInput Request.Status; EventInput (lid_event "e1" 2 true)] announced
  = (Return [Some status_answer; None], after_event).
Proof.
  destruct (daemon_refines_run 16 announced served_labels served_daemon served_steps) as [Hr _].
  exact Hr.
Defined.

Lemma served_bounded_witness : (length (dm_controls served_daemon) <= 64)%nat.
Proof. apply (served_bounded 16 announced served_labels served_daemon served_steps). Defined.

Lemma responses_answer_requests_witness :
  exists sent, (forall other, Receive 0 other ∈ served_labels <-> other = sent)
    /\ (decide_request sent = Refuse status_answer
        \/ exists request, decide_request sent = Serve request
             /\ RunControl 0 request status_answer ∈ served_labels).
Proof.
  apply (responses_answer_requests 16 announced served_labels served_daemon 0 status_answer
           served_steps served_reply).
Defined.

Lemma internal_runs_bounded_witness : (length drain_labels <= 4 * 64 + 64 + 16)%nat.
Proof.
  apply (internal_runs_bounded 16 announced queue_labels queued_daemon drain_labels served_daemon
           queue_steps drain_steps). repeat constructor.
Defined.

Lemma rest_answers_requests_witness :
  idle served_daemon
  /\ (Drop 0 ∈ served_labels
      \/ exists response, RunControl 0 Request.Status response ∈ served_labels
                          /\ Reply 0 response ∈ served_labels).
Proof.
  apply (rest_answers_requests 16 announced served_labels served_daemon 0 "status" Request.Status
           served_steps eq_refl).
  - apply empty_at_rest.
  - unfold served_labels, queue_labels. set_solver.
  - vm_compute. reflexivity.
Defined.

(** ** The started daemon *)
Lemma started_daemon_safe_witness :
  dm_panicked served_daemon = false
  /\ (audit_verify_on_start (config_audit (rt_config started_runtime)) = true ->
      0 <= audit_max_records (config_audit (rt_config started_runtime)) < 2 ^ 63 ->
      db_ok (rt_audit (dm_runtime served_daemon))).
Proof.
  assert (announce started_runtime = (Return tt, announced)) as Ha by (vm_compute; reflexivity).
  destruct (startup fixture_arguments fixture_files fixture_sensors 0 []) as [[[rt sent]|e|] calls]
    eqn:Hs; [|vm_compute in Hs; discriminate..].
  assert (started_runtime = rt) as Hrt by (unfold started_runtime; by rewrite Hs).
  rewrite Hrt in *.
  apply (started_daemon_safe fixture_arguments fixture_files fixture_sensors 0 [] rt sent calls
           announced 16 served_labels).
  - split; intros x; eexists; reflexivity.
  - exact fixture_times_ok.
  - intros h path t [= <-]. split; constructor.
  - reflexivity.
  - exact Hs.
  - exact Ha.
  - exact served_steps.
  - repeat constructor. discriminate.
Defined.

(** ** A client of it *)
#[global] Instance fixture_cli : CliEnv := {|
  cli_read_file := fun _ => Ok "fixture";
  cli_read_stdin := Err "closed";
  event_from_str := fun _ => Err "not JSON";
  json_display := json_text;
  json_pretty := fun value => Ok (json_text value);
  response_pretty := fun response => Ok (response_message response);
  peer_connect := fun _ => Ok tt;
  peer_write := fun _ _ => Ok tt;
  peer_shutdown := fun _ => Ok tt;
  peer_read := fun _ _ => Ok ("Kovert is running" +:+ newline);
  peer_timeout := fun _ => false;
|}.

Lemma client_gets_its_answer_witness :
  send_inner 0 default_socket_path Request.Status = Ok status_answer
  /\ (RunControl 0 Request.Status status_answer ∈ served_labels).
Proof.
  apply (client_gets_its_answer 16 announced served_labels served_daemon 0 0 default_socket_path
           Request.Status "status" status_answer ("Kovert is running" +:+ newline) served_steps).
  - unfold served_labels, queue_labels. set_solver.
  - exact served_reply.
  - repeat split.
  - split; reflexivity.
  - vm_compute. discriminate.
  - split; vm_compute; reflexivity.
  - vm_compute. discriminate.
Defined.

Lemma shell_understands_commands_witness :
  exists request, request_from_command (CliCommand.Audit 20) = Ok request
    /\ interpret (split_whitespace "audit 20") = Ask request.
Proof.
  apply (shell_understands_commands (CliCommand.Audit 20) ["audit"; "20"]); [reflexivity|].
  vm_compute. split; discriminate.
Defined.

Lemma validate_agrees_with_load_witness :
  (validate config_path false (mkConsole [] [])).1 = Return tt.
Proof.
  assert (cli_read_file config_path = files_read fixture_files config_path) as Hr by reflexivity.
  apply (validate_agrees_with_load fixture_files config_path false (mkConsole [] []) Hr).
  exists fixture_config. vm_compute. reflexivity.
Defined.

Definition shell_lines : list (Result string) :=
  [Ok "status"; Ok "  "; Ok "recovery maybe"; Ok "audit ten"; Ok "trigger"; Ok "reload"].

Lemma shell_runs_its_lines_witness :
  exists written,
    repl default_socket_path false shell_lines (mkConsole [] [])
    = (Throw "missing trigger name", mkConsole written [Request.Status; Request.Audit 50]).
Proof.
  apply (shell_runs_its_lines default_socket_path false shell_lines (mkConsole [] [])).
  split; intros x; eexists; reflexivity.
Defined.

(** A command without its argument ends the shell with an error, where another
    mistake in a line only draws a complaint: the lines after it are lost. *)
Theorem shell_abandoned_by_missing_argument :
  (repl default_socket_path false [Ok "mode"; Ok "status"] (mkConsole [] [])).1
  = Throw "missing mode name"
  /\ con_sent (repl default_socket_path false [Ok "mode"; Ok "status"] (mkConsole [] [])).2 = []
  /\ con_sent (repl default_socket_path false [Ok "recovery maybe"; Ok "status"]
                 (mkConsole [] [])).2 = [Request.Status].
Proof. vm_compute. done. Qed.
